(* ===== verification/_CoqProject ===== *)
-Q . S2P
Prelude.v
Bytes.v
Text.v
ActorId.v
Mailbox.v
MailboxConc.v
Message.v
MessageRef.v
CApi.v
Locks.v
LinkedQueue.v
WorkSteal.v
WorkStealConc.v
Strategy.v
Stream.v
Gateway.v
Link.v
Actor.v
Module.v
ActorExit.v
LoadBalancer.v
Dispatcher.v
NodeManager.v
Options.v
Timer.v
KvHash.v
KvStore.v
KvQueue.v
KvDriver.v
StrongActor.v
ZkLock.v
ZkEngine.v
ZkRegistry.v
ZkEvents.v
Membership.v
SyncLock.v
Connection.v
Multiplexer.v
LocalNode.v
Peers.v
EpollWait.v
EpollLoop.v
Client.v
ClientSend.v
ClientApi.v
ConsistentHash.v
Runtime.v
SchedSleep.v
LockApi.v
Loader.v
Future.v
Samples.v
NetApi.v
