(* ===== verification/Prelude.v ===== *)
(** * MOLA runtime: a verification development

    MOLA is a C++11 actor runtime.  A process (moloader) is a node of a cluster;
    it loads modules, whose callbacks run in actors.  A message is delivered to
    the mailbox of an actor; the first message to an idle actor puts the actor on
    the work-stealing scheduler; a worker thread then runs the actor's schedule
    loop, which invokes the module's callbacks.  A callback answers by returning a
    message or sends requests of its own, which save the context of the message
    in hand until the reply comes.  The dispatcher decides where a message goes: to
    a module of this process, or over a stream handler to the gateway of another
    node, whose address comes from the node manager's tables.

    ** Files and the code they model

    - Prelude.v (this file): outcomes with their monad, machine-width
      arithmetic, counting in lists of lists and in maps, and the tactics and
      hints of the development.
    - Bytes.v, Text.v: byte order and the number and word formatting of the
      standard library, as far as the sources use them.
    - ActorId.v: include/mola/actor_id.hpp, src/actor_id.cpp, src/actor.cpp and
      the id macros of include/mola/c/mola_message.h.
    - Mailbox.v, MailboxConc.v: include/mola/mailbox.hpp.  [store] is the shared
      word, the private queues and the heap of link nodes; [enq_step],
      [deq_step], [try_block_step] and [close_step] are the atomic accesses.  Mailbox.v runs an
      operation alone and proves that it implements the abstract priority mailbox;
      MailboxConc.v interleaves any number of producers with the consumer.
    - Message.v, MessageRef.v: src/message.cpp, include/mola/message.hpp,
      include/mola/c/mola_refcnt.h and mola_message.h.  [mem] holds the bodies,
      wrappers and buffers; MessageRef.v has the programs that use them.
    - CApi.v: the calls of include/mola/runtime.h by which modules allocate, copy and
      convert messages, on top of MessageRef.v.
    - Locks.v: include/mola/spinlock.hpp (Modules SpinLock and AsyncLock) and
      the locked queue of include/mola/queue.hpp (Module SafeQueue).
    - LinkedQueue.v: the ConcurrentLinkedQueue of include/mola/queue.hpp, a
      global run queue.
    - WorkSteal.v, WorkStealConc.v: the LockFreeStrategy of
      include/mola/work_steal.hpp, alone and with thieves.
    - Strategy.v: class WorkStealStrategy of that file as a template method.  The
      class [SchedQueues] is its virtual functions, [SchedQueuesLaws] what it
      relies on, [TaskQueue] the queues below; SimpleStrategy and both variants of
      LockFreeStrategy are instances.
    - SchedSleep.v: wakeup and the sleeping workers of WorkStealStrategy, every
      interleaving.
    - Stream.v: include/mola/event_handler.hpp, the buffered reader and writer
      of a socket.  The class [StreamManager] is the interface between the reader
      and the protocols.
    - Gateway.v: its instances, the receivers of include/mola/gateway.hpp and
      src/network.cpp, and what a node writes to its peer.
    - Link.v: two nodes end to end, Node::deliver_message of src/node_manager.cpp on top
      of Message.v, Stream.v and Gateway.v.
    - Actor.v: include/mola/actor.hpp, the schedule loop and the request and
      gather contexts.
    - Module.v: src/module.cpp, configuration, instances, invoke_message.
    - ActorExit.v: Module::dispatch and the exit of actors, senders interleaved.
    - LoadBalancer.v: include/mola/load_balancer.hpp.
    - Dispatcher.v: src/dispatcher.cpp, messages, requests, scatters and replies, with
      ScatterGroup of src/message.cpp.
    - NodeManager.v: src/node_manager.cpp and what src/zookeeper.cpp does for it
      (Modules Node, Cache, DelayPool and ModuleIds).
    - Options.v: src/options.cpp.
    - Timer.v: the class Timer of include/mola/scheduler.hpp.
    - Runtime.v: how they work together, Worker::run of
      include/mola/scheduler.hpp with Actor::deliver_message and Actor::execute;
      any number of senders, workers and actors.
    - LockApi.v: Lock, UnLock and Subscribe of src/dispatcher.cpp on a single node
      (include/mola/singleton.hpp), on top of Locks.v, Actor.v and NodeManager.v.
    - StrongActor.v: include/mola/strong_actor.hpp, actors whose callbacks run on
      fibers and wait for replies, with the synchronous calls and the events of
      src/dispatcher.cpp.
    - ZkLock.v: the distributed lock of src/zookeeper.cpp; the class [ZkDir] is
      what it uses of the zookeeper service, [ZkDirLaws] what it relies on.
    - ZkEngine.v: the paths, node ids and watch events of src/zookeeper.cpp.
    - ZkRegistry.v, ZkEvents.v, Membership.v: the rest of src/zookeeper.cpp over
      classes of services with laws ([ZkTree], [ZkSeq]): connect and the module ids;
      publish_event, subscribe_event and their watches; join, leave and
      sync_all_nodes, on top of NodeManager.v and ZkEngine.v.
    - SyncLock.v: the synchronous NodeManager::lock of
      include/mola/node_manager.hpp, two threads.
    - LocalNode.v: create_local_node of src/node_manager.cpp with the choice of the
      host's address, Gateway::initialize, and the registration of modules in the record.
    - Peers.v: who owns nodes, clients and stream handlers (gateway.hpp, connection.hpp,
      event_handler.hpp, src/node_manager.cpp), which of them the epoll thread points to,
      and what happens when a peer is down; on top of Connection.v and Multiplexer.v.
    - Loader.v: tools/moloader.cpp and tools/mochecker.cpp, with
      Module::dynload_module and the threads that src/scheduler.cpp makes; on top of
      Options.v, Module.v and ZkRegistry.v.
    - Future.v: include/mola/c/mola_future.h.
    - NetApi.v: the C calls of src/network.cpp and the packages they hand to actors.
    - Connection.v: include/mola/connection.hpp, address syntax and the life of
      sockets.
    - Multiplexer.v: src/multiplexer.cpp, the loops over epoll and poll (Modules
      Epoll and Poll).
    - EpollWait.v: the table of pollers (Module Backends) and the wait of a poller that has
      no handlers (Module Wait), with the threads that add them.
    - EpollLoop.v: the loop over epoll running its two kinds of handlers,
      src/event_handler.cpp and event_handler.hpp, over sockets that the network fills; on
      top of Multiplexer.v and Stream.v.
    - Client.v, ClientSend.v: src/client.cpp, what a client receives and what it
      sends; the sending side is proved on top of NodeManager.v and
      LoadBalancer.v.
    - ClientApi.v: the C calls of the client library and the table of connections, on
      top of ClientSend.v.
    - ConsistentHash.v: include/mola/consistent_hashing.hpp.
    - KvHash.v, KvStore.v, KvQueue.v, KvDriver.v: the key-value store of KV-Store, an
      application of the runtime: its hash function, its table on a heap of buffers, its
      parser, its queue, and the framing by its driver, an instance of the protocols of
      Gateway.v.
    - Samples.v: some of the modules under modules/.

    ** How the code is modelled

    A function of the source is a function on explicit state.  A failed
    MOLA_ASSERT and an access through a dangling pointer are values of [fault].
    Lock-free code is a machine: its program counter is the point of the loop a
    thread has reached with the values it has loaded, a step is one access to
    shared memory, and the steps of the threads interleave freely.  Memory is
    sequentially consistent in these models.  Integers whose wrap-around matters
    are a [Z] reduced modulo their width.

    What is not code of the repository is an argument: the callbacks of a module
    and of a message type (pack, unpack, copy), what a socket accepts or returns,
    the random seed, what the cluster registry answers, whether a remote node can
    be connected, the results of the socket calls, the code of a callback on a
    fiber (a tree of what it does and waits for).  The zookeeper service is a
    class with laws and an instance; a session does not expire in the model.
    Theorems that need something of such an argument state it as a hypothesis.

    ** What the theorems show

    - Mailbox: no interleaving touches a freed node, as long as the consumer leaves the
      mailbox alone once it closed it; where it does not, and what close itself frees
      wrongly, is described exactly; messages of one priority
      arrive in the order of their compare-and-swaps; a blocked mailbox holds no
      message, and each blocking is answered by exactly one rescheduling.
    - Messages: every counter equals the number of owners, so that no program of
      the API uses freed memory or leaks; packing round-trips between hosts of any
      byte order; a copy made for writing is private.
    - Run queues: the linked queue is FIFO, safe, and a lone dequeue ends; the
      rings hand out every task exactly once although counters wrap; the scheduler
      loses no task when it moves work between rings and the global queue, whichever
      strategy it runs; never do all workers sleep, and a task that is there is taken.
    - Streams: what is received does not depend on how the bytes are cut;
      what is sent arrives in order; gateway messages round-trip.  End to end, what one
      node sends from its memory is what the other unpacks.
    - Actors, modules and dispatcher: the schedule loop while messages arrive, unique request ids,
      routing of the last reply of a chain to its initiator, scatter and gather
      counts, failed scatters, the fate of messages to missing modules.
    - Runtime: an actor that was not started automatically is run by one worker at a time,
      no such actor with a message is
      forgotten, and the workers get everything done in a bounded number of
      steps.  Strong actors implement a specification in which each callback is an
      activity of its own.  Locks for actors are exclusive and answered once.
    - Zookeeper: the distributed lock is exclusive for any number of processes; the
      registry of modules answers as one table would; a node that joins replaces
      its dead predecessor and nothing else; who subscribes to an event that exists
      hears of it.
    - Loader: modules are registered under the lock, which is given back whenever it was
      granted; auto-started modules get their instances or stop the loader; the
      calls of main come in the order that they rely on; every thread has a queue.
    - Futures reply once; packages of the network module are freed once.
    - Network: sockets are neither leaked nor closed twice, the edge-triggered loop
      forgets no input unless accept runs out of descriptors, addresses round-trip.  The objects of a connection are freed once
      and not used afterwards, in the histories that [Peers.permitted] describes; the
      theorems beside it say what happens in the others.
    - Client: messages of a module are received in order, none is lost, messages that
      had to wait are sent once unless a node refuses the connection, a connection begins with its handshake.
    - Key-value store and consistent hashing: the table implements a map, the hash is
      a function of the bytes of the key, what is set is what get answers; joining and
      leaving nodes move only the keys they must.
    - Node manager and options: cache coherence, round trips of the node record
      and of the configuration syntax, precedence of the command line.
    - Some theorems state what the code does where that differs from what it
      means to do: [Module.instances_never_reused],
      [NodeManager.DelayPool.hopeless_task_blocks], [Timer.timer_latest_first],
      [Message.swapped_stream_release_faults],
      [Dispatcher.remote_request_outcome], [Stream.empty_buffer_stalls],
      [Runtime.autostart_runs_twice], [StrongActor.fiber_exit_ignored],
      [StrongActor.current_fiber_dangles], [ZkLock.zk_lock_lost_wakeup],
      [ZkEngine.unlock_event_zone], [ZkEngine.node_found_iff_small],
      [Connection.parseip_edges], [Multiplexer.Poll.poller_del],
      [Client.other_module_unnoticed], [ClientSend.second_connection_misnamed],
      [ConsistentHash.colliding_node], [KvStore.long_value_shifted],
      [KvStore.reply_dangles], [ZkRegistry.connect_race],
      [ZkEvents.early_subscriber_deaf], [Membership.any_id_asserts],
      [SyncLock.sync_lock_spurious], [Loader.empty_item_faults],
      [Loader.start_all_twice], [Loader.so_name_accepts],
      [Peers.peer_down_outcome], [Peers.linked_client_freed_twice],
      [Peers.deleted_while_held], [Peers.closed_client_stuck],
      [EpollLoop.accept_failure_strands], [Loader.autostart_singleton_stops],
      [EpollWait.Wait.first_wakeup_lost], [ClientApi.client_send_leaks],
      [ClientApi.disconnected_client_found], [LocalNode.local_node_unreachable],
      [KvDriver.negative_header_overruns], [CApi.mola_alloc_dtor_ignored],
      [CApi.untyped_misuse], [ActorExit.exit_during_dispatch],
      [ActorExit.exit_forgets_another].

    ** Bounds and fuel

    Loops that are not structural take fuel, computed from the state by the
    operation itself or large enough by a hypothesis: the number of live nodes
    and five for the mailbox's dequeue, the messages in the mailbox and those that arrive, and one, for
    the schedule loop, the length of the input and one for the readers of node
    records, configuration lines and lists of modules, twelve accesses for a lone
    dequeue of the linked queue (seven, and five for an enqueue, when the tail does not
    lag behind; two turns for a lone first, the nodes of the heap for size), the number
    of retries for the wait of connect, the number of tasks for the timer, one entry of a fiber for a
    callback, the length of the key for the hash function, the waiting messages
    for the client's delayed sends.  The reader, the writer and
    the search for a victim recurse on what the environment gives them: the
    results of the reads and writes, the victims drawn.
    The theorems about these operations conclude that they return [Ok], so that the
    fuel is shown to be enough.  The concurrent models have no fuel: their
    executions are arbitrary finite sequences of steps.  The theorem
    about the rings is for the schedules in which no thread sleeps between its load of the head
    and its compare-and-swap while 2^32 tasks pass ([WorkStealConc.in_time]);
    [WorkStealConc.ring_aba] shows what happens otherwise.

    ** Not modelled

    - fiber.S, the context switch of a fiber: assembly.  A fiber is the rest of
      the code it has to run.
    - The loss of a zookeeper session, and disconnect, which only closes the handle.
    - What the operating system does for thread start-up, dlopen, logging and signal
      handling; the loader's own steps around them are in Loader.v.
    - The socket options.
    - include/mola/station.hpp and src/name_service.cpp: an unfinished copy of the
      actor that does not compile; nor do Module::create_instance without an argument and
      the location caches of src/module.cpp.  The caches of actors in actor.hpp and
      scheduler.cpp are not called.
    - The test programs, and what of the applications only prints or measures.
    - Weak memory: a few loads of the rings are relaxed and the spin lock uses
      acquire and release; the models are sequentially consistent. *)
From stdpp Require Import base list gmap numbers.
From Stdlib Require Import ZArith Lia.

#[global] Open Scope Z_scope.

(** ** Outcomes

    The runtime stops in two ways that are not a return value: a failed
    [MOLA_ASSERT] (include/mola/debug.hpp) prints a back trace and aborts, and
    reading through a pointer that designates no live object is undefined
    behaviour.  Both are values of [fault].  [OutOfFuel] is the value of a loop
    whose bound was too small; no theorem concludes with it unless it says
    that a loop of the source does not end. *)
Inductive fault : Type :=
| AssertFailed
| BadDeref
| Uncaught
| OutOfFuel.

Inductive outcome (A : Type) : Type :=
| Ok (a : A)
| Fault (f : fault).
Arguments Ok {A} a.
Arguments Fault {A} f.

#[global] Instance outcome_ret : MRet outcome := fun A a => Ok a.
#[global] Instance outcome_bind : MBind outcome :=
  fun A B k m => match m with Ok a => k a | Fault f => Fault f end.
#[global] Instance fault_eq_dec : EqDecision fault.
Proof. solve_decision. Defined.

(** [MOLA_ASSERT(b)] *)
Definition mola_assert (b : bool) : outcome unit :=
  if b then Ok tt else Fault AssertFailed.

(** A read through a pointer: the object must be live. *)
Definition deref {A} (o : option A) : outcome A :=
  match o with Some a => Ok a | None => Fault BadDeref end.

Lemma bind_ok {A B} (a : A) (k : A -> outcome B) : (Ok a ≫= k) = k a.
Proof. done. Qed.

Lemma bind_inv {A B} (m : outcome A) (k : A -> outcome B) (b : B) :
  m ≫= k = Ok b -> exists a, m = Ok a /\ k a = Ok b.
Proof. destruct m; [eauto | done]. Qed.

(** ** Machine integers: a w-bit unsigned integer is a [Z] reduced modulo 2^w *)
Definition wrap (w z : Z) : Z := z mod 2 ^ w.
Abbreviation u8 := (wrap 8).
Abbreviation u16 := (wrap 16).
Abbreviation u32 := (wrap 32).
Abbreviation u64 := (wrap 64).

Definition in_width (w z : Z) : Prop := 0 <= z < 2 ^ w.

Lemma wrap_range w z : 0 <= w -> in_width w (wrap w z).
Proof. intros; apply Z.mod_pos_bound; lia. Qed.

Lemma wrap_small w z : in_width w z -> wrap w z = z.
Proof. apply Z.mod_small. Qed.

Lemma wrap_idem w z : 0 <= w -> wrap w (wrap w z) = wrap w z.
Proof. intros; apply wrap_small, wrap_range; done. Qed.

Lemma wrap_add_l w a b : wrap w (wrap w a + b) = wrap w (a + b).
Proof. apply Zplus_mod_idemp_l. Qed.

Lemma wrap_add_r w a b : wrap w (a + wrap w b) = wrap w (a + b).
Proof. apply Zplus_mod_idemp_r. Qed.

Lemma wrap_sub_l w a b : wrap w (wrap w a - b) = wrap w (a - b).
Proof. apply Zminus_mod_idemp_l. Qed.

Lemma wrap_sub_r w a b : wrap w (a - wrap w b) = wrap w (a - b).
Proof. apply Zminus_mod_idemp_r. Qed.

Create HintDb mola.
#[export] Hint Resolve wrap_range wrap_small : mola.
Create Rewrite HintDb width.
#[export] Hint Rewrite wrap_idem wrap_add_l wrap_add_r wrap_sub_l wrap_sub_r
  using lia : width.

(** Goals and hypotheses about widths, as linear arithmetic. *)
Ltac width_norm :=
  unfold in_width in *;
  change (2 ^ 8) with 256 in *; change (2 ^ 16) with 65536 in *;
  change (2 ^ 32) with 4294967296 in *;
  change (2 ^ 64) with 18446744073709551616 in *.

Ltac width_lia := width_norm; lia.

(** The same with the quotients and remainders by constants spelled out. *)
Ltac wrap_lia :=
  unfold wrap in *; width_norm; Z.to_euclidean_division_equations; lia.

(** Run the outcome monad on hypotheses that say it returned. *)
Ltac inv_ok :=
  repeat match goal with
  | H : _ ≫= _ = Ok _ |- _ =>
      let a := fresh "r" in let E := fresh "E" in
      apply bind_inv in H as (a & E & H)
  | H : Ok _ = Ok _ |- _ => injection H as H; subst
  | H : mola_assert ?b = Ok _ |- _ =>
      let E := fresh "A" in
      destruct b eqn:E; [clear H | discriminate H]
  | H : deref ?o = Ok _ |- _ =>
      let E := fresh "D" in
      destruct o eqn:E; [injection H as H; subst | discriminate H]
  | H : Fault _ = Ok _ |- _ => discriminate H
  | H : mret _ = Ok _ |- _ => injection H as H; subst
  end.

(** ** Lists *)
Lemma sum_list_update (l : list nat) (i x y : nat) :
  l !! i = Some x ->
  (sum_list (<[i := y]> l) + x = sum_list l + y)%nat.
Proof.
  revert i; induction l as [|a l IH]; intros [|i] H; simplify_eq/=; [lia|].
  specialize (IH _ H). lia.
Qed.

Lemma sum_fmap_delete {A} (f : A -> nat) (l : list A) k x : l !! k = Some x ->
  sum_list (f <$> l) = (f x + sum_list (f <$> delete k l))%nat.
Proof.
  revert k; induction l as [|y l IH]; intros [|k] H; simplify_eq/=; [done|].
  rewrite (IH _ H). lia.
Qed.

Lemma sum_fmap_insert {A} (f : A -> nat) (l : list A) k x y : l !! k = Some x ->
  (sum_list (f <$> <[k := y]> l) + f x = sum_list (f <$> l) + f y)%nat.
Proof. intros H. rewrite list_fmap_insert. apply sum_list_update. by rewrite list_lookup_fmap, H. Qed.

Lemma sum_fmap_snoc {A} (f : A -> nat) (l : list A) x :
  sum_list (f <$> l ++ [x]) = (sum_list (f <$> l) + f x)%nat.
Proof. induction l as [|y l IH]; cbn in *; lia. Qed.

Lemma sum_list_perm (l l' : list nat) : l ≡ₚ l' -> sum_list l = sum_list l'.
Proof. induction 1; cbn; lia. Qed.

Lemma filter_none {A} (P : A -> Prop) `{!forall x, Decision (P x)} (l : list A) :
  Forall (fun x => ~ P x) l -> filter P l = [].
Proof. induction 1; [done|]. by rewrite filter_cons_False. Qed.

Lemma Forall_lookup_total_nil {A} (ls : list (list A)) (n : nat) :
  Forall (fun l => l = []) ls -> ls !!! n = [].
Proof.
  revert n; induction ls as [|l ls IH]; intros [|n] H; try done;
    inversion H; subst; simpl; auto.
Qed.

Lemma concat_insert_perm {A} (ls : list (list A)) (i : nat) (l l' : list A) :
  ls !! i = Some l -> concat (<[i := l']> ls) ++ l ≡ₚ concat ls ++ l'.
Proof.
  revert i; induction ls as [|a ls IH]; intros [|i] H; simplify_eq/=.
  - solve_Permutation.
  - rewrite <- !app_assoc. apply Permutation_app_head. auto.
Qed.

Lemma concat_cons_perm {A} (ls : list (list A)) (i : nat) (x : A) (l : list A) :
  ls !! i = Some l -> concat (<[i := x :: l]> ls) ≡ₚ x :: concat ls.
Proof.
  intros H. pose proof (concat_insert_perm ls i l (x :: l) H) as HP.
  apply (Permutation_app_inv_r l). rewrite HP. solve_Permutation.
Qed.

Lemma concat_uncons_perm {A} (ls : list (list A)) (i : nat) (x : A) (l : list A) :
  ls !! i = Some (x :: l) -> concat ls ≡ₚ x :: concat (<[i := l]> ls).
Proof.
  intros H. pose proof (concat_insert_perm ls i (x :: l) l H) as HP.
  apply (Permutation_app_inv_r l). rewrite <- HP. solve_Permutation.
Qed.

Lemma concat_nil_Forall {A} (ls : list (list A)) :
  concat ls = [] <-> Forall (fun l => l = []) ls.
Proof.
  induction ls as [|l ls IH]; simpl; [split; auto|].
  rewrite Forall_cons_iff, <- IH. split.
  - intros H%app_eq_nil. done.
  - by intros [-> ->].
Qed.

(** The first non-empty list. *)
Fixpoint first_nonempty {A} (ls : list (list A)) : option (nat * A * list A) :=
  match ls with
  | [] => None
  | [] :: ls => '(p, x, l) ← first_nonempty ls; Some (S p, x, l)
  | (x :: l) :: _ => Some (O, x, l)
  end.

Lemma first_nonempty_spec {A} (ls : list (list A)) p x l :
  first_nonempty ls = Some (p, x, l) <->
  ls !! p = Some (x :: l) /\ forall q, (q < p)%nat -> ls !!! q = [].
Proof.
  revert p; induction ls as [|[|y k] ls IH]; intros p; simpl.
  - split; [done|]. intros [? _]. done.
  - split.
    + intros (((q, z), m) & Hf & [= <- <- <-])%bind_Some.
      apply IH in Hf as [Hq Hlt]. split; [done|]. intros [|r] Hr; [done|].
      simpl. apply Hlt. lia.
    + intros [Hp Hlt]. destruct p as [|p]; [done|].
      simpl in Hp. rewrite (proj2 (IH p)); [done|]. split; [done|].
      intros q Hq. apply (Hlt (S q)). lia.
  - split.
    + intros [= <- <- <-]. split; [done|lia].
    + intros [Hp Hlt]. destruct p as [|p]; simplify_eq/=; [done|].
      specialize (Hlt O ltac:(lia)). done.
Qed.

Lemma first_nonempty_None {A} (ls : list (list A)) :
  first_nonempty ls = None <-> concat ls = [].
Proof.
  induction ls as [|[|y k] ls IH]; simpl; [done| |done].
  rewrite <- IH. destruct (first_nonempty ls) as [[[? ?] ?]|]; done.
Qed.

Lemma size_dom_bound {A} (h : gmap Z A) (l : list Z) :
  NoDup l -> (forall x, x ∈ l -> is_Some (h !! x)) -> (length l <= size h)%nat.
Proof.
  intros Hnd Hin. rewrite <- size_dom.
  rewrite <- (size_list_to_set (C := gset Z) l Hnd).
  apply subseteq_size. intros x Hx. apply elem_of_list_to_set in Hx.
  apply elem_of_dom. auto.
Qed.

(** ** Counting the entries of a map *)
Definition mcount {K} `{Countable K} {A} (f : A -> bool) (m : gmap K A) : nat :=
  size (filter (fun kv => f kv.2 = true) m).

Section mcount.
Context {K : Type} `{Countable K} {A : Type}.
Implicit Types (f : A -> bool) (m : gmap K A) (k : K) (a : A).

Definition tick (b : bool) : nat := if b then 1%nat else 0%nat.

Lemma mcount_empty f : mcount f (∅ : gmap K A) = O.
Proof. unfold mcount. by rewrite map_filter_empty, map_size_empty. Qed.

Lemma mcount_insert f m k a :
  m !! k = None -> mcount f (<[k := a]> m) = (tick (f a) + mcount f m)%nat.
Proof.
  intros Hk. unfold mcount. destruct (f a) eqn:Hf; simpl.
  - rewrite map_filter_insert_True by done. rewrite map_size_insert_None; [done|].
    by rewrite map_lookup_filter_None_2 by auto.
  - rewrite map_filter_insert_False by (simpl; congruence). by rewrite delete_id.
Qed.

Lemma mcount_delete f m k a :
  m !! k = Some a -> mcount f m = (tick (f a) + mcount f (delete k m))%nat.
Proof.
  intros Hk. rewrite <- (mcount_insert f (delete k m) k a) by apply lookup_delete_eq.
  by rewrite insert_delete_id.
Qed.

Lemma mcount_update f m k a a' :
  m !! k = Some a ->
  (mcount f (<[k := a']> m) + tick (f a) = tick (f a') + mcount f m)%nat.
Proof.
  intros Hk. rewrite <- (insert_delete_eq m k a'), mcount_insert by apply lookup_delete_eq.
  rewrite (mcount_delete f m k a Hk). lia.
Qed.

Lemma mcount_update_same f m k a a' :
  m !! k = Some a -> f a' = f a -> mcount f (<[k := a']> m) = mcount f m.
Proof. intros Hk Hf. pose proof (mcount_update f m k a a' Hk) as H1. rewrite Hf in H1. lia. Qed.

Lemma mcount_pos f m k a : m !! k = Some a -> f a = true -> (0 < mcount f m)%nat.
Proof. intros Hk Hf. rewrite (mcount_delete f m k a Hk), Hf. simpl. lia. Qed.

Lemma mcount_none f m :
  (forall k a, m !! k = Some a -> f a = false) -> mcount f m = O.
Proof.
  induction m as [|k a m Hk IH] using map_ind; intros Hf; [apply mcount_empty|].
  rewrite mcount_insert by done. rewrite (Hf k a) by apply lookup_insert_eq. simpl.
  apply IH. intros k' a' Hk'. apply (Hf k'). rewrite lookup_insert_ne by congruence. done.
Qed.

Lemma mcount_size f m : (mcount f m <= size m)%nat.
Proof. apply map_size_filter. Qed.
End mcount.
