(* ===== verification/Bytes.v ===== *)
(** * Bytes: the in-memory representation of fixed-width integers

    A byte is a [Z] in [0, 256).  [to_le]/[of_le] are the little-endian layout
    of an n-byte integer, [to_host]/[of_host] the layout of the host, and
    [bswap] is the byte swap that the <endian.h> conversions (htobe16,
    htole32, ...) perform when the orders differ. *)
From stdpp Require Import base list numbers.
From S2P Require Import Prelude.

Definition is_byte (b : Z) : Prop := 0 <= b < 256.

Fixpoint to_le (n : nat) (z : Z) : list Z :=
  match n with
  | O => []
  | S n => z mod 256 :: to_le n (z / 256)
  end.

Fixpoint of_le (bs : list Z) : Z :=
  match bs with
  | [] => 0
  | b :: bs => b + 256 * of_le bs
  end.

(** The bytes of a value as the host stores it; [le] says the host is little endian. *)
Definition to_host (le : bool) (n : nat) (z : Z) : list Z :=
  if le then to_le n z else reverse (to_le n z).

Definition of_host (le : bool) (bs : list Z) : Z :=
  if le then of_le bs else of_le (reverse bs).

Definition bswap (n : nat) (z : Z) : Z := of_le (reverse (to_le n z)).

Lemma length_to_le n z : length (to_le n z) = n.
Proof. revert z; induction n as [|n IH]; intros z; simpl; auto. Qed.

Lemma length_to_host le n z : length (to_host le n z) = n.
Proof. destruct le; simpl; rewrite ?length_reverse; apply length_to_le. Qed.

Lemma to_le_bytes n z : Forall is_byte (to_le n z).
Proof.
  revert z; induction n as [|n IH]; intros z; constructor; auto.
  apply Z.mod_pos_bound; lia.
Qed.

Lemma of_to_le n z : 0 <= z < 256 ^ Z.of_nat n -> of_le (to_le n z) = z.
Proof.
  revert z; induction n as [|n IH]; intros z Hz.
  - change (256 ^ Z.of_nat 0) with 1 in Hz. simpl. lia.
  - rewrite Nat2Z.inj_succ, Z.pow_succ_r in Hz by lia.
    cbn [to_le of_le]. rewrite IH; [|split].
    + pose proof (Z.div_mod z 256). lia.
    + apply Z.div_pos; lia.
    + apply Z.div_lt_upper_bound; lia.
Qed.

Lemma to_of_le bs : Forall is_byte bs -> to_le (length bs) (of_le bs) = bs.
Proof.
  induction 1 as [|b bs Hb _ IH]; [done|]. unfold is_byte in Hb. cbn.
  replace ((b + 256 * of_le bs) mod 256) with b
    by (rewrite (Z.mul_comm 256), Z.mod_add, Z.mod_small; lia).
  replace ((b + 256 * of_le bs) / 256) with (of_le bs); [by rewrite IH|].
  rewrite (Z.mul_comm 256), Z.div_add, Z.div_small; lia.
Qed.

Lemma of_le_range bs : Forall is_byte bs -> 0 <= of_le bs < 256 ^ Z.of_nat (length bs).
Proof.
  induction 1 as [|b bs Hb _ IH]; cbn [of_le length]; [simpl; lia|].
  rewrite Nat2Z.inj_succ, Z.pow_succ_r by lia. unfold is_byte in Hb. lia.
Qed.

Lemma of_to_host le n z : 0 <= z < 256 ^ Z.of_nat n -> of_host le (to_host le n z) = z.
Proof.
  intros Hz; destruct le; simpl; rewrite ?reverse_involutive; by apply of_to_le.
Qed.

Lemma to_le_bswap n z : to_le n (bswap n z) = reverse (to_le n z).
Proof.
  unfold bswap.
  pose proof (to_of_le (reverse (to_le n z))) as H.
  rewrite length_reverse, length_to_le in H.
  apply H. rewrite Forall_reverse. apply to_le_bytes.
Qed.

(** Swapping on one host and reading on a host of the other order gives the value. *)
Lemma bswap_involutive n z : 0 <= z < 256 ^ Z.of_nat n -> bswap n (bswap n z) = z.
Proof.
  intros Hz. unfold bswap at 1. rewrite to_le_bswap, reverse_involutive.
  by apply of_to_le.
Qed.

Lemma bswap_range n z : 0 <= bswap n z < 256 ^ Z.of_nat n.
Proof.
  unfold bswap.
  pose proof (of_le_range (reverse (to_le n z))) as H.
  rewrite length_reverse, length_to_le in H. apply H.
  rewrite Forall_reverse; apply to_le_bytes.
Qed.

Lemma to_host_bswap le n z : to_host (negb le) n (bswap n z) = to_host le n z.
Proof.
  destruct le; simpl; rewrite to_le_bswap, ?reverse_involutive; done.
Qed.
