(* ===== verification/Text.v ===== *)
(** * Text: the formatted input and output the runtime uses

    What the sources use of the C++ standard library to read and write numbers
    and words: operator<< of a stringstream for unsigned integers, operator>> of
    an istringstream for unsigned integers and strings, and std::stoul.  Strings
    are lists of characters. *)
From stdpp Require Import base list numbers.
From Stdlib Require Import Ascii String.
From S2P Require Import Prelude.

Definition text := list ascii.
Definition txt (s : string) : text := list_ascii_of_string s.

Definition code (c : ascii) : Z := Z.of_N (N_of_ascii c).
Definition is_space (c : ascii) : bool := (code c =? 32) || ((9 <=? code c) && (code c <=? 13)).
Definition is_digit (c : ascii) : bool := (48 <=? code c) && (code c <=? 57).
Definition digit (d : Z) : ascii := ascii_of_N (Z.to_N (48 + d)).
Definition space : ascii := " "%char.

(** ** Printing: [os << n] for an unsigned n; twenty digits are enough for 64 bits *)
Fixpoint dec_digits (fuel : nat) (n : Z) : text :=
  match fuel with
  | O => []
  | S fuel => if n <? 10 then [digit n] else dec_digits fuel (n / 10) ++ [digit (n mod 10)]
  end.
Definition show_dec (n : Z) : text := dec_digits 20 n.

(** ** Reading *)
Fixpoint drop_ws (s : text) : text :=
  match s with c :: r => if is_space c then drop_ws r else s | [] => [] end.

Fixpoint span_digits (s : text) : text * text :=
  match s with
  | c :: r => if is_digit c then let '(ds, r') := span_digits r in (c :: ds, r') else ([], s)
  | [] => ([], [])
  end.

Definition dec_value (ds : text) : Z := foldl (fun a c => 10 * a + (code c - 48)) 0 ds.

Definition is_minus (s : text) : bool :=
  match s with c :: _ => code c =? 45 | [] => false end.
Definition drop_sign (s : text) : text :=
  match s with c :: r => if (code c =? 45) || (code c =? 43) then r else s | [] => [] end.

(** strtoul in base 10: blanks, a sign, digits; a minus sign negates modulo 2^w.
    The result is None without digits; [Some None] when the number is too large. *)
Definition strtou (w : Z) (s : text) : option (option Z * text) :=
  let s := drop_ws s in
  let '(ds, r) := span_digits (drop_sign s) in
  match ds with
  | [] => None
  | _ =>
      let v := dec_value ds in
      Some (if v <? 2 ^ w then Some (if is_minus s then wrap w (- v) else v) else None, r)
  end.

(** [is >> n] for an unsigned n of width w; None: the stream fails. *)
Definition read_unsigned (w : Z) (s : text) : option (Z * text) :=
  '(v, r) ← strtou w s; n ← v; Some (n, r).

Fixpoint span_word (s : text) : text * text :=
  match s with
  | c :: r => if is_space c then ([], s) else let '(w, r') := span_word r in (c :: w, r')
  | [] => ([], [])
  end.

(** [is >> s] for a string *)
Definition read_word (s : text) : option (text * text) :=
  match span_word (drop_ws s) with ([], _) => None | (w, r) => Some (w, r) end.

(** std::stoul: invalid_argument and out_of_range are not caught anywhere. *)
Definition stoul (s : text) : outcome Z :=
  match strtou 64 s with
  | Some (Some v, _) => Ok v
  | _ => Fault Uncaught
  end.

(** ** Facts *)
Lemma code_digit d : 0 <= d <= 9 -> code (digit d) = 48 + d.
Proof.
  intros H. unfold code, digit. rewrite N_ascii_embedding; [lia|].
  change 256%N with (Z.to_N 256). lia.
Qed.

Lemma is_digit_digit d : 0 <= d <= 9 -> is_digit (digit d) = true.
Proof. intros H. unfold is_digit. rewrite code_digit by done. lia. Qed.

Lemma digit_not_space c : is_digit c = true -> is_space c = false.
Proof. unfold is_digit, is_space. lia. Qed.

Lemma dec_digits_digits fuel n : 0 <= n -> Forall (fun c => is_digit c = true) (dec_digits fuel n).
Proof.
  revert n; induction fuel as [|fuel IH]; intros n Hn; simpl; [constructor|].
  destruct (Z.ltb_spec n 10).
  - constructor; [|constructor]. apply is_digit_digit. lia.
  - apply Forall_app. split; [apply IH, Z.div_pos; lia|]. constructor; [|constructor].
    apply is_digit_digit. pose proof (Z.mod_pos_bound n 10). lia.
Qed.

Lemma dec_digits_value fuel n :
  0 <= n < 10 ^ Z.of_nat fuel -> dec_value (dec_digits fuel n) = n.
Proof.
  revert n; induction fuel as [|fuel IH]; intros n Hn.
  - change (10 ^ Z.of_nat 0) with 1 in Hn. simpl. unfold dec_value. simpl. lia.
  - rewrite Nat2Z.inj_succ, Z.pow_succ_r in Hn by lia. simpl. destruct (Z.ltb_spec n 10).
    + unfold dec_value. simpl. rewrite code_digit; lia.
    + unfold dec_value. rewrite foldl_app. fold (dec_value (dec_digits fuel (n / 10))). simpl.
      pose proof (Z.mod_pos_bound n 10 ltac:(lia)). rewrite code_digit by lia.
      rewrite IH; [pose proof (Z.div_mod n 10); lia|].
      split; [apply Z.div_pos; lia|]. apply Z.div_lt_upper_bound; lia.
Qed.

Lemma show_dec_cons n : 0 <= n -> exists c r, show_dec n = c :: r /\ is_digit c = true.
Proof.
  intros Hn. pose proof (dec_digits_digits 20 n Hn) as Hd. unfold show_dec.
  destruct (dec_digits 20 n) as [|c r] eqn:He; [|by exists c, r; inversion Hd].
  exfalso. assert (forall fuel m, dec_digits (S fuel) m <> []) as Hne; [|by apply (Hne 19%nat n)].
  intros fuel m. simpl. destruct (m <? 10); [done|]. by intros [_ ?]%app_nil.
Qed.

Lemma span_digits_app ds r :
  Forall (fun c => is_digit c = true) ds ->
  match r with c :: _ => is_digit c = false | [] => True end ->
  span_digits (ds ++ r) = (ds, r).
Proof.
  intros Hd Hr. induction Hd as [|c ds Hc Hd IH]; simpl.
  - destruct r as [|c r]; [done|]. simpl. by rewrite Hr.
  - by rewrite Hc, IH.
Qed.

(** A printed number is read back, up to a blank. *)
Lemma read_show w n r :
  0 <= n < 2 ^ w -> n < 10 ^ 20 ->
  match r with c :: _ => is_digit c = false | [] => True end ->
  read_unsigned w (show_dec n ++ r) = Some (n, r).
Proof.
  intros Hn H20 Hr. destruct (show_dec_cons n ltac:(lia)) as (c & t & He & Hc).
  pose proof (dec_digits_digits 20 n ltac:(lia)) as Hd. pose proof Hc as Hc'. unfold is_digit in Hc'.
  unfold read_unsigned, strtou. fold (show_dec n) in Hd.
  assert (drop_ws (show_dec n ++ r) = show_dec n ++ r) as ->.
  { rewrite He. simpl. by rewrite (digit_not_space c Hc). }
  assert (is_minus (show_dec n ++ r) = false) as ->.
  { rewrite He. simpl. lia. }
  assert (drop_sign (show_dec n ++ r) = show_dec n ++ r) as ->.
  { rewrite He. simpl. by rewrite (proj2 (orb_false_iff _ _)) by lia. }
  rewrite span_digits_app by done. rewrite He, <- He. unfold show_dec at 1 2.
  rewrite dec_digits_value by (change (Z.of_nat 20) with 20; lia).
  by rewrite (proj2 (Z.ltb_lt _ _)) by lia.
Qed.

Lemma read_unsigned_space w s : read_unsigned w (space :: s) = read_unsigned w s.
Proof. done. Qed.

Lemma read_word_space s : read_word (space :: s) = read_word s.
Proof. done. Qed.

(** A word is read back, up to a blank. *)
Lemma read_word_app w r :
  w <> [] -> Forall (fun c => is_space c = false) w ->
  read_word (w ++ space :: r) = Some (w, space :: r).
Proof.
  intros Hne Hw. unfold read_word.
  assert (span_word (w ++ space :: r) = (w, space :: r)) as Hs.
  { clear Hne. induction Hw as [|c w Hc Hw IH]; simpl; [done|]. by rewrite Hc, IH. }
  assert (drop_ws (w ++ space :: r) = w ++ space :: r) as ->.
  { destruct Hw as [|c w Hc Hw]; [done|]. simpl. by rewrite Hc. }
  rewrite Hs. by destruct w.
Qed.

Lemma stoul_show n : 0 <= n < 2 ^ 64 -> stoul (show_dec n) = Ok n.
Proof.
  intros Hn. pose proof (read_show 64 n [] Hn ltac:(lia) I) as Hr. rewrite app_nil_r in Hr.
  unfold read_unsigned in Hr. unfold stoul. destruct (strtou 64 (show_dec n)) as [[[v|] r]|]; try done.
  by injection Hr as -> _.
Qed.
