(* ===== verification/ActorId.v ===== *)
(** * ActorID, ActorAddr and the packed instance ids of the C API

    include/mola/actor_id.hpp, src/actor_id.cpp, src/actor.cpp and the id
    macros at the end of include/mola/c/mola_message.h. *)
From stdpp Require Import base list numbers strings pretty.
From S2P Require Import Prelude.

(** struct ActorID: [dmodule_id] and [dintf_id] are 16-bit bit-fields. *)
Record ActorID := MkActorID {
  dnode_id : Z;
  dmodule_id : Z;
  dintf_id : Z;
  dinst_id : Z
}.

Definition ANY : Z := 65535.
Definition LOCAL : Z := 0.
Definition CLIENT : Z := 4294967295.

#[global] Instance ActorID_eq_dec : EqDecision ActorID.
Proof. solve_decision. Defined.

Definition actor_id_wf (a : ActorID) : Prop :=
  in_width 32 (dnode_id a) /\ in_width 16 (dmodule_id a) /\
  in_width 16 (dintf_id a) /\ in_width 32 (dinst_id a).

Definition module_id (a : ActorID) : Z := dmodule_id a.
Definition instance_id (a : ActorID) : Z := dinst_id a.
Definition node_id (a : ActorID) : Z := dnode_id a.
Definition intf_id (a : ActorID) : Z := dintf_id a.

(** A store into a bit-field keeps the low bits. *)
Definition set_module_id (m_id : Z) (a : ActorID) : ActorID :=
  MkActorID (dnode_id a) (u16 m_id) (dintf_id a) (dinst_id a).
Definition set_inst_id (i_id : Z) (a : ActorID) : ActorID :=
  MkActorID (dnode_id a) (dmodule_id a) (dintf_id a) (u32 i_id).
Definition set_node_id (n_id : Z) (a : ActorID) : ActorID :=
  MkActorID (u32 n_id) (dmodule_id a) (dintf_id a) (dinst_id a).
Definition set_intf_id (if_id : Z) (a : ActorID) : ActorID :=
  MkActorID (dnode_id a) (dmodule_id a) (u16 if_id) (dinst_id a).

(** The constructor takes the instance id before the interface id. *)
Definition new_ActorID (nid mid iid ifid : Z) : ActorID :=
  MkActorID (u32 nid) (u16 mid) (u16 ifid) (u32 iid).

Definition hash_key (a : ActorID) : Z :=
  Z.lor (u32 (Z.shiftl (dmodule_id a) 16)) (dinst_id a).

(** ActorID::is_local; [local] is NodeManager::local_node()->get_id(). *)
Definition is_local (local : Z) (a : ActorID) : bool :=
  if node_id a =? LOCAL then true else node_id a =? local.

Definition to_string (a : ActorID) : string :=
  "[[ node id : " +:+ pretty (node_id a) +:+ ", " +:+
  " module id : " +:+ pretty (module_id a) +:+ ", " +:+
  " interface id : " +:+ pretty (intf_id a) +:+ ", " +:+
  " instance id : " +:+ pretty (instance_id a) +:+ " ]]".

(** struct ActorAddr *)
Record ActorAddr := MkActorAddr {
  addr_node_id : Z;
  station_id : Z;
  offset : Z
}.

Definition ActorAddr_eqb (a b : ActorAddr) : bool :=
  (station_id a =? station_id b) && (addr_node_id a =? addr_node_id b) &&
  (offset a =? offset b).

(** The packed 64-bit instance id handed to C modules (INST_ID_T). *)
Definition TO_INST_ID (local : Z) (aid : ActorID) (reqid : Z) : Z :=
  let nid := if node_id aid =? LOCAL then local else node_id aid in
  Z.lor (Z.lor (u64 (Z.shiftl reqid 32)) (u32 (Z.shiftl nid 16))) (instance_id aid).

Definition GET_NODE_ID (id : Z) : Z := u32 (Z.shiftr id 16).
Definition GET_INST_ID (id : Z) : Z := u32 (Z.land id 65535).
Definition GET_REQ_ID (id : Z) : Z := u32 (Z.shiftr id 32).

(** ** Bit facts *)
Lemma lor_disjoint_add a b k : 0 <= k -> 0 <= b < 2 ^ k ->
  Z.lor (Z.shiftl a k) b = a * 2 ^ k + b.
Proof.
  intros Hk Hb. rewrite <- Z.shiftl_mul_pow2 by lia.
  rewrite Z.add_nocarry_lxor, Z.lxor_lor; try done;
    apply Z.bits_inj'; intros i Hi; rewrite Z.land_spec, Z.bits_0;
    (destruct (Z.lt_ge_cases i k);
     [ by rewrite Z.shiftl_spec_low
     | replace b with (b mod 2 ^ k) by (apply Z.mod_small; lia);
       rewrite Z.mod_pow2_bits_high by lia; apply andb_false_r ]).
Qed.

Lemma actor_id_wf_setters a z :
  actor_id_wf a ->
  actor_id_wf (set_module_id z a) /\ actor_id_wf (set_inst_id z a) /\
  actor_id_wf (set_node_id z a) /\ actor_id_wf (set_intf_id z a).
Proof.
  intros (?&?&?&?).
  repeat split; simpl; try apply wrap_range; unfold in_width in *; lia.
Qed.

Lemma new_ActorID_wf n m i f : actor_id_wf (new_ActorID n m i f).
Proof. repeat split; simpl; apply wrap_range; lia. Qed.

Lemma hash_key_arith a : actor_id_wf a -> in_width 16 (dinst_id a) ->
  hash_key a = dmodule_id a * 65536 + dinst_id a.
Proof.
  intros (_ & Hm & _ & _) Hi. unfold hash_key.
  rewrite (wrap_small 32).
  - apply lor_disjoint_add; [lia|done].
  - rewrite Z.shiftl_mul_pow2 by lia. width_lia.
Qed.

Lemma TO_INST_ID_arith local aid reqid :
  in_width 16 (if node_id aid =? LOCAL then local else node_id aid) ->
  in_width 16 (instance_id aid) -> in_width 32 reqid ->
  TO_INST_ID local aid reqid =
    reqid * 2 ^ 32 +
    ((if node_id aid =? LOCAL then local else node_id aid) * 2 ^ 16 + instance_id aid).
Proof.
  unfold TO_INST_ID. set (nid := if node_id aid =? LOCAL then local else node_id aid). intros Hn Hi Hr.
  assert (in_width 64 (Z.shiftl reqid 32)) as H1
    by (rewrite Z.shiftl_mul_pow2 by lia; width_lia).
  assert (in_width 32 (Z.shiftl nid 16)) as H2
    by (rewrite Z.shiftl_mul_pow2 by lia; width_lia).
  rewrite (wrap_small 64), (wrap_small 32) by done.
  rewrite <- Z.lor_assoc, (lor_disjoint_add nid) by (lia || done).
  apply lor_disjoint_add; [lia|]. width_lia.
Qed.

(** Hash_key, the key of the actor caches and of the instance map, tells
    apart any two (module, instance) pairs as long as instance ids fit in 16
    bits. *)
Theorem hash_key_inj (a b : ActorID) :
  actor_id_wf a -> actor_id_wf b ->
  in_width 16 (dinst_id a) -> in_width 16 (dinst_id b) ->
  hash_key a = hash_key b ->
  dmodule_id a = dmodule_id b /\ dinst_id a = dinst_id b.
Proof.
  intros Ha Hb Ia Ib. rewrite !hash_key_arith by done. width_lia.
Qed.

Lemma hash_key_inj_witness :
  dmodule_id (new_ActorID 1 3 7 2) = 3 /\ dinst_id (new_ActorID 1 3 7 2) = 7.
Proof.
  apply (hash_key_inj (new_ActorID 1 3 7 2) (new_ActorID 9 3 7 0));
    try apply new_ActorID_wf; try (split; vm_compute; congruence); reflexivity.
Defined.

(** Instance ids are 32 bits wide; once one of them needs more than 16 bits
    the key merges actors of different modules. *)
Theorem hash_key_collides :
  exists a b : ActorID, actor_id_wf a /\ actor_id_wf b /\
    dmodule_id a <> dmodule_id b /\ dinst_id a <> dinst_id b /\
    hash_key a = hash_key b.
Proof.
  exists (new_ActorID 1 3 0 0), (new_ActorID 1 2 65536 0).
  split_and!; [apply new_ActorID_wf | apply new_ActorID_wf | done | done | done].
Qed.

(** Packing an actor id and a request id into the 64-bit instance id of the
    C API and unpacking it gives back the request id and the instance id; the
    node id comes back with the low 16 bits of the request id above it, so it is
    the node id exactly when those bits are zero. *)
Theorem inst_id_roundtrip (local : Z) (aid : ActorID) (reqid : Z) :
  in_width 16 (if node_id aid =? LOCAL then local else node_id aid) ->
  in_width 16 (instance_id aid) -> in_width 32 reqid ->
  let id := TO_INST_ID local aid reqid in
  let nid := if node_id aid =? LOCAL then local else node_id aid in
  GET_REQ_ID id = reqid /\
  GET_INST_ID id = instance_id aid /\
  GET_NODE_ID id = nid + 65536 * (reqid mod 65536) /\
  (GET_NODE_ID id = nid <-> reqid mod 65536 = 0).
Proof.
  intros Hn Hi Hr. cbv zeta. rewrite TO_INST_ID_arith by done.
  set (nid := if node_id aid =? LOCAL then local else node_id aid) in *.
  unfold GET_REQ_ID, GET_INST_ID, GET_NODE_ID, wrap.
  change 65535 with (Z.ones 16). rewrite Z.land_ones by lia.
  rewrite !Z.shiftr_div_pow2 by lia. clearbody nid.
  split_and!; [wrap_lia | wrap_lia | wrap_lia | wrap_lia].
Qed.

Lemma inst_id_roundtrip_witness :
  GET_REQ_ID (TO_INST_ID 5 (new_ActorID 0 3 7 1) 9) = 9 /\
  GET_INST_ID (TO_INST_ID 5 (new_ActorID 0 3 7 1) 9) = 7.
Proof.
  pose proof (inst_id_roundtrip 5 (new_ActorID 0 3 7 1) 9) as H.
  cbv zeta in H.
  split; apply H; split; vm_compute; congruence.
Defined.
