(* ===== verification/Mailbox.v ===== *)
(** * The lock-free mailbox of actors and of stream handlers

    include/mola/mailbox.hpp.  Producers push link nodes on a shared stack with
    a compare-and-swap; the single consumer takes the whole stack at once and
    sorts it into one private queue per priority.

    The memory of the link nodes is modelled: [heap] maps the address of a live
    node to its value and its [next] field, and every operation is a small
    machine whose steps are the atomic accesses of the source ([enq_step],
    [deq_step], [try_block_step], [close_step]).  The sequential operations run the machines
    alone; MailboxConc.v interleaves them. *)
From stdpp Require Import base list gmap numbers sorting.
From S2P Require Import Prelude.

Definition nullptr : Z := 0.
Definition dummy_empty : Z := 1.
Definition dummy_blocked : Z := 2.
Definition dummy_closed : Z := 3.

Definition is_dummy (e : Z) : bool :=
  (e =? dummy_empty) || (e =? dummy_blocked) || (e =? dummy_closed).

Inductive EnqueueStatus := MAILBOX_SUCCESS | MAILBOX_UNBLOCKED | MAILBOX_FAILURE.

#[global] Instance EnqueueStatus_eq_dec : EqDecision EnqueueStatus.
Proof. solve_decision. Defined.

Section Mailbox.
(** [V] is what a link node carries, [NP] the number of priorities and
    [get_priority] the functor GetPriority. *)
Context {V : Type} (NP : nat) (get_priority : V -> nat).

Record node := MkNode { nval : V; next : Z }.

(** [m_stack] is the shared atomic; the other fields belong to the consumer. *)
Record mailbox := MkMailbox {
  m_stack : Z;
  m_headers : list Z;
  m_num_inque : Z;
  m_lastp : nat
}.

Record store := MkStore { heap : gmap Z node; mbox : mailbox }.

Definition set_stack (e : Z) (s : store) : store :=
  MkStore (heap s) (MkMailbox e (m_headers (mbox s)) (m_num_inque (mbox s)) (m_lastp (mbox s))).

Definition set_lastp (p : nat) (s : store) : store :=
  MkStore (heap s) (MkMailbox (m_stack (mbox s)) (m_headers (mbox s)) (m_num_inque (mbox s)) p).

(** Mailbox(): [m_lastp] is not initialised by the source; any value will do. *)
Definition new_mailbox (lastp : nat) : mailbox :=
  MkMailbox dummy_blocked (replicate NP nullptr) 0 lastp.

(** ** enqueue *)
Inductive enq_pc := ELoad | ELink (e : Z) | ECas (e : Z) | ERet (r : EnqueueStatus).

Definition enq_step (item : Z) (pc : enq_pc) (s : store) : outcome (enq_pc * store) :=
  match pc with
  | ELoad =>
      let e := m_stack (mbox s) in
      if e =? dummy_closed then mret (ERet MAILBOX_FAILURE, s) else mret (ELink e, s)
  | ELink e =>
      n ← deref (heap s !! item);
      let h := <[item := MkNode (nval n) (if is_dummy e then nullptr else e)]> (heap s) in
      mret (ECas e, MkStore h (mbox s))
  | ECas e =>
      if m_stack (mbox s) =? e then
        mret (ERet (if e =? dummy_blocked then MAILBOX_UNBLOCKED else MAILBOX_SUCCESS),
              set_stack item s)
      else mret (ELoad, s)
  | ERet r => mret (ERet r, s)
  end.

Fixpoint run_enq (fuel : nat) (item : Z) (pc : enq_pc) (s : store)
  : outcome (EnqueueStatus * store) :=
  match pc with
  | ERet r => mret (r, s)
  | _ =>
      match fuel with
      | O => Fault OutOfFuel
      | S fuel => '(pc', s') ← enq_step item pc s; run_enq fuel item pc' s'
      end
  end.

Definition enqueue (item : Z) (s : store) : outcome (EnqueueStatus * store) :=
  _ ← mola_assert (negb (item =? nullptr));
  run_enq 3 item ELoad s.

(** ** dequeue *)

(** The loop over the private queues, from [m_lastp] on; [k] is NP - m_lastp. *)
Fixpoint fetch (k : nat) (h : gmap Z node) (mb : mailbox) : outcome (Z * mailbox) :=
  match k with
  | O => Fault AssertFailed
  | S k =>
      e ← deref (m_headers mb !! m_lastp mb);
      if e =? nullptr then
        fetch k h (MkMailbox (m_stack mb) (m_headers mb) (m_num_inque mb) (S (m_lastp mb)))
      else
        n ← deref (h !! e);
        mret (e, MkMailbox (m_stack mb) (<[m_lastp mb := next n]> (m_headers mb))
                           (u32 (m_num_inque mb - 1)) (m_lastp mb))
  end.

(** One turn of the loop that moves the shared stack into the private queues. *)
Definition drain_one (e : Z) (s : store) : outcome (Z * store) :=
  n ← deref (heap s !! e);
  let p := get_priority (nval n) in
  hd ← deref (m_headers (mbox s) !! p);
  mret (next n,
        MkStore (<[e := MkNode (nval n) hd]> (heap s))
                (MkMailbox (m_stack (mbox s)) (<[p := e]> (m_headers (mbox s)))
                           (u32 (m_num_inque (mbox s) + 1)) (m_lastp (mbox s)))).

Inductive deq_pc := DBegin | DLoad | DCas (e : Z) | DDrain (e : Z) | DRet (r : Z).

Definition deq_step (pc : deq_pc) (s : store) : outcome (deq_pc * store) :=
  match pc with
  | DBegin =>
      if 0 <? m_num_inque (mbox s) then
        '(e, mb) ← fetch (NP - m_lastp (mbox s)) (heap s) (mbox s);
        mret (DRet e, MkStore (heap s) mb)
      else mret (DLoad, s)
  | DLoad =>
      let e := m_stack (mbox s) in
      if e =? dummy_blocked then mret (DRet nullptr, s)
      else if e =? dummy_empty then mret (DRet nullptr, s)
      else mret (DCas e, s)
  | DCas e =>
      if m_stack (mbox s) =? e then mret (DDrain e, set_stack dummy_empty s)
      else mret (DLoad, s)
  | DDrain e =>
      if e =? nullptr then mret (DBegin, set_lastp 0 s)
      else '(e', s') ← drain_one e s; mret (DDrain e', s')
  | DRet r => mret (DRet r, s)
  end.

Fixpoint run_deq (fuel : nat) (pc : deq_pc) (s : store) : outcome (Z * store) :=
  match pc with
  | DRet r => mret (r, s)
  | _ =>
      match fuel with
      | O => Fault OutOfFuel
      | S fuel => '(pc', s') ← deq_step pc s; run_deq fuel pc' s'
      end
  end.

(** Alone, dequeue needs one step per stacked node and five more. *)
Definition dequeue (s : store) : outcome (Z * store) :=
  run_deq (5 + size (heap s)) DBegin s.

(** ** is_blocked, try_block *)
Definition is_blocked (s : store) : bool := m_stack (mbox s) =? dummy_blocked.

Inductive try_pc := TBegin | TLoad | TCas | TRet (b : bool).

Definition try_block_step (pc : try_pc) (s : store) : try_pc * store :=
  match pc with
  | TBegin => if 0 <? m_num_inque (mbox s) then (TRet false, s) else (TLoad, s)
  | TLoad => if m_stack (mbox s) =? dummy_empty then (TCas, s) else (TRet false, s)
  | TCas =>
      if m_stack (mbox s) =? dummy_empty then (TRet true, set_stack dummy_blocked s)
      else (TLoad, s)
  | TRet b => (TRet b, s)
  end.

Fixpoint run_try (fuel : nat) (pc : try_pc) (s : store) : outcome (bool * store) :=
  match pc with
  | TRet b => mret (b, s)
  | _ =>
      match fuel with
      | O => Fault OutOfFuel
      | S fuel => let '(pc', s') := try_block_step pc s in run_try fuel pc' s'
      end
  end.

Definition try_block (s : store) : outcome (bool * store) := run_try 3 TBegin s.

(** ** close *)

(** The loop over the private queues: it deletes one node of each. *)
Fixpoint close_private (k : nat) (s : store) : outcome store :=
  match k with
  | O => mret s
  | S k =>
      let mb := mbox s in
      cur ← deref (m_headers mb !! m_lastp mb);
      if cur =? nullptr then
        close_private k (set_lastp (S (m_lastp mb)) s)
      else
        n ← deref (heap s !! cur);
        close_private k
          (MkStore (delete cur (heap s))
                   (MkMailbox (m_stack mb) (<[m_lastp mb := next n]> (m_headers mb))
                              (m_num_inque mb) (S (m_lastp mb))))
  end.

(** The loop over the shared list: [cur = e; e = cur->next; delete e]. *)
Fixpoint close_shared (fuel : nat) (e : Z) (s : store) : outcome store :=
  match fuel with
  | O => Fault OutOfFuel
  | S fuel =>
      n ← deref (heap s !! e);
      if next n =? nullptr then mret s
      else
        _ ← deref (heap s !! next n);
        close_shared fuel (next n) (MkStore (delete (next n) (heap s)) (mbox s))
  end.

(** What close does after the shared word is closed; [e] is what it held before. *)
Definition close_free (e : Z) (s : store) : outcome store :=
  s2 ← (if 0 <? m_num_inque (mbox s)
        then close_private (NP - m_lastp (mbox s)) s else mret s);
  if is_dummy e then mret s2
  else close_shared (S (size (heap s2))) e s2.

Definition close (s : store) : outcome store :=
  let e := m_stack (mbox s) in
  close_free e (if e =? dummy_closed then s else set_stack dummy_closed s).

(** close among other threads: the load, the compare-and-swap, and the loops that
    delete, which touch memory of the consumer only. *)
Inductive close_pc := KLoad | KCas (e : Z) | KFree (e : Z) | KRet.

Definition close_step (pc : close_pc) (s : store) : outcome (close_pc * store) :=
  match pc with
  | KLoad =>
      let e := m_stack (mbox s) in
      mret (if e =? dummy_closed then KFree e else KCas e, s)
  | KCas e =>
      if m_stack (mbox s) =? e then mret (KFree e, set_stack dummy_closed s)
      else mret (KLoad, s)
  | KFree e => s' ← close_free e s; mret (KRet, s')
  | KRet => mret (KRet, s)
  end.

(** ** The lists in memory *)

(** [chain h p l]: following [next] from [p] visits the nodes [l], then null. *)
Fixpoint chain (h : gmap Z node) (p : Z) (l : list (Z * V)) : Prop :=
  match l with
  | [] => p = nullptr
  | (x, v) :: l => p = x /\ 3 < x /\ exists n, h !! x = Some (MkNode v n) /\ chain h n l
  end.

(** The shared stack holds [S], newest first. *)
Definition stack_repr (h : gmap Z node) (e : Z) (S : list (Z * V)) : Prop :=
  if is_dummy e then S = [] else S <> [] /\ chain h e S.

(** The private queues hold [Qs], each oldest first. *)
Definition queues_repr (h : gmap Z node) (hs : list Z) (Qs : list (list (Z * V))) : Prop :=
  length hs = NP /\ Forall2 (chain h) hs Qs.

Definition by_prio (Qs : list (list (Z * V))) : Prop :=
  forall p x, x ∈ Qs !!! p -> get_priority x.2 = p.

Definition total (Qs : list (list (Z * V))) : nat := length (concat Qs).

Lemma chain_lookup h p l x v : chain h p l -> (x, v) ∈ l -> exists n, h !! x = Some (MkNode v n).
Proof.
  revert p; induction l as [|[y w] l IH]; simpl; intros p H Hin.
  - by apply not_elem_of_nil in Hin.
  - destruct H as (-> & _ & n & Hn & Hc).
    apply elem_of_cons in Hin as [?|Hin]; simplify_eq; eauto.
Qed.

Lemma chain_frame h p l x nd : chain h p l -> x ∉ l.*1 -> chain (<[x := nd]> h) p l.
Proof.
  revert p; induction l as [|[y w] l IH]; simpl; [done|].
  intros p (-> & Hlt & n & Hn & Hc) Hx.
  rewrite not_elem_of_cons in Hx. destruct Hx as [Hxy Hx].
  split; [done|]. split; [done|]. exists n. rewrite lookup_insert_ne by done. auto.
Qed.

Lemma chain_delete h p l x : chain h p l -> x ∉ l.*1 -> chain (delete x h) p l.
Proof.
  revert p; induction l as [|[y w] l IH]; simpl; [done|].
  intros p (-> & Hlt & n & Hn & Hc) Hx.
  rewrite not_elem_of_cons in Hx. destruct Hx as [Hxy Hx].
  split; [done|]. split; [done|]. exists n. rewrite lookup_delete_ne by done. auto.
Qed.

Lemma chain_not_dummy h p l : chain h p l -> l <> [] -> is_dummy p = false /\ p <> nullptr.
Proof.
  destruct l as [|[x v] l]; [done|]. intros (-> & Hx & _) _.
  unfold is_dummy, dummy_empty, dummy_blocked, dummy_closed, nullptr. lia.
Qed.

Lemma chain_null h l : chain h nullptr l -> l = [].
Proof. destruct l as [|[x v] l]; [done|]. intros (<- & Hx & _). unfold nullptr in Hx. lia. Qed.

Lemma chain_gt h p l x : chain h p l -> x ∈ l.*1 -> 3 < x.
Proof.
  revert p; induction l as [|[y w] l IH]; simpl; intros p H Hin.
  - by apply not_elem_of_nil in Hin.
  - destruct H as (-> & Hlt & n & Hn & Hc).
    apply elem_of_cons in Hin as [->|Hin]; eauto.
Qed.

Lemma chain_dom h p l x : chain h p l -> x ∈ l.*1 -> is_Some (h !! x).
Proof.
  intros Hc Hin. apply list_elem_of_fmap in Hin as ([y v] & -> & Hin).
  destruct (chain_lookup _ _ _ _ _ Hc Hin) as [n Hn]. simpl. rewrite Hn. eauto.
Qed.

Lemma stack_repr_frame h e S x nd :
  stack_repr h e S -> x ∉ S.*1 -> stack_repr (<[x := nd]> h) e S.
Proof.
  unfold stack_repr. destruct (is_dummy e); [done|].
  intros [? ?] ?. split; [done|]. by apply chain_frame.
Qed.

Lemma stack_repr_delete h e S x :
  stack_repr h e S -> x ∉ S.*1 -> stack_repr (delete x h) e S.
Proof.
  unfold stack_repr. destruct (is_dummy e); [done|].
  intros [? ?] ?. split; [done|]. by apply chain_delete.
Qed.

Lemma fst_concat_notin (Qs : list (list (Z * V))) x l :
  x ∉ (concat Qs).*1 -> l ∈ Qs -> x ∉ l.*1.
Proof.
  intros Hx Hl Hin. apply Hx. apply list_elem_of_fmap in Hin as (y & -> & Hy).
  apply list_elem_of_fmap. exists y. split; [done|]. apply list_elem_of_In, in_concat.
  exists l. by rewrite <- !list_elem_of_In.
Qed.

Lemma queues_repr_mono h h' hs Qs :
  (forall p l, l ∈ Qs -> chain h p l -> chain h' p l) ->
  queues_repr h hs Qs -> queues_repr h' hs Qs.
Proof.
  intros Hm [Hlen HF]. split; [done|].
  clear Hlen. induction HF as [|p l hs Qs Hc HF IH]; constructor.
  - apply Hm; [constructor|done].
  - apply IH. intros q l' Hl'. apply Hm. by constructor.
Qed.

Lemma queues_repr_frame h hs Qs x nd :
  queues_repr h hs Qs -> x ∉ (concat Qs).*1 -> queues_repr (<[x := nd]> h) hs Qs.
Proof.
  intros HQ Hx. revert HQ. apply queues_repr_mono.
  intros p l Hl Hc. apply chain_frame; [done|]. by eapply fst_concat_notin.
Qed.

Lemma queues_repr_delete h hs Qs x :
  queues_repr h hs Qs -> x ∉ (concat Qs).*1 -> queues_repr (delete x h) hs Qs.
Proof.
  intros HQ Hx. revert HQ. apply queues_repr_mono.
  intros p l Hl Hc. apply chain_delete; [done|]. by eapply fst_concat_notin.
Qed.

(** ** The private queues *)
Lemma queues_repr_lookup h hs Qs p :
  queues_repr h hs Qs -> (p < NP)%nat ->
  exists q l, hs !! p = Some q /\ Qs !! p = Some l /\ chain h q l.
Proof.
  intros [Hlen HF] Hp.
  destruct (lookup_lt_is_Some_2 hs p) as [q Hq]; [lia|].
  destruct (Forall2_lookup_l _ _ _ _ _ HF Hq) as (l & Hl & Hc). eauto.
Qed.

Lemma queues_repr_update h hs Qs p q l :
  queues_repr h hs Qs -> chain h q l -> queues_repr h (<[p := q]> hs) (<[p := l]> Qs).
Proof.
  intros [Hlen HF] Hc. split; [by rewrite length_insert|]. by apply Forall2_insert.
Qed.

Lemma queues_repr_length h hs Qs : queues_repr h hs Qs -> length Qs = NP.
Proof. intros [Hlen HF]. by rewrite <- (Forall2_length _ _ _ HF). Qed.

Lemma concat_elem_of (Qs : list (list (Z * V))) p l x :
  Qs !! p = Some l -> x ∈ l -> x ∈ concat Qs.
Proof.
  intros Hp Hx. apply list_elem_of_In, in_concat. exists l.
  rewrite <- !list_elem_of_In. split; [by eapply list_elem_of_lookup_2|done].
Qed.

Lemma queues_repr_dom h hs Qs x :
  queues_repr h hs Qs -> x ∈ (concat Qs).*1 -> is_Some (h !! x).
Proof.
  intros [_ HF]. induction HF as [|p l hs Qs Hc HF IH]; simpl.
  - intros H. by apply not_elem_of_nil in H.
  - rewrite fmap_app, elem_of_app. intros [H|H]; [by eapply chain_dom|auto].
Qed.

Lemma inbox_bound h e D hs Qs :
  chain h e D -> queues_repr h hs Qs -> NoDup (D ++ concat Qs).*1 ->
  (length (D ++ concat Qs) <= size h)%nat.
Proof.
  intros HD HQ Hnd. rewrite <- (length_fmap fst). apply size_dom_bound; [done|].
  intros x. rewrite fmap_app, elem_of_app. intros [Hx|Hx].
  - by eapply chain_dom.
  - by eapply queues_repr_dom.
Qed.

(** [fetch] finds the first non-empty queue and detaches its first node. *)
Lemma fetch_spec k h mb Qs p x v l :
  queues_repr h (m_headers mb) Qs ->
  k = (NP - m_lastp mb)%nat ->
  first_nonempty Qs = Some (p, (x, v), l) ->
  (m_lastp mb <= p)%nat ->
  exists n, h !! x = Some (MkNode v n) /\
    fetch k h mb = Ok (x, MkMailbox (m_stack mb) (<[p := n]> (m_headers mb))
                                    (u32 (m_num_inque mb - 1)) p) /\
    queues_repr h (<[p := n]> (m_headers mb)) (<[p := l]> Qs).
Proof.
  intros HQ Hk Hf Hle. apply first_nonempty_spec in Hf as [Hp Hlt].
  assert (p < NP)%nat as HpN.
  { rewrite <- (queues_repr_length _ _ _ HQ). by eapply lookup_lt_Some. }
  revert mb HQ Hk Hle. induction k as [|k IH]; intros mb HQ Hk Hle; [lia|].
  destruct (queues_repr_lookup _ _ _ (m_lastp mb) HQ) as (q & l' & Hq & Hl' & Hc); [lia|].
  cbn [fetch]. rewrite Hq. cbn.
  destruct (decide (m_lastp mb = p)) as [Heq|Hne].
  - rewrite Heq in *. simplify_eq. destruct Hc as (-> & Hx & n & Hn & Hc).
    destruct (Z.eqb_spec x nullptr) as [->|_]; [unfold nullptr in Hx; lia|].
    rewrite Hn. exists n. split; [done|]. split; [done|].
    by apply queues_repr_update.
  - assert (l' = []) as ->.
    { specialize (Hlt (m_lastp mb) ltac:(lia)).
      by rewrite (list_lookup_total_correct _ _ _ Hl') in Hlt. }
    simpl in Hc. subst q. cbn.
    destruct (IH (MkMailbox (m_stack mb) (m_headers mb) (m_num_inque mb) (S (m_lastp mb))))
      as (n & Hn & Hfe & HQ'); simpl; [done|lia|lia|].
    exists n. done.
Qed.

(** [drain_one] moves the top of the detached stack to the front of its queue. *)
Lemma drain_one_spec s e x v D Qs :
  chain (heap s) e ((x, v) :: D) ->
  queues_repr (heap s) (m_headers (mbox s)) Qs ->
  x ∉ D.*1 -> x ∉ (concat Qs).*1 ->
  (get_priority v < NP)%nat ->
  exists e' hd n Q, Qs !! get_priority v = Some Q /\
    e = x /\ 3 < x /\ heap s !! x = Some (MkNode v n) /\
    drain_one e s =
      Ok (e', MkStore (<[x := MkNode v hd]> (heap s))
               (MkMailbox (m_stack (mbox s)) (<[get_priority v := x]> (m_headers (mbox s)))
                          (u32 (m_num_inque (mbox s) + 1)) (m_lastp (mbox s)))) /\
    chain (<[x := MkNode v hd]> (heap s)) e' D /\
    queues_repr (<[x := MkNode v hd]> (heap s))
      (<[get_priority v := x]> (m_headers (mbox s)))
      (<[get_priority v := (x, v) :: Q]> Qs).
Proof.
  intros (-> & Hx & n & Hn & HD) HQ HxD HxQ Hp.
  destruct (queues_repr_lookup _ _ _ _ HQ Hp) as (hd & Q & Hhd & HQp & Hcq).
  exists n, hd, n, Q. split_and!; try done.
  - unfold drain_one. rewrite Hn. cbn. rewrite Hhd. done.
  - by apply chain_frame.
  - apply queues_repr_update; [by apply queues_repr_frame|].
    split; [done|]. split; [done|]. exists hd. rewrite lookup_insert_eq. split; [done|].
    apply chain_frame; [done|]. eapply fst_concat_notin; [done|].
    by eapply list_elem_of_lookup_2.
Qed.

(** ** The sequential contract

    [mbox_wf s Sk Qs]: in [s] the shared stack holds [Sk], newest first, and
    the private queues hold [Qs], oldest first; the counter counts them, and
    the queues before [m_lastp] are empty when something is queued. *)
Record mbox_wf (s : store) (Sk : list (Z * V)) (Qs : list (list (Z * V))) : Prop := {
  wf_stack : stack_repr (heap s) (m_stack (mbox s)) Sk;
  wf_queues : queues_repr (heap s) (m_headers (mbox s)) Qs;
  wf_nodup : NoDup (Sk ++ concat Qs).*1;
  wf_num : m_num_inque (mbox s) = Z.of_nat (total Qs);
  wf_lastp : (0 < total Qs)%nat -> forall q, (q < m_lastp (mbox s))%nat -> Qs !!! q = [];
  wf_prio : Forall (fun x => (get_priority x.2 < NP)%nat) Sk;
  wf_size : Z.of_nat (size (heap s)) < 2 ^ 32
}.

(** What the drain loop computes: the stack is sorted into the queues. *)
Fixpoint sort_into (D : list (Z * V)) (Qs : list (list (Z * V))) : list (list (Z * V)) :=
  match D with
  | [] => Qs
  | x :: D => sort_into D (<[get_priority x.2 := x :: Qs !!! get_priority x.2]> Qs)
  end.

(** The abstract mailbox: when the queues are empty the stack becomes the next
    batch; the first node of the first non-empty queue is returned. *)
Definition spec_dequeue (Sk : list (Z * V)) (Qs : list (list (Z * V)))
  : option (Z * V) * list (Z * V) * list (list (Z * V)) :=
  let '(Sk, Qs) := if decide (concat Qs = []) then ([], sort_into Sk Qs) else (Sk, Qs) in
  match first_nonempty Qs with
  | Some (p, x, l) => (Some x, Sk, <[p := l]> Qs)
  | None => (None, Sk, Qs)
  end.

Lemma sort_into_lookup D Qs p :
  (forall x, x ∈ D -> (get_priority x.2 < length Qs)%nat) ->
  sort_into D Qs !!! p = reverse (filter (fun x => get_priority x.2 = p) D) ++ Qs !!! p.
Proof.
  revert Qs; induction D as [|x D IH]; intros Qs HD; [done|]. cbn [sort_into].
  assert (get_priority x.2 < length Qs)%nat as Hx by (apply HD; constructor).
  rewrite IH by (intros y Hy; rewrite length_insert; apply HD; by constructor).
  rewrite filter_cons. destruct (decide (get_priority x.2 = p)) as [<-|Hne].
  - rewrite list_lookup_total_insert_eq by done.
    rewrite reverse_cons, <- app_assoc. done.
  - by rewrite list_lookup_total_insert_ne by done.
Qed.

Lemma sort_into_perm D Qs :
  (forall x, x ∈ D -> (get_priority x.2 < length Qs)%nat) ->
  concat (sort_into D Qs) ≡ₚ D ++ concat Qs.
Proof.
  revert Qs; induction D as [|x D IH]; intros Qs HD; [done|]. cbn [sort_into].
  assert (get_priority x.2 < length Qs)%nat as Hx by (apply HD; constructor).
  rewrite IH by (intros y Hy; rewrite length_insert; apply HD; by constructor).
  rewrite concat_cons_perm by (by apply list_lookup_lookup_total_lt).
  simpl. solve_Permutation.
Qed.

Lemma NoDup_fst_perm (l k : list (Z * V)) : l ≡ₚ k -> NoDup l.*1 -> NoDup k.*1.
Proof. intros HP. by rewrite HP. Qed.

(** The loop from [DDrain e] on, alone. *)
Lemma run_drain fuel s e D Qs :
  chain (heap s) e D ->
  queues_repr (heap s) (m_headers (mbox s)) Qs ->
  NoDup (D ++ concat Qs).*1 ->
  m_num_inque (mbox s) = Z.of_nat (total Qs) ->
  Forall (fun x => (get_priority x.2 < NP)%nat) D ->
  Z.of_nat (size (heap s)) < 2 ^ 32 ->
  is_dummy (m_stack (mbox s)) = true ->
  exists s', run_deq (length D + S fuel) (DDrain e) s = run_deq fuel DBegin s' /\
    m_stack (mbox s') = m_stack (mbox s) /\ m_lastp (mbox s') = O /\
    size (heap s') = size (heap s) /\
    mbox_wf s' [] (sort_into D Qs).
Proof.
  revert s e Qs. induction D as [|[x v] D IH]; intros s e Qs HD HQ Hnd Hnum Hpr Hsz Hdum.
  - simpl in HD. subst e. exists (set_lastp 0 s). cbn. split_and!; try done.
    split; simpl; try done; [unfold stack_repr; by rewrite Hdum|lia].
  - inversion Hpr as [|? ? Hp Hpr']; subst. simpl in Hp.
    pose proof (inbox_bound _ _ _ _ _ HD HQ Hnd) as Hlen. simpl in Hlen.
    simpl in Hnd. apply NoDup_cons in Hnd as [Hx Hnd].
    rewrite fmap_app, elem_of_app in Hx.
    destruct (drain_one_spec s e x v D Qs) as (e' & hd & n & Q & HQp & -> & Hgt & Hn & Hd & HD' & HQ');
      [done|done|tauto|tauto|done|].
    cbn [length Nat.add run_deq deq_step].
    destruct (Z.eqb_spec x nullptr) as [->|_]; [unfold nullptr in Hgt; lia|].
    rewrite Hd. cbn.
    destruct (IH (MkStore (<[x:=MkNode v hd]> (heap s))
        (MkMailbox (m_stack (mbox s)) (<[get_priority v:=x]> (m_headers (mbox s)))
           (u32 (m_num_inque (mbox s) + 1)) (m_lastp (mbox s)))) e'
        (<[get_priority v := (x, v) :: Q]> Qs)) as (s' & Hrun & Hst & Hlp & Hsz' & Hwf); simpl; try done.
    + apply (NoDup_fst_perm ((x, v) :: D ++ concat Qs)).
      * rewrite concat_cons_perm by done. apply Permutation_middle.
      * simpl. constructor; [|done]. change (x ∉ (D ++ concat Qs).*1).
        by rewrite fmap_app, elem_of_app.
    + rewrite Hnum. unfold total. rewrite concat_cons_perm by done. simpl.
      rewrite wrap_small; [lia|]. rewrite length_app in Hlen. width_lia.
    + rewrite map_size_insert, Hn. done.
    + exists s'. rewrite Hrun. split_and!; try done.
      * rewrite Hsz'. simpl. rewrite map_size_insert, Hn. done.
      * cbn [sort_into]. simpl. by rewrite (list_lookup_total_correct _ _ _ HQp).
Qed.

Lemma run_deq_ret fuel r (s : store) : run_deq fuel (DRet r) s = Ok (r, s).
Proof. by destruct fuel. Qed.

Lemma run_deq_step fuel pc (s : store) pc' s' :
  (forall r, pc <> DRet r) -> deq_step pc s = Ok (pc', s') ->
  run_deq (S fuel) pc s = run_deq fuel pc' s'.
Proof. intros Hr Hs. destruct pc; cbn [run_deq]; try (rewrite Hs; done). by destruct (Hr r). Qed.

Lemma deq_begin_empty s Sk Qs :
  mbox_wf s Sk Qs -> concat Qs = [] -> deq_step DBegin s = Ok (DLoad, s).
Proof. intros Hwf HQ. cbn. rewrite (wf_num _ _ _ Hwf). unfold total. by rewrite HQ. Qed.

(** From [DBegin] with something queued, the next node is returned. *)
Lemma run_fetch fuel s Sk Qs p x l :
  mbox_wf s Sk Qs -> first_nonempty Qs = Some (p, x, l) ->
  exists s', run_deq (S fuel) DBegin s = Ok (x.1, s') /\
    mbox_wf s' Sk (<[p := l]> Qs) /\ m_stack (mbox s') = m_stack (mbox s) /\
    heap s' = heap s.
Proof.
  intros [Hst HQ Hnd Hnum Hlp Hpr Hsz] Hf. destruct x as [x v].
  pose proof (proj1 (first_nonempty_spec _ _ _ _) Hf) as [Hp Hlt].
  pose proof (concat_uncons_perm _ _ _ _ Hp) as HP.
  assert (total Qs = S (total (<[p := l]> Qs))) as Htot by (unfold total; by rewrite HP).
  assert (m_lastp (mbox s) <= p)%nat as Hle.
  { destruct (decide (m_lastp (mbox s) <= p)%nat) as [|H]; [done|].
    specialize (Hlp ltac:(lia) p ltac:(lia)).
    by rewrite (list_lookup_total_correct _ _ _ Hp) in Hlp. }
  destruct (fetch_spec _ _ (mbox s) Qs p x v l HQ eq_refl Hf Hle) as (n & Hn & Hfe & HQ').
  assert (Z.of_nat (total Qs) < 2 ^ 32) as Hb.
  { enough (total Qs <= size (heap s))%nat by lia.
    apply (inbox_bound (heap s) nullptr [] (m_headers (mbox s)) Qs); [done|done|].
    rewrite fmap_app in Hnd. by apply NoDup_app in Hnd as (_ & _ & ?). }
  destruct (Z.ltb_spec 0 (m_num_inque (mbox s))) as [Hpos|]; [|lia].
  cbn [run_deq deq_step]. rewrite (proj2 (Z.ltb_lt _ _) Hpos), Hfe. cbn.
  eexists. split; [destruct fuel; reflexivity|].
  split; [|done]. split; simpl; try done.
  - rewrite HP in Hnd. rewrite <- Permutation_middle in Hnd.
    by apply NoDup_cons in Hnd as [_ ?].
  - rewrite Hnum, Htot, wrap_small; width_lia.
  - intros _ q Hq. rewrite list_lookup_total_insert_ne by lia. auto.
Qed.

Lemma deq_null_stack fuel s Sk Qs :
  mbox_wf s Sk Qs -> concat Qs = [] -> is_dummy (m_stack (mbox s)) = true ->
  m_stack (mbox s) <> dummy_closed ->
  run_deq (S (S fuel)) DBegin s = Ok (nullptr, s).
Proof.
  intros Hwf HQ Hd Hc.
  erewrite run_deq_step; [|done|by eapply deq_begin_empty].
  erewrite run_deq_step; [apply run_deq_ret|done|]. cbn.
  destruct (Z.eqb_spec (m_stack (mbox s)) dummy_blocked); [done|].
  destruct (Z.eqb_spec (m_stack (mbox s)) dummy_empty); [done|].
  unfold is_dummy in Hd. lia.
Qed.

Lemma stack_length s Sk Qs :
  mbox_wf s Sk Qs -> is_dummy (m_stack (mbox s)) = false ->
  Sk <> [] /\ chain (heap s) (m_stack (mbox s)) Sk /\ (length Sk <= size (heap s))%nat.
Proof.
  intros Hwf Hd. pose proof (wf_stack _ _ _ Hwf) as Hs. unfold stack_repr in Hs.
  rewrite Hd in Hs. destruct Hs as [Hne Hc]. split_and!; try done.
  pose proof (inbox_bound _ _ _ _ _ Hc (wf_queues _ _ _ Hwf) (wf_nodup _ _ _ Hwf)) as H.
  rewrite length_app in H. lia.
Qed.

(** A whole batch: the queues are empty and the stack is not. *)
Lemma dequeue_batch s Sk Qs :
  mbox_wf s Sk Qs -> concat Qs = [] -> is_dummy (m_stack (mbox s)) = false ->
  let '(r, Sk', Qs') :=
    match first_nonempty (sort_into Sk Qs) with
    | Some (p, x, l) => (Some x, [], <[p := l]> (sort_into Sk Qs))
    | None => (None, [], sort_into Sk Qs)
    end in
  exists s', run_deq (S (S (S (S (S (size (heap s))))))) DBegin s
             = Ok (default nullptr (fst <$> r), s') /\ mbox_wf s' Sk' Qs'.
Proof.
  intros Hwf HQ Hd.
  destruct (stack_length _ _ _ Hwf Hd) as (Hne & Hc & Hlen).
  pose proof Hwf as [_ HQr Hnd Hnum _ Hpr Hsz].
  assert (run_deq (S (S (S (S (S (size (heap s))))))) DBegin s =
          run_deq (length Sk + S (S (size (heap s) - length Sk))) (DDrain (m_stack (mbox s)))
                  (set_stack dummy_empty s)) as ->.
  { unfold is_dummy in Hd. apply orb_false_elim in Hd as [[Hd1 Hd2]%orb_false_elim _].
    erewrite run_deq_step; [|done|by eapply deq_begin_empty].
    erewrite run_deq_step; [|done|cbn; by rewrite Hd1, Hd2].
    erewrite run_deq_step; [|done|cbn; by rewrite Z.eqb_refl].
    f_equal. lia. }
  destruct (run_drain (S (size (heap s) - length Sk)) (set_stack dummy_empty s)
              (m_stack (mbox s)) Sk Qs) as (s' & -> & Hst & Hlp & Hsz' & Hwf'); try done.
  destruct (first_nonempty (sort_into Sk Qs)) as [[[p x] l]|] eqn:Hf.
  - destruct (run_fetch (size (heap s) - length Sk) _ _ _ _ _ _ Hwf' Hf) as (s'' & Hr & Hwf'' & _).
    exists s''. done.
  - exfalso. apply first_nonempty_None in Hf.
    pose proof (sort_into_perm Sk Qs) as HP. rewrite Hf, HQ, app_nil_r in HP.
    apply Hne, Permutation_nil, HP. intros x Hx.
    rewrite (queues_repr_length _ _ _ HQr). rewrite Forall_forall in Hpr. auto.
Qed.

(** Run alone on any mailbox that is not closed, dequeue terminates within
    its bound, never touches memory that is not a live node, and implements the
    abstract mailbox: it returns the oldest node of the first non-empty
    priority of the current batch, taking the stack as the next batch when the
    current one is used up, and returns null exactly when nothing is queued. *)
Theorem dequeue_refines (s : store) (Sk : list (Z * V)) (Qs : list (list (Z * V))) :
  mbox_wf s Sk Qs -> m_stack (mbox s) <> dummy_closed ->
  let '(r, Sk', Qs') := spec_dequeue Sk Qs in
  exists s', dequeue s = Ok (default nullptr (fst <$> r), s') /\ mbox_wf s' Sk' Qs'.
Proof.
  intros Hwf Hcl. unfold spec_dequeue, dequeue. cbn [Nat.add].
  destruct (decide (concat Qs = [])) as [HQ|HQ].
  - destruct (is_dummy (m_stack (mbox s))) eqn:Hd.
    + assert (Sk = []) as ->.
      { pose proof (wf_stack _ _ _ Hwf) as Hs. unfold stack_repr in Hs. by rewrite Hd in Hs. }
      cbn [sort_into]. rewrite (proj2 (first_nonempty_None Qs) HQ).
      exists s. split; [by eapply deq_null_stack|done].
    + by apply dequeue_batch.
  - destruct (first_nonempty Qs) as [[[p x] l]|] eqn:Hf.
    + destruct (run_fetch (4 + size (heap s)) _ _ _ _ _ _ Hwf Hf) as (s' & Hr & Hwf' & _).
      exists s'. done.
    + by apply first_nonempty_None in Hf.
Qed.

(** Enqueue, run alone, succeeds on every mailbox that is not closed: the
    node becomes the newest of the shared stack, and the caller is told
    MAILBOX_UNBLOCKED exactly when it found the mailbox blocked. *)
Theorem enqueue_refines (s : store) (Sk : list (Z * V)) (Qs : list (list (Z * V)))
    (x : Z) (v : V) (n : Z) :
  mbox_wf s Sk Qs -> m_stack (mbox s) <> dummy_closed ->
  heap s !! x = Some (MkNode v n) -> 3 < x -> x ∉ (Sk ++ concat Qs).*1 ->
  (get_priority v < NP)%nat ->
  exists s', enqueue x s =
      Ok (if m_stack (mbox s) =? dummy_blocked then MAILBOX_UNBLOCKED else MAILBOX_SUCCESS, s') /\
    m_stack (mbox s') = x /\ mbox_wf s' ((x, v) :: Sk) Qs.
Proof.
  intros [Hst HQ Hnd Hnum Hlp Hpr Hsz] Hcl Hn Hx Hin Hp.
  assert (is_dummy x = false /\ (x =? nullptr) = false) as [Hdx Hx0].
  { unfold is_dummy, dummy_empty, dummy_blocked, dummy_closed, nullptr. lia. }
  unfold enqueue. rewrite Hx0. cbn.
  destruct (Z.eqb_spec (m_stack (mbox s)) dummy_closed) as [|_]; [done|]. cbn.
  rewrite Hn. cbn. rewrite Z.eqb_refl. cbn.
  eexists. split; [reflexivity|]. split; [done|].
  rewrite fmap_app, elem_of_app in Hin.
  set (nx := if is_dummy (m_stack (mbox s)) then nullptr else m_stack (mbox s)).
  split; simpl; try done.
  - unfold stack_repr. rewrite Hdx. split; [done|].
    split; [done|]. split; [done|]. exists nx. rewrite lookup_insert_eq. split; [done|].
    unfold nx. unfold stack_repr in Hst. destruct (is_dummy (m_stack (mbox s))).
    + by subst.
    + apply chain_frame; tauto.
  - apply queues_repr_frame; tauto.
  - constructor; [|done]. change (x ∉ (Sk ++ concat Qs).*1). by rewrite fmap_app, elem_of_app.
  - by constructor.
  - by rewrite map_size_insert, Hn.
Qed.

(** Try_block, run alone, blocks the mailbox exactly when nothing is pending
    in it, and otherwise leaves it unchanged. *)
Theorem try_block_refines (s : store) (Sk : list (Z * V)) (Qs : list (list (Z * V))) :
  mbox_wf s Sk Qs ->
  let idle := (m_stack (mbox s) =? dummy_empty) && bool_decide (concat Qs = []) in
  try_block s = Ok (idle, if idle then set_stack dummy_blocked s else s) /\
  mbox_wf (if idle then set_stack dummy_blocked s else s) Sk Qs /\
  (idle = true -> Sk = [] /\ concat Qs = []).
Proof.
  intros Hwf. pose proof Hwf as [Hst HQ Hnd Hnum Hlp Hpr Hsz]. cbv zeta.
  assert ((0 <? m_num_inque (mbox s)) = negb (bool_decide (concat Qs = []))) as Hpos.
  { rewrite Hnum. unfold total. destruct (concat Qs) eqn:E; simpl; [done|].
    apply Z.ltb_lt. lia. }
  unfold try_block. cbn [run_try try_block_step]. rewrite Hpos.
  destruct (bool_decide_reflect (concat Qs = [])) as [HQe|HQe]; simpl;
    [|rewrite andb_false_r; done].
  rewrite andb_true_r.
  destruct (Z.eqb_spec (m_stack (mbox s)) dummy_empty) as [He|He]; simpl; [|done].
  split; [by rewrite He|]. unfold stack_repr in Hst. rewrite He in Hst. simpl in Hst.
  subst Sk. split; [|done]. by split; simpl.
Qed.

(** ** What happens on a closed mailbox *)

(** Dequeue on a closed mailbox reads through the tag value 3: the
    compare-and-swap replaces "closed" by "empty" and the drain loop takes the
    tag for a node. *)
Theorem dequeue_closed_faults (s : store) :
  m_stack (mbox s) = dummy_closed -> m_num_inque (mbox s) = 0 ->
  heap s !! dummy_closed = None ->
  dequeue s = Fault BadDeref.
Proof.
  intros Hc Hn Hh. unfold dequeue. cbn [Nat.add].
  erewrite run_deq_step; [|done|cbn; rewrite Hn; reflexivity].
  erewrite run_deq_step; [|done|cbn; rewrite Hc; reflexivity].
  erewrite run_deq_step; [|done|cbn; rewrite Hc; reflexivity].
  cbn [run_deq deq_step]. change (dummy_closed =? nullptr) with false.
  unfold drain_one. cbn [heap set_stack]. by rewrite Hh.
Qed.

(** Close on a mailbox whose shared stack holds two or more nodes deletes a
    node and then reads its [next] field. *)
Theorem close_use_after_free (s : store) (Sk : list (Z * V)) (Qs : list (list (Z * V))) :
  mbox_wf s Sk Qs -> concat Qs = [] -> (2 <= length Sk)%nat ->
  close s = Fault BadDeref.
Proof.
  intros [Hst HQ Hnd Hnum Hlp Hpr Hsz] HQe Hlen.
  unfold stack_repr in Hst. destruct (is_dummy (m_stack (mbox s))) eqn:Hd;
    [subst; simpl in Hlen; lia|]. destruct Hst as [_ Hc].
  destruct Sk as [|[x v] [|[y w] Sk]]; simpl in Hlen; try lia.
  destruct Hc as (Hx & Hx3 & n & Hn & -> & Hy3 & n' & Hn' & _).
  unfold close, close_free. rewrite Hd.
  destruct (Z.eqb_spec (m_stack (mbox s)) dummy_closed) as [He|_];
    [rewrite He in Hd; done|].
  cbn [mbox set_stack m_num_inque]. rewrite Hnum. unfold total. rewrite HQe.
  change (0 <? Z.of_nat (length (@nil (Z * V)))) with false. cbn. rewrite Hx, Hn. cbn. destruct (Z.eqb_spec y nullptr) as [->|_]; [unfold nullptr in Hy3; lia|].
  rewrite Hn'. cbn. destruct (size (heap s)) eqn:Hs0.
  - apply map_size_empty_inv in Hs0. by rewrite Hs0, lookup_empty in Hn.
  - cbn. by rewrite lookup_delete_eq.
Qed.

(** The loop over the private queues deletes nothing but nodes of theirs. *)
Lemma close_private_spec k s Qs :
  queues_repr (heap s) (m_headers (mbox s)) Qs -> NoDup (concat Qs).*1 -> k = (NP - m_lastp (mbox s))%nat ->
  exists s', close_private k s = Ok s' /\ m_stack (mbox s') = m_stack (mbox s) /\
    m_num_inque (mbox s') = m_num_inque (mbox s) /\ (NP <= m_lastp (mbox s'))%nat /\
    heap s' ⊆ heap s /\ (forall x, x ∉ (concat Qs).*1 -> heap s' !! x = heap s !! x).
Proof.
  revert s Qs; induction k as [|k IH]; intros s Qs HQ Hnd Hk; [exists s; split_and!; (done || lia)|].
  destruct (queues_repr_lookup _ _ _ (m_lastp (mbox s)) HQ) as (q & l & Hq & Hl & Hc); [lia|].
  cbn [close_private]. rewrite Hq. cbn. destruct l as [|[x v] l].
  { simpl in Hc. subst q. cbn. destruct (IH (set_lastp (S (m_lastp (mbox s))) s) Qs) as (s' & ? & ?);
      [done|done|simpl; lia|]. by exists s'. }
  destruct Hc as (-> & Hx & n & Hn & Hc). destruct (Z.eqb_spec x nullptr) as [->|_]; [unfold nullptr in Hx; lia|].
  pose proof (concat_uncons_perm _ _ _ _ Hl) as HP. pose proof Hnd as Hnd'. rewrite HP in Hnd'. simpl in Hnd'.
  apply NoDup_cons in Hnd' as [Hx' Hnd']. rewrite Hn. cbn.
  edestruct (IH (MkStore (delete x (heap s)) (MkMailbox (m_stack (mbox s)) (<[m_lastp (mbox s) := n]> (m_headers (mbox s)))
      (m_num_inque (mbox s)) (S (m_lastp (mbox s))))) (<[m_lastp (mbox s) := l]> Qs)) as (s' & ? & ? & ? & ? & Hsub & Hk');
    [apply queues_repr_delete; [by apply queues_repr_update|done]|done|simpl; lia|].
  exists s'. simpl in *. split_and!; try done.
  - etransitivity; [exact Hsub|]. apply delete_subseteq.
  - intros y Hy. rewrite HP in Hy. simpl in Hy. apply not_elem_of_cons in Hy as [Hyx Hy].
    rewrite Hk' by done. by rewrite lookup_delete_ne.
Qed.

(** Two or more nodes are left behind the pointer [e]. *)
Definition linked (e : Z) (h : gmap Z node) : bool :=
  negb (is_dummy e) && match h !! e with Some n => negb (next n =? nullptr) | None => true end.

Lemma close_free_spec e s Sk Qs :
  stack_repr (heap s) e Sk -> queues_repr (heap s) (m_headers (mbox s)) Qs -> NoDup (Sk ++ concat Qs).*1 ->
  if linked e (heap s) then close_free e s = Fault BadDeref
  else exists s', close_free e s = Ok s' /\ m_stack (mbox s') = m_stack (mbox s) /\
    (0 < m_num_inque (mbox s') -> (NP <= m_lastp (mbox s'))%nat) /\
    heap s' ⊆ heap s /\ (forall x, x ∉ (concat Qs).*1 -> heap s' !! x = heap s !! x).
Proof.
  intros HS HQ Hnd. rewrite fmap_app in Hnd. apply NoDup_app in Hnd as (HndS & Hdis & HndQ).
  assert (exists s2, (if 0 <? m_num_inque (mbox s) then close_private (NP - m_lastp (mbox s)) s else mret s) = Ok s2 /\
    m_stack (mbox s2) = m_stack (mbox s) /\ (0 < m_num_inque (mbox s2) -> (NP <= m_lastp (mbox s2))%nat) /\
    heap s2 ⊆ heap s /\ (forall x, x ∉ (concat Qs).*1 -> heap s2 !! x = heap s !! x)) as (s2 & H2 & Hst & Hlp & Hsub & Hk).
  { destruct (Z.ltb_spec 0 (m_num_inque (mbox s))); [|exists s; split_and!; (done || lia)].
    destruct (close_private_spec _ s Qs HQ HndQ eq_refl) as (s' & ? & ? & ? & ? & ? & ?). exists s'. by split_and!. }
  unfold close_free, linked. rewrite H2. cbn. unfold stack_repr in HS.
  destruct (is_dummy e); [exists s2; by split_and!|]. destruct HS as [Hne Hc].
  destruct Sk as [|[x v] Sk]; [done|]. destruct Hc as (-> & Hx & n & Hn & Hc). rewrite Hn, Hk, Hn by (apply Hdis; by left).
  cbn. destruct Sk as [|[y w] Sk].
  { simpl in Hc. subst n. exists s2. by split_and!. }
  destruct Hc as (-> & Hy & m & Hm & _). destruct (Z.eqb_spec y nullptr) as [->|_]; [unfold nullptr in Hy; lia|]. cbn.
  rewrite Hk, Hm by (apply Hdis; right; by left). cbn. destruct (size (heap s2)) eqn:E; cbn; [|by rewrite lookup_delete_eq].
  apply map_size_empty_inv in E. rewrite <- (Hk x) in Hn by (apply Hdis; by left). by rewrite E in Hn.
Qed.

End Mailbox.

(** ** Witnesses: two priorities, the priority of a value is its parity *)
Module MailboxExamples.
Definition prio (v : nat) : nat := (v mod 2)%nat.

(** Three nodes were pushed (40, 41, 42 in this order), none fetched yet. *)
Definition demo_heap : gmap Z (node (V := nat)) :=
  {[ 10 := MkNode 40%nat 0; 11 := MkNode 41%nat 10; 12 := MkNode 42%nat 11; 13 := MkNode 7%nat 0 ]}.
Definition demo (e : Z) : store := MkStore demo_heap (MkMailbox e [0; 0] 0 2).
Definition demo_stack : list (Z * nat) := [(12, 42%nat); (11, 41%nat); (10, 40%nat)].

Lemma demo_wf : mbox_wf 2 prio (demo 12) demo_stack [[]; []].
Proof.
  split; simpl.
  - split; [done|]. repeat (split; [done|]; split; [lia|]; eexists; split; [reflexivity|]).
    done.
  - split; [done|]. by repeat constructor.
  - apply (bool_decide_unpack _). by vm_compute.
  - done.
  - unfold total; simpl; lia.
  - repeat constructor.
  - done.
Qed.

Lemma demo_idle_wf e : is_dummy e = true -> mbox_wf 2 prio (demo e) [] [[]; []].
Proof.
  intros He. destruct demo_wf as [_ HQ _ Hnum Hlp _ Hsz].
  split; simpl; try done; [unfold stack_repr; by rewrite He|constructor].
Qed.

Lemma dequeue_refines_witness :
  exists s', dequeue 2 prio (demo 12) = Ok (10, s') /\
    mbox_wf 2 prio s' [] [[(12, 42%nat)]; [(11, 41%nat)]].
Proof.
  exact (dequeue_refines 2 prio (demo 12) demo_stack [[]; []] demo_wf ltac:(discriminate)).
Defined.

Lemma enqueue_refines_witness :
  exists s', enqueue 13 (demo 12) = Ok (MAILBOX_SUCCESS, s') /\
    m_stack (mbox s') = 13 /\ mbox_wf 2 prio s' ((13, 7%nat) :: demo_stack) [[]; []].
Proof.
  apply (enqueue_refines 2 prio (demo 12) demo_stack [[]; []] 13 7%nat 0 demo_wf).
  - discriminate.
  - reflexivity.
  - lia.
  - apply (bool_decide_unpack _). by vm_compute.
  - vm_compute. lia.
Defined.

Lemma try_block_refines_witness :
  try_block (demo dummy_empty) = Ok (true, demo dummy_blocked).
Proof.
  exact (proj1 (try_block_refines 2 prio (demo dummy_empty) [] [[]; []]
                  (demo_idle_wf dummy_empty eq_refl))).
Defined.

Lemma dequeue_closed_faults_witness : dequeue 2 prio (demo dummy_closed) = Fault BadDeref.
Proof.
  apply (dequeue_closed_faults 2 prio (demo dummy_closed)); reflexivity.
Defined.

Lemma close_use_after_free_witness : close 2 (demo 12) = Fault BadDeref.
Proof.
  apply (close_use_after_free 2 prio (demo 12) demo_stack [[]; []] demo_wf); simpl; [done|lia].
Defined.
End MailboxExamples.
