(* ===== verification/MailboxConc.v ===== *)
(** * The mailbox under concurrency

    Any number of producers run [enqueue] while the one consumer runs [dequeue],
    [try_block] and [close] in any order: a stream handler dequeues from a mailbox that it
    closed (event_handler.hpp:261 and 320).  A configuration holds the shared memory,
    the program counter of every thread and five history variables: the values
    accepted (in the order of the successful compare-and-swaps), the values
    delivered, how often a producer was told MAILBOX_UNBLOCKED, how often the
    mailbox became blocked and whether it was closed.  Each step of the relation is one
    atomic access of the source.  A consumer whose next access fails takes no step.  A node is allocated before it is enqueued (deliver_message,
    async_write) and its address may be reused once it was delivered and
    deleted, so the addresses that producers remember may be stale. *)
From stdpp Require Import base list gmap numbers relations.
From S2P Require Import Prelude Mailbox.

Section MailboxConc.
Context {V : Type} (NP : nat) (get_priority : V -> nat).

Inductive cons_pc := CIdle | CDeq (pc : deq_pc) | CTry (pc : try_pc) | CClose (pc : close_pc).

Record config := MkConfig {
  st : store (V := V);
  prods : gmap nat (Z * enq_pc);
  cons : cons_pc;
  accepted : list V;
  delivered : list V;
  unblocked : nat;
  blocked : nat;
  closed : bool
}.

Definition init (lastp : nat) : config :=
  MkConfig (MkStore ∅ (new_mailbox NP lastp)) ∅ CIdle [] [] 0 1 false.

(** One step of the producer [t], which is inside enqueue(x). *)
Definition prod_step (t : nat) (σ : config) : outcome config :=
  '(x, pc) ← deref (prods σ !! t);
  n ← deref (heap (st σ) !! x);
  '(pc', s') ← enq_step x pc (st σ);
  mret
    match pc' with
    | ERet r =>
        MkConfig s' (delete t (prods σ)) (cons σ)
          (if decide (r = MAILBOX_FAILURE) then accepted σ else accepted σ ++ [nval n])
          (delivered σ)
          (if decide (r = MAILBOX_UNBLOCKED) then S (unblocked σ) else unblocked σ)
          (blocked σ) (closed σ)
    | _ =>
        MkConfig s' (<[t := (x, pc')]> (prods σ)) (cons σ) (accepted σ) (delivered σ)
          (unblocked σ) (blocked σ) (closed σ)
    end.

(** One step of the consumer; a node it receives is deleted after use. *)
Definition cons_step (σ : config) : outcome config :=
  match cons σ with
  | CDeq pc =>
      '(pc', s') ← deq_step NP get_priority pc (st σ);
      match pc' with
      | DRet r =>
          if r =? nullptr then
            mret (MkConfig s' (prods σ) CIdle (accepted σ) (delivered σ) (unblocked σ) (blocked σ) (closed σ))
          else
            n ← deref (heap s' !! r);
            mret (MkConfig (MkStore (delete r (heap s')) (mbox s')) (prods σ) CIdle
                    (accepted σ) (delivered σ ++ [nval n]) (unblocked σ) (blocked σ) (closed σ))
      | _ =>
          mret (MkConfig s' (prods σ) (CDeq pc') (accepted σ) (delivered σ)
                  (unblocked σ) (blocked σ) (closed σ))
      end
  | CTry pc =>
      let '(pc', s') := try_block_step pc (st σ) in
      mret
        match pc' with
        | TRet b =>
            MkConfig s' (prods σ) CIdle (accepted σ) (delivered σ) (unblocked σ)
              (if b then S (blocked σ) else blocked σ) (closed σ)
        | _ =>
            MkConfig s' (prods σ) (CTry pc') (accepted σ) (delivered σ)
              (unblocked σ) (blocked σ) (closed σ)
        end
  | CClose pc =>
      '(pc', s') ← close_step NP pc (st σ);
      mret (MkConfig s' (prods σ) (match pc' with KRet => CIdle | _ => CClose pc' end) (accepted σ)
              (delivered σ) (unblocked σ) (blocked σ) (match pc' with KFree _ => true | _ => closed σ end))
  | CIdle => mret σ
  end.

Definition set_cons (c : cons_pc) (σ : config) : config :=
  MkConfig (st σ) (prods σ) c (accepted σ) (delivered σ) (unblocked σ) (blocked σ) (closed σ).

Definition spawn (t : nat) (x : Z) (v : V) (σ : config) : config :=
  MkConfig (MkStore (<[x := MkNode v nullptr]> (heap (st σ))) (mbox (st σ)))
    (<[t := (x, ELoad)]> (prods σ)) (cons σ) (accepted σ) (delivered σ)
    (unblocked σ) (blocked σ) (closed σ).

Inductive step : config -> config -> Prop :=
| step_new σ t x v :
    prods σ !! t = None -> 3 < x -> heap (st σ) !! x = None ->
    (get_priority v < NP)%nat -> Z.of_nat (size (heap (st σ))) + 1 < 2 ^ 32 ->
    step σ (spawn t x v σ)
| step_prod σ σ' t :
    is_Some (prods σ !! t) -> prod_step t σ = Ok σ' -> step σ σ'
| step_dequeue σ : cons σ = CIdle -> step σ (set_cons (CDeq DBegin) σ)
| step_try_block σ : cons σ = CIdle -> step σ (set_cons (CTry TBegin) σ)
| step_close σ : cons σ = CIdle -> step σ (set_cons (CClose KLoad) σ)
| step_cons σ σ' : cons_step σ = Ok σ' -> step σ σ'.

Definition reachable (σ : config) : Prop := exists lastp, rtc step (init lastp) σ.

Definition dom_free (x : Z) (σ : config) : Prop := ~ is_Some (heap (st σ) !! x).

(** Schedules: the same steps as commands, so that runs can be computed. *)
Inductive action := ANew (t : nat) (x : Z) (v : V) | AProd (t : nat) | ADequeue | ATry | AClose | ACons.

Definition exec (a : action) (σ : config) : option config :=
  match a with
  | ANew t x v =>
      if bool_decide (prods σ !! t = None) && (3 <? x) && bool_decide (dom_free x σ)
         && Nat.ltb (get_priority v) NP && (Z.of_nat (size (heap (st σ))) + 1 <? 2 ^ 32)
      then Some (spawn t x v σ) else None
  | AProd t =>
      if bool_decide (is_Some (prods σ !! t)) then
        match prod_step t σ with Ok σ' => Some σ' | Fault _ => None end
      else None
  | ADequeue => match cons σ with CIdle => Some (set_cons (CDeq DBegin) σ) | _ => None end
  | ATry => match cons σ with CIdle => Some (set_cons (CTry TBegin) σ) | _ => None end
  | AClose => match cons σ with CIdle => Some (set_cons (CClose KLoad) σ) | _ => None end
  | ACons => match cons_step σ with Ok σ' => Some σ' | Fault _ => None end
  end.

Fixpoint exec_all (l : list action) (σ : config) : option config :=
  match l with
  | [] => Some σ
  | a :: l => σ' ← exec a σ; exec_all l σ'
  end.

Lemma exec_sound a σ σ' : exec a σ = Some σ' -> step σ σ'.
Proof.
  destruct a as [t x v|t| | | |]; simpl; intros H.
  - destruct (_ && _) eqn:E in H; [|done]. injection H as <-.
    rewrite !andb_true_iff, !bool_decide_eq_true, Z.ltb_lt, Nat.ltb_lt, Z.ltb_lt in E.
    destruct_and!. constructor; try done. unfold dom_free in *.
    destruct (heap (st σ) !! x) eqn:Hx; [|done]. exfalso. eauto.
  - case_bool_decide; [|done]. destruct (prod_step t σ) eqn:E; [|done].
    injection H as <-. by eapply step_prod.
  - destruct (cons σ) eqn:E; try done. injection H as <-. by constructor.
  - destruct (cons σ) eqn:E; try done. injection H as <-. by constructor.
  - destruct (cons σ) eqn:E; try done. injection H as <-. by constructor.
  - destruct (cons_step σ) eqn:E; [|done]. injection H as <-. by constructor.
Qed.

Lemma exec_all_reachable l lastp σ : exec_all l (init lastp) = Some σ -> reachable σ.
Proof.
  intros H. exists lastp. revert H. generalize (init lastp).
  induction l as [|a l IH]; simpl; intros σ0 H; [by injection H as <-|].
  destruct (exec a σ0) as [σ1|] eqn:E; simpl in H; [|done].
  eapply rtc_l; [by eapply exec_sound|auto].
Qed.

(** The values of priority [p], in order. *)
Definition of_prio (p : nat) (l : list V) : list V := filter (fun v => get_priority v = p) l.

Definition draining (c : cons_pc) : bool :=
  match c with CDeq (DDrain _) => true | _ => false end.

(** ** The invariant: [Sk] is on the shared stack, [D] is being sorted by the
    consumer, [Qs] are the private queues. *)
Definition cons_ok (σ : config) (D : list (Z * V)) (Qs : list (list (Z * V))) : Prop :=
  match cons σ with
  | CDeq (DDrain e) => chain (heap (st σ)) e D
  | CDeq (DCas e) => D = [] /\ concat Qs = [] /\ e <> dummy_empty /\ e <> dummy_blocked
  | CDeq DLoad | CTry TLoad | CTry TCas => D = [] /\ concat Qs = []
  | CClose (KCas e) => D = [] /\ e <> dummy_closed
  | CDeq (DRet _) | CTry (TRet _) | CClose (KFree _) | CClose KRet => False
  | _ => D = []
  end.

Definition prod_ok (h : gmap Z (node (V := V))) (x : Z) (pc : enq_pc) : Prop :=
  3 < x /\ exists v n, h !! x = Some (MkNode v n) /\ (get_priority v < NP)%nat /\
  match pc with
  | ECas e => e <> dummy_closed /\ n = (if is_dummy e then nullptr else e)
  | ELink e => e <> dummy_closed
  | ELoad => True
  | ERet _ => False
  end.

Record inv (σ : config) (Sk D : list (Z * V)) (Qs : list (list (Z * V)))
  : Prop := {
  i_stack : stack_repr (heap (st σ)) (m_stack (mbox (st σ))) Sk;
  i_queues : queues_repr NP (heap (st σ)) (m_headers (mbox (st σ))) Qs;
  i_cons : cons_ok σ D Qs;
  i_nodup : NoDup (Sk ++ D ++ concat Qs).*1;
  i_num : m_num_inque (mbox (st σ)) = Z.of_nat (total Qs);
  i_lastp : draining (cons σ) = false -> (0 < total Qs)%nat ->
            forall q, (q < m_lastp (mbox (st σ)))%nat -> Qs !!! q = [];
  i_prio : Forall (fun x => (get_priority x.2 < NP)%nat) (Sk ++ D);
  i_byprio : by_prio get_priority Qs;
  i_size : Z.of_nat (size (heap (st σ))) < 2 ^ 32;
  i_prod : forall t x pc, prods σ !! t = Some (x, pc) ->
           prod_ok (heap (st σ)) x pc /\ x ∉ (Sk ++ D ++ concat Qs).*1;
  i_prod_ne : forall t t' x pc pc', prods σ !! t = Some (x, pc) ->
              prods σ !! t' = Some (x, pc') -> t = t';
  i_fifo : forall p, of_prio p (accepted σ) =
           of_prio p (delivered σ) ++ reverse (of_prio p D.*2) ++ (Qs !!! p).*2
             ++ reverse (of_prio p Sk.*2);
  i_open : m_stack (mbox (st σ)) <> dummy_closed /\ closed σ = false;
  i_blocks : blocked σ = (unblocked σ + if is_blocked (st σ) then 1 else 0)%nat;
  i_blocked : m_stack (mbox (st σ)) = dummy_blocked -> D = [] /\ concat Qs = [];
  i_keys : forall x, is_Some (heap (st σ) !! x) -> 3 < x
}.

Lemma init_inv lastp : inv (init lastp) [] [] (replicate NP []).
Proof.
  assert (forall p, replicate NP (@nil (Z * V)) !!! p = []) as Hrep.
  { intros p. apply Forall_lookup_total_nil, Forall_replicate. done. }
  assert (concat (replicate NP (@nil (Z * V))) = []) as Hcc
    by (apply concat_nil_Forall, Forall_replicate; done).
  split; simpl; try done.
  - split; [apply length_replicate|]. clear. induction NP; by constructor.
  - rewrite Hcc. constructor.
  - unfold total. by rewrite Hcc.
  - intros p x. rewrite Hrep. by intros ?%not_elem_of_nil.
  - intros p. by rewrite Hrep.
  - intros x [? H]. by rewrite lookup_empty in H.
Qed.

Lemma keys_insert (h : gmap Z (node (V := V))) x nd :
  (forall y, is_Some (h !! y) -> 3 < y) -> 3 < x -> forall y, is_Some (<[x := nd]> h !! y) -> 3 < y.
Proof. intros Hk Hx y. destruct (decide (x = y)) as [<-|Hne]; [done|]. rewrite lookup_insert_ne by done. apply Hk. Qed.

(** ** After the compare-and-swap of close *)
Definition closed_ok (σ : config) : Prop :=
  match cons σ with
  | CIdle | CDeq DBegin | CTry TBegin | CClose KLoad =>
      m_stack (mbox (st σ)) = dummy_closed /\ (0 < m_num_inque (mbox (st σ)) -> (NP <= m_lastp (mbox (st σ)))%nat)
  | CDeq DLoad | CTry TLoad => m_stack (mbox (st σ)) = dummy_closed /\ m_num_inque (mbox (st σ)) <= 0
  | CDeq (DCas e) => m_stack (mbox (st σ)) = dummy_closed /\ e = dummy_closed
  | CDeq (DDrain e) => m_stack (mbox (st σ)) <> dummy_blocked /\ e = dummy_closed
  | CClose (KFree e) =>
      m_stack (mbox (st σ)) = dummy_closed /\
      ((e = dummy_closed /\ (0 < m_num_inque (mbox (st σ)) -> (NP <= m_lastp (mbox (st σ)))%nat)) \/
       exists Sk Qs, stack_repr (heap (st σ)) e Sk /\ queues_repr NP (heap (st σ)) (m_headers (mbox (st σ))) Qs /\
         NoDup (Sk ++ concat Qs).*1 /\ forall t x pc, prods σ !! t = Some (x, pc) -> x ∉ (Sk ++ concat Qs).*1)
  | CDeq (DRet _) | CTry TCas | CTry (TRet _) | CClose (KCas _) | CClose KRet => False
  end.

Record closed_inv (σ : config) : Prop := {
  c_closed : closed σ = true;
  c_keys : forall x, is_Some (heap (st σ) !! x) -> 3 < x;
  c_prod : forall t x pc, prods σ !! t = Some (x, pc) -> prod_ok (heap (st σ)) x pc;
  c_prod_ne : forall t t' x pc pc', prods σ !! t = Some (x, pc) -> prods σ !! t' = Some (x, pc') -> t = t';
  c_cons : closed_ok σ;
  c_fifo : forall p, exists pending, of_prio p (accepted σ) = of_prio p (delivered σ) ++ pending
}.

Definition good (σ : config) : Prop := (exists Sk D Qs, inv σ Sk D Qs) \/ closed_inv σ.

(** The accesses of the consumer that go wrong once the mailbox is closed: close
    finds two nodes or more on the shared stack, dequeue finds messages counted that close
    did not count out, or dequeue takes the closed tag for a node. *)
Definition doomed (σ : config) : bool :=
  match cons σ with
  | CClose (KFree e) => linked e (heap (st σ))
  | CDeq DBegin => closed σ && (0 <? m_num_inque (mbox (st σ)))
  | CDeq (DDrain _) => closed σ
  | _ => false
  end.

(** ** Preservation *)
Lemma of_prio_app p l k : of_prio p (l ++ k) = of_prio p l ++ of_prio p k.
Proof. apply filter_app. Qed.

Lemma of_prio_one p v : of_prio p [v] = if decide (get_priority v = p) then [v] else [].
Proof. done. Qed.

Lemma cons_ok_chain σ D Qs : cons_ok σ D Qs -> exists e, chain (heap (st σ)) e D.
Proof.
  unfold cons_ok. intros H.
  destruct (cons σ) as [|[]|[]|[]]; try (by eauto); destruct_and?; try done;
    exists nullptr; by subst.
Qed.

Lemma inv_fresh σ Sk D Qs x :
  inv σ Sk D Qs -> heap (st σ) !! x = None ->
  x ∉ (Sk ++ D ++ concat Qs).*1.
Proof.
  intros Hi Hx. rewrite !fmap_app, !elem_of_app.
  assert (forall e l, chain (heap (st σ)) e l -> x ∉ l.*1) as Hc.
  { intros e l Hc Hin. destruct (chain_dom _ _ _ _ Hc Hin) as [? ?]. congruence. }
  destruct (cons_ok_chain _ _ _ (i_cons _ _ _ _ Hi)) as [e HD].
  pose proof (i_stack _ _ _ _ Hi) as HS. unfold stack_repr in HS.
  intros [Hin|[Hin|Hin]].
  - destruct (is_dummy _); [subst Sk; by apply not_elem_of_nil in Hin|].
    destruct HS as [_ HS]. by eapply Hc.
  - by eapply Hc.
  - destruct (queues_repr_dom _ _ _ _ _ (i_queues _ _ _ _ Hi) Hin). congruence.
Qed.

Lemma cons_ok_frame σ σ' D Qs x nd :
  cons σ' = cons σ -> heap (st σ') = <[x := nd]> (heap (st σ)) -> x ∉ D.*1 ->
  cons_ok σ D Qs -> cons_ok σ' D Qs.
Proof.
  unfold cons_ok. intros -> -> Hx. destruct (cons σ) as [|[]|[]|[]]; try done.
  intros Hc. by apply chain_frame.
Qed.

Lemma prod_ok_frame h x y pc nd : prod_ok h x pc -> x <> y -> prod_ok (<[y := nd]> h) x pc.
Proof.
  intros (Hx & v & n & Hn & Hp & Hpc) Hne. split; [done|]. exists v, n.
  rewrite lookup_insert_ne by done. done.
Qed.

Lemma spawn_inv σ t x v Sk D Qs :
  inv σ Sk D Qs -> prods σ !! t = None -> 3 < x -> heap (st σ) !! x = None ->
  (get_priority v < NP)%nat -> Z.of_nat (size (heap (st σ))) + 1 < 2 ^ 32 ->
  inv (spawn t x v σ) Sk D Qs.
Proof.
  intros Hi Ht Hx3 Hx Hp Hsz.
  pose proof (inv_fresh _ _ _ _ _ Hi Hx) as Hfr.
  pose proof Hfr as Hfr'. rewrite !fmap_app, !elem_of_app in Hfr'.
  destruct Hi as [HS HQ HC Hnd Hnum Hlp Hpr Hbp Hsz0 HP HPne Hff Hcl Hb Hbk Hky].
  split; simpl; try done.
  - apply stack_repr_frame; [done|tauto].
  - apply queues_repr_frame; [done|tauto].
  - eapply cons_ok_frame; [..|done]; [done|done|tauto].
  - rewrite map_size_insert, Hx. simpl. lia.
  - intros t' y pc. destruct (decide (t = t')) as [<-|Hne].
    + rewrite lookup_insert_eq. intros [= <- <-]. split; [|done].
      split; [done|]. exists v, nullptr. by rewrite lookup_insert_eq.
    + rewrite lookup_insert_ne by done. intros Hy. destruct (HP _ _ _ Hy) as [Hok Hni].
      split; [|done]. apply prod_ok_frame; [done|]. intros ->.
      destruct Hok as (_ & ? & ? & ? & _). congruence.
  - intros t1 t2 y pc pc' H1 H2.
    destruct (decide (t = t1)) as [<-|]; destruct (decide (t = t2)) as [<-|]; [done| | |].
    + rewrite lookup_insert_eq in H1. rewrite lookup_insert_ne in H2 by done. simplify_eq.
      destruct (HP _ _ _ H2) as [(_ & ? & ? & ? & _) _]. congruence.
    + rewrite lookup_insert_eq in H2. rewrite lookup_insert_ne in H1 by done. simplify_eq.
      destruct (HP _ _ _ H1) as [(_ & ? & ? & ? & _) _]. congruence.
    + rewrite lookup_insert_ne in H1, H2 by done. by eapply HPne.
  - by apply keys_insert.
Qed.

(** A producer that stays inside enqueue may rewrite its own node only. *)
Lemma prod_pc_inv σ t x pc pc' v n n' Sk D Qs :
  inv σ Sk D Qs -> prods σ !! t = Some (x, pc) ->
  heap (st σ) !! x = Some (MkNode v n) ->
  prod_ok (<[x := MkNode v n']> (heap (st σ))) x pc' ->
  inv (MkConfig (MkStore (<[x := MkNode v n']> (heap (st σ))) (mbox (st σ)))
         (<[t := (x, pc')]> (prods σ)) (cons σ) (accepted σ) (delivered σ)
         (unblocked σ) (blocked σ) (closed σ)) Sk D Qs.
Proof.
  intros [HS HQ HC Hnd Hnum Hlp Hpr Hbp Hsz HP HPne Hff Hcl Hb Hbk Hky] Ht Hn Hok.
  destruct (HP _ _ _ Ht) as [_ Hni].
  pose proof Hni as Hni'. rewrite !fmap_app, !elem_of_app in Hni'.
  split; simpl; try done.
  - apply stack_repr_frame; [done|tauto].
  - apply queues_repr_frame; [done|tauto].
  - eapply cons_ok_frame; [..|done]; [done|done|tauto].
  - by rewrite map_size_insert, Hn.
  - intros t' y pc1. destruct (decide (t = t')) as [<-|Hne].
    + rewrite lookup_insert_eq. by intros [= <- <-].
    + rewrite lookup_insert_ne by done. intros Hy. destruct (HP _ _ _ Hy) as [Hoky Hniy].
      split; [|done]. apply prod_ok_frame; [done|]. intros ->. by eapply Hne, HPne.
  - intros t1 t2 y pc1 pc2 H1 H2.
    destruct (decide (t = t1)) as [<-|]; destruct (decide (t = t2)) as [<-|]; [done| | |].
    + rewrite lookup_insert_eq in H1. rewrite lookup_insert_ne in H2 by done.
      simplify_eq. by eapply HPne.
    + rewrite lookup_insert_eq in H2. rewrite lookup_insert_ne in H1 by done.
      simplify_eq. by eapply HPne.
    + rewrite lookup_insert_ne in H1, H2 by done. by eapply HPne.
  - apply keys_insert; eauto.
Qed.

(** A producer that returns without having pushed its node. *)
Lemma prod_gone_inv σ t Sk D Qs :
  inv σ Sk D Qs ->
  inv (MkConfig (st σ) (delete t (prods σ)) (cons σ) (accepted σ) (delivered σ)
         (unblocked σ) (blocked σ) (closed σ)) Sk D Qs.
Proof.
  intros [HS HQ HC Hnd Hnum Hlp Hpr Hbp Hsz HP HPne Hff Hcl Hb Hbk Hky].
  split; simpl; try done.
  - intros t' x pc. rewrite lookup_delete_Some. intros [_ Hx]. eauto.
  - intros t1 t2 x pc pc'. rewrite !lookup_delete_Some. intros [_ ?] [_ ?]. eauto.
Qed.

(** The successful compare-and-swap of enqueue. *)
Lemma prod_push_inv σ t x v Sk D Qs :
  inv σ Sk D Qs -> prods σ !! t = Some (x, ECas (m_stack (mbox (st σ)))) ->
  nval <$> heap (st σ) !! x = Some v ->
  inv (MkConfig (set_stack x (st σ)) (delete t (prods σ)) (cons σ) (accepted σ ++ [v])
         (delivered σ)
         (if m_stack (mbox (st σ)) =? dummy_blocked then S (unblocked σ) else unblocked σ)
         (blocked σ) (closed σ)) ((x, v) :: Sk) D Qs.
Proof.
  intros Hi Ht Hv.
  destruct (i_prod _ _ _ _ Hi _ _ _ Ht) as [(Hx3 & v' & n & Hn & Hp & Hecl & ->) Hni].
  rewrite Hn in Hv. injection Hv as ->.
  destruct Hi as [HS HQ HC Hnd Hnum Hlp Hpr Hbp Hsz HP HPne Hff Hcl Hb Hbk Hky].
  assert (is_dummy x = false /\ x <> dummy_closed /\ (x =? dummy_blocked) = false)
    as (Hdx & Hxc & Hxb)
    by (unfold is_dummy, dummy_empty, dummy_blocked, dummy_closed; lia).
  split; simpl; try done.
  - unfold stack_repr in *. rewrite Hdx. split; [done|]. split; [done|]. split; [done|].
    eexists; split; [done|]. destruct (is_dummy (m_stack _)); [by subst|tauto].
  - by constructor.
  - by constructor.
  - intros t' y pc. rewrite lookup_delete_Some. intros [Hne Hy].
    destruct (HP _ _ _ Hy) as [Hok Hniy]. split; [done|].
    rewrite not_elem_of_cons. split; [|done]. intros ->. by eapply Hne, HPne.
  - intros t1 t2 y pc pc'. rewrite !lookup_delete_Some. intros [_ ?] [_ ?]. eauto.
  - intros p. rewrite of_prio_app, Hff.
    unfold of_prio. rewrite !filter_cons. simpl. rewrite ?app_nil_r.
    destruct (decide (get_priority v = p)); simpl; rewrite ?reverse_cons, ?app_nil_r, <- ?app_assoc; done.
  - by destruct Hcl.
  - rewrite Hb. unfold is_blocked. simpl. rewrite Hxb.
    destruct (m_stack (mbox (st σ)) =? dummy_blocked); lia.
  - intros ->. done.
Qed.

Lemma prod_step_inv σ t Sk D Qs :
  inv σ Sk D Qs -> is_Some (prods σ !! t) ->
  exists σ' Sk', prod_step t σ = Ok σ' /\ inv σ' Sk' D Qs.
Proof.
  intros Hi [[x pc] Ht].
  destruct (i_prod _ _ _ _ Hi _ _ _ Ht) as [(Hx3 & v & n & Hn & Hp & Hpc) Hni].
  unfold prod_step. rewrite Ht. cbn. rewrite Hn. cbn.
  assert (forall pc', prod_ok (heap (st σ)) x pc' ->
            inv (MkConfig (st σ) (<[t := (x, pc')]> (prods σ)) (cons σ) (accepted σ)
                   (delivered σ) (unblocked σ) (blocked σ) (closed σ)) Sk D Qs) as Hmove.
  { intros pc' Hok. pose proof (prod_pc_inv σ t x pc pc' v n n Sk D Qs Hi Ht Hn) as H.
    rewrite insert_id in H by done. destruct (st σ). by apply H. }
  destruct pc as [|e|e|r]; cbn.
  - destruct (Z.eqb_spec (m_stack (mbox (st σ))) dummy_closed) as [He|He]; cbn.
    + eexists _, Sk. split; [done|]. by apply prod_gone_inv.
    + eexists _, Sk. split; [done|]. apply Hmove. split; [done|]. by exists v, n.
  - rewrite Hn. cbn. eexists _, Sk. split; [done|]. eapply prod_pc_inv; [done..|].
    split; [done|]. eexists v, _. rewrite lookup_insert_eq. done.
  - destruct Hpc as [He ->].
    destruct (Z.eqb_spec (m_stack (mbox (st σ))) e) as [<-|Hne]; cbn.
    + eexists _, ((x, v) :: Sk). split; [done|].
      pose proof (prod_push_inv σ t x v Sk D Qs Hi Ht) as H. rewrite Hn in H.
      specialize (H eq_refl). destruct (m_stack (mbox (st σ)) =? dummy_blocked); exact H.
    + eexists _, Sk. split; [done|]. apply Hmove. split; [done|]. by eexists v, _.
  - done.
Qed.

(** ** The consumer *)
Lemma set_cons_inv c σ Sk D Qs :
  inv σ Sk D Qs -> cons_ok (set_cons c σ) D Qs -> draining (cons σ) = false ->
  inv (set_cons c σ) Sk D Qs.
Proof.
  intros [HS HQ HC Hnd Hnum Hlp Hpr Hbp Hsz HP HPne Hff Hcl Hb Hbk Hky] Hok Hdr.
  split; simpl; auto.
Qed.

(** The compare-and-swap of dequeue: the whole stack becomes the batch to sort. *)
Lemma take_stack_inv σ Sk D Qs :
  inv σ Sk D Qs -> cons σ = CDeq (DCas (m_stack (mbox (st σ)))) ->
  inv (MkConfig (set_stack dummy_empty (st σ)) (prods σ) (CDeq (DDrain (m_stack (mbox (st σ)))))
         (accepted σ) (delivered σ) (unblocked σ) (blocked σ) (closed σ)) [] Sk Qs.
Proof.
  intros Hi Hcs. destruct Hi as [HS HQ HC Hnd Hnum Hlp Hpr Hbp Hsz HP HPne Hff Hcl Hb Hbk Hky].
  unfold cons_ok in HC. rewrite Hcs in HC. destruct HC as (-> & HQe & Hne & Hnb).
  destruct Hcl as [Hnc Hopen].
  assert (is_dummy (m_stack (mbox (st σ))) = false) as Hd by (unfold is_dummy; lia).
  unfold stack_repr in HS. rewrite Hd in HS. rewrite app_nil_r in Hpr.
  split; simpl; try done.
  - unfold cons_ok; simpl. tauto.
  - intros p. rewrite Hff. simpl. rewrite (Forall_lookup_total_nil Qs) by (by apply concat_nil_Forall). by rewrite app_nil_r.
  - rewrite Hb. unfold is_blocked; simpl.
    destruct (Z.eqb_spec (m_stack (mbox (st σ))) dummy_blocked); [done|lia].
Qed.

(** One turn of the loop that sorts the batch. *)
Lemma drain_inv σ e x v Sk D Qs :
  inv σ Sk ((x, v) :: D) Qs -> cons σ = CDeq (DDrain e) ->
  exists σ' Qs', cons_step σ = Ok σ' /\ inv σ' Sk D Qs'.
Proof.
  intros Hi Hcs. destruct Hi as [HS HQ HC Hnd Hnum Hlp Hpr Hbp Hsz HP HPne Hff Hcl Hb Hbk Hky].
  unfold cons_ok in HC. rewrite Hcs in HC.
  assert (NoDup ((x, v) :: D ++ concat Qs).*1) as Hnd1.
  { rewrite fmap_app in Hnd. by apply NoDup_app in Hnd as (_ & _ & ?). }
  pose proof (inbox_bound _ _ _ _ _ _ HC HQ Hnd1) as Hlen.
  pose proof Hnd1 as Hnd2. simpl in Hnd2. apply NoDup_cons in Hnd2 as [Hx Hnd2].
  rewrite fmap_app, elem_of_app in Hx.
  assert (x ∉ Sk.*1) as HxS.
  { intros Hin. rewrite fmap_app in Hnd. apply NoDup_app in Hnd as (_ & Hdis & _).
    apply (Hdis x Hin). simpl. constructor. }
  apply Forall_app in Hpr as [HprS HprD]. apply Forall_cons_iff in HprD as [Hp HprD].
  destruct (drain_one_spec NP get_priority (st σ) e x v D Qs)
    as (e' & hd & n & Q & HQp & -> & Hgt & Hn & Hd & HD' & HQ'); [done|done|tauto|tauto|done|].
  unfold cons_step. rewrite Hcs. cbn.
  destruct (Z.eqb_spec x nullptr) as [->|_]; [unfold nullptr in Hgt; lia|].
  rewrite Hd. cbn. eexists _, _. split; [done|].
  assert (Sk ++ D ++ concat (<[get_priority v:=(x, v) :: Q]> Qs) ≡ₚ
          Sk ++ ((x, v) :: D) ++ concat Qs) as HPm.
  { rewrite concat_cons_perm by done. simpl. solve_Permutation. }
  split; simpl; try done.
  - apply stack_repr_frame; done.
  - by rewrite HPm.
  - rewrite Hnum. unfold total. rewrite concat_cons_perm by done. simpl.
    simpl in Hlen. rewrite length_app in Hlen. rewrite wrap_small; width_lia.
  - by apply Forall_app.
  - intros p y. destruct (decide (get_priority v = p)) as [<-|Hne].
    + rewrite list_lookup_total_insert_eq by (by eapply lookup_lt_Some).
      intros [->|Hy]%elem_of_cons; [done|]. apply Hbp.
      by rewrite (list_lookup_total_correct _ _ _ HQp).
    + rewrite list_lookup_total_insert_ne by done. apply Hbp.
  - by rewrite map_size_insert, Hn.
  - intros t y pc Hy. destruct (HP _ _ _ Hy) as [Hok Hni]. split.
    + apply prod_ok_frame; [done|]. intros ->. apply Hni.
      rewrite !fmap_app, !elem_of_app. right; left. simpl. constructor.
    + by rewrite HPm.
  - intros p. rewrite Hff. simpl. f_equal. unfold of_prio. rewrite filter_cons.
    destruct (decide (get_priority v = p)) as [<-|Hne].
    + rewrite list_lookup_total_insert_eq by (by eapply lookup_lt_Some).
      rewrite (list_lookup_total_correct _ _ _ HQp). simpl.
      rewrite reverse_cons, <- app_assoc. done.
    + by rewrite list_lookup_total_insert_ne by done.
  - intros H. by destruct (Hbk H).
  - by apply keys_insert.
Qed.

Lemma drained_inv σ e Sk Qs :
  inv σ Sk [] Qs -> cons σ = CDeq (DDrain e) ->
  exists σ', cons_step σ = Ok σ' /\ inv σ' Sk [] Qs.
Proof.
  intros [HS HQ HC Hnd Hnum Hlp Hpr Hbp Hsz HP HPne Hff Hcl Hb Hbk Hky] Hcs.
  unfold cons_ok in HC. rewrite Hcs in HC. simpl in HC. subst e.
  unfold cons_step. rewrite Hcs. cbn. eexists. split; [done|].
  split; simpl; try done; rewrite Hcs in *; auto; lia.
Qed.

(** The fetch of dequeue: the node is delivered and its memory given back. *)
Lemma deliver_inv σ Sk D Qs :
  inv σ Sk D Qs -> cons σ = CDeq DBegin -> (0 < total Qs)%nat ->
  exists σ' Qs', cons_step σ = Ok σ' /\ inv σ' Sk D Qs'.
Proof.
  intros Hi Hcs Hpos. pose proof (cons_ok_chain _ _ _ (i_cons _ _ _ _ Hi)) as [e0 HD].
  destruct Hi as [HS HQ HC Hnd Hnum Hlp Hpr Hbp Hsz HP HPne Hff Hcl Hb Hbk Hky].
  unfold cons_ok in HC. rewrite Hcs in *. subst D.
  destruct (first_nonempty Qs) as [[[p [x v]] l]|] eqn:Hf;
    [|apply first_nonempty_None in Hf; unfold total in Hpos; rewrite Hf in Hpos; simpl in Hpos; lia].
  pose proof (proj1 (first_nonempty_spec _ _ _ _) Hf) as [Hp Hlt].
  pose proof (concat_uncons_perm _ _ _ _ Hp) as HPm.
  assert (m_lastp (mbox (st σ)) <= p)%nat as Hle.
  { destruct (decide (m_lastp (mbox (st σ)) <= p)%nat) as [|H]; [done|].
    specialize (Hlp eq_refl Hpos p ltac:(lia)).
    by rewrite (list_lookup_total_correct _ _ _ Hp) in Hlp. }
  destruct (fetch_spec NP _ _ (mbox (st σ)) Qs p x v l HQ eq_refl Hf Hle) as (n & Hn & Hfe & HQ').
  assert (Z.of_nat (total Qs) < 2 ^ 32) as Hbd.
  { enough (total Qs <= size (heap (st σ)))%nat by lia.
    apply (inbox_bound NP (heap (st σ)) nullptr [] (m_headers (mbox (st σ))) Qs); [done|done|].
    rewrite !fmap_app in Hnd. by apply NoDup_app in Hnd as (_ & _ & ?). }
  assert (total Qs = S (total (<[p := l]> Qs))) as Htot by (unfold total; by rewrite HPm).
  simpl in Hnd, HP. rewrite HPm, <- Permutation_middle in Hnd. simpl in Hnd.
  apply NoDup_cons in Hnd as [Hx Hnd].
  pose proof Hx as Hx'. rewrite fmap_app, elem_of_app in Hx'.
  assert (3 < x) as Hx3.
  { destruct (queues_repr_lookup _ _ _ _ p HQ) as (q & l' & _ & Hl' & Hc).
    - rewrite <- (queues_repr_length _ _ _ _ HQ). by eapply lookup_lt_Some.
    - simplify_eq. by destruct Hc as (_ & ? & _). }
  unfold cons_step. rewrite Hcs. cbn.
  destruct (Z.ltb_spec 0 (m_num_inque (mbox (st σ)))) as [_|]; [|lia].
  rewrite Hfe. cbn. destruct (Z.eqb_spec x nullptr) as [->|_]; [unfold nullptr in Hx3; lia|].
  rewrite Hn. cbn. eexists _, _. split; [done|].
  split; simpl; try done.
  - apply stack_repr_delete; [done|tauto].
  - apply queues_repr_delete; [done|tauto].
  - rewrite Hnum, Htot, wrap_small; width_lia.
  - intros _ _ q Hq. rewrite list_lookup_total_insert_ne by lia. auto.
  - intros q y. destruct (decide (p = q)) as [<-|Hne].
    + rewrite list_lookup_total_insert_eq by (by eapply lookup_lt_Some).
      intros Hy. apply Hbp. rewrite (list_lookup_total_correct _ _ _ Hp). by constructor.
    + rewrite list_lookup_total_insert_ne by done. apply Hbp.
  - rewrite map_size_delete, Hn. simpl. lia.
  - intros t y pc Hy. destruct (HP _ _ _ Hy) as [Hok Hni].
    rewrite HPm, <- Permutation_middle in Hni. simpl in Hni.
    apply not_elem_of_cons in Hni as [Hyx Hni]. split; [|done].
    destruct Hok as (Hy3 & v' & n' & Hn' & Hrest). split; [done|]. exists v', n'.
    by rewrite lookup_delete_ne.
  - intros q. rewrite Hff, of_prio_app, <- app_assoc. f_equal. simpl.
    assert (get_priority v = p) as Hvp.
    { apply (Hbp p (x, v)). rewrite (list_lookup_total_correct _ _ _ Hp). constructor. }
    rewrite of_prio_one, Hvp. destruct (decide (p = q)) as [<-|Hne].
    + rewrite list_lookup_total_insert_eq by (by eapply lookup_lt_Some).
      by rewrite (list_lookup_total_correct _ _ _ Hp).
    + by rewrite list_lookup_total_insert_ne by done.
  - intros H. destruct (Hbk H) as [_ HQe]. unfold total in Hpos. rewrite HQe in Hpos.
    simpl in Hpos. lia.
  - intros y [nd Hy]. apply lookup_delete_Some in Hy as [_ Hy]. eauto.
Qed.

(** The successful compare-and-swap of try_block. *)
Lemma block_inv σ Sk D Qs :
  inv σ Sk D Qs -> cons σ = CTry TCas -> m_stack (mbox (st σ)) = dummy_empty ->
  inv (MkConfig (set_stack dummy_blocked (st σ)) (prods σ) CIdle (accepted σ) (delivered σ)
         (unblocked σ) (S (blocked σ)) (closed σ)) Sk D Qs.
Proof.
  intros [HS HQ HC Hnd Hnum Hlp Hpr Hbp Hsz HP HPne Hff Hcl Hb Hbk Hky] Hcs He.
  unfold cons_ok in HC. rewrite Hcs in *. destruct HC as [-> HQe].
  unfold stack_repr in HS. rewrite He in HS. simpl in HS. subst Sk.
  split; simpl; try done; auto.
  { by destruct Hcl. }
  rewrite Hb. unfold is_blocked. simpl. rewrite He. simpl. lia.
Qed.

(** The compare-and-swap of close. *)
Lemma close_cas_inv σ Sk Qs :
  inv σ Sk [] Qs -> closed_inv (MkConfig (set_stack dummy_closed (st σ)) (prods σ)
    (CClose (KFree (m_stack (mbox (st σ))))) (accepted σ) (delivered σ) (unblocked σ) (blocked σ) true).
Proof.
  intros [HS HQ HC Hnd Hnum Hlp Hpr Hbp Hsz HP HPne Hff Hcl Hb Hbk Hky].
  split; simpl; try done.
  - intros t x pc Hx. by destruct (HP _ _ _ Hx).
  - split; [done|]. right. exists Sk, Qs. split_and!; try done. intros t x pc Hx. by destruct (HP _ _ _ Hx).
  - intros p. rewrite Hff. eauto.
Qed.

Lemma cons_step_inv σ Sk D Qs :
  inv σ Sk D Qs -> exists σ', cons_step σ = Ok σ' /\ good σ'.
Proof.
  intros Hi. pose proof (i_cons _ _ _ _ Hi) as HC.
  pose proof (i_num _ _ _ _ Hi) as Hnum.
  destruct (cons σ) as [|pc|pc|pc] eqn:Hcs.
  - exists σ. unfold cons_step. rewrite Hcs. split; [done|]. left; eauto.
  - unfold cons_ok in HC. rewrite Hcs in HC. destruct pc as [| |e|e|r]; [| | | |done].
    + destruct (decide (0 < total Qs)%nat) as [Hpos|Hz].
      { destruct (deliver_inv σ Sk D Qs Hi Hcs Hpos) as (σ' & Qs' & ? & ?).
        exists σ'. split; [done|]. left; eauto. }
      exists (set_cons (CDeq DLoad) σ). unfold cons_step. rewrite Hcs. cbn.
      destruct (Z.ltb_spec 0 (m_num_inque (mbox (st σ)))) as [|_]; [lia|]. split; [done|].
      left. exists Sk, D, Qs. apply set_cons_inv; rewrite ?Hcs; try done. split; [done|].
      apply length_zero_iff_nil. unfold total in Hz. lia.
    + destruct HC as [-> HQe]. unfold cons_step. rewrite Hcs. cbn.
      destruct (Z.eqb_spec (m_stack (mbox (st σ))) dummy_blocked);
        [|destruct (Z.eqb_spec (m_stack (mbox (st σ))) dummy_empty)]; cbn;
        eexists; (split; [done|]); left; exists Sk, [], Qs;
        by apply set_cons_inv; rewrite ?Hcs.
    + destruct HC as (-> & HQe & He & Hb).
      destruct (Z.eqb_spec (m_stack (mbox (st σ))) e) as [<-|Hne].
      * pose proof (take_stack_inv σ Sk [] Qs Hi Hcs) as Hi'. unfold cons_step. rewrite Hcs. cbn.
        rewrite Z.eqb_refl. cbn. eexists. split; [done|]. left; eauto.
      * exists (set_cons (CDeq DLoad) σ). unfold cons_step. rewrite Hcs. cbn.
        rewrite (proj2 (Z.eqb_neq _ _) Hne). split; [done|].
        left. exists Sk, [], Qs. by apply set_cons_inv; rewrite ?Hcs.
    + destruct D as [|[x v] D].
      * destruct (drained_inv σ e Sk Qs Hi Hcs) as (σ' & ? & ?). exists σ'. split; [done|]. left; eauto.
      * destruct (drain_inv σ e x v Sk D Qs Hi Hcs) as (σ' & Qs' & ? & ?).
        exists σ'. split; [done|]. left; eauto.
  - unfold cons_ok in HC. rewrite Hcs in HC. unfold cons_step. rewrite Hcs.
    destruct pc as [| | |b]; [| | |done]; cbn.
    + destruct (Z.ltb_spec 0 (m_num_inque (mbox (st σ)))) as [Hp|Hp]; cbn;
        eexists; (split; [done|]); left; exists Sk, D, Qs; apply set_cons_inv; rewrite ?Hcs; try done.
      split; [done|]. apply length_zero_iff_nil. unfold total in Hnum. lia.
    + destruct (Z.eqb_spec (m_stack (mbox (st σ))) dummy_empty); cbn;
        eexists; (split; [done|]); left; exists Sk, D, Qs; apply set_cons_inv; rewrite ?Hcs; try done;
        by destruct HC.
    + destruct (Z.eqb_spec (m_stack (mbox (st σ))) dummy_empty) as [He|]; cbn;
        eexists; (split; [done|]); left; exists Sk, D, Qs.
      * by apply block_inv.
      * by apply set_cons_inv; rewrite ?Hcs.
  - unfold cons_ok in HC. rewrite Hcs in HC. unfold cons_step. rewrite Hcs.
    destruct pc as [|e|e|]; [| |done|done]; cbn.
    + destruct (i_open _ _ _ _ Hi) as [Ho _]. rewrite (proj2 (Z.eqb_neq _ _) Ho). cbn.
      eexists. split; [done|]. left. exists Sk, D, Qs. by apply (set_cons_inv (CClose (KCas _))); rewrite ?Hcs.
    + destruct HC as [-> He]. destruct (Z.eqb_spec (m_stack (mbox (st σ))) e) as [<-|Hne]; cbn;
        eexists; (split; [done|]); [right; by eapply close_cas_inv|].
      left. exists Sk, [], Qs. by apply (set_cons_inv (CClose KLoad)); rewrite ?Hcs.
Qed.

(** ** The closed mailbox *)
Lemma closed_ok_frame σ σ' x nd :
  closed_ok σ -> cons σ' = cons σ -> mbox (st σ') = mbox (st σ) -> heap (st σ') = <[x := nd]> (heap (st σ)) ->
  heap (st σ) !! x = None \/ (exists t pc, prods σ !! t = Some (x, pc)) ->
  (forall t y pc, prods σ' !! t = Some (y, pc) -> y = x \/ exists t' pc', prods σ !! t' = Some (y, pc')) ->
  closed_ok σ'.
Proof.
  unfold closed_ok. intros HC -> -> -> Hx HP. destruct (cons σ) as [|[]|[]|[]]; try done.
  destruct HC as [Hst [?|(Sk & Qs & HS & HQ & Hnd & Hni)]]; [tauto|]. split; [done|]. right.
  assert (x ∉ (Sk ++ concat Qs).*1) as Hxn.
  { destruct Hx as [Hx|(t & pc & Hx)]; [|eauto]. rewrite fmap_app, elem_of_app. intros [Hin|Hin].
    - unfold stack_repr in HS. destruct (is_dummy e); [subst; by apply not_elem_of_nil in Hin|].
      destruct HS as [_ HS]. destruct (chain_dom _ _ _ _ HS Hin). congruence.
    - destruct (queues_repr_dom _ _ _ _ _ HQ Hin). congruence. }
  pose proof Hxn as Hxn'. rewrite fmap_app, elem_of_app in Hxn'. exists Sk, Qs. split_and!; try done.
  - apply stack_repr_frame; tauto.
  - apply queues_repr_frame; tauto.
  - intros t y pc Hy. destruct (HP _ _ _ Hy) as [->|(t' & pc' & Hy')]; eauto.
Qed.

Lemma closed_spawn σ t x v :
  closed_inv σ -> prods σ !! t = None -> 3 < x -> heap (st σ) !! x = None -> (get_priority v < NP)%nat ->
  closed_inv (spawn t x v σ).
Proof.
  intros [Hcl Hky HP HPne HC Hff] Ht Hx3 Hx Hp.
  assert (forall t' y pc, prods σ !! t' = Some (y, pc) -> x <> y) as Hne.
  { intros t' y pc Hy ->. destruct (HP _ _ _ Hy) as (_ & ? & ? & ? & _). congruence. }
  split; simpl; try done.
  - by apply keys_insert.
  - intros t' y pc. rewrite lookup_insert_Some. intros [[<- [= <- <-]]|[_ Hy]].
    + split; [done|]. exists v, nullptr. by rewrite lookup_insert_eq.
    + apply prod_ok_frame; [eauto|]. intros ->. by eapply Hne.
  - intros t1 t2 y pc1 pc2. rewrite !lookup_insert_Some.
    intros [[<- [= <- <-]]|[_ H1]] [[<- E]|[_ H2]]; simplify_eq; try done;
      [by destruct (Hne _ _ _ H2)|by destruct (Hne _ _ _ H1)|by eapply HPne].
  - eapply closed_ok_frame; [exact HC|done..| |]; [by left|]. simpl.
    intros t' y pc. rewrite lookup_insert_Some. intros [[_ [= <- _]]|[_ Hy]]; eauto.
Qed.

(** A producer inside enqueue rewrites its own node, or returns. *)
Lemma closed_prod_pc σ t x pc opc v n n' :
  closed_inv σ -> prods σ !! t = Some (x, pc) -> heap (st σ) !! x = Some (MkNode v n) ->
  (forall pc', opc = Some pc' -> prod_ok (<[x := MkNode v n']> (heap (st σ))) x pc') ->
  closed_inv (MkConfig (MkStore (<[x := MkNode v n']> (heap (st σ))) (mbox (st σ)))
    (match opc with Some pc' => <[t := (x, pc')]> (prods σ) | None => delete t (prods σ) end) (cons σ) (accepted σ)
    (delivered σ) (unblocked σ) (blocked σ) (closed σ)).
Proof.
  intros [Hcl Hky HP HPne HC Hff] Ht Hn Hok.
  assert (forall t' y pc1, (match opc with Some pc' => <[t := (x, pc')]> (prods σ) | None => delete t (prods σ) end) !! t'
    = Some (y, pc1) -> (t' = t /\ y = x /\ opc = Some pc1) \/ (t' <> t /\ prods σ !! t' = Some (y, pc1))) as Hin.
  { intros t' y pc1. destruct opc as [pc'|]; rewrite ?lookup_insert_Some, ?lookup_delete_Some; naive_solver. }
  split; simpl; try done.
  - apply keys_insert; eauto.
  - intros t' y pc1 [(-> & -> & ->)|[Hne Hy]]%Hin; [auto|]. apply prod_ok_frame; [eauto|]. intros ->. by eapply Hne, HPne.
  - intros t1 t2 y pc1 pc2 [(-> & -> & _)|[N1 H1]]%Hin [(-> & E & _)|[N2 H2]]%Hin; subst; try done; by eapply HPne.
  - eapply closed_ok_frame; [exact HC|done..| |]; [by eauto|]. simpl.
    intros t' y pc1 [(_ & -> & _)|[_ Hy]]%Hin; eauto.
Qed.

Lemma closed_prod_step σ t :
  closed_inv σ -> is_Some (prods σ !! t) -> exists σ', prod_step t σ = Ok σ' /\ closed_inv σ'.
Proof.
  intros Hi [[x pc] Ht]. destruct (c_prod _ Hi _ _ _ Ht) as (Hx3 & v & n & Hn & Hp & Hpc).
  unfold prod_step. rewrite Ht. cbn. rewrite Hn. cbn.
  assert (forall opc, (forall pc', opc = Some pc' -> prod_ok (heap (st σ)) x pc') ->
    closed_inv (MkConfig (st σ) (match opc with Some pc' => <[t := (x, pc')]> (prods σ) | None => delete t (prods σ) end)
      (cons σ) (accepted σ) (delivered σ) (unblocked σ) (blocked σ) (closed σ))) as Hmove.
  { intros opc Hok. pose proof (closed_prod_pc σ t x pc opc v n n Hi Ht Hn) as H.
    rewrite insert_id in H by done. destruct (st σ). by apply H. }
  destruct pc as [|e|e|r]; cbn.
  - destruct (Z.eqb_spec (m_stack (mbox (st σ))) dummy_closed) as [He|He]; cbn;
      (eexists; split; [done|]); [by apply (Hmove None)|].
    apply (Hmove (Some (ELink _))). intros ? [= <-]. split; [done|]. by exists v, n.
  - rewrite Hn. cbn. eexists. split; [done|].
    eapply (closed_prod_pc _ _ _ _ (Some (ECas e))); [done..|]. intros ? [= <-].
    split; [done|]. eexists v, _. rewrite lookup_insert_eq. done.
  - destruct Hpc as [He ->]. destruct (Z.eqb_spec (m_stack (mbox (st σ))) e) as [<-|Hne]; cbn;
      (eexists; split; [done|]).
    + destruct (Hmove None ltac:(done)) as [Hcl Hky HP HPne HC Hff]. split; simpl; try done.
      * unfold closed_ok in *. simpl in *. destruct (cons σ) as [|[]|[]|[]]; destruct HC; try done.
        split; [unfold dummy_blocked; lia|done].
      * intros p. destruct (Hff p) as [pending E]. simpl in E. exists (pending ++ of_prio p [v]).
        destruct (decide _) as [E'|_]; [by destruct (_ =? _) in E'|]. by rewrite of_prio_app, E, app_assoc.
    + apply (Hmove (Some ELoad)). intros ? [= <-]. split; [done|]. by eexists v, _.
  - done.
Qed.

(** The consumer moves on, and may have deleted nodes that no producer owns. *)
Lemma closed_set σ s' c u b cl :
  closed_inv σ -> cl = true -> heap s' ⊆ heap (st σ) ->
  (forall t x pc, prods σ !! t = Some (x, pc) -> heap s' !! x = heap (st σ) !! x) ->
  closed_ok (MkConfig s' (prods σ) c (accepted σ) (delivered σ) u b cl) ->
  closed_inv (MkConfig s' (prods σ) c (accepted σ) (delivered σ) u b cl).
Proof.
  intros [Hcl Hky HP HPne HC Hff] -> Hsub Hkeep Hok. split; simpl; try done.
  - intros x [nd Hx]. apply Hky. exists nd. by eapply lookup_weaken.
  - intros t x pc Hx. destruct (HP _ _ _ Hx) as (? & v & n & Hn & ?). split; [done|]. exists v, n.
    by rewrite (Hkeep _ _ _ Hx).
Qed.

(** Close, after its compare-and-swap. *)
Lemma closed_free_step σ e :
  closed_inv σ -> cons σ = CClose (KFree e) ->
  if linked e (heap (st σ)) then cons_step σ = Fault BadDeref else exists σ', cons_step σ = Ok σ' /\ closed_inv σ'.
Proof.
  intros Hi Hcs. pose proof (c_cons _ Hi) as HC. unfold closed_ok in HC. rewrite Hcs in HC.
  destruct HC as [Hst HC]. unfold cons_step. rewrite Hcs. cbn.
  destruct HC as [[-> Hlp]|(Sk & Qs & HS & HQ & Hnd & Hni)].
  - cbn. unfold close_free. cbn. assert ((if 0 <? m_num_inque (mbox (st σ)) then
      close_private (NP - m_lastp (mbox (st σ))) (st σ) else mret (st σ)) = Ok (st σ)) as ->.
    { destruct (Z.ltb_spec 0 (m_num_inque (mbox (st σ)))) as [Hp|]; [|done].
      by replace (NP - m_lastp (mbox (st σ)))%nat with O by (specialize (Hlp Hp); lia). }
    cbn. eexists. split; [done|]. apply closed_set; try done. by apply c_closed.
  - pose proof (close_free_spec NP e (st σ) Sk Qs HS HQ Hnd) as H.
    destruct (linked e (heap (st σ))); [by rewrite H|]. destruct H as (s' & -> & Hst' & Hlp & Hsub & Hkeep).
    cbn. eexists. split; [done|]. apply closed_set; try done; [by apply c_closed| |].
    + intros t x pc Hx. apply Hkeep. specialize (Hni _ _ _ Hx). rewrite fmap_app, elem_of_app in Hni. tauto.
    + unfold closed_ok. simpl. by rewrite Hst'.
Qed.

(** What the consumer meets, step by step. *)
Lemma closed_cons_step σ :
  closed_inv σ ->
  if doomed σ then exists f, cons_step σ = Fault f /\ f <> OutOfFuel else exists σ', cons_step σ = Ok σ' /\ closed_inv σ'.
Proof.
  intros Hi. pose proof (c_cons _ Hi) as HC. pose proof (c_closed _ Hi) as Hcl. unfold closed_ok in HC.
  destruct (cons σ) as [|[| |e|e|r]|[| | |b]|[|e|e|]] eqn:Hcs; try done.
  9:{ pose proof (closed_free_step σ e Hi Hcs) as H. unfold doomed. rewrite Hcs. destruct (linked e _); eauto. }
  all: unfold doomed, cons_step; rewrite Hcs, ?Hcl; cbn.
  - by exists σ.
  - destruct HC as [Hst Hlp]. destruct (Z.ltb_spec 0 (m_num_inque (mbox (st σ)))) as [Hp|Hp]; cbn.
    + replace (NP - m_lastp (mbox (st σ)))%nat with O by (specialize (Hlp Hp); lia). by exists AssertFailed.
    + eexists. split; [done|]. by apply closed_set.
  - destruct HC as [Hst Hp]. rewrite Hst. cbn. eexists. split; [done|]. by apply closed_set.
  - destruct HC as [Hst ->]. rewrite Hst. cbn. eexists. split; [done|]. by apply closed_set.
  - destruct HC as [Hst ->]. unfold drain_one. destruct (heap (st σ) !! dummy_closed) as [nd|] eqn:E.
    + pose proof (c_keys _ Hi dummy_closed ltac:(eauto)). unfold dummy_closed in *. lia.
    + by exists BadDeref.
  - destruct HC as [Hst Hlp]. destruct (Z.ltb_spec 0 (m_num_inque (mbox (st σ)))) as [Hp|Hp]; cbn;
      (eexists; split; [done|]); by apply closed_set.
  - destruct HC as [Hst Hp]. rewrite Hst. cbn. eexists. split; [done|]. apply closed_set; try done. split; [done|]. simpl. intros ?. lia.
  - destruct HC as [Hst Hp]. rewrite Hst. cbn. eexists. split; [done|]. apply closed_set; try done. split; [done|]. by left.
Qed.

Lemma step_good σ σ' : good σ -> step σ σ' -> good σ'.
Proof.
  intros [(Sk & D & Qs & Hi)|Hi] Hs.
  - destruct Hs as [σ t x v ? ? ? ? ?|σ σ' t Ht Hp|σ Hcs|σ Hcs|σ Hcs|σ σ' Hc];
      try (left; exists Sk, D, Qs; pose proof (i_cons _ _ _ _ Hi) as HC; unfold cons_ok in HC; rewrite Hcs in HC;
           by apply set_cons_inv; rewrite ?Hcs).
    + left. exists Sk, D, Qs. by apply spawn_inv.
    + destruct (prod_step_inv σ t Sk D Qs Hi Ht) as (σ2 & Sk' & Hp' & Hi').
      rewrite Hp in Hp'. injection Hp' as <-. left; eauto.
    + destruct (cons_step_inv σ Sk D Qs Hi) as (σ2 & Hc' & Hi').
      rewrite Hc in Hc'. by injection Hc' as <-.
  - right. destruct Hs as [σ t x v ? ? ? ? ?|σ σ' t Ht Hp|σ Hcs|σ Hcs|σ Hcs|σ σ' Hc];
      try (pose proof (c_cons _ Hi) as HC; unfold closed_ok in HC; rewrite Hcs in HC;
           apply closed_set; try done; by apply c_closed).
    + by apply closed_spawn.
    + destruct (closed_prod_step σ t Hi Ht) as (σ2 & Hp' & Hi'). rewrite Hp in Hp'. by injection Hp' as <-.
    + pose proof (closed_cons_step σ Hi) as H. destruct (doomed σ).
      * destruct H as (f & Hf & _). by rewrite Hc in Hf.
      * destruct H as (σ2 & Hc' & ?). rewrite Hc in Hc'. by injection Hc' as <-.
Qed.

Lemma reachable_good σ : reachable σ -> good σ.
Proof.
  intros [lastp Hr]. remember (init lastp) as σ0 eqn:E.
  assert (good σ0) as H0 by (subst; left; eauto using init_inv).
  clear E. induction Hr as [|σ1 σ2 σ3 Hs Hr IH]; [done|]. eauto using step_good.
Qed.

Lemma inv_not_doomed σ Sk D Qs : inv σ Sk D Qs -> doomed σ = false.
Proof.
  intros Hi. pose proof (i_cons _ _ _ _ Hi) as HC. destruct (i_open _ _ _ _ Hi) as [_ Ho].
  unfold cons_ok, doomed in *. by destruct (cons σ) as [|[]|[]|[]]; rewrite ?Ho.
Qed.

Lemma closed_not_blocked σ : closed_inv σ -> m_stack (mbox (st σ)) <> dummy_blocked.
Proof.
  intros Hi. pose proof (c_cons _ Hi) as HC. unfold closed_ok in HC.
  destruct (cons σ) as [|[]|[]|[]]; try done; destruct HC as [Hst _]; by rewrite ?Hst.
Qed.

(** ** Theorems *)

(** C1: under every interleaving of any number of producers with the consumer, which may close
    the mailbox at any time and go on using it: no access of enqueue, dequeue, try_block or
    close goes through a pointer that is not a live node and no assertion fails, every
    thread can always take its next step, except that the consumer's next step fails in exactly
    the cases of [doomed]: a close that frees a detached list of two nodes or more, and
    after a close a dequeue that finds messages counted or takes the closed tag for a node.
    Producers are safe even then. *)
Theorem mailbox_memory_safe (σ : config) :
  reachable σ ->
  (forall t, is_Some (prods σ !! t) -> exists σ', prod_step t σ = Ok σ') /\
  (closed σ = false -> doomed σ = false) /\
  if doomed σ then exists f, cons_step σ = Fault f /\ f <> OutOfFuel else exists σ', cons_step σ = Ok σ'.
Proof.
  intros [(Sk & D & Qs & Hi)|Hi]%reachable_good.
  - split; [intros t Ht; destruct (prod_step_inv σ t Sk D Qs Hi Ht) as (σ' & ? & ? & _); eauto|].
    rewrite (inv_not_doomed σ Sk D Qs Hi). split; [done|].
    destruct (cons_step_inv σ Sk D Qs Hi) as (σ' & ? & _). eauto.
  - split; [intros t Ht; destruct (closed_prod_step σ t Hi Ht) as (σ' & ? & _); eauto|].
    split; [by rewrite (c_closed _ Hi)|]. pose proof (closed_cons_step σ Hi) as H. destruct (doomed σ); [done|].
    destruct H as (σ' & ? & _). eauto.
Qed.

(** C3: within one priority the mailbox is a FIFO queue: at every moment, what
    was delivered is a prefix of what the compare-and-swaps of enqueue accepted,
    so no message is lost, invented, duplicated or reordered in its priority. *)
Theorem mailbox_fifo_per_priority (σ : config) (p : nat) :
  reachable σ -> exists pending, of_prio p (accepted σ) = of_prio p (delivered σ) ++ pending.
Proof. intros [(Sk & D & Qs & Hi)|Hi]%reachable_good; [rewrite (i_fifo _ _ _ _ Hi p); eauto|apply (c_fifo _ Hi)]. Qed.

(** C2: a mailbox that is blocked has nothing pending: whenever the shared word
    is the blocked tag, everything that was accepted has been delivered.  An actor whose mailbox
    blocked never sleeps on a message. *)
Theorem no_lost_wakeup (σ : config) (p : nat) :
  reachable σ -> is_blocked (st σ) = true ->
  of_prio p (accepted σ) = of_prio p (delivered σ).
Proof.
  intros [(Sk & D & Qs & Hi)|Hi]%reachable_good Hb%Z.eqb_eq.
  - destruct Hi as [HS HQ HC _ Hnum _ _ _ _ _ _ Hff Hcl _ Hbk _].
    destruct (Hbk Hb) as [-> HQe]. unfold stack_repr in HS. rewrite Hb in *. simpl in HS. subst Sk.
    rewrite Hff. rewrite (Forall_lookup_total_nil Qs) by (by apply concat_nil_Forall).
    simpl. by rewrite !app_nil_r.
  - by destruct (closed_not_blocked σ Hi).
Qed.

(** Until the mailbox is closed, the number of enqueues that were told
    MAILBOX_UNBLOCKED is the number of times it became blocked, less one while
    it is blocked: each blocking is ended by exactly one producer, which is the
    one that reschedules the actor. *)
Theorem one_unblock_per_block (σ : config) :
  reachable σ -> closed σ = false ->
  blocked σ = (unblocked σ + if is_blocked (st σ) then 1 else 0)%nat.
Proof.
  intros [(Sk & D & Qs & Hi)|Hi]%reachable_good Hc; [apply (i_blocks _ _ _ _ Hi)|].
  by rewrite (c_closed _ Hi) in Hc.
Qed.

End MailboxConc.

(** ** Witnesses: two producers race for a blocked mailbox; the one that loses
    the first compare-and-swap retries; the consumer then empties the mailbox
    and blocks it again. *)
Module MailboxConcExamples.
Definition race : list (action (V := nat)) :=
  [ANew 1 10 40%nat; ANew 2 11 41%nat; AProd 1; AProd 2; AProd 2; AProd 1; AProd 2;
   AProd 1; AProd 1; AProd 1; AProd 1].
Definition consume : list (action (V := nat)) :=
  ADequeue :: replicate 7 ACons ++ [ADequeue; ACons; ATry; ACons; ACons; ACons].
Definition start : config (V := nat) := init 2 0.
Definition raced : config := default start (exec_all 2 MailboxExamples.prio race start).
Definition emptied : config := default start (exec_all 2 MailboxExamples.prio (race ++ consume) start).

Lemma raced_reachable : reachable 2 MailboxExamples.prio raced.
Proof. apply (exec_all_reachable _ _ race 0). vm_compute. reflexivity. Qed.

Lemma emptied_reachable : reachable 2 MailboxExamples.prio emptied.
Proof. apply (exec_all_reachable _ _ (race ++ consume) 0). vm_compute. reflexivity. Qed.

Example raced_history :
  (accepted raced, unblocked raced, accepted emptied, delivered emptied, blocked emptied)
  = ([41%nat; 40%nat], 1%nat, [41%nat; 40%nat], [40%nat; 41%nat], 2%nat).
Proof. vm_compute. reflexivity. Qed.

(** The emptied mailbox is closed and then used again, as a stopped stream handler
    does: the third step of the dequeue takes the closed tag for a node. *)
Definition reuse : list (action (V := nat)) :=
  race ++ consume ++ [AClose; ACons; ACons; ACons; ADequeue; ACons; ACons; ACons].
Definition reused : config := default start (exec_all 2 MailboxExamples.prio reuse start).

Lemma mailbox_memory_safe_witness :
  (exists σ', prod_step 2 (default start (exec_all 2 MailboxExamples.prio (firstn 6 race) start)) = Ok σ') /\
  (exists f, cons_step 2 MailboxExamples.prio reused = Fault f /\ f <> OutOfFuel).
Proof.
  split.
  - apply (mailbox_memory_safe 2 MailboxExamples.prio).
    + apply (exec_all_reachable _ _ (firstn 6 race) 0). vm_compute. reflexivity.
    + vm_compute. eauto.
  - refine (proj2 (proj2 (mailbox_memory_safe 2 MailboxExamples.prio reused _))).
    apply (exec_all_reachable _ _ reuse 0). vm_compute. reflexivity.
Defined.

(** Two messages on the shared stack: closing frees the older one and then reads it. *)
Example close_two_faults :
  exec_all 2 MailboxExamples.prio (race ++ [AClose; ACons; ACons]) start <> None /\
  exec_all 2 MailboxExamples.prio (race ++ [AClose; ACons; ACons; ACons]) start = None.
Proof. split; [vm_compute; discriminate|vm_compute; reflexivity]. Qed.

Lemma mailbox_fifo_per_priority_witness :
  exists pending, [40%nat] = [] ++ pending.
Proof.
  exact (mailbox_fifo_per_priority 2 MailboxExamples.prio raced 0 raced_reachable).
Defined.

Lemma no_lost_wakeup_witness :
  of_prio MailboxExamples.prio 1 (accepted emptied) = [41%nat].
Proof.
  rewrite (no_lost_wakeup 2 MailboxExamples.prio emptied 1 emptied_reachable); vm_compute; reflexivity.
Defined.

Lemma one_unblock_per_block_witness : blocked emptied = (unblocked emptied + 1)%nat.
Proof.
  apply (one_unblock_per_block 2 MailboxExamples.prio emptied emptied_reachable).
  vm_compute. reflexivity.
Defined.
End MailboxConcExamples.
