(* ===== verification/Message.v ===== *)
(** * Messages: metadata, reference-counted bodies, wrappers

    include/mola/c/mola_message.h, include/mola/c/mola_refcnt.h,
    include/mola/message.hpp and src/message.cpp.

    A message body is a [mola_message_t] with an atomic reference count; a
    [MessageWrapper] carries the metadata and owns one reference to a body, or
    the buffer of a message that is still a byte stream; a [MessageSafePtr]
    owns one reference to a wrapper.  The three kinds of heap object live in
    [mem]; [malloc] hands out fresh addresses, so that a use after free is a
    [BadDeref].  The callbacks of the message table (pack, unpack, copy, ...)
    are generated or written by the user: they are parameters of the model,
    fields of [vtab]. *)
From stdpp Require Import base list gmap numbers.
From S2P Require Import Prelude Bytes ActorId.

(** ** Metadata *)
Definition MOLA_MESSAGE_TYPE_REQUSET : Z := 1.
Definition MOLA_MESSAGE_TYPE_RESPONSE : Z := 2.
Definition MOLA_MESSAGE_TYPE_SCATTER : Z := 4.
Definition MOLA_MESSAGE_TYPE_GATHER : Z := 8.
Definition MOLA_MESSAGE_TYPE_USERCREAT : Z := 16.
Definition MOLA_MESSAGE_TYPE_ERROR : Z := 32768.

Definition TYPE_STREAM : Z := 1.
Definition TYPE_USER_LITTLE : Z := 2.
Definition TYPE_USER_NORMAL : Z := 3.

Record metadata := MkMeta {
  type : Z;
  data_type : Z;
  msize : Z;
  sender : ActorID;
  target : ActorID;
  reqid : Z
}.

Definition meta_wf (m : metadata) : Prop :=
  in_width 16 (type m) /\ in_width 16 (data_type m) /\ in_width 32 (msize m) /\
  actor_id_wf (sender m) /\ actor_id_wf (target m) /\ in_width 32 (reqid m).

(** m_metadata{0} *)
Definition zero_meta : metadata :=
  MkMeta 0 0 0 (MkActorID 0 0 0 0) (MkActorID 0 0 0 0) 0.

Definition set_data_type (t : Z) (m : metadata) : metadata :=
  MkMeta (type m) (u16 t) (msize m) (sender m) (target m) (reqid m).
Definition set_size (n : Z) (m : metadata) : metadata :=
  MkMeta (type m) (data_type m) (u32 n) (sender m) (target m) (reqid m).
Definition MOLA_SET_METATYPE (t : Z) (m : metadata) : metadata :=
  MkMeta t (data_type m) (msize m) (sender m) (target m) (reqid m).
Definition set_request := MOLA_SET_METATYPE MOLA_MESSAGE_TYPE_REQUSET.
Definition set_response := MOLA_SET_METATYPE MOLA_MESSAGE_TYPE_RESPONSE.
Definition set_scatter := MOLA_SET_METATYPE MOLA_MESSAGE_TYPE_SCATTER.
Definition set_gather := MOLA_SET_METATYPE MOLA_MESSAGE_TYPE_GATHER.
Definition set_error := MOLA_SET_METATYPE MOLA_MESSAGE_TYPE_ERROR.
Definition set_reqid (r : Z) (m : metadata) : metadata :=
  MkMeta (type m) (data_type m) (msize m) (sender m) (target m) (u32 r).
Definition set_sender (id : ActorID) (m : metadata) : metadata :=
  MkMeta (type m) (data_type m) (msize m) id (target m) (reqid m).
Definition set_target (id : ActorID) (m : metadata) : metadata :=
  MkMeta (type m) (data_type m) (msize m) (sender m) id (reqid m).

Definition has_flag (flag : Z) (m : metadata) : bool := negb (Z.land (type m) flag =? 0).
Definition is_request := has_flag MOLA_MESSAGE_TYPE_REQUSET.
Definition is_response := has_flag MOLA_MESSAGE_TYPE_RESPONSE.
Definition is_scatter := has_flag MOLA_MESSAGE_TYPE_SCATTER.
Definition is_gather := has_flag MOLA_MESSAGE_TYPE_GATHER.
Definition is_usercreat := has_flag MOLA_MESSAGE_TYPE_USERCREAT.
Definition is_error := has_flag MOLA_MESSAGE_TYPE_ERROR.
Definition is_oneway (m : metadata) : bool := negb (is_request m) && negb (is_gather m).

(** ** Byte order

    [le] says whether the host is little endian; CMakeLists.txt defines
    __LITTLE_ENDIAN__ exactly then. *)
Definition htole (le : bool) (n : nat) (z : Z) : Z := if le then z else bswap n z.
Definition htobe (le : bool) (n : nat) (z : Z) : Z := if le then bswap n z else z.

Definition map_id (f : nat -> Z -> Z) (a : ActorID) : ActorID :=
  MkActorID (f 4%nat (dnode_id a)) (f 2%nat (dmodule_id a)) (f 2%nat (dintf_id a))
            (f 4%nat (dinst_id a)).

Definition map_meta (f : nat -> Z -> Z) (m : metadata) : metadata :=
  MkMeta (f 2%nat (type m)) (f 2%nat (data_type m)) (f 4%nat (msize m))
         (map_id f (sender m)) (map_id f (target m)) (f 4%nat (reqid m)).

Definition metatole (le : bool) (m : metadata) : metadata :=
  if le then m else map_meta (htole le) m.
Definition metatobe (le : bool) (m : metadata) : metadata :=
  if le then map_meta (htobe le) m else m.

(** The 36 bytes of the struct in the memory of the host. *)
Definition id_bytes (le : bool) (a : ActorID) : list Z :=
  to_host le 4 (dnode_id a) ++ to_host le 2 (dmodule_id a) ++
  to_host le 2 (dintf_id a) ++ to_host le 4 (dinst_id a).

Definition sizeof_metadata : nat := 36.

Definition meta_bytes (le : bool) (m : metadata) : list Z :=
  to_host le 2 (type m) ++ to_host le 2 (data_type m) ++ to_host le 4 (msize m) ++
  id_bytes le (sender m) ++ id_bytes le (target m) ++ to_host le 4 (reqid m).

(** Reading a field of [n] bytes at offset [i]. *)
Definition field (le : bool) (i n : nat) (bs : list Z) : Z := of_host le (take n (drop i bs)).

Definition id_of_bytes (le : bool) (i : nat) (bs : list Z) : ActorID :=
  MkActorID (field le i 4 bs) (field le (i + 4) 2 bs) (field le (i + 6) 2 bs)
            (field le (i + 8) 4 bs).

Definition meta_of_bytes (le : bool) (bs : list Z) : metadata :=
  MkMeta (field le 0 2 bs) (field le 2 2 bs) (field le 4 4 bs)
         (id_of_bytes le 8 bs) (id_of_bytes le 20 bs) (field le 32 4 bs).

(** ** Bodies *)
Record vtab := MkVtab {
  vsize : Z;
  pack_size : option (list Z -> Z);
  pack : option (list Z -> list Z);
  unpack : option (list Z -> option (list Z));
  free_unpacked : bool;
  copy : option (list Z -> list Z);
  init_unpacked : option (list Z -> list Z)
}.

(** mola_message_t: [rdtor] says that the release handler of the reference
    count is __dealloc_unpacked_message, [dtor] that the user gave a destructor. *)
Record message := MkMessage {
  count : Z;
  rdtor : bool;
  mvtab : option vtab;
  dtor : bool;
  user_data : list Z
}.

(** sizeof(mola_message_t) *)
Definition sizeof_message : Z := 32.

Record wrapper := MkWrapper { m_refcnt : Z; m_metadata : metadata; m_data : Z }.

Inductive callback := CbDtor (a : Z) | CbFreeUnpacked (a : Z).

Record mem := MkMem {
  msgs : gmap Z message;
  bufs : gmap Z (list Z);
  wraps : gmap Z wrapper;
  brk : Z;
  calls : list callback
}.

Definition set_msgs (f : gmap Z message -> gmap Z message) (s : mem) : mem :=
  MkMem (f (msgs s)) (bufs s) (wraps s) (brk s) (calls s).
Definition set_bufs (f : gmap Z (list Z) -> gmap Z (list Z)) (s : mem) : mem :=
  MkMem (msgs s) (f (bufs s)) (wraps s) (brk s) (calls s).
Definition set_wraps (f : gmap Z wrapper -> gmap Z wrapper) (s : mem) : mem :=
  MkMem (msgs s) (bufs s) (f (wraps s)) (brk s) (calls s).
Definition malloc (s : mem) : Z * mem :=
  (brk s, MkMem (msgs s) (bufs s) (wraps s) (brk s + 1) (calls s)).
Definition call (c : callback) (s : mem) : mem :=
  MkMem (msgs s) (bufs s) (wraps s) (brk s) (calls s ++ [c]).

Definition set_count (n : Z) (m : message) : message :=
  MkMessage n (rdtor m) (mvtab m) (dtor m) (user_data m).

(** *** mola_refcnt.h *)
Definition mola_refcnt_get (a : Z) (s : mem) : outcome mem :=
  m ← deref (msgs s !! a);
  _ ← mola_assert (0 <? count m);
  mret (set_msgs <[a := set_count (u32 (count m + 1)) m]> s).

(** __dealloc_unpacked_message, the release handler *)
Definition dealloc_unpacked_message (a : Z) (s : mem) : outcome mem :=
  m ← deref (msgs s !! a);
  match mvtab m with
  | None => Fault AssertFailed
  | Some v =>
      let s1 := if dtor m then call (CbDtor a) s else s in
      mret (if free_unpacked v then call (CbFreeUnpacked a) s1 else s1)
  end.

Definition mola_refcnt_put (a : Z) (s : mem) : outcome (bool * mem) :=
  m ← deref (msgs s !! a);
  _ ← mola_assert (0 <? count m);
  let n := u32 (count m - 1) in
  let s1 := set_msgs <[a := set_count n m]> s in
  if n =? 0 then
    s2 ← (if rdtor m then dealloc_unpacked_message a s1 else mret s1);
    mret (true, set_msgs (delete a) s2)
  else mret (false, s1).

Definition mola_refcnt_unique (a : Z) (s : mem) : outcome bool :=
  m ← deref (msgs s !! a);
  _ ← mola_assert (0 <? count m);
  mret (count m =? 1).

(** *** message.cpp, the C part *)
Definition init_message (v : option vtab) (d : bool) (r : bool) (ud : list Z) : message :=
  MkMessage 1 r v d ud.

(** __deallocate *)
Definition deallocate (a : Z) (s : mem) : outcome mem :=
  m ← deref (msgs s !! a);
  if 0 <? count m then '(_, s') ← mola_refcnt_put a s; mret s' else mret s.

(** The fresh body is not initialised: [ud] is whatever the memory holds. *)
Definition mola_alloc_message (v : vtab) (d : bool) (ud : list Z) (s : mem) : Z * mem :=
  let '(a, s') := malloc s in
  (a, set_msgs <[a := init_message (Some v) d true ud]> s').

Definition mola_dealloc_message (a : Z) (s : mem) : outcome mem := deallocate a s.

Definition mola_alloc (size : Z) (d : bool) (ud : list Z) (s : mem) : outcome (Z * mem) :=
  _ ← mola_assert (0 <? size);
  let '(a, s') := malloc s in
  mret (a, set_msgs <[a := init_message None d false ud]> s').

Definition mola_free (a : Z) (s : mem) : outcome mem := deallocate a s.

(** Returns the new value of [*pmsg]. *)
Definition mola_message_cow (a : Z) (s : mem) : outcome (Z * mem) :=
  unique ← mola_refcnt_unique a s;
  if (unique : bool) then mret (a, s)
  else
    m ← deref (msgs s !! a);
    v ← deref (mvtab m);
    let ud := match copy v with Some f => f (user_data m) | None => user_data m end in
    let '(c, s1) := mola_alloc_message v (dtor m) ud s in
    '(_, s2) ← mola_refcnt_put a s1;
    mret (c, s2).

Definition mola_init_unpacked_message (a : Z) (v : vtab) (s : mem) : outcome mem :=
  m ← deref (msgs s !! a);
  let ud := match init_unpacked v with Some f => f (user_data m) | None => user_data m end in
  mret (set_msgs <[a := init_message (Some v) false true ud]> s).

(** ** MessageWrapper *)
Definition is_stream (w : wrapper) : bool := data_type (m_metadata w) =? TYPE_STREAM.

Definition with_meta (f : metadata -> metadata) (w : wrapper) : wrapper :=
  MkWrapper (m_refcnt w) (f (m_metadata w)) (m_data w).
Definition with_data (a : Z) (w : wrapper) : wrapper :=
  MkWrapper (m_refcnt w) (m_metadata w) a.
Definition with_refcnt (n : Z) (w : wrapper) : wrapper :=
  MkWrapper n (m_metadata w) (m_data w).

Definition new_wrapper (w : wrapper) (s : mem) : Z * mem :=
  let '(p, s') := malloc s in (p, set_wraps <[p := w]> s').

(** MessageWrapper(mola_message_t* ) *)
Definition wrapper_of_msg (a : Z) (s : mem) : outcome wrapper :=
  m ← deref (msgs s !! a);
  v ← deref (mvtab m);
  let dt := match unpack v with Some _ => TYPE_USER_NORMAL | None => TYPE_USER_LITTLE end in
  mret (MkWrapper 1 (set_size (vsize v + sizeof_message) (set_data_type dt zero_meta)) a).

(** MessageWrapper(char*, size_t) *)
Definition wrapper_of_stream (stream size : Z) : wrapper :=
  MkWrapper 1 (set_size size (set_data_type TYPE_STREAM zero_meta)) stream.

(** ~MessageWrapper, with the [delete this] of dec_ref *)
Definition delete_wrapper (p : Z) (s : mem) : outcome mem :=
  w ← deref (wraps s !! p);
  let s1 := set_wraps (delete p) s in
  if is_stream w && negb (m_data w =? 0) then
    _ ← deref (bufs s !! m_data w); mret (set_bufs (delete (m_data w)) s1)
  else if negb (m_data w =? 0) then mola_dealloc_message (m_data w) s1
  else mret s1.

Definition inc_ref (p : Z) (s : mem) : outcome mem :=
  w ← deref (wraps s !! p);
  mret (set_wraps <[p := with_refcnt (u32 (m_refcnt w + 1)) w]> s).

Definition dec_ref (p : Z) (s : mem) : outcome mem :=
  w ← deref (wraps s !! p);
  let n := u32 (m_refcnt w - 1) in
  let s1 := set_wraps <[p := with_refcnt n w]> s in
  if n =? 0 then delete_wrapper p s1 else mret s1.

Definition set_stream_data (stream : Z) (w : wrapper) : wrapper :=
  with_data stream (with_meta (set_data_type TYPE_STREAM) w).

Definition get_stream_data (w : wrapper) : Z := if is_stream w then m_data w else 0.

Definition copy_on_write (p : Z) (s : mem) : outcome mem :=
  w ← deref (wraps s !! p);
  if is_stream w then mret s
  else
    '(c, s1) ← mola_message_cow (m_data w) s;
    mret (set_wraps <[p := with_data c w]> s1).

(** drop_ *)
Definition drop_ (p : Z) (s : mem) : outcome mem :=
  w ← deref (wraps s !! p);
  if negb (is_stream w) && negb (m_data w =? 0) then
    '(_, s1) ← mola_refcnt_put (m_data w) s;
    mret (set_wraps <[p := with_data 0 w]> s1)
  else mret s.

(** pass_ *)
Definition pass_ (p : Z) (s : mem) : outcome (Z * mem) :=
  w ← deref (wraps s !! p);
  if is_stream w then mret (0, s)
  else mret (m_data w, set_wraps <[p := with_data 0 w]> s).

(** MessageWrapper::serialize: the buffer to send, whether the sender must free
    it, and its size.  The metadata is converted in place. *)
Definition serialize (le : bool) (p : Z) (be : bool) (s : mem)
  : outcome (bool * Z * Z * mem) :=
  w ← deref (wraps s !! p);
  '(ret, buf, size, s1) ←
    (if data_type (m_metadata w) =? TYPE_USER_NORMAL then
       m ← deref (msgs s !! m_data w);
       v ← deref (mvtab m);
       ps ← deref (pack_size v);
       pk ← deref (pack v);
       let size := ps (user_data m) in
       let bytes := pk (user_data m) in
       let '(buf, s1) := malloc (set_wraps <[p := with_meta (set_size size) w]> s) in
       (* writing past the buffer is undefined *)
       _ ← deref (if Z.of_nat (length bytes) <=? size then Some tt else None);
       let s2 := set_bufs <[buf := bytes ++ replicate (Z.to_nat size - length bytes) 0]> s1 in
       s3 ← drop_ p s2;
       mret (true, buf, size, s3)
     else mret (false, m_data w, msize (m_metadata w), s));
  w1 ← deref (wraps s1 !! p);
  let w2 := with_meta (if be then metatobe le else metatole le) w1 in
  mret (ret, buf, size, set_wraps <[p := w2]> s1).

(** MessageWrapper::deserialize; the result is the body handed to the user. *)
Definition deserialize (p : Z) (v : vtab) (s : mem) : outcome (Z * mem) :=
  w ← deref (wraps s !! p);
  if negb (is_stream w) then
    '(a, s1) ← pass_ p s; _ ← deref (msgs s1 !! a); mret (a, s1)
  else
    bytes ← deref (bufs s !! m_data w);
    match unpack v with
    | None =>
        _ ← deref (if sizeof_message <=? Z.of_nat (length bytes) then Some tt else None);
        let body := init_message (Some v) false false (drop (Z.to_nat sizeof_message) bytes) in
        let s1 := MkMem (<[m_data w := body]> (msgs s)) (delete (m_data w) (bufs s))
                    (<[p := with_meta (set_data_type TYPE_USER_LITTLE) w]> (wraps s))
                    (brk s) (calls s) in
        pass_ p s1
    | Some f =>
        match f (take (Z.to_nat (msize (m_metadata w))) bytes) with
        | None => Fault AssertFailed
        | Some ud =>
            let '(a, s1) := malloc s in
            let s2 := set_msgs <[a := init_message None false false ud]> s1 in
            s3 ← mola_init_unpacked_message a v s2;
            mret (a, set_wraps <[p := with_data 0 (with_meta (set_data_type TYPE_USER_NORMAL) w)]>
                       (set_bufs (delete (m_data w)) s3))
        end
    end.

(** ** MessageSafePtr: a handle holds the address of a wrapper, or null *)
Definition sp_drop (h : Z) (s : mem) : outcome mem := if h =? 0 then mret s else dec_ref h s.

Definition sp_copy (h : Z) (s : mem) : outcome (Z * mem) :=
  if h =? 0 then mret (0, s) else s' ← inc_ref h s; mret (h, s').

Definition sp_of_msg (a : Z) (s : mem) : outcome (Z * mem) :=
  if a =? 0 then mret (0, s) else w ← wrapper_of_msg a s; mret (new_wrapper w s).

(** ConvertRawToType_: the raw wrapper becomes a handle for the call; what is
    left in the handle is dropped at its end, unless the caller keeps it. *)
Definition ConvertRawToType_ (raw : Z) (v : vtab) (release : bool) (s : mem)
  : outcome (Z * mem) :=
  '(ret, s1) ← deserialize raw v s;
  _ ← mola_assert (negb (ret =? 0));
  s2 ← (if release then sp_drop raw s1 else mret s1);
  mret (ret, s2).

(** ** The wire format *)
Lemma pow256 n : 256 ^ Z.of_nat n = 2 ^ (8 * Z.of_nat n).
Proof. rewrite Z.pow_mul_r by lia. done. Qed.

Lemma meta_bytes_converted (le_s le_t : bool) (m : metadata) :
  meta_bytes le_s ((if negb le_t then metatobe le_s else metatole le_s) m) = meta_bytes le_t m.
Proof.
  assert (forall le n z, to_host le n (bswap n z) = to_host (negb le) n z) as Hsw.
  { intros le n z. rewrite <- (to_host_bswap (negb le)). by rewrite negb_involutive. }
  destruct le_s, le_t; try done; destruct m as [ty dt sz [sn sm si ss] [tn tm ti ts] rq];
    unfold meta_bytes, id_bytes, metatobe, metatole, map_meta, map_id, htobe, htole;
    cbn [negb type data_type msize sender target reqid dnode_id dmodule_id dintf_id dinst_id];
    rewrite !Hsw; done.
Qed.

Lemma field_read le i n bs z :
  take n (drop i bs) = to_host le n z -> in_width (8 * Z.of_nat n) z -> field le i n bs = z.
Proof.
  intros Hb Hz. unfold field. rewrite Hb. apply of_to_host. by rewrite pow256.
Qed.

Lemma meta_of_bytes_bytes (le : bool) (m : metadata) :
  meta_wf m -> meta_of_bytes le (meta_bytes le m) = m.
Proof.
  destruct m as [ty dt sz [sn sm si ss] [tn tm ti ts] rq].
  intros (Hty & Hdt & Hsz & (Hs1 & Hs2 & Hs3 & Hs4) & (Ht1 & Ht2 & Ht3 & Ht4) & Hrq).
  unfold meta_of_bytes, id_of_bytes. repeat f_equal;
    (apply field_read; [destruct le; reflexivity|assumption]).
Qed.

Lemma length_meta_bytes le m : length (meta_bytes le m) = sizeof_metadata.
Proof. unfold meta_bytes, id_bytes. by rewrite !length_app, !length_to_host. Qed.

(** The metadata of a message survives the wire between any two byte orders:
    the sender converts to the order of the target node before sending, the
    target reads the 36 bytes as they are. *)
Theorem metadata_wire_roundtrip (le_s le_t : bool) (m : metadata) :
  meta_wf m ->
  meta_of_bytes le_t
    (meta_bytes le_s ((if negb le_t then metatobe le_s else metatole le_s) m)) = m.
Proof. intros Hm. rewrite meta_bytes_converted. by apply meta_of_bytes_bytes. Qed.

(** ** Sending and receiving a body *)

(** The bytes at an address: of a buffer, or of a whole mola_message_t, whose
    header (counter and pointers) is [header m]. *)
Definition image (header : message -> list Z) (s : mem) (a : Z) : option (list Z) :=
  match bufs s !! a with
  | Some bs => Some bs
  | None => (fun m => header m ++ user_data m) <$> msgs s !! a
  end.

Lemma put_spec a m s :
  msgs s !! a = Some m -> 0 < count m < 2 ^ 32 -> is_Some (mvtab m) ->
  exists s', mola_refcnt_put a s = Ok (count m =? 1, s') /\ wraps s' = wraps s /\
    bufs s' = bufs s /\ brk s' = brk s /\
    msgs s' = (if count m =? 1 then delete a (msgs s)
               else <[a := set_count (count m - 1) m]> (msgs s)).
Proof.
  intros Hm Hc [v Hv]. unfold mola_refcnt_put. rewrite Hm. cbn.
  destruct (Z.ltb_spec 0 (count m)) as [_|]; [|lia]. cbn.
  rewrite (wrap_small 32 (count m - 1)) by width_lia.
  destruct (Z.eqb_spec (count m) 1) as [H1|H1].
  - rewrite H1. cbn. destruct (rdtor m).
    + unfold dealloc_unpacked_message. cbn. rewrite lookup_insert_eq. cbn. rewrite Hv.
      eexists. split; [reflexivity|].
      destruct (dtor m), (free_unpacked v); cbn; rewrite delete_insert_eq; done.
    + eexists. split; [reflexivity|]. cbn. rewrite delete_insert_eq. done.
  - destruct (Z.eqb_spec (count m - 1) 0) as [|_]; [lia|]. cbn.
    eexists. split; [reflexivity|]. done.
Qed.

Lemma drop_spec p w m s :
  wraps s !! p = Some w -> is_stream w = false -> m_data w <> 0 ->
  msgs s !! m_data w = Some m -> 0 < count m < 2 ^ 32 -> is_Some (mvtab m) ->
  exists s', drop_ p s = Ok s' /\ wraps s' = <[p := with_data 0 w]> (wraps s) /\
    bufs s' = bufs s /\ brk s' = brk s /\
    msgs s' = (if count m =? 1 then delete (m_data w) (msgs s)
               else <[m_data w := set_count (count m - 1) m]> (msgs s)).
Proof.
  intros Hw Hs Hd Hm Hc Hv. unfold drop_. rewrite Hw. cbn. rewrite Hs.
  rewrite (proj2 (Z.eqb_neq _ _) Hd). cbn.
  destruct (put_spec _ _ _ Hm Hc Hv) as (s' & -> & Hwr & Hbf & Hbr & Hmg). cbn.
  eexists. split; [reflexivity|]. cbn. rewrite Hwr. done.
Qed.

(** A message with a pack function survives the way to another node: the
    sender packs the body into a fresh buffer of exactly the announced size and
    gives up its reference; the receiver, whose wrapper holds those bytes as a
    stream, unpacks them into a body of its own with the same content and one
    reference, and frees the stream. *)
Theorem normal_message_roundtrip (le be : bool) (s1 s2 : mem) (p1 p2 b2 : Z)
    (w1 w2 : wrapper) (m : message) (v : vtab)
    (ps : list Z -> Z) (pk : list Z -> list Z) (un : list Z -> option (list Z)) :
  pack_size v = Some ps -> pack v = Some pk -> unpack v = Some un -> init_unpacked v = None ->
  un (pk (user_data m)) = Some (user_data m) ->
  ps (user_data m) = Z.of_nat (length (pk (user_data m))) -> ps (user_data m) < 2 ^ 32 ->
  wraps s1 !! p1 = Some w1 -> data_type (m_metadata w1) = TYPE_USER_NORMAL ->
  m_data w1 <> 0 -> msgs s1 !! m_data w1 = Some m -> mvtab m = Some v ->
  0 < count m < 2 ^ 32 ->
  wraps s2 !! p2 = Some w2 -> data_type (m_metadata w2) = TYPE_STREAM -> m_data w2 = b2 ->
  msize (m_metadata w2) = ps (user_data m) ->
  bufs s2 !! b2 = Some (pk (user_data m)) ->
  exists s1' s2' a,
    serialize le p1 be s1 = Ok (true, brk s1, ps (user_data m), s1') /\
    bufs s1' !! brk s1 = Some (pk (user_data m)) /\
    msgs s1' = (if count m =? 1 then delete (m_data w1) (msgs s1)
                else <[m_data w1 := set_count (count m - 1) m]> (msgs s1)) /\
    deserialize p2 v s2 = Ok (a, s2') /\
    msgs s2' !! a = Some (MkMessage 1 true (Some v) false (user_data m)) /\
    bufs s2' !! b2 = None.
Proof.
  intros Hps Hpk Hun Hin Hinv Hsz Hsz32 Hw1 Hdt1 Hd1 Hm1 Hv1 Hc1 Hw2 Hdt2 Hb2 Hms2 Hbf2.
  unfold serialize. rewrite Hw1. cbn. rewrite Hdt1. cbn. rewrite Hm1. cbn. rewrite Hv1. cbn.
  rewrite Hps, Hpk. cbn. destruct (Z.leb_spec (Z.of_nat (length (pk (user_data m)))) (ps (user_data m)));
    [|lia]. cbn.
  match goal with |- context [drop_ p1 ?s] => set (sd := s) end.
  destruct (drop_spec p1 (with_meta (set_size (ps (user_data m))) w1) m sd)
    as (s' & -> & Hwr & Hbf & Hbr & Hmg); unfold sd; cbn; try done.
  - by rewrite lookup_insert_eq.
  - unfold is_stream. cbn. by rewrite Hdt1.
  - rewrite Hwr. cbn. rewrite lookup_insert_eq. cbn.
    unfold deserialize. rewrite Hw2. cbn. unfold is_stream. rewrite Hdt2. cbn. rewrite Hb2, Hbf2. cbn.
    rewrite Hun, Hms2, Hsz, Nat2Z.id, firstn_all, Hinv.
    unfold mola_init_unpacked_message. cbn. rewrite lookup_insert_eq. cbn. rewrite Hin.
    eexists _, _, _. split; [reflexivity|]. cbn. split_and!.
    + rewrite Hbf. cbn. rewrite lookup_insert_eq. rewrite Hsz, Nat2Z.id, Nat.sub_diag. simpl.
      by rewrite app_nil_r.
    + rewrite Hmg. done.
    + reflexivity.
    + cbn. rewrite lookup_insert_eq. done.
    + cbn. by rewrite lookup_delete_eq.
Qed.

(** A message without a pack function is sent as the memory image of its
    mola_message_t; the receiver re-initialises the header in place, so the body
    arrives unchanged and the stream buffer becomes the message. *)
Theorem little_message_roundtrip (header : message -> list Z) (le be : bool) (s1 s2 : mem)
    (p1 p2 : Z) (w1 w2 : wrapper) (m : message) (v : vtab) :
  (forall x, length (header x) = Z.to_nat sizeof_message) ->
  unpack v = None ->
  wraps s1 !! p1 = Some w1 -> data_type (m_metadata w1) = TYPE_USER_LITTLE ->
  msgs s1 !! m_data w1 = Some m -> bufs s1 !! m_data w1 = None ->
  wraps s2 !! p2 = Some w2 -> data_type (m_metadata w2) = TYPE_STREAM ->
  bufs s2 !! m_data w2 = image header s1 (m_data w1) ->
  exists s1' s2',
    serialize le p1 be s1 = Ok (false, m_data w1, msize (m_metadata w1), s1') /\
    image header s1' (m_data w1) = image header s1 (m_data w1) /\
    deserialize p2 v s2 = Ok (m_data w2, s2') /\
    msgs s2' !! m_data w2 = Some (MkMessage 1 false (Some v) false (user_data m)) /\
    bufs s2' !! m_data w2 = None.
Proof.
  intros Hh Hun Hw1 Hdt1 Hm1 Hb1 Hw2 Hdt2 Hb2.
  unfold image in Hb2. rewrite Hb1, Hm1 in Hb2. cbn in Hb2.
  unfold serialize. rewrite Hw1. cbn. rewrite Hdt1. cbn. rewrite Hw1. cbn.
  unfold deserialize. rewrite Hw2. cbn. unfold is_stream. rewrite Hdt2. cbn.
  rewrite Hb2. cbn. rewrite Hun.
  destruct (Z.leb_spec sizeof_message (Z.of_nat (length (header m ++ user_data m)))) as [_|Hl];
    [|rewrite length_app, Hh in Hl; unfold sizeof_message in Hl; lia].
  cbn. unfold pass_. cbn. rewrite lookup_insert_eq. cbn.
  eexists _, _. split; [reflexivity|]. split; [done|]. split; [reflexivity|]. cbn.
  rewrite lookup_insert_eq, lookup_delete_eq. split; [|done].
  by rewrite drop_app_length' by (by rewrite Hh).
Qed.

(** Forwarding a message that is still a stream to a node of the other byte
    order breaks its release: serialize swaps the data_type in the wrapper
    itself, so the destructor no longer sees TYPE_STREAM and hands the stream
    buffer to mola_dealloc_message. *)
Theorem swapped_stream_release_faults (le : bool) (s : mem) (p : Z) (w : wrapper) :
  wraps s !! p = Some w -> data_type (m_metadata w) = TYPE_STREAM ->
  m_refcnt w = 1 -> m_data w <> 0 -> msgs s !! m_data w = None ->
  exists s', serialize le p le s = Ok (false, m_data w, msize (m_metadata w), s') /\
    dec_ref p s' = Fault BadDeref.
Proof.
  intros Hw Hdt Hrc Hd Hm. unfold serialize. rewrite Hw. cbn. rewrite Hdt. cbn. rewrite Hw. cbn.
  eexists. split; [reflexivity|]. unfold dec_ref. cbn. rewrite lookup_insert_eq. cbn. rewrite Hrc. cbn.
  unfold delete_wrapper. cbn. rewrite lookup_insert_eq. cbn.
  rewrite (proj2 (Z.eqb_neq _ _) Hd).
  destruct le; unfold is_stream; cbn; rewrite Hdt; cbn; unfold mola_dealloc_message, deallocate; cbn;
    by rewrite Hm.
Qed.

(** ** Witnesses *)
Module MessageExamples.
Definition demo_id (n : Z) : ActorID := MkActorID n 3 1 258.
Definition demo_meta : metadata := MkMeta 1 3 515 (demo_id 16909060) (demo_id 7) 77.

(** A body of the byte list [ud], packed as its length followed by it. *)
Definition demo_pack (ud : list Z) : list Z := Z.of_nat (length ud) :: ud.
Definition demo_vtab : vtab :=
  MkVtab 4 (Some (fun ud => Z.of_nat (length ud) + 1)) (Some demo_pack)
    (Some (fun bs => match bs with [] => None | _ :: ud => Some ud end)) false None None.
Definition little_vtab : vtab := MkVtab 2 None None None false None None.

Definition demo_body : message := MkMessage 2 true (Some demo_vtab) false [5; 6].
Definition little_body : message := MkMessage 1 true (Some little_vtab) false [8; 9].

Definition normal_mem : mem :=
  MkMem {[ 1 := demo_body ]} ∅
        {[ 2 := MkWrapper 1 (set_data_type TYPE_USER_NORMAL zero_meta) 1 ]} 3 [].
Definition little_mem : mem :=
  MkMem {[ 1 := little_body ]} ∅
        {[ 2 := MkWrapper 1 (set_size 34 (set_data_type TYPE_USER_LITTLE zero_meta)) 1 ]} 3 [].
Definition stream_mem (bs : list Z) : mem :=
  MkMem ∅ {[ 1 := bs ]}
        {[ 2 := wrapper_of_stream 1 (Z.of_nat (length bs)) ]} 3 [].
Definition demo_header (m : message) : list Z := replicate 32 0.

Lemma metadata_wire_roundtrip_witness :
  meta_of_bytes false (meta_bytes true (metatobe true demo_meta)) = demo_meta.
Proof.
  apply (metadata_wire_roundtrip true false demo_meta).
  unfold meta_wf, actor_id_wf, demo_meta, demo_id, in_width. simpl. lia.
Defined.

Lemma normal_message_roundtrip_witness :
  exists s1' s2' a, serialize true 2 false normal_mem = Ok (true, 3, 3, s1') /\
    bufs s1' !! 3 = Some [2; 5; 6] /\
    deserialize 2 demo_vtab (stream_mem [2; 5; 6]) = Ok (a, s2') /\
    user_data <$> msgs s2' !! a = Some [5; 6].
Proof.
  destruct (normal_message_roundtrip true false normal_mem (stream_mem [2; 5; 6]) 2 2 1
    (MkWrapper 1 (set_data_type TYPE_USER_NORMAL zero_meta) 1) (wrapper_of_stream 1 3)
    demo_body demo_vtab (fun ud => Z.of_nat (length ud) + 1) demo_pack
    (fun bs => match bs with [] => None | _ :: ud => Some ud end))
    as (s1' & s2' & a & H1 & H2 & _ & H3 & H4 & _); try reflexivity; try discriminate.
  - vm_compute. split; reflexivity.
  - exists s1', s2', a. split; [exact H1|]. split; [exact H2|]. split; [exact H3|].
    rewrite H4. reflexivity.
Defined.

Lemma little_message_roundtrip_witness :
  exists s1' s2', serialize true 2 false little_mem = Ok (false, 1, 34, s1') /\
    deserialize 2 little_vtab (stream_mem (replicate 32 0 ++ [8; 9])) = Ok (1, s2') /\
    user_data <$> msgs s2' !! 1 = Some [8; 9].
Proof.
  destruct (little_message_roundtrip demo_header true false little_mem
    (stream_mem (replicate 32 0 ++ [8; 9])) 2 2
    (MkWrapper 1 (set_size 34 (set_data_type TYPE_USER_LITTLE zero_meta)) 1)
    (wrapper_of_stream 1 34) little_body little_vtab)
    as (s1' & s2' & H1 & _ & H2 & H3 & _); try reflexivity.
  exists s1', s2'. split; [exact H1|]. split; [exact H2|]. cbn in H3. rewrite H3. reflexivity.
Defined.

Lemma swapped_stream_release_faults_witness :
  exists s', serialize true 2 true (stream_mem [7]) = Ok (false, 1, 1, s') /\
    dec_ref 2 s' = Fault BadDeref.
Proof.
  apply (swapped_stream_release_faults true (stream_mem [7]) 2 (wrapper_of_stream 1 1));
    try reflexivity; discriminate.
Defined.
End MessageExamples.
