(* ===== verification/MessageRef.v ===== *)
(** * Ownership of messages

    A program uses messages through MessageSafePtr variables, raw wrapper
    pointers (released from a MessageSafePtr by pass()) and, in C modules,
    references to the bodies.  [world] is the message memory with those
    variables, [exec] the operations of the API on them.  The invariant says that
    every counter counts its owners; it gives memory safety of every sequence of
    operations and the absence of leaks. *)
From stdpp Require Import base list gmap numbers.
From S2P Require Import Prelude Message.

(** [hs]: the wrapper that each MessageSafePtr or raw pointer holds, 0 for null;
    [us]: the bodies that user code holds a reference to. *)
Record world := MkWorld { mm : mem; hs : gmap nat Z; us : gmap nat Z }.

Inductive cmd :=
| CAlloc (u : nat) (v : vtab) (d : bool) (ud : list Z)
| CGet (u u' : nat)
| CPut (u : nat)
| CNew (x u : nat)
| CRecv (x : nat) (bytes : list Z)
| CCopy (x y : nat)
| CMove (x y : nat)
| CAssign (x y : nat)
| CAssignMove (x y : nat)
| CDrop (x : nat)
| CCow (x : nat)
| CConvert (x u : nat) (v : vtab) (release : bool).

(** MessageSafePtr::operator = (MessageSafePtr& ) *)
Definition sp_assign (x y : nat) (W : world) : outcome world :=
  hx ← deref (hs W !! x);
  s1 ← sp_drop hx (mm W);
  let hs1 := <[x := 0]> (hs W) in
  hy ← deref (hs1 !! y);
  '(h, s2) ← sp_copy hy s1;
  mret (MkWorld s2 (<[x := h]> hs1) (us W)).

(** MessageSafePtr::operator = (MessageSafePtr&& ) *)
Definition sp_assign_move (x y : nat) (W : world) : outcome world :=
  hx ← deref (hs W !! x);
  s1 ← sp_drop hx (mm W);
  let hs1 := <[x := 0]> (hs W) in
  hy ← deref (hs1 !! y);
  mret (MkWorld s1 (<[x := hy]> (<[y := 0]> hs1)) (us W)).

Definition exec (c : cmd) (W : world) : outcome world :=
  match c with
  | CAlloc u v d ud =>
      let '(a, s) := mola_alloc_message v d ud (mm W) in
      mret (MkWorld s (hs W) (<[u := a]> (us W)))
  | CGet u u' =>
      a ← deref (us W !! u);
      s ← mola_refcnt_get a (mm W);
      mret (MkWorld s (hs W) (<[u' := a]> (us W)))
  | CPut u =>
      a ← deref (us W !! u);
      s ← mola_dealloc_message a (mm W);
      mret (MkWorld s (hs W) (delete u (us W)))
  | CNew x u =>
      a ← deref (us W !! u);
      '(p, s) ← sp_of_msg a (mm W);
      mret (MkWorld s (<[x := p]> (hs W)) (delete u (us W)))
  | CRecv x bytes =>
      let '(b, s1) := malloc (mm W) in
      let s2 := set_bufs <[b := bytes]> s1 in
      let '(p, s3) := new_wrapper (wrapper_of_stream b (Z.of_nat (length bytes))) s2 in
      mret (MkWorld s3 (<[x := p]> (hs W)) (us W))
  | CCopy x y =>
      hy ← deref (hs W !! y);
      '(h, s) ← sp_copy hy (mm W);
      mret (MkWorld s (<[x := h]> (hs W)) (us W))
  | CMove x y =>
      hy ← deref (hs W !! y);
      mret (MkWorld (mm W) (<[x := hy]> (<[y := 0]> (hs W))) (us W))
  | CAssign x y => sp_assign x y W
  | CAssignMove x y => sp_assign_move x y W
  | CDrop x =>
      hx ← deref (hs W !! x);
      s ← sp_drop hx (mm W);
      mret (MkWorld s (delete x (hs W)) (us W))
  | CCow x =>
      hx ← deref (hs W !! x);
      s ← copy_on_write hx (mm W);
      mret (MkWorld s (hs W) (us W))
  | CConvert x u v release =>
      hx ← deref (hs W !! x);
      '(a, s) ← ConvertRawToType_ hx v release (mm W);
      mret (MkWorld s (if release then delete x (hs W) else hs W) (<[u := a]> (us W)))
  end.

(** What the caller must respect: variables are declared once, conversions are
    of messages that still have a body, of the announced kind, and fewer than
    2^32 references exist. *)
Definition convertible (s : mem) (p : Z) (v : vtab) : Prop :=
  exists w, wraps s !! p = Some w /\ m_data w <> 0 /\
  (is_stream w = true -> forall bytes, bufs s !! m_data w = Some bytes ->
   match unpack v with
   | None => sizeof_message <= Z.of_nat (length bytes)
   | Some f => is_Some (f (take (Z.to_nat (msize (m_metadata w))) bytes))
   end).

Definition body_present (s : mem) (p : Z) : Prop :=
  exists w, wraps s !! p = Some w /\ (is_stream w = false -> m_data w <> 0).

Definition small (W : world) : Prop :=
  Z.of_nat (size (hs W)) + 1 < 2 ^ 32 /\
  Z.of_nat (size (wraps (mm W)) + size (us W)) + 2 < 2 ^ 32.

Definition allowed (c : cmd) (W : world) : Prop :=
  small W /\
  match c with
  | CAlloc u _ _ _ => us W !! u = None
  | CGet u u' => is_Some (us W !! u) /\ us W !! u' = None
  | CPut u => is_Some (us W !! u)
  | CNew x u => hs W !! x = None /\ is_Some (us W !! u)
  | CRecv x _ => hs W !! x = None
  | CCopy x y | CMove x y => hs W !! x = None /\ is_Some (hs W !! y)
  | CAssign x y | CAssignMove x y => is_Some (hs W !! x) /\ is_Some (hs W !! y)
  | CDrop x => is_Some (hs W !! x)
  | CCow x => exists p, hs W !! x = Some p /\ body_present (mm W) p
  | CConvert x u v _ =>
      us W !! u = None /\ exists p, hs W !! x = Some p /\ convertible (mm W) p v
  end.

(** ** The invariant *)
Definition owns_msg (a : Z) (w : wrapper) : bool := negb (is_stream w) && (m_data w =? a).
Definition owns_buf (b : Z) (w : wrapper) : bool := is_stream w && (m_data w =? b).

Definition refs_msg (a : Z) (wr : gmap Z wrapper) (us : gmap nat Z) : nat :=
  (mcount (owns_msg a) wr + mcount (Z.eqb a) us)%nat.

Record wf (s : mem) (hs us : gmap nat Z) : Prop := {
  wf_brk : 0 < brk s;
  wf_handle : forall x p, hs !! x = Some p -> p = 0 \/ is_Some (wraps s !! p);
  wf_wrap : forall p w, wraps s !! p = Some w ->
    0 < p < brk s /\ 0 < m_refcnt w /\ m_refcnt w = Z.of_nat (mcount (Z.eqb p) hs);
  wf_data : forall p w, wraps s !! p = Some w -> m_data w = 0 \/
    if is_stream w then is_Some (bufs s !! m_data w) else is_Some (msgs s !! m_data w);
  wf_msg : forall a m, msgs s !! a = Some m ->
    0 < a < brk s /\ 0 < count m /\ count m = Z.of_nat (refs_msg a (wraps s) us) /\
    is_Some (mvtab m);
  wf_buf : forall b bytes, bufs s !! b = Some bytes ->
    0 < b < brk s /\ mcount (owns_buf b) (wraps s) = 1%nat;
  wf_disj : forall b, is_Some (bufs s !! b) -> msgs s !! b = None;
  wf_user : forall u a, us !! u = Some a -> is_Some (msgs s !! a)
}.

Lemma owns_nothing b w :
  m_data w = 0 -> b <> 0 -> owns_msg b w = false /\ owns_buf b w = false.
Proof.
  intros Hd Hb. unfold owns_msg, owns_buf. rewrite Hd, (proj2 (Z.eqb_neq 0 b)) by congruence.
  by rewrite !andb_false_r.
Qed.

Lemma fresh_slot (us : gmap nat Z) : exists u, us !! u = None.
Proof. exists (fresh (dom us)). apply not_elem_of_dom, is_fresh. Qed.

Lemma wf_fields s s' hs us :
  msgs s' = msgs s -> bufs s' = bufs s -> wraps s' = wraps s -> brk s' = brk s ->
  wf s hs us -> wf s' hs us.
Proof.
  destruct s, s'; simpl; intros -> -> -> -> [? ? ? ? ? ? ? ?]; split; simpl in *; auto.
Qed.

(** Only the number of handles on each wrapper matters. *)
Lemma wf_handles s hs hs' us :
  wf s hs us ->
  (forall x p, hs' !! x = Some p -> p = 0 \/ is_Some (wraps s !! p)) ->
  (forall p, p <> 0 -> mcount (Z.eqb p) hs' = mcount (Z.eqb p) hs) ->
  wf s hs' us.
Proof.
  intros [Hbrk Hh Hw Hd Hm Hb Hdj Hu] Hh' Hc. split; auto.
  intros p w Hp. destruct (Hw p w Hp) as (H1 & H2 & H3). rewrite Hc by lia. auto.
Qed.

Lemma refs_msg_bound a wr us :
  Z.of_nat (size wr + size us) < 2 ^ 32 -> Z.of_nat (refs_msg a wr us) < 2 ^ 32.
Proof.
  intros H. unfold refs_msg. pose proof (mcount_size (owns_msg a) wr).
  pose proof (mcount_size (Z.eqb a) us). lia.
Qed.

(** ** References to bodies *)
Lemma wf_malloc s hs us : wf s hs us -> wf (malloc s).2 hs us.
Proof.
  intros [Hbrk Hh Hw Hd Hm Hb Hdj Hu]. split; cbn; auto; [lia|..].
  - intros p w Hp. destruct (Hw _ _ Hp) as (? & ? & ?). split_and!; try done; lia.
  - intros a m Ha. destruct (Hm _ _ Ha) as (? & ? & ? & ?). split_and!; try done; lia.
  - intros b bytes Hbb. destruct (Hb _ _ Hbb). split; [lia|done].
Qed.

Lemma wf_brk_free s hs us :
  wf s hs us -> msgs s !! brk s = None /\ bufs s !! brk s = None /\ wraps s !! brk s = None.
Proof.
  intros [Hbrk Hh Hw Hd Hm Hb Hdj Hu]. split_and!; apply eq_None_not_Some; intros [z Hz].
  - destruct (Hm _ _ Hz). lia.
  - destruct (Hb _ _ Hz). lia.
  - destruct (Hw _ _ Hz). lia.
Qed.

(** A body appears at the free address [a]; the slot [u] holds its reference. *)
Lemma wf_body s hs us u a m :
  wf s hs us -> us !! u = None -> 0 < a < brk s ->
  msgs s !! a = None -> bufs s !! a = None -> count m = 1 -> is_Some (mvtab m) ->
  wf (set_msgs <[a := m]> s) hs (<[u := a]> us).
Proof.
  intros [Hbrk Hh Hw Hd Hm Hb Hdj Hu] Hfr Ha Hn Hnb Hc1 Hv. split; cbn; try done.
  - intros p w Hp. destruct (Hd _ _ Hp) as [?|H]; [by left|right]. destruct (is_stream w); [done|].
    rewrite lookup_insert_is_Some'. auto.
  - intros b mb. unfold refs_msg. rewrite mcount_insert by done. rewrite lookup_insert_Some.
    intros [[<- <-]|[Hne Hb']].
    + rewrite Z.eqb_refl. cbn. rewrite !mcount_none; [split_and!; try lia; eauto|..].
      * intros x b Hx. apply Z.eqb_neq. intros <-. destruct (Hu _ _ Hx). congruence.
      * intros p w Hp. unfold owns_msg. destruct (is_stream w) eqn:Hs; [done|]. cbn.
        apply Z.eqb_neq. intros Hda. destruct (Hd _ _ Hp) as [H|H]; [lia|].
        rewrite Hs in H. rewrite Hda in H. destruct H. congruence.
    + destruct (Hm _ _ Hb') as (? & ? & ? & ?). rewrite (proj2 (Z.eqb_neq b a)) by congruence.
      done.
  - intros b Hbs. rewrite lookup_insert_ne; [auto|]. intros <-. destruct Hbs. congruence.
  - intros x b. rewrite lookup_insert_Some, lookup_insert_is_Some'. intros [[_ <-]|[_ ?]]; eauto.
Qed.

Lemma wf_alloc s hs us u v d ud :
  wf s hs us -> us !! u = None ->
  wf (mola_alloc_message v d ud s).2 hs (<[u := brk s]> us).
Proof.
  intros Hwf Hfr. destruct (wf_brk_free _ _ _ Hwf) as (? & ? & _).
  pose proof (wf_brk _ _ _ Hwf). change (wf (set_msgs <[brk s := init_message (Some v) d true ud]>
    (malloc s).2) hs (<[u:=brk s]> us)).
  apply wf_body; try done; [by apply wf_malloc|cbn; lia].
Qed.

Lemma wf_get s hs us u u' a :
  wf s hs us -> us !! u = Some a -> us !! u' = None ->
  Z.of_nat (size (wraps s) + size us) + 1 < 2 ^ 32 ->
  exists s', mola_refcnt_get a s = Ok s' /\ wf s' hs (<[u' := a]> us).
Proof.
  intros [Hbrk Hh Hw Hd Hm Hb Hdj Hu] Hua Hfr Hsm.
  destruct (Hu _ _ Hua) as [m Hma]. destruct (Hm _ _ Hma) as (Ha & Hpos & Hcnt & Hv).
  pose proof (refs_msg_bound a (wraps s) us ltac:(lia)) as Hbd.
  assert (count m + 1 < 2 ^ 32) as Hlt.
  { unfold refs_msg in *. pose proof (mcount_size (owns_msg a) (wraps s)).
    pose proof (mcount_size (Z.eqb a) us). lia. }
  unfold mola_refcnt_get. rewrite Hma. cbn. destruct (Z.ltb_spec 0 (count m)); [|lia]. cbn.
  eexists. split; [reflexivity|]. rewrite wrap_small by width_lia.
  split; cbn; try done.
  - intros p w Hp. destruct (Hd _ _ Hp) as [?|H']; [by left|right]. destruct (is_stream w); [done|].
    rewrite lookup_insert_is_Some'. auto.
  - intros b mb. unfold refs_msg. rewrite mcount_insert by done. rewrite lookup_insert_Some.
    intros [[<- <-]|[Hne Hb']].
    + rewrite Z.eqb_refl. cbn. unfold refs_msg in Hcnt. split_and!; try done; lia.
    + destruct (Hm _ _ Hb') as (? & ? & ? & ?). rewrite (proj2 (Z.eqb_neq b a)) by congruence.
      done.
  - intros b Hbs. rewrite lookup_insert_ne; [auto|]. intros <-. apply Hdj in Hbs. congruence.
  - intros x b. rewrite lookup_insert_Some, lookup_insert_is_Some'. intros [[_ <-]|[_ ?]]; eauto.
Qed.

(** Dropping the reference that the slot [u] holds. *)
Lemma wf_put s s' hs us u a m :
  wf s hs us -> us !! u = Some a -> msgs s !! a = Some m ->
  wraps s' = wraps s -> bufs s' = bufs s -> brk s' = brk s ->
  msgs s' = (if count m =? 1 then delete a (msgs s)
             else <[a := set_count (count m - 1) m]> (msgs s)) ->
  wf s' hs (delete u us).
Proof.
  intros [Hbrk Hh Hw Hd Hm Hb Hdj Hu] Hus Hma Ewr Ebf Ebr Emg.
  destruct (Hm _ _ Hma) as (Ha & Hpos & Hcnt & Hv).
  assert (forall b, refs_msg b (wraps s) us =
            (tick (b =? a)%Z + refs_msg b (wraps s) (delete u us))%nat) as Href.
  { intros b. unfold refs_msg. rewrite (mcount_delete (Z.eqb b) us u a Hus). lia. }
  assert (forall b, refs_msg b (wraps s) us <> 0%nat -> b <> a \/ count m <> 1 ->
            is_Some (msgs s !! b) -> is_Some (msgs s' !! b)) as Hlive.
  { intros b _ Hor Hb'. rewrite Emg. destruct (Z.eqb_spec (count m) 1).
    - rewrite lookup_delete_ne; [done|]. intros ->. tauto.
    - rewrite lookup_insert_is_Some'. auto. }
  assert (forall b, (0 < refs_msg b (wraps s) (delete u us))%nat -> b <> a \/ count m <> 1) as Hother.
  { intros b Hb0. destruct (decide (b = a)) as [->|]; [right|by left].
    rewrite Hcnt, Href, Z.eqb_refl. cbn. lia. }
  split; rewrite ?Ewr, ?Ebf, ?Ebr; try done.
  - intros p w Hp. destruct (Hd _ _ Hp) as [?|H]; [by left|right].
    destruct (is_stream w) eqn:Hs; [done|].
    assert (0 < mcount (owns_msg (m_data w)) (wraps s))%nat.
    { eapply mcount_pos; [done|]. unfold owns_msg. by rewrite Hs, Z.eqb_refl. }
    apply Hlive; [unfold refs_msg; lia| |done]. apply Hother. unfold refs_msg. lia.
  - intros b mb Hmb. rewrite Emg in Hmb. destruct (Z.eqb_spec (count m) 1) as [H1|H1].
    + apply lookup_delete_Some in Hmb as [Hne Hmb]. destruct (Hm _ _ Hmb) as (? & ? & Hc & ?).
      rewrite Href in Hc. rewrite (proj2 (Z.eqb_neq b a)) in Hc by congruence. done.
    + apply lookup_insert_Some in Hmb as [[<- <-]|[Hne Hmb]].
      * cbn. rewrite Href, Z.eqb_refl in Hcnt. cbn in Hcnt. split_and!; try done; lia.
      * destruct (Hm _ _ Hmb) as (? & ? & Hc & ?).
        rewrite Href in Hc. rewrite (proj2 (Z.eqb_neq b a)) in Hc by congruence. done.
  - intros b Hbs. rewrite Emg. destruct (_ =? _).
    + rewrite lookup_delete_None. auto.
    + rewrite lookup_insert_ne; [auto|]. intros <-. apply Hdj in Hbs. congruence.
  - intros x b Hx. apply lookup_delete_Some in Hx as [Hne Hx].
    assert (0 < mcount (Z.eqb b) (delete u us))%nat.
    { eapply (mcount_pos _ _ x b); [by rewrite lookup_delete_ne|apply Z.eqb_refl]. }
    apply Hlive; [rewrite Href; unfold refs_msg; lia| |eauto].
    apply Hother. unfold refs_msg. lia.
Qed.

Lemma put_user s hs us u a :
  wf s hs us -> us !! u = Some a -> Z.of_nat (size (wraps s) + size us) < 2 ^ 32 ->
  exists s' b, mola_refcnt_put a s = Ok (b, s') /\ wf s' hs (delete u us) /\
    wraps s' = wraps s /\ brk s' = brk s.
Proof.
  intros Hwf Hua Hsm. destruct (wf_user _ _ _ Hwf _ _ Hua) as [m Hma].
  destruct (wf_msg _ _ _ Hwf _ _ Hma) as (Ha & Hpos & Hcnt & Hv).
  pose proof (refs_msg_bound a (wraps s) us ltac:(lia)) as Hbd.
  destruct (put_spec a m s Hma ltac:(lia) Hv) as (s' & -> & Hwr & Hbf & Hbr & Hmg).
  eexists s', _. split; [done|]. split; [by eapply wf_put|done].
Qed.

Lemma dealloc_user s hs us u a :
  wf s hs us -> us !! u = Some a -> Z.of_nat (size (wraps s) + size us) < 2 ^ 32 ->
  exists s', mola_dealloc_message a s = Ok s' /\ wf s' hs (delete u us).
Proof.
  intros Hwf Hua Hsm. destruct (wf_user _ _ _ Hwf _ _ Hua) as [m Hma].
  destruct (wf_msg _ _ _ Hwf _ _ Hma) as (Ha & Hpos & Hcnt & Hv).
  destruct (put_user s hs us u a Hwf Hua Hsm) as (s' & b & Hput & Hwf' & _).
  exists s'. split; [|done]. unfold mola_dealloc_message, deallocate. rewrite Hma. cbn.
  destruct (Z.ltb_spec 0 (count m)); [|lia]. by rewrite Hput.
Qed.

(** ** Wrappers *)

(** The wrapper [p] hands its body to the slot [u]. *)
Lemma wf_to_user s hs us p w w' u :
  wf s hs us -> wraps s !! p = Some w -> is_stream w = false -> m_data w <> 0 ->
  m_refcnt w' = m_refcnt w -> m_data w' = 0 -> us !! u = None ->
  wf (set_wraps <[p := w']> s) hs (<[u := m_data w]> us).
Proof.
  intros [Hbrk Hh Hw Hd Hm Hb Hdj Hu] Hp Hs Hne Hrc Hd0 Hfr.
  pose proof (fun b => owns_nothing b w' Hd0) as Hno.
  split; cbn; try done.
  - intros x q Hx. rewrite lookup_insert_is_Some'. destruct (Hh _ _ Hx); auto.
  - intros q z. rewrite lookup_insert_Some. intros [[<- <-]|[Hne' Hq]]; [|eauto].
    rewrite Hrc. eauto.
  - intros q z. rewrite lookup_insert_Some. intros [[<- <-]|[Hne' Hq]]; eauto.
  - intros b mb Hmb. destruct (Hm _ _ Hmb) as (? & ? & Hc & ?). split; [done|]. split; [done|]. split; [|done].
    rewrite Hc. unfold refs_msg. rewrite (mcount_insert (Z.eqb b) us) by done.
    pose proof (mcount_update (owns_msg b) (wraps s) p w w' Hp) as Hup.
    destruct (Hno b ltac:(lia)) as [Hn1 _]. rewrite Hn1 in Hup. cbn in Hup.
    unfold owns_msg in Hup at 2. rewrite Hs in Hup. cbn in Hup.
    rewrite (Z.eqb_sym b). lia.
  - intros b bytes Hbb. destruct (Hb _ _ Hbb) as [? Hc]. split; [done|]. rewrite <- Hc.
    apply mcount_update_same with w; [done|]. destruct (Hno b ltac:(lia)) as [_ ->].
    unfold owns_buf. by rewrite Hs.
  - intros x b. rewrite lookup_insert_Some. intros [[_ <-]|[_ ?]]; [|eauto].
    destruct (Hd _ _ Hp) as [?|H]; [done|]. by rewrite Hs in H.
Qed.

(** The wrapper [p], which has no body, takes the one of the slot [u]. *)
Lemma wf_from_user s hs us p w w' u a :
  wf s hs us -> wraps s !! p = Some w -> m_data w = 0 -> us !! u = Some a ->
  m_refcnt w' = m_refcnt w -> m_data w' = a -> is_stream w' = false ->
  wf (set_wraps <[p := w']> s) hs (delete u us).
Proof.
  intros [Hbrk Hh Hw Hd Hm Hb Hdj Hu] Hp Hd0 Hua Hrc Hda Hs.
  pose proof (fun b => owns_nothing b w Hd0) as Hno.
  split; cbn; try done.
  - intros x q Hx. rewrite lookup_insert_is_Some'. destruct (Hh _ _ Hx); auto.
  - intros q z. rewrite lookup_insert_Some. intros [[<- <-]|[Hne' Hq]]; [|eauto].
    rewrite Hrc. eauto.
  - intros q z. rewrite lookup_insert_Some. intros [[<- <-]|[Hne' Hq]]; [|eauto].
    right. rewrite Hs, Hda. eauto.
  - intros b mb Hmb. destruct (Hm _ _ Hmb) as (? & ? & Hc & ?). split; [done|]. split; [done|]. split; [|done].
    rewrite Hc. unfold refs_msg. rewrite (mcount_delete (Z.eqb b) us u a Hua).
    pose proof (mcount_update (owns_msg b) (wraps s) p w w' Hp) as Hup.
    destruct (Hno b ltac:(lia)) as [Hn1 _]. rewrite Hn1 in Hup. cbn in Hup.
    unfold owns_msg in Hup at 2. rewrite Hs, Hda in Hup. cbn in Hup.
    rewrite (Z.eqb_sym b). lia.
  - intros b bytes Hbb. destruct (Hb _ _ Hbb) as [? Hc]. split; [done|]. rewrite <- Hc.
    apply mcount_update_same with w; [done|]. destruct (Hno b ltac:(lia)) as [_ ->].
    unfold owns_buf. by rewrite Hs.
  - intros x b [_ Hx]%lookup_delete_Some. eauto.
Qed.

(** The stream of the wrapper [p] is freed. *)
Lemma wf_free_buf s hs us p w w' :
  wf s hs us -> wraps s !! p = Some w -> is_stream w = true -> m_data w <> 0 ->
  m_refcnt w' = m_refcnt w -> m_data w' = 0 ->
  wf (set_bufs (delete (m_data w)) (set_wraps <[p := w']> s)) hs us.
Proof.
  intros [Hbrk Hh Hw Hd Hm Hb Hdj Hu] Hp Hs Hne Hrc Hd0.
  pose proof (fun b => owns_nothing b w' Hd0) as Hno.
  split; cbn; try done.
  - intros x q Hx. rewrite lookup_insert_is_Some'. destruct (Hh _ _ Hx); auto.
  - intros q z. rewrite lookup_insert_Some. intros [[<- <-]|[Hne' Hq]]; [|eauto].
    rewrite Hrc. eauto.
  - intros q z. rewrite lookup_insert_Some. intros [[<- <-]|[Hne' Hq]]; [by left|].
    destruct (Hd _ _ Hq) as [?|H]; [by left|right]. destruct (is_stream z) eqn:Hz; [|done].
    destruct H as [bytes Hbz]. rewrite lookup_delete_ne; [eauto|]. intros Heq.
    destruct (Hb _ _ Hbz) as [_ Hone].
    rewrite (mcount_delete _ _ p w Hp) in Hone.
    assert (0 < mcount (owns_buf (m_data z)) (delete p (wraps s)))%nat.
    { eapply (mcount_pos _ _ q z); [by rewrite lookup_delete_ne|].
      unfold owns_buf. by rewrite Hz, Z.eqb_refl. }
    unfold owns_buf in Hone at 1. rewrite Hs, Heq, Z.eqb_refl in Hone. cbn in Hone. lia.
  - intros b mb Hmb. destruct (Hm _ _ Hmb) as (? & ? & Hc & ?). split; [done|]. split; [done|].
    split; [|done]. rewrite Hc. unfold refs_msg. rewrite (mcount_update_same _ _ p w); [done..|].
    destruct (Hno b ltac:(lia)) as [-> _]. unfold owns_msg. by rewrite Hs.
  - intros b bytes [Hne' Hbb]%lookup_delete_Some. destruct (Hb _ _ Hbb) as [? Hc]. split; [done|].
    rewrite <- Hc. apply mcount_update_same with w; [done|].
    destruct (Hno b ltac:(lia)) as [_ ->]. unfold owns_buf.
    rewrite (proj2 (Z.eqb_neq (m_data w) b)) by done. by rewrite andb_false_r.
  - intros b. rewrite lookup_delete_is_Some. intros [_ ?]. auto.
Qed.

(** The wrapper [p], which has no body, takes a buffer at the free address [b]. *)
Lemma wf_take_buf s hs us p w w' b bytes :
  wf s hs us -> wraps s !! p = Some w -> m_data w = 0 ->
  0 < b < brk s -> msgs s !! b = None -> bufs s !! b = None ->
  m_refcnt w' = m_refcnt w -> m_data w' = b -> is_stream w' = true ->
  wf (set_bufs <[b := bytes]> (set_wraps <[p := w']> s)) hs us.
Proof.
  intros [Hbrk Hh Hw Hd Hm Hb Hdj Hu] Hp Hd0 Hbb Hnm Hnb Hrc Hda Hs.
  pose proof (fun b => owns_nothing b w Hd0) as Hno.
  split; cbn; try done.
  - intros x q Hx. rewrite lookup_insert_is_Some'. destruct (Hh _ _ Hx); auto.
  - intros q z. rewrite lookup_insert_Some. intros [[<- <-]|[Hne' Hq]]; [|eauto].
    rewrite Hrc. eauto.
  - intros q z. rewrite lookup_insert_Some. intros [[<- <-]|[Hne' Hq]].
    + right. rewrite Hs, Hda, lookup_insert_eq. eauto.
    + destruct (Hd _ _ Hq) as [?|H]; [by left|right]. destruct (is_stream z); [|done].
      rewrite lookup_insert_is_Some'. auto.
  - intros c mc Hmc. destruct (Hm _ _ Hmc) as (? & ? & Hc & ?). split; [done|]. split; [done|].
    split; [|done]. rewrite Hc. unfold refs_msg. rewrite (mcount_update_same _ _ p w); [done..|].
    destruct (Hno c ltac:(lia)) as [-> _]. unfold owns_msg. by rewrite Hs.
  - intros c cb. rewrite lookup_insert_Some. pose proof (mcount_update (owns_buf c) _ p w w' Hp) as Hup.
    unfold owns_buf in Hup at 3. rewrite Hs, Hda in Hup. cbn in Hup. intros [[<- <-]|[Hne Hcb]].
    + split; [done|]. destruct (Hno b ltac:(lia)) as [_ Hn]. rewrite Hn, Z.eqb_refl in Hup.
      cbn in Hup. rewrite (mcount_none _ (wraps s)) in Hup; [lia|].
      intros q z Hq. unfold owns_buf. destruct (is_stream z) eqn:Hz; [|done]. cbn.
      apply Z.eqb_neq. intros Hdz. destruct (Hd _ _ Hq) as [?|H]; [lia|].
      rewrite Hz, Hdz in H. destruct H. congruence.
    + destruct (Hb _ _ Hcb) as [? Hc]. split; [done|]. destruct (Hno c ltac:(lia)) as [_ Hn].
      rewrite Hn, (proj2 (Z.eqb_neq b c)) in Hup by done. cbn in Hup. lia.
  - intros c. rewrite lookup_insert_is_Some'. intros [<-|?]; auto.
Qed.

(** The counter of [p] follows its handles. *)
Lemma wf_rewrap s hs hs' us p w w' :
  wf s hs us -> wraps s !! p = Some w ->
  is_stream w' = is_stream w -> m_data w' = m_data w ->
  0 < m_refcnt w' -> m_refcnt w' = Z.of_nat (mcount (Z.eqb p) hs') ->
  (forall q, q <> p -> mcount (Z.eqb q) hs' = mcount (Z.eqb q) hs) ->
  (forall x q, hs' !! x = Some q -> q = 0 \/ is_Some (wraps s !! q)) ->
  wf (set_wraps <[p := w']> s) hs' us.
Proof.
  intros [Hbrk Hh Hw Hd Hm Hb Hdj Hu] Hp Hs Hda Hpos Hrc Hoth Hlive.
  split; cbn; try done.
  - intros x q Hx. rewrite lookup_insert_is_Some'. destruct (Hlive _ _ Hx); auto.
  - intros q z. rewrite lookup_insert_Some. intros [[<- <-]|[Hne Hq]].
    + destruct (Hw _ _ Hp). auto.
    + rewrite Hoth by done. eauto.
  - intros q z. rewrite lookup_insert_Some. intros [[<- <-]|[Hne Hq]]; [|eauto].
    rewrite Hs, Hda. eauto.
  - intros b mb Hmb. unfold refs_msg. rewrite (mcount_update_same _ _ p w); [by apply Hm|done|].
    unfold owns_msg. by rewrite Hs, Hda.
  - intros b bytes Hbb. rewrite (mcount_update_same _ _ p w); [by eapply Hb|done|].
    unfold owns_buf. by rewrite Hs, Hda.
Qed.

(** The last handle goes, and with it the empty wrapper. *)
Lemma wf_del_wrapper s hs us x p w :
  wf s hs us -> hs !! x = Some p -> wraps s !! p = Some w -> m_refcnt w = 1 -> m_data w = 0 ->
  wf (set_wraps (delete p) s) (delete x hs) us.
Proof.
  intros [Hbrk Hh Hw Hd Hm Hb Hdj Hu] Hx Hp Hrc Hd0.
  destruct (Hw _ _ Hp) as (Hp0 & _ & Hcnt).
  rewrite Hrc, (mcount_delete _ _ x p Hx), Z.eqb_refl in Hcnt. cbn in Hcnt.
  pose proof (fun b => owns_nothing b w Hd0) as Hno.
  split; cbn; try done.
  - intros y q Hy. pose proof Hy as [_ Hy']%lookup_delete_Some.
    destruct (Hh _ _ Hy') as [?|Hq]; [by left|right].
    rewrite lookup_delete_ne; [done|]. intros <-.
    pose proof (mcount_pos (Z.eqb p) _ _ _ Hy (Z.eqb_refl p)). lia.
  - intros q z [Hne Hq]%lookup_delete_Some. destruct (Hw _ _ Hq) as (? & ? & Hc).
    rewrite (mcount_delete _ _ x p Hx), (proj2 (Z.eqb_neq q p)) in Hc by congruence. auto.
  - intros q z [Hne Hq]%lookup_delete_Some. eauto.
  - intros b mb Hmb. destruct (Hm _ _ Hmb) as (? & ? & Hc & ?). split; [done|]. split; [done|].
    split; [|done]. unfold refs_msg in *. rewrite (mcount_delete _ _ p w Hp) in Hc.
    destruct (Hno b ltac:(lia)) as [Hn _]. by rewrite Hn in Hc.
  - intros b bytes Hbb. destruct (Hb _ _ Hbb) as [? Hc]. split; [done|].
    rewrite (mcount_delete _ _ p w Hp) in Hc. destruct (Hno b ltac:(lia)) as [_ Hn].
    by rewrite Hn in Hc.
Qed.

(** A new wrapper without a body, held by the new handle [x]. *)
Lemma wf_new_wrapper s hs us x w :
  wf s hs us -> hs !! x = None -> m_refcnt w = 1 -> m_data w = 0 ->
  wf (new_wrapper w s).2 (<[x := brk s]> hs) us.
Proof.
  intros Hwf Hx Hrc Hd0. destruct (wf_brk_free _ _ _ Hwf) as (_ & _ & Hfr).
  pose proof (wf_malloc _ _ _ Hwf) as Hwf1. unfold new_wrapper. cbn.
  destruct Hwf1 as [Hbrk Hh Hw Hd Hm Hb Hdj Hu]. cbn in *.
  assert (0 < brk s) as Hb0 by apply Hwf.
  pose proof (fun b => owns_nothing b w Hd0) as Hno.
  split; cbn; try done.
  - intros y q. rewrite lookup_insert_Some, lookup_insert_is_Some'.
    intros [[_ <-]|[_ Hy]]; [auto|]. destruct (Hh _ _ Hy); auto.
  - intros q z. rewrite mcount_insert, lookup_insert_Some by done. intros [[<- <-]|[Hne Hq]].
    + rewrite Z.eqb_refl, mcount_none, Hrc; [cbn; lia|]. intros y q Hy. apply Z.eqb_neq.
      intros <-. destruct (Hh _ _ Hy) as [?|[z Hz]]; [lia|congruence].
    + rewrite (proj2 (Z.eqb_neq q (brk s))) by congruence. eauto.
  - intros q z. rewrite lookup_insert_Some. intros [[<- <-]|[Hne Hq]]; eauto.
  - intros b mb Hmb. destruct (Hm _ _ Hmb) as (? & ? & Hc & ?). split; [done|]. split; [done|].
    split; [|done]. unfold refs_msg in *. rewrite mcount_insert by done.
    destruct (Hno b ltac:(lia)) as [-> _]. done.
  - intros b bytes Hbb. destruct (Hb _ _ Hbb) as [? Hc]. split; [done|].
    rewrite mcount_insert by done. destruct (Hno b ltac:(lia)) as [_ ->]. done.
Qed.

(** ** Handles *)
Lemma mcount_handle_ne (p : Z) (hs : gmap nat Z) x h :
  hs !! x = Some h -> p <> h -> mcount (Z.eqb p) (delete x hs) = mcount (Z.eqb p) hs.
Proof.
  intros Hx Hne. rewrite (mcount_delete _ hs x h Hx).
  by rewrite (proj2 (Z.eqb_neq p h)) by done.
Qed.

Lemma delete_last_handle s hs us x p w r :
  wf s hs us -> hs !! x = Some p -> wraps s !! p = Some w -> m_refcnt w = 1 ->
  Z.of_nat (size (wraps s) + size us) < 2 ^ 32 ->
  exists s', delete_wrapper p (set_wraps <[p := with_refcnt r w]> s) = Ok s' /\
    wf s' (delete x hs) us.
Proof.
  intros Hwf Hx Hp Hrc Hsm. unfold delete_wrapper. cbn. rewrite lookup_insert_eq. cbn.
  change (is_stream (with_refcnt r w)) with (is_stream w).
  destruct (Z.eqb_spec (m_data w) 0) as [Hd|Hd]; rewrite ?andb_false_r, ?andb_true_r; cbn.
  - eexists. split; [done|]. eapply wf_fields; [..|by eapply wf_del_wrapper]; try done.
    cbn. apply delete_insert_eq.
  - destruct (is_stream w) eqn:Hs.
    + destruct (wf_data _ _ _ Hwf _ _ Hp) as [?|Hb]; [done|]. rewrite Hs in Hb.
      destruct Hb as [bytes Hb]. rewrite Hb. cbn. eexists. split; [done|].
      pose proof (wf_free_buf s hs us p w (with_data 0 w) Hwf Hp Hs Hd eq_refl eq_refl) as H1.
      eapply wf_del_wrapper in H1; [|done|cbn; apply lookup_insert_eq|done..].
      eapply wf_fields; [..|exact H1]; try done. cbn. by rewrite !delete_insert_eq.
    + destruct (fresh_slot us) as [u Hu].
      pose proof (wf_to_user s hs us p w (with_data 0 w) u Hwf Hp Hs Hd eq_refl eq_refl Hu) as H1.
      eapply wf_del_wrapper in H1; [|done|cbn; apply lookup_insert_eq|done..].
      match goal with |- context [mola_dealloc_message _ ?z] => set (s2 := z) end.
      assert (wf s2 (delete x hs) (<[u := m_data w]> us)) as H2.
      { eapply wf_fields; [..|exact H1]; try done. cbn. by rewrite !delete_insert_eq. }
      destruct (dealloc_user _ _ _ u (m_data w) H2) as (s' & Hs' & H3).
      * apply lookup_insert_eq.
      * cbn. rewrite delete_insert_eq, map_size_delete, Hp, map_size_insert_None by done. cbn.
        destruct (size (wraps s)) eqn:E; [|lia]. apply map_size_empty_inv in E.
        by rewrite E, lookup_empty in Hp.
      * exists s'. split; [done|]. by rewrite delete_insert_id in H3.
Qed.

Lemma drop_handle s hs us x h :
  wf s hs us -> hs !! x = Some h -> Z.of_nat (size hs) < 2 ^ 32 ->
  Z.of_nat (size (wraps s) + size us) < 2 ^ 32 ->
  exists s', sp_drop h s = Ok s' /\ wf s' (delete x hs) us.
Proof.
  intros Hwf Hx Hsh Hsm. unfold sp_drop.
  assert (forall y q, delete x hs !! y = Some q -> q = 0 \/ is_Some (wraps s !! q)) as Hlive.
  { intros y q [_ Hy]%lookup_delete_Some. by eapply wf_handle. }
  destruct (Z.eqb_spec h 0) as [->|Hh].
  - exists s. split; [done|]. eapply wf_handles; [done|done|].
    intros p Hp. by eapply mcount_handle_ne.
  - destruct (wf_handle _ _ _ Hwf _ _ Hx) as [?|[w Hw]]; [done|].
    destruct (wf_wrap _ _ _ Hwf _ _ Hw) as (_ & Hpos & Hcnt).
    pose proof (mcount_size (Z.eqb h) hs) as Hle.
    unfold dec_ref. rewrite Hw. cbn. rewrite wrap_small by width_lia.
    destruct (Z.eqb_spec (m_refcnt w - 1) 0) as [H1|H1].
    + eapply delete_last_handle; try done. lia.
    + eexists. split; [done|]. apply wf_rewrap with hs w; try done.
      * cbn. lia.
      * cbn. rewrite Hcnt, (mcount_delete _ _ x h Hx), Z.eqb_refl. cbn. lia.
      * intros q Hq. by eapply mcount_handle_ne.
Qed.

Lemma copy_handle s hs us x y h :
  wf s hs us -> hs !! x = None -> hs !! y = Some h -> Z.of_nat (size hs) + 1 < 2 ^ 32 ->
  exists s', sp_copy h s = Ok (h, s') /\ wf s' (<[x := h]> hs) us.
Proof.
  intros Hwf Hx Hy Hsh. unfold sp_copy.
  assert (forall z q, <[x := h]> hs !! z = Some q -> q = 0 \/ is_Some (wraps s !! q)) as Hlive.
  { intros z q [[_ <-]|[_ Hz]]%lookup_insert_Some; by eapply wf_handle. }
  destruct (Z.eqb_spec h 0) as [->|Hh].
  - exists s. split; [done|]. eapply wf_handles; [done|done|].
    intros p Hp. rewrite mcount_insert by done. by rewrite (proj2 (Z.eqb_neq p 0)) by done.
  - destruct (wf_handle _ _ _ Hwf _ _ Hy) as [?|[w Hw]]; [done|].
    destruct (wf_wrap _ _ _ Hwf _ _ Hw) as (_ & Hpos & Hcnt).
    pose proof (mcount_size (Z.eqb h) hs) as Hle.
    unfold inc_ref. rewrite Hw. cbn. rewrite wrap_small by width_lia.
    eexists. split; [done|]. apply wf_rewrap with hs w; try done.
    + cbn. lia.
    + cbn. rewrite Hcnt, mcount_insert, Z.eqb_refl by done. cbn. lia.
    + intros q Hq. rewrite mcount_insert by done. by rewrite (proj2 (Z.eqb_neq q h)) by done.
Qed.

Lemma copy_on_write_wf s hs us p :
  wf s hs us -> body_present s p -> Z.of_nat (size (wraps s) + size us) + 2 < 2 ^ 32 ->
  exists s', copy_on_write p s = Ok s' /\ wf s' hs us.
Proof.
  intros Hwf (w & Hw & Hd) Hsm. unfold copy_on_write. rewrite Hw. cbn.
  destruct (is_stream w) eqn:Hs; [by exists s|]. specialize (Hd eq_refl).
  destruct (wf_data _ _ _ Hwf _ _ Hw) as [?|Hm]; [done|]. rewrite Hs in Hm. destruct Hm as [m Hm].
  destruct (wf_msg _ _ _ Hwf _ _ Hm) as (Ha & Hpos & Hcnt & [v Hv]).
  pose proof (refs_msg_bound (m_data w) (wraps s) us ltac:(lia)) as Hbd.
  unfold mola_message_cow, mola_refcnt_unique. rewrite Hm. cbn.
  destruct (Z.ltb_spec 0 (count m)) as [_|]; [|lia]. cbn.
  destruct (Z.eqb_spec (count m) 1) as [H1|H1]; cbn.
  { eexists. split; [done|]. eapply wf_fields; [..|exact Hwf]; try done. cbn. apply insert_id.
    rewrite Hw. by destruct w. }
  rewrite Hv. cbn.
  match goal with |- context [init_message (Some v) (dtor m) true ?ud] =>
    pose (s1 := (mola_alloc_message v (dtor m) ud s).2) end.
  assert (msgs s1 !! m_data w = Some m) as Hm1.
  { cbn. rewrite lookup_insert_ne; [done|lia]. }
  destruct (put_spec _ m s1 Hm1 ltac:(lia) ltac:(eauto)) as (s2 & Hput & Ewr & Ebf & Ebr & Emg).
  change (set_msgs _ _) with s1. rewrite Hput. cbn. eexists. split; [done|].
  destruct (fresh_slot us) as [u Hu].
  pose proof (wf_to_user s hs us p w (with_data 0 w) u Hwf Hw Hs Hd eq_refl eq_refl Hu) as HA.
  destruct (fresh_slot (<[u := m_data w]> us)) as [u2 Hu2].
  match type of s1 with _ => match eval unfold s1 in s1 with (mola_alloc_message _ _ ?ud _).2 =>
    pose proof (wf_alloc _ _ _ u2 v (dtor m) ud HA Hu2) as HB end end.
  assert (u <> u2) as Hne by (intros ->; by rewrite lookup_insert_eq in Hu2).
  assert (wf (set_wraps <[p := with_data 0 w]> s2) hs (<[u2 := brk s]> us)) as HC.
  { pose proof (wf_put _ (set_wraps <[p := with_data 0 w]> s2) _ _ u (m_data w) m HB) as H.
    rewrite delete_insert_ne in H by done. rewrite (delete_insert_id us) in H by done.
    apply H; cbn; try done.
    - rewrite lookup_insert_ne by done. apply lookup_insert_eq.
    - by rewrite Ewr. }
  pose proof (wf_from_user _ _ _ p (with_data 0 w) (with_data (brk s) w) u2 (brk s) HC) as HD.
  rewrite delete_insert_id in HD by (by rewrite lookup_insert_ne in Hu2).
  eapply wf_fields; [..|apply HD]; try done; cbn; rewrite ?insert_insert_eq, ?lookup_insert_eq; done.
Qed.

Lemma deserialize_wf s hs us p v u :
  wf s hs us -> convertible s p v -> us !! u = None ->
  exists a s', deserialize p v s = Ok (a, s') /\ a <> 0 /\ wf s' hs (<[u := a]> us) /\
    size (wraps s') = size (wraps s).
Proof.
  intros Hwf (w & Hw & Hd & Hconv) Hu. unfold deserialize. rewrite Hw. cbn.
  destruct (wf_data _ _ _ Hwf _ _ Hw) as [?|Hlive]; [done|].
  destruct (is_stream w) eqn:Hs; cbn.
  - destruct Hlive as [bytes Hb]. specialize (Hconv eq_refl _ Hb). rewrite Hb. cbn.
    destruct (wf_buf _ _ _ Hwf _ _ Hb) as [Hb0 _].
    pose proof (wf_disj _ _ _ Hwf _ (mk_is_Some _ _ Hb)) as Hnm.
    destruct (unpack v) as [f|].
    + destruct Hconv as [ud Hud]. rewrite Hud. unfold mola_init_unpacked_message. cbn.
      rewrite lookup_insert_eq. cbn.
      set (w' := with_data 0 (with_meta (set_data_type TYPE_USER_NORMAL) w)).
      pose proof (wf_free_buf s hs us p w w' Hwf Hw Hs Hd eq_refl eq_refl) as HA.
      pose proof (wf_malloc _ _ _ HA) as HB.
      destruct (wf_brk_free _ _ _ HA) as (Hf1 & Hf2 & _). cbn in Hf1, Hf2.
      pose proof (wf_body _ _ _ u (brk s)
        (init_message (Some v) false true (match init_unpacked v with Some g => g ud | None => ud end))
        HB Hu) as HC.
      pose proof (wf_brk _ _ _ Hwf).
      eexists _, _. split; [reflexivity|]. split; [lia|]. split.
      * eapply wf_fields; [..|apply HC]; cbn; rewrite ?insert_insert_eq; eauto; lia.
      * cbn. by rewrite map_size_insert, Hw.
    + destruct (Z.leb_spec sizeof_message (Z.of_nat (length bytes))); [|lia]. cbn.
      unfold pass_. cbn. rewrite lookup_insert_eq. cbn.
      set (w' := with_data 0 (with_meta (set_data_type TYPE_USER_LITTLE) w)).
      pose proof (wf_free_buf s hs us p w w' Hwf Hw Hs Hd eq_refl eq_refl) as HA.
      pose proof (wf_body _ _ _ u (m_data w)
        (init_message (Some v) false false (drop (Z.to_nat sizeof_message) bytes)) HA Hu) as HC.
      eexists _, _. split; [reflexivity|]. split; [done|]. split.
      * eapply wf_fields; [..|apply HC]; cbn; rewrite ?insert_insert_eq, ?lookup_delete_eq; eauto.
      * cbn. by rewrite insert_insert_eq, map_size_insert, Hw.
  - destruct Hlive as [m Hm]. unfold pass_. rewrite Hw. cbn. rewrite Hs. cbn. rewrite Hm. cbn.
    eexists _, _. split; [reflexivity|]. split; [done|]. split.
    + by apply wf_to_user.
    + cbn. by rewrite map_size_insert, Hw.
Qed.

(** ** The operations *)
Definition world_wf (W : world) : Prop := wf (mm W) (hs W) (us W).

Lemma null_handle s hs us x : wf s hs us -> hs !! x = None -> wf s (<[x := 0]> hs) us.
Proof.
  intros Hwf Hx. eapply wf_handles; [done|..].
  - intros z q [[_ <-]|[_ Hz]]%lookup_insert_Some; [by left|by eapply wf_handle].
  - intros p Hp. rewrite mcount_insert by done. by rewrite (proj2 (Z.eqb_neq p 0)) by done.
Qed.

Lemma move_handle s hs us x y h :
  wf s hs us -> hs !! x = None -> hs !! y = Some h -> wf s (<[x := h]> (<[y := 0]> hs)) us.
Proof.
  intros Hwf Hx Hy. assert (x <> y) by congruence. eapply wf_handles; [done|..].
  - intros z q [[_ <-]|[_ [[_ <-]|[_ Hz]]%lookup_insert_Some]]%lookup_insert_Some;
      [by eapply wf_handle|by left|by eapply wf_handle].
  - intros p Hp. rewrite mcount_insert by (rewrite lookup_insert_ne by done; done).
    pose proof (mcount_update (Z.eqb p) hs y h 0 Hy) as Hup.
    rewrite (proj2 (Z.eqb_neq p 0)) in Hup by done. cbn in Hup. lia.
Qed.

Lemma new_wf x u W :
  world_wf W -> hs W !! x = None -> is_Some (us W !! u) ->
  exists W', exec (CNew x u) W = Ok W' /\ world_wf W'.
Proof.
  intros Hwf Hx [a Ha]. cbn. rewrite Ha. cbn.
  destruct (wf_user _ _ _ Hwf _ _ Ha) as [m Hm].
  destruct (wf_msg _ _ _ Hwf _ _ Hm) as (Ha0 & _ & _ & [v Hv]).
  unfold sp_of_msg, wrapper_of_msg. rewrite (proj2 (Z.eqb_neq a 0)) by lia. rewrite Hm. cbn.
  rewrite Hv. cbn. eexists. split; [done|]. unfold world_wf. cbn.
  match goal with |- context [MkWrapper 1 ?md a] => set (w := MkWrapper 1 md a) end.
  pose proof (wf_new_wrapper _ _ _ x (with_data 0 w) Hwf Hx eq_refl eq_refl) as HA.
  pose proof (wf_from_user _ _ _ (brk (mm W)) (with_data 0 w) w u a HA) as HB.
  eapply wf_fields; [..|apply HB]; try done; cbn; rewrite ?insert_insert_eq, ?lookup_insert_eq; try done.
  unfold w. by destruct (unpack v).
Qed.

Lemma recv_wf x bytes W :
  world_wf W -> hs W !! x = None ->
  exists W', exec (CRecv x bytes) W = Ok W' /\ world_wf W'.
Proof.
  intros Hwf Hx. eexists. split; [done|]. unfold world_wf. cbn.
  set (b := brk (mm W)). set (w := wrapper_of_stream b (Z.of_nat (length bytes))).
  pose proof (wf_malloc _ _ _ Hwf) as HM. destruct (wf_brk_free _ _ _ Hwf) as (Hf1 & Hf2 & _).
  pose proof (wf_new_wrapper _ _ _ x (with_data 0 w) HM Hx eq_refl eq_refl) as HA.
  pose proof (wf_take_buf _ _ _ (b + 1) (with_data 0 w) w b bytes HA) as HB.
  pose proof (wf_brk _ _ _ Hwf).
  eapply wf_fields; [..|apply HB]; try done; cbn; rewrite ?insert_insert_eq, ?lookup_insert_eq; try done.
  lia.
Qed.

Lemma assign_wf x y W :
  world_wf W -> small W -> is_Some (hs W !! x) -> is_Some (hs W !! y) ->
  exists W', sp_assign x y W = Ok W' /\ world_wf W'.
Proof.
  intros Hwf [Hsh Hsm] [hx Hx] [hy Hy]. unfold sp_assign. rewrite Hx. cbn.
  destruct (drop_handle _ _ _ x hx Hwf Hx ltac:(lia) ltac:(lia)) as (s1 & -> & H1). cbn.
  destruct (decide (x = y)) as [<-|Hne].
  - rewrite lookup_insert_eq. cbn. eexists. split; [done|]. unfold world_wf. cbn.
    rewrite insert_insert_eq, <- insert_delete_eq. apply null_handle; [done|apply lookup_delete_eq].
  - rewrite lookup_insert_ne by done. rewrite Hy. cbn.
    destruct (copy_handle _ _ _ x y hy H1) as (s2 & -> & H2);
      [apply lookup_delete_eq|by rewrite lookup_delete_ne| |].
    { rewrite map_size_delete, Hx. cbn. lia. }
    cbn. eexists. split; [done|]. unfold world_wf. cbn.
    by rewrite insert_insert_eq, <- insert_delete_eq.
Qed.

Lemma assign_move_wf x y W :
  world_wf W -> small W -> is_Some (hs W !! x) -> is_Some (hs W !! y) ->
  exists W', sp_assign_move x y W = Ok W' /\ world_wf W'.
Proof.
  intros Hwf [Hsh Hsm] [hx Hx] [hy Hy]. unfold sp_assign_move. rewrite Hx. cbn.
  destruct (drop_handle _ _ _ x hx Hwf Hx ltac:(lia) ltac:(lia)) as (s1 & -> & H1). cbn.
  destruct (decide (x = y)) as [<-|Hne].
  - rewrite lookup_insert_eq. cbn. eexists. split; [done|]. unfold world_wf. cbn.
    rewrite !insert_insert_eq, <- insert_delete_eq. apply null_handle; [done|apply lookup_delete_eq].
  - rewrite lookup_insert_ne by done. rewrite Hy. cbn. eexists. split; [done|].
    unfold world_wf. cbn. rewrite (insert_insert_ne _ x y) by done.
    rewrite insert_insert_eq, <- (insert_delete_eq (hs W) x), insert_insert_ne by done.
    apply move_handle; [done|apply lookup_delete_eq|by rewrite lookup_delete_ne].
Qed.

Lemma convert_wf x u v release W :
  world_wf W -> allowed (CConvert x u v release) W ->
  exists W', exec (CConvert x u v release) W = Ok W' /\ world_wf W'.
Proof.
  intros Hwf ([Hsh Hsm] & Hu & p & Hx & Hcv). cbn. rewrite Hx. cbn. unfold ConvertRawToType_.
  destruct (deserialize_wf _ _ _ p v u Hwf Hcv Hu) as (a & s' & -> & Ha & H1 & Hsz). cbn.
  rewrite (proj2 (Z.eqb_neq a 0)) by done. cbn. destruct release; cbn; [|by eexists].
  destruct (drop_handle _ _ _ x p H1 Hx ltac:(lia)) as (s2 & -> & H2); [|by eexists].
  rewrite Hsz, map_size_insert_None by done. lia.
Qed.

Lemma exec_wf c W :
  world_wf W -> allowed c W -> exists W', exec c W = Ok W' /\ world_wf W'.
Proof.
  intros Hwf Hal0. pose proof Hal0 as [[Hsh Hsm] Hal]. destruct c.
  - eexists. split; [done|]. apply (wf_alloc _ _ _ u v d ud Hwf Hal).
  - destruct Hal as [[a Ha] Hf]. cbn. rewrite Ha. cbn.
    destruct (wf_get _ _ _ u u' a Hwf Ha Hf ltac:(lia)) as (s & -> & H). by eexists.
  - destruct Hal as [a Ha]. cbn. rewrite Ha. cbn.
    destruct (dealloc_user _ _ _ u a Hwf Ha ltac:(lia)) as (s & -> & H). by eexists.
  - destruct Hal. by apply new_wf.
  - by apply recv_wf.
  - destruct Hal as [Hx [h Hy]]. cbn. rewrite Hy. cbn.
    destruct (copy_handle _ _ _ x y h Hwf Hx Hy ltac:(lia)) as (s & -> & H). by eexists.
  - destruct Hal as [Hx [h Hy]]. cbn. rewrite Hy. cbn. eexists. split; [done|]. by apply move_handle.
  - destruct Hal. by apply assign_wf.
  - destruct Hal. by apply assign_move_wf.
  - destruct Hal as [h Hx]. cbn. rewrite Hx. cbn.
    destruct (drop_handle _ _ _ x h Hwf Hx ltac:(lia) ltac:(lia)) as (s & -> & H). by eexists.
  - destruct Hal as (p & Hx & Hbp). cbn. rewrite Hx. cbn.
    destruct (copy_on_write_wf _ _ _ p Hwf Hbp ltac:(lia)) as (s & -> & H). by eexists.
  - by apply convert_wf.
Qed.

(** ** Programs *)
Definition empty_world : world := MkWorld (MkMem ∅ ∅ ∅ 1 []) ∅ ∅.

(** The worlds a client that respects [allowed] can reach. *)
Inductive reached : world -> Prop :=
| reached_empty : reached empty_world
| reached_step c W W' : reached W -> allowed c W -> exec c W = Ok W' -> reached W'.

Lemma reached_wf W : reached W -> world_wf W.
Proof.
  induction 1 as [|c W W' _ IH Hal He].
  - split; cbn; try done; intros; simplify_map_eq.
  - destruct (exec_wf c W IH Hal) as (W2 & He2 & H2). congruence.
Qed.

(** C6: memory safety of the message API: in every world that a program reaches
    with MessageSafePtr and the C calls, every further permitted operation runs
    without touching freed memory and without failing an assertion. *)
Theorem message_api_safe (c : cmd) (W : world) :
  reached W -> allowed c W -> exists W', exec c W = Ok W' /\ reached W'.
Proof.
  intros Hr Hal. destruct (exec_wf c W (reached_wf W Hr) Hal) as (W' & He & _).
  exists W'. split; [done|]. by eapply reached_step.
Qed.

(** C7: the counters count the owners: the counter of a live wrapper is the
    number of pointers to it, and the counter of a live body is the number of
    wrappers that carry it plus the number of user references. *)
Theorem refcounts_exact (W : world) :
  reached W ->
  (forall p w, wraps (mm W) !! p = Some w -> m_refcnt w = Z.of_nat (mcount (Z.eqb p) (hs W))) /\
  (forall a m, msgs (mm W) !! a = Some m ->
     count m = Z.of_nat (mcount (owns_msg a) (wraps (mm W)) + mcount (Z.eqb a) (us W))).
Proof.
  intros Hr%reached_wf. split.
  - intros p w Hp. apply (wf_wrap _ _ _ Hr p w Hp).
  - intros a m Ha. apply (wf_msg _ _ _ Hr a m Ha).
Qed.

(** C8: nothing leaks: once every pointer is gone or null and user code holds no
    body, no wrapper, no body and no stream buffer is left. *)
Theorem message_api_no_leak (W : world) :
  reached W -> us W = ∅ -> (forall x p, hs W !! x = Some p -> p = 0) ->
  wraps (mm W) = ∅ /\ msgs (mm W) = ∅ /\ bufs (mm W) = ∅.
Proof.
  intros Hr%reached_wf Hu Hh. destruct Hr as [Hbrk Hl Hw Hd Hm Hb Hdj Hus].
  assert (wraps (mm W) = ∅) as Hwe.
  { apply map_empty. intros p. apply eq_None_not_Some. intros [w Hp].
    destruct (Hw _ _ Hp) as (? & ? & Hc). rewrite mcount_none in Hc; [lia|].
    intros x q Hx. rewrite (Hh _ _ Hx). apply Z.eqb_neq. lia. }
  split; [done|]. split; apply map_empty; intros a; apply eq_None_not_Some; intros [z Hz].
  - destruct (Hm _ _ Hz) as (? & ? & Hc & _). unfold refs_msg in Hc.
    rewrite Hwe, Hu, !mcount_empty in Hc. cbn in Hc. lia.
  - destruct (Hb _ _ Hz) as [_ Hc]. by rewrite Hwe, mcount_empty in Hc.
Qed.

(** Assigning a MessageSafePtr to itself drops the message: the pointer is
    null afterwards, and the message is gone when it was the only reference. *)
Theorem self_assign_loses_message (x : nat) (p : Z) (W W' : world) :
  reached W -> allowed (CAssign x x) W -> hs W !! x = Some p ->
  exec (CAssign x x) W = Ok W' ->
  hs W' !! x = Some 0 /\ (mcount (Z.eqb p) (hs W) = 1%nat -> p <> 0 -> wraps (mm W') !! p = None).
Proof.
  intros Hr Hal Hx He.
  destruct (exec_wf _ _ (reached_wf _ Hr) Hal) as (W2 & He2 & Hwf2).
  rewrite He in He2. injection He2 as <-.
  cbn in He. unfold sp_assign in He. rewrite Hx in He. cbn in He.
  destruct (sp_drop p (mm W)) as [s1|] eqn:Hd; cbn in He; [|done].
  rewrite lookup_insert_eq in He. cbn in He. injection He as <-. cbn in *. rewrite insert_insert_eq, lookup_insert_eq. split; [done|]. intros H1 Hp0.
  apply eq_None_not_Some. intros [w Hw].
  destruct (wf_wrap _ _ _ Hwf2 _ _ Hw) as (_ & ? & Hc). cbn in Hc.
  rewrite insert_insert_eq in Hc. pose proof (mcount_update (Z.eqb p) (hs W) x p 0 Hx) as Hup.
  rewrite Z.eqb_refl, (proj2 (Z.eqb_neq p 0)) in Hup by done. cbn in Hup. lia.
Qed.

(** ** Witnesses *)
Module MessageRefExamples.
Import MessageExamples.
(** Two handles on one wrapper; the second one is moved, and both are dropped. *)
Definition step0 (c : cmd) (W : world) : world :=
  match exec c W with Ok W' => W' | Fault _ => W end.
Definition W1 : world := step0 (CAlloc 0 demo_vtab false [5; 6]) empty_world.
Definition W2 : world := step0 (CGet 0 1) W1.
Definition W3 : world := step0 (CNew 10 0) W2.
Definition W4 : world := step0 (CDrop 10) W3.
Definition W5 : world := step0 (CPut 1) W4.

Ltac small_tac := split; vm_compute; reflexivity.

Lemma W3_reached : reached W3.
Proof.
  eapply (reached_step (CNew 10 0) W2); [|split; [small_tac|vm_compute; eauto]|reflexivity].
  eapply (reached_step (CGet 0 1) W1); [|split; [small_tac|vm_compute; eauto]|reflexivity].
  eapply (reached_step (CAlloc 0 demo_vtab false [5; 6]) empty_world);
    [constructor|split; [small_tac|reflexivity]|reflexivity].
Qed.

Lemma W5_reached : reached W5.
Proof.
  eapply (reached_step (CPut 1) W4); [|split; [small_tac|vm_compute; eauto]|reflexivity].
  eapply (reached_step (CDrop 10) W3); [apply W3_reached|split; [small_tac|vm_compute; eauto]|reflexivity].
Qed.

Lemma message_api_safe_witness : exists W', exec (CCow 10) W3 = Ok W' /\ reached W'.
Proof.
  apply (message_api_safe (CCow 10) W3); [apply W3_reached|].
  split; [small_tac|]. exists 2. split; [reflexivity|]. eexists. split; [reflexivity|]. discriminate.
Defined.

Lemma refcounts_exact_witness :
  exists m, msgs (mm W3) !! 1 = Some m /\ count m = 2.
Proof.
  eexists. split; [reflexivity|]. exact (proj2 (refcounts_exact W3 W3_reached) 1 _ eq_refl).
Defined.

Lemma message_api_no_leak_witness :
  wraps (mm W5) = ∅ /\ msgs (mm W5) = ∅ /\ bufs (mm W5) = ∅.
Proof.
  apply (message_api_no_leak W5 W5_reached); [reflexivity|].
  intros x p Hx. change (hs W5) with (∅ : gmap nat Z) in Hx. by rewrite lookup_empty in Hx.
Defined.

Lemma self_assign_loses_message_witness :
  hs (step0 (CAssign 10 10) W3) !! 10%nat = Some 0 /\
  wraps (mm (step0 (CAssign 10 10) W3)) !! 2 = None.
Proof.
  destruct (self_assign_loses_message 10 2 W3 (step0 (CAssign 10 10) W3)) as [H1 H2].
  - apply W3_reached.
  - split; [small_tac|]. vm_compute. eauto.
  - reflexivity.
  - reflexivity.
  - split; [exact H1|]. apply H2; [reflexivity|discriminate].
Defined.
End MessageRefExamples.
