(* ===== verification/CApi.v ===== *)
(** * Messages and memory in C modules

    The macros of include/mola/runtime.h that modules use: NewMsg, FreeMsg, CopyMsg,
    CopyMsgOnWrite, MolaAlloc, MolaFree, MolaRefCpy and the conversions.  A user pointer is
    the address of the body it is the user_data of (GEN_MESSAGE is its inverse), 0 the null
    pointer; the functions below them are those of Message.v. *)
From stdpp Require Import base list gmap numbers.
From S2P Require Import Prelude Message.

#[local] Arguments wrap : simpl never.

(** NewMsgWithDtor: [init] is what T__init leaves in the body, [d] says that there is a
    destructor *)
Definition NewMsgWithDtor (v : vtab) (d : bool) (init : list Z) (s : mem) : Z * mem :=
  mola_alloc_message v d init s.
Definition NewMsg (v : vtab) (init : list Z) (s : mem) : Z * mem := NewMsgWithDtor v false init s.

Definition FreeMsg (p : Z) (s : mem) : outcome mem := if p =? 0 then mret s else mola_dealloc_message p s.

Definition CopyMsg (p : Z) (s : mem) : outcome (Z * mem) :=
  s ← (if p =? 0 then mret s else mola_refcnt_get p s); mret (p, s).

Definition CopyMsgOnWrite (p : Z) (s : mem) : outcome (Z * mem) := mola_message_cow p s.

Definition MolaAlloc (size : Z) (ud : list Z) (s : mem) : outcome (Z * mem) := mola_alloc size false ud s.
Definition MolaFree (p : Z) (s : mem) : outcome mem := if p =? 0 then mret s else mola_free p s.
Definition MolaRefCpy (p : Z) (s : mem) : outcome (Z * mem) := CopyMsg p s.

(** ConvertRawToType, and ConvertMsgToType, which gives it the body of a user pointer *)
Definition ConvertRawToType (raw : Z) (v : vtab) (s : mem) : outcome (Z * mem) := ConvertRawToType_ raw v false s.
Definition ConvertMsgToType (p : Z) (v : vtab) (s : mem) : outcome (Z * mem) := ConvertRawToType p v s.

(** ** Copies *)

(** A copy that is freed leaves the memory as it was; null pointers are let through. *)
Theorem copy_free_id p s m : msgs s !! p = Some m -> 0 < count m < 2 ^ 32 - 1 ->
  (exists s', CopyMsg p s = Ok (p, s') /\ FreeMsg p s' = Ok s) /\ CopyMsg 0 s = Ok (0, s) /\ FreeMsg 0 s = Ok s.
Proof.
  intros Hm Hc. split; [|done]. unfold CopyMsg, FreeMsg. destruct (Z.eqb_spec p 0) as [->|_]; [by eexists|].
  unfold mola_refcnt_get. rewrite Hm. cbn. rewrite (proj2 (Z.ltb_lt _ _)) by lia. cbn. eexists. split; [done|].
  unfold mola_dealloc_message, deallocate. cbn. rewrite lookup_insert_eq. cbn.
  rewrite (wrap_small 32 (count m + 1)) by width_lia. rewrite (proj2 (Z.ltb_lt _ _)) by lia.
  unfold mola_refcnt_put. cbn. rewrite lookup_insert_eq. cbn. rewrite (proj2 (Z.ltb_lt _ _)) by lia. cbn.
  replace (count m + 1 - 1) with (count m) by lia. rewrite wrap_small by width_lia.
  rewrite (proj2 (Z.eqb_neq _ _)) by lia. cbn. unfold set_msgs. cbn.
  rewrite insert_insert_eq, insert_id; [by destruct s|]. rewrite Hm. by destruct m.
Qed.

(** CopyMsgOnWrite gives the caller a body of its own to write to: it has one reference
    and the content that the copy callback of its type makes (the same bytes without one);
    a body that was shared stays with the others with one reference less, no other body
    changes, and a body that was not shared is the caller's already. *)
Theorem copy_on_write_private p s m v :
  msgs s !! p = Some m -> 0 < count m < 2 ^ 32 -> mvtab m = Some v -> msgs s !! brk s = None ->
  exists p' s', CopyMsgOnWrite p s = Ok (p', s') /\
    if decide (count m = 1) then p' = p /\ s' = s
    else p' <> p /\
      msgs s' !! p' = Some (MkMessage 1 true (Some v) (dtor m)
        (match copy v with Some f => f (user_data m) | None => user_data m end)) /\
      msgs s' !! p = Some (set_count (count m - 1) m) /\
      forall q, q <> p -> q <> p' -> msgs s' !! q = msgs s !! q.
Proof.
  intros Hm Hc Hv Hf. unfold CopyMsgOnWrite, mola_message_cow, mola_refcnt_unique. rewrite Hm. cbn.
  rewrite (proj2 (Z.ltb_lt _ _)) by lia. cbn. case_decide as H1.
  { rewrite (proj2 (Z.eqb_eq _ _)) by done. eauto. }
  rewrite (proj2 (Z.eqb_neq _ _)) by done. cbn. rewrite Hv. cbn.
  assert (p <> brk s) as Hp by (intros ->; congruence).
  destruct (put_spec p m (set_msgs <[brk s := init_message (Some v) (dtor m) true
    (match copy v with Some f => f (user_data m) | None => user_data m end)]> (MkMem (msgs s) (bufs s) (wraps s) (brk s + 1) (calls s))))
    as (s' & E & _ & _ & _ & Hms); [cbn; by rewrite lookup_insert_ne|done|eauto|].
  rewrite E. cbn. eexists _, _. split; [done|]. rewrite (proj2 (Z.eqb_neq _ _)) in Hms by done. rewrite Hms. cbn.
  split_and!; [done| | |].
  - by rewrite lookup_insert_ne, lookup_insert_eq.
  - apply lookup_insert_eq.
  - intros q Hq Hq'. by rewrite !lookup_insert_ne.
Qed.

(** ** Where the macros go wrong *)

(** The destructor given to MolaAllocWithDtor never runs: mola_alloc registers no
    release handler that would call it. *)
Theorem mola_alloc_dtor_ignored size ud s : 0 < size ->
  exists p s1 s2, mola_alloc size true ud s = Ok (p, s1) /\ mola_free p s1 = Ok s2 /\
    msgs s2 = delete p (msgs s) /\ calls s2 = calls s.
Proof.
  intros Hs. unfold mola_alloc, mola_free, deallocate, mola_refcnt_put. rewrite (proj2 (Z.ltb_lt _ _)) by done. cbn.
  do 2 eexists. eexists. split; [reflexivity|]. cbn. rewrite !lookup_insert_eq. cbn.
  split; [reflexivity|]. cbn. by rewrite !delete_insert_eq.
Qed.

(** Memory of MolaAlloc has no type: CopyMsgOnWrite of a shared one reads through a null
    pointer; ConvertMsgToType takes a body for a wrapper, whatever the body. *)
Theorem untyped_misuse p s m v :
  msgs s !! p = Some m -> 1 < count m -> mvtab m = None -> wraps s !! p = None ->
  CopyMsgOnWrite p s = Fault BadDeref /\ ConvertMsgToType p v s = Fault BadDeref.
Proof.
  intros Hm Hc Hv Hw. split.
  - unfold CopyMsgOnWrite, mola_message_cow, mola_refcnt_unique. rewrite Hm. cbn.
    rewrite (proj2 (Z.ltb_lt _ _)), (proj2 (Z.eqb_neq _ _)) by lia. cbn. by rewrite Hv.
  - unfold ConvertMsgToType, ConvertRawToType, ConvertRawToType_, deserialize. by rewrite Hw.
Qed.

Lemma copy_on_write_private_witness :
  exists p' s', CopyMsgOnWrite 1 MessageExamples.normal_mem = Ok (p', s') /\ p' <> 1.
Proof.
  destruct (copy_on_write_private 1 MessageExamples.normal_mem MessageExamples.demo_body MessageExamples.demo_vtab)
    as (p' & s' & E & H); [reflexivity|cbn; lia|reflexivity|reflexivity|]. exists p', s'. split; [done|]. by destruct H.
Defined.
