(* ===== verification/Locks.v ===== *)
(** * Locks: SpinLock, AsyncLock and the queue that a SpinLock protects

    include/mola/spinlock.hpp and the ThreadSafeQueue of include/mola/queue.hpp.

    The spin lock is a flag that threads test and set; the asynchronous lock and
    the queue run their bodies under it, so that each body is one step. *)
From stdpp Require Import base list gmap numbers relations.
From S2P Require Import Prelude.

(** ** SpinLock *)
Module SpinLock.

(** A thread spins in lock(), has [n] attempts of try_lock left, or holds the lock. *)
Inductive pc := Out | Spin | Try (n : nat) | Held.

Record config := MkConfig { m_lock : bool; threads : gmap nat pc }.

Definition pc_of (i : nat) (σ : config) : pc := default Out (threads σ !! i).
Definition set_pc (i : nat) (p : pc) (b : bool) (σ : config) : config :=
  MkConfig b (<[i := p]> (threads σ)).

(** test_and_set returns the old value. *)
Definition test_and_set (σ : config) : bool := m_lock σ.

(** One access of thread [i]. *)
Definition lock_step (i : nat) (σ : config) : config :=
  match pc_of i σ with
  | Spin => if test_and_set σ then set_pc i Spin true σ else set_pc i Held true σ
  | Try O => set_pc i Out (m_lock σ) σ
  | Try (S n) => if test_and_set σ then set_pc i (Try n) true σ else set_pc i Held true σ
  | Out | Held => σ
  end.

Inductive step : config -> config -> Prop :=
| step_lock σ i : pc_of i σ = Out -> step σ (set_pc i Spin (m_lock σ) σ)
| step_try_lock σ i n : pc_of i σ = Out -> step σ (set_pc i (Try n) (m_lock σ) σ)
| step_access σ i : step σ (lock_step i σ)
| step_unlock σ i : pc_of i σ = Held -> step σ (set_pc i Out false σ).

Definition init : config := MkConfig false ∅.
Definition reachable (σ : config) : Prop := rtc step init σ.

Definition heldb (p : pc) : bool := match p with Held => true | _ => false end.

(** The flag is set exactly while one thread holds the lock. *)
Definition inv (σ : config) : Prop := mcount heldb (threads σ) = tick (m_lock σ).

Lemma set_pc_count i p b σ :
  (mcount heldb (threads (set_pc i p b σ)) + tick (heldb (pc_of i σ)) =
   tick (heldb p) + mcount heldb (threads σ))%nat.
Proof.
  unfold set_pc, pc_of. simpl. destruct (threads σ !! i) as [o|] eqn:Hi; simpl.
  - by apply mcount_update.
  - rewrite mcount_insert by done. lia.
Qed.

Lemma spin_step_inv σ σ' : inv σ -> step σ σ' -> inv σ'.
Proof.
  unfold inv. intros Hi Hs.
  assert (forall i p b, (tick b + tick (heldb (pc_of i σ)) = tick (heldb p) + tick (m_lock σ))%nat ->
    mcount heldb (threads (set_pc i p b σ)) = tick b) as Hset.
  { intros i p b Heq. pose proof (set_pc_count i p b σ). lia. }
  destruct Hs as [σ i Hp|σ i n Hp|σ i|σ i Hp].
  - apply Hset. by rewrite Hp.
  - apply Hset. by rewrite Hp.
  - unfold lock_step, test_and_set. destruct (pc_of i σ) as [| |[|n]|] eqn:Hp; try done;
      try (destruct (m_lock σ) eqn:Hl); apply Hset; rewrite Hp; simpl; rewrite ?Hl; done || lia.
  - apply Hset. rewrite Hp. simpl.
    assert (0 < mcount heldb (threads σ))%nat; [|destruct (m_lock σ); simpl in *; lia].
    unfold pc_of in Hp. destruct (threads σ !! i) as [p|] eqn:Hi'; [|done]. simpl in Hp. subst.
    by eapply mcount_pos.
Qed.

Lemma spin_reachable_inv σ : reachable σ -> inv σ.
Proof.
  unfold reachable. revert σ. apply rtc_ind_r; [done|]. intros σ1 σ2 _ Hs IH. by eapply spin_step_inv.
Qed.

Lemma held_lookup i σ : pc_of i σ = Held -> threads σ !! i = Some Held.
Proof. unfold pc_of. destruct (threads σ !! i) as [p|]; simpl; [by intros ->|done]. Qed.

(** A spin lock is held by at most one thread at a time, whether it was taken
    by lock or by try_lock. *)
Theorem spinlock_mutex (σ : config) (i j : nat) :
  reachable σ -> pc_of i σ = Held -> pc_of j σ = Held -> i = j.
Proof.
  intros Hr%spin_reachable_inv Hi%held_lookup Hj%held_lookup. unfold inv in Hr.
  destruct (decide (i = j)) as [|Hij]; [done|]. exfalso.
  rewrite (mcount_delete heldb _ i Held Hi) in Hr.
  assert (delete i (threads σ) !! j = Some Held) as Hj' by (by rewrite lookup_delete_ne).
  pose proof (mcount_pos heldb _ j Held Hj' eq_refl). simpl in Hr. destruct (m_lock σ); simpl in Hr; lia.
Qed.

End SpinLock.

(** ** AsyncLock *)
Module AsyncLock.

(** Requests are numbered.  [transit] are the waiters that a release has popped and
    whose acquire has not run yet: the lock is free in between.  [granted] are the
    requests whose callback ran, [releases] counts the releases of the lock while it was taken. *)
Record state := MkState {
  m_acquired : bool;
  m_wait_que : list Z;
  transit : list Z;
  granted : list Z;
  releases : nat
}.

(** AsyncLock::acquire *)
Definition acquire (r : Z) (s : state) : state :=
  if m_acquired s then
    MkState true (m_wait_que s ++ [r]) (transit s) (granted s) (releases s)
  else MkState true (m_wait_que s) (transit s) (granted s ++ [r]) (releases s).

(** AsyncLock::release up to the call of the waiter *)
Definition release (s : state) : state :=
  let n := (releases s + tick (m_acquired s))%nat in
  match m_wait_que s with
  | [] => MkState false [] (transit s) (granted s) n
  | w :: ws => MkState false ws (transit s ++ [w]) (granted s) n
  end.

(** The popped waiter calls acquire again. *)
Definition retry (r : Z) (t1 t2 : list Z) (s : state) : state :=
  acquire r (MkState (m_acquired s) (m_wait_que s) (t1 ++ t2) (granted s) (releases s)).

(** Anybody may release the lock at any time; [reqs] are the requests made so far. *)
Inductive step : list Z * state -> list Z * state -> Prop :=
| step_acquire reqs s r : step (reqs, s) (reqs ++ [r], acquire r s)
| step_release reqs s : step (reqs, s) (reqs, release s)
| step_retry reqs s r t1 t2 : transit s = t1 ++ r :: t2 -> step (reqs, s) (reqs, retry r t1 t2 s).

Definition init : state := MkState false [] [] [] 0.

Record inv (reqs : list Z) (s : state) : Prop := {
  i_all : reqs ≡ₚ granted s ++ m_wait_que s ++ transit s;
  i_count : length (granted s) = (releases s + tick (m_acquired s))%nat;
  i_wait : m_acquired s = false -> transit s = [] -> m_wait_que s = []
}.

Lemma acquire_inv reqs r s : inv reqs s -> inv (reqs ++ [r]) (acquire r s).
Proof.
  intros [Ha Hc Hw]. unfold acquire. destruct (m_acquired s) eqn:E; split; simpl in *; try done.
  - rewrite Ha. solve_Permutation.
  - rewrite Ha. solve_Permutation.
  - rewrite length_app. simpl. lia.
Qed.

Lemma async_step_inv c c' : inv c.1 c.2 -> step c c' -> inv c'.1 c'.2.
Proof.
  intros Hi Hs. destruct Hs as [reqs s r|reqs s|reqs s r t1 t2 Ht]; simpl in *.
  - by apply acquire_inv.
  - destruct Hi as [Ha Hc Hw]. unfold release.
    destruct (m_wait_que s) as [|w ws]; split; simpl in *; try done; try lia.
    + rewrite Ha. solve_Permutation.
    + intros _ Ht. by apply app_nil in Ht as [_ ?].
  - destruct Hi as [Ha Hc Hw]. unfold retry, acquire. simpl.
    destruct (m_acquired s) eqn:E; split; simpl in *; try done; rewrite ?Ha, ?Ht, ?length_app; simpl;
      solve_Permutation || lia.
Qed.

Lemma reach_inv c : rtc step ([], init) c -> inv c.1 c.2.
Proof.
  revert c. apply rtc_ind_r; [by split|]. intros c1 c2 _ Hs IH. by eapply async_step_inv.
Qed.

(** The asynchronous lock is exclusive and loses nobody: after any interleaving
    of acquires, releases and retries, at most one granted request has not been
    released; every request was granted once, waits, or is on its way from a
    release to its retry; and when the lock is free and nobody is on the way,
    nobody waits. *)
Theorem async_lock_safe (reqs : list Z) (s : state) :
  rtc step ([], init) (reqs, s) ->
  (length (granted s) <= releases s + 1)%nat /\
  (m_acquired s = false -> length (granted s) = releases s) /\
  reqs ≡ₚ granted s ++ m_wait_que s ++ transit s /\
  (m_acquired s = false -> transit s = [] -> m_wait_que s = []).
Proof.
  intros Hr. destruct (reach_inv _ Hr) as [Ha Hc Hw]; simpl in *.
  split_and!; try done; rewrite Hc; [destruct (m_acquired s); simpl; lia|intros ->; simpl; lia].
Qed.

(** The lock is not fair: a waiter that a release has popped can be overtaken
    by a new request, and then waits again behind everybody else. *)
Theorem async_lock_overtaken :
  exists s, rtc step ([], init) ([1; 2; 3; 4], s) /\
    granted s = [1; 4] /\ m_wait_que s = [3; 2] /\ transit s = [].
Proof.
  exists (MkState true [3; 2] [] [1; 4] 1). split; [|done].
  eapply rtc_l; [apply (step_acquire [] init 1)|].
  eapply rtc_l; [apply (step_acquire [1] _ 2)|].
  eapply rtc_l; [apply (step_acquire [1; 2] _ 3)|].
  eapply rtc_l; [apply (step_release [1; 2; 3])|].
  eapply rtc_l; [apply (step_acquire [1; 2; 3] _ 4)|].
  eapply rtc_l; [by apply (step_retry [1; 2; 3; 4] _ 2 [] [])|]. apply rtc_refl.
Qed.

Lemma async_lock_safe_witness :
  [5; 6] ≡ₚ granted (acquire 6 (acquire 5 init)) ++ m_wait_que (acquire 6 (acquire 5 init)) ++ [].
Proof.
  apply (async_lock_safe [5; 6] (acquire 6 (acquire 5 init))).
  eapply rtc_l; [apply (step_acquire [] init 5)|]. eapply rtc_l; [apply (step_acquire [5] _ 6)|].
  apply rtc_refl.
Defined.
End AsyncLock.

(** ** ThreadSafeQueue *)
Module SafeQueue.

(** struct node, as (value, next); m_head owns the chain, m_tail points into it. *)
Record queue := MkQueue {
  nodes : gmap Z (Z * Z);
  m_head : Z;
  m_tail : Z;
  m_num : Z;
  next_free : Z
}.

Definition new_queue : queue := MkQueue ∅ 0 0 0 1.

Definition enqueue (item : Z) (q : queue) : outcome queue :=
  let n := next_free q in
  let ns := <[n := (item, 0)]> (nodes q) in
  if m_num q =? 0 then mret (MkQueue ns n n (u64 (m_num q + 1)) (n + 1))
  else
    '(v, _) ← deref (ns !! m_tail q);
    mret (MkQueue (<[m_tail q := (v, n)]> ns) (m_head q) n (u64 (m_num q + 1)) (n + 1)).

(** The head's node is freed when m_head takes over its next pointer. *)
Definition dequeue (q : queue) : outcome (Z * queue) :=
  if m_num q =? 0 then mret (0, q)
  else
    '(v, n) ← deref (nodes q !! m_head q);
    let num := u64 (m_num q - 1) in
    mret (v, MkQueue (delete (m_head q) (nodes q)) n (if num =? 0 then 0 else m_tail q) num (next_free q)).

(** [seg ns a xs]: from [a] on, the chain has the nodes and values [xs]. *)
Fixpoint seg (ns : gmap Z (Z * Z)) (a : Z) (xs : list (Z * Z)) : Prop :=
  match xs with
  | [] => a = 0
  | (p, v) :: xs => a = p /\ p <> 0 /\ exists n, ns !! p = Some (v, n) /\ seg ns n xs
  end.

(** The queue holds the items [l], oldest first, and no other node is allocated. *)
Definition rep (q : queue) (l : list Z) : Prop :=
  exists xs, xs.*2 = l /\ NoDup xs.*1 /\ seg (nodes q) (m_head q) xs /\
    m_tail q = default 0 (last xs.*1) /\ m_num q = Z.of_nat (length xs) /\
    dom (nodes q) = list_to_set xs.*1 /\ Forall (fun a => 0 < a < next_free q) xs.*1 /\
    0 < next_free q.

Lemma seg_frame ns a xs p w : p ∉ xs.*1 -> seg ns a xs -> seg (<[p := w]> ns) a xs.
Proof.
  revert a; induction xs as [|[b v] xs IH]; intros a Hp; simpl; [done|].
  rewrite fmap_cons, not_elem_of_cons in Hp. destruct Hp as [Hpb Hp].
  intros (-> & Hb & n & Hn & Hs). split; [done|]. split; [done|]. exists n.
  rewrite lookup_insert_ne by done. auto.
Qed.

Lemma seg_delete ns a xs p : p ∉ xs.*1 -> seg ns a xs -> seg (delete p ns) a xs.
Proof.
  revert a; induction xs as [|[b v] xs IH]; intros a Hp; simpl; [done|].
  rewrite fmap_cons, not_elem_of_cons in Hp. destruct Hp as [Hpb Hp].
  intros (-> & Hb & n & Hn & Hs). split; [done|]. split; [done|]. exists n.
  rewrite lookup_delete_ne by done. auto.
Qed.

(** Linking a node behind the last one. *)
Lemma seg_snoc ns a xs t v n x :
  NoDup (xs ++ [(t, v)]).*1 -> n ∉ (xs ++ [(t, v)]).*1 -> n <> 0 ->
  ns !! n = Some (x, 0) -> seg ns a (xs ++ [(t, v)]) ->
  seg (<[t := (v, n)]> ns) a (xs ++ [(t, v); (n, x)]).
Proof.
  revert a; induction xs as [|[b w] xs IH]; intros a Hnd Hni Hn0 Hn; simpl.
  - intros (-> & Ht & m & Hm & _). split; [done|]. split; [done|]. exists n.
    rewrite lookup_insert_eq. split; [done|]. split; [done|]. split; [done|]. exists 0.
    rewrite lookup_insert_ne; [done|]. intros ->. apply Hni. simpl. constructor.
  - simpl in Hnd, Hni. inversion Hnd as [|? ? Hnb Hnd']; subst. apply not_elem_of_cons in Hni as [Hnn Hni].
    intros (-> & Hb & m & Hm & Hs). split; [done|]. split; [done|]. exists m.
    rewrite lookup_insert_ne; [auto|]. intros <-. apply Hnb. rewrite fmap_app, elem_of_app. right.
    simpl. constructor.
Qed.

Lemma rep_new : rep new_queue [].
Proof. exists []. split_and!; done || constructor. Qed.

(** The last node of the chain exists. *)
Lemma seg_last ns a ys t v : seg ns a (ys ++ [(t, v)]) -> exists n, ns !! t = Some (v, n).
Proof.
  revert a; induction ys as [|[b w] ys IH]; intros a; simpl.
  - intros (_ & _ & n & Hn & _). eauto.
  - intros (_ & _ & n & _ & Hs). eauto.
Qed.

Lemma enqueue_rep q l item :
  rep q l -> Z.of_nat (length l) + 1 < 2 ^ 64 ->
  exists q', enqueue item q = Ok q' /\ rep q' (l ++ [item]).
Proof.
  intros (xs & Hl & Hnd & Hs & Ht & Hnum & Hdom & Hall & Hfree) Hlen.
  assert (length l = length xs) as Hll by (by rewrite <- Hl, length_fmap).
  assert (next_free q ∉ xs.*1) as Hni.
  { intros Hin. rewrite Forall_forall in Hall. apply Hall in Hin. lia. }
  unfold enqueue. destruct (Z.eqb_spec (m_num q) 0) as [H0|H0].
  - assert (xs = []) as -> by (apply nil_length_inv; lia). simpl in Hl. subst l.
    eexists. split; [done|]. exists [(next_free q, item)].
    split_and!; simpl; try done; try lia.
    + apply NoDup_singleton.
    + split; [done|]. split; [lia|]. exists 0. by rewrite lookup_insert_eq.
    + rewrite H0. done.
    + rewrite dom_insert_L, Hdom. done.
    + repeat constructor; lia.
  - destruct xs as [|[t v] ys _] using rev_ind; [simpl in Hnum; lia|].
    assert (m_tail q = t) as Htt by (rewrite Ht, fmap_app; simpl; by rewrite last_snoc).
    destruct (seg_last _ _ _ _ _ Hs) as (n0 & Hn0).
    assert (t <> next_free q) as Htn.
    { intros ->. apply Hni. rewrite fmap_app, elem_of_app. right. simpl. constructor. }
    rewrite Htt, lookup_insert_ne, Hn0 by done. cbn. eexists. split; [done|].
    exists (ys ++ [(t, v); (next_free q, item)]).
    assert ((ys ++ [(t, v); (next_free q, item)]).*1 = (ys ++ [(t, v)]).*1 ++ [next_free q]) as Hf1.
    { by rewrite !fmap_app, <- app_assoc. }
    rewrite Hf1. split_and!; simpl.
    + rewrite <- Hl, !fmap_app, <- app_assoc. done.
    + apply NoDup_app. split; [done|]. split; [|apply NoDup_singleton].
      intros a Ha Hb%list_elem_of_singleton. by subst.
    + apply seg_snoc; try done; [lia|by rewrite lookup_insert_eq|]. by apply seg_frame.
    + by rewrite last_snoc.
    + rewrite Hnum, wrap_small by (rewrite <- Hll; width_lia). rewrite !length_app. simpl. lia.
    + rewrite !dom_insert_L, Hdom, list_to_set_app_L, fmap_app. simpl. clear. set_solver.
    + apply Forall_app. split; [|repeat constructor; lia].
      eapply Forall_impl; [exact Hall|]. simpl. lia.
    + lia.
Qed.

Lemma dequeue_rep q l :
  rep q l -> Z.of_nat (length l) + 1 < 2 ^ 64 ->
  exists q', dequeue q = Ok (match l with x :: _ => x | [] => 0 end, q') /\ rep q' (tail l).
Proof.
  intros (xs & Hl & Hnd & Hs & Ht & Hnum & Hdom & Hall & Hfree) Hlen.
  assert (length l = length xs) as Hll by (by rewrite <- Hl, length_fmap).
  unfold dequeue. destruct (Z.eqb_spec (m_num q) 0) as [H0|H0].
  - assert (xs = []) as -> by (apply nil_length_inv; lia). simpl in Hl. subst l.
    eexists. split; [done|]. by exists [].
  - destruct xs as [|[p v] xs]; [simpl in Hnum; lia|]. simpl in Hl. subst l. simpl in Hs.
    destruct Hs as (Hh & Hp & n & Hn & Hs). rewrite Hh, Hn. cbn.
    rewrite Hnum, wrap_small by (simpl in *; width_lia). eexists. split; [done|].
    rewrite fmap_cons in Hnd. inversion Hnd as [|? ? Hpx Hnd']; subst.
    exists xs. split_and!; simpl; try done.
    + by apply seg_delete.
    + destruct xs as [|y ys]; [done|]. rewrite (proj2 (Z.eqb_neq _ _)) by (simpl; lia). done.
    + simpl. lia.
    + rewrite dom_delete_L, Hdom. simpl. simpl in Hpx.
      assert (m_head q ∉ (list_to_set xs.*1 : gset Z)) by (by rewrite elem_of_list_to_set).
      clear -H. set_solver.
    + by inversion Hall.
Qed.

(** The locked queue is a FIFO queue: enqueue appends; dequeue takes the oldest
    item and frees its node, and returns nullptr exactly when the queue is empty. *)
Theorem safe_queue_refines (q : queue) (l : list Z) (item : Z) :
  rep q l -> Z.of_nat (length l) + 1 < 2 ^ 64 ->
  (exists q', enqueue item q = Ok q' /\ rep q' (l ++ [item])) /\
  (exists q', dequeue q = Ok (match l with x :: _ => x | [] => 0 end, q') /\ rep q' (tail l)).
Proof. intros Hr Hl. split; [by apply enqueue_rep|by apply dequeue_rep]. Qed.

Lemma safe_queue_refines_witness :
  exists q', enqueue 8 new_queue = Ok q' /\ rep q' [8].
Proof. apply (safe_queue_refines new_queue [] 8 rep_new). reflexivity. Defined.
End SafeQueue.
