(* ===== verification/LinkedQueue.v ===== *)
(** * ConcurrentLinkedQueue: the lock-free FIFO queue

    include/mola/queue.hpp.  The queue is the global run queue of the work-stealing
    scheduler.  Any number of threads run enqueue, dequeue and first; each step is
    one access to shared memory, and the state of a thread is the point of its
    loop it has reached with the values it has loaded.  Nodes are never freed, so
    that an address stands for one node for ever. *)
From stdpp Require Import base list gmap numbers relations.
From S2P Require Import Prelude.

(** class Node *)
Record qnode := MkQnode { m_item : Z; m_next : Z }.

(** The shared memory, and the history of the run: the items in the order in which
    they were linked, how many were claimed by a move of the head, the claimed
    items that dequeue has returned, each with its number, and for each dequeue
    that returned nullptr whether every linked item was claimed when it read the
    next pointer of the head. *)
Record queue := MkQueue {
  heap : gmap Z qnode;
  m_head : Z;
  m_tail : Z;
  next_free : Z;
  linked : list Z;
  claimed : nat;
  returned : list (nat * Z);
  saw_empty : list bool
}.

Inductive pc :=
| Idle
(* enqueue: [n] is the new node, [t] and [s] the loaded tail and its next *)
| ETail (n : Z) | ENext (n t : Z) | ECheck (n t s : Z) | ECas (n t : Z)
| EAdvance (n t : Z) | EHelp (n t s : Z)
(* dequeue: [h], [t] and [f] are the loaded head, tail and next of the head *)
| DHead | DTail (h : Z) | DNext (h t : Z) | DCheck (h t f : Z) (e : bool) | DHelp (t f : Z)
| DCas (h f : Z) | DItem (k : nat) (f : Z) | DClear (k : nat) (f item : Z)
(* first *)
| FHead | FTail (h : Z) | FNext (h t : Z) | FCheck (h t f : Z) | FHelp (t f : Z)
| FItem (h f : Z) | FCas (h f : Z).

#[global] Instance pc_eq_dec : EqDecision pc.
Proof. solve_decision. Defined.

Definition set_node (a : Z) (nd : qnode) (q : queue) : queue :=
  MkQueue (<[a := nd]> (heap q)) (m_head q) (m_tail q) (next_free q) (linked q) (claimed q)
    (returned q) (saw_empty q).
Definition cas_tail (o n : Z) (q : queue) : queue :=
  if m_tail q =? o then
    MkQueue (heap q) (m_head q) n (next_free q) (linked q) (claimed q) (returned q) (saw_empty q)
  else q.
Definition link (v : Z) (q : queue) : queue :=
  MkQueue (heap q) (m_head q) (m_tail q) (next_free q) (linked q ++ [v]) (claimed q)
    (returned q) (saw_empty q).
Definition claim (f : Z) (q : queue) : queue :=
  MkQueue (heap q) f (m_tail q) (next_free q) (linked q) (S (claimed q)) (returned q) (saw_empty q).
Definition give (k : nat) (v : Z) (q : queue) : queue :=
  MkQueue (heap q) (m_head q) (m_tail q) (next_free q) (linked q) (claimed q)
    (returned q ++ [(k, v)]) (saw_empty q).
Definition give_null (e : bool) (q : queue) : queue :=
  MkQueue (heap q) (m_head q) (m_tail q) (next_free q) (linked q) (claimed q) (returned q)
    (saw_empty q ++ [e]).

(** new Node(item) *)
Definition alloc (item : Z) (q : queue) : Z * queue :=
  (next_free q,
   MkQueue (<[next_free q := MkQnode item 0]> (heap q)) (m_head q) (m_tail q) (next_free q + 1)
     (linked q) (claimed q) (returned q) (saw_empty q)).

(** The next access of a thread. *)
Definition pc_step (p : pc) (q : queue) : outcome (pc * queue) :=
  match p with
  | Idle => mret (Idle, q)
  | ETail n => mret (ENext n (m_tail q), q)
  | ENext n t => nd ← deref (heap q !! t); mret (ECheck n t (m_next nd), q)
  | ECheck n t s =>
      if t =? m_tail q then mret (if s =? 0 then ECas n t else EHelp n t s, q)
      else mret (ETail n, q)
  | ECas n t =>
      nd ← deref (heap q !! t);
      new ← deref (heap q !! n);
      if m_next nd =? 0
      then mret (EAdvance n t, link (m_item new) (set_node t (MkQnode (m_item nd) n) q))
      else mret (ETail n, q)
  | EAdvance n t => mret (Idle, cas_tail t n q)
  | EHelp n t s => mret (ETail n, cas_tail t s q)
  | DHead => mret (DTail (m_head q), q)
  | DTail h => mret (DNext h (m_tail q), q)
  | DNext h t =>
      nd ← deref (heap q !! h);
      mret (DCheck h t (m_next nd) (claimed q =? length (linked q))%nat, q)
  | DCheck h t f e =>
      if h =? m_head q then
        if h =? t then if f =? 0 then mret (Idle, give_null e q) else mret (DHelp t f, q)
        else mret (DCas h f, q)
      else mret (DHead, q)
  | DHelp t f => mret (DHead, cas_tail t f q)
  | DCas h f => if m_head q =? h then mret (DItem (claimed q) f, claim f q) else mret (DHead, q)
  | DItem k f =>
      nd ← deref (heap q !! f);
      mret (if m_item nd =? 0 then DHead else DClear k f (m_item nd), q)
  | DClear k f item =>
      nd ← deref (heap q !! f); mret (Idle, give k item (set_node f (MkQnode 0 (m_next nd)) q))
  | FHead => mret (FTail (m_head q), q)
  | FTail h => mret (FNext h (m_tail q), q)
  | FNext h t => nd ← deref (heap q !! h); mret (FCheck h t (m_next nd), q)
  | FCheck h t f =>
      if h =? m_head q then
        if h =? t then mret (if f =? 0 then Idle else FHelp t f, q) else mret (FItem h f, q)
      else mret (FHead, q)
  | FHelp t f => mret (FHead, cas_tail t f q)
  | FItem h f =>
      nd ← deref (heap q !! f); mret (if m_item nd =? 0 then FCas h f else Idle, q)
  | FCas h f => if m_head q =? h then mret (FHead, claim f q) else mret (FHead, q)
  end.

Record config := MkConfig { mem : queue; threads : gmap nat pc }.

Definition pc_of (i : nat) (σ : config) : pc := default Idle (threads σ !! i).
Definition set_pc (i : nat) (p : pc) (q : queue) (σ : config) : config :=
  MkConfig q (<[i := p]> (threads σ)).

(** A thread that is idle may call an operation; enqueue refuses nullptr. *)
Inductive step : config -> config -> Prop :=
| step_enqueue σ i item :
    pc_of i σ = Idle -> item <> 0 ->
    step σ (set_pc i (ETail (alloc item (mem σ)).1) (alloc item (mem σ)).2 σ)
| step_dequeue σ i : pc_of i σ = Idle -> step σ (set_pc i DHead (mem σ) σ)
| step_first σ i : pc_of i σ = Idle -> step σ (set_pc i FHead (mem σ) σ)
| step_pc σ i p q :
    pc_step (pc_of i σ) (mem σ) = Ok (p, q) -> step σ (set_pc i p q σ).

Definition init_queue : queue := MkQueue {[ 1 := MkQnode 0 0 ]} 1 1 2 [] 0 [] [].
Definition init : config := MkConfig init_queue ∅.
Definition reachable (σ : config) : Prop := rtc step init σ.

(** Schedules, to compute runs. *)
Inductive action := AEnq (i : nat) (item : Z) | ADeq (i : nat) | AFirst (i : nat) | AStep (i : nat).

Definition exec (a : action) (σ : config) : option config :=
  match a with
  | AEnq i item =>
      match pc_of i σ with
      | Idle => if item =? 0 then None
                else Some (set_pc i (ETail (alloc item (mem σ)).1) (alloc item (mem σ)).2 σ)
      | _ => None
      end
  | ADeq i => match pc_of i σ with Idle => Some (set_pc i DHead (mem σ) σ) | _ => None end
  | AFirst i => match pc_of i σ with Idle => Some (set_pc i FHead (mem σ) σ) | _ => None end
  | AStep i =>
      match pc_step (pc_of i σ) (mem σ) with
      | Ok (p, q) => Some (set_pc i p q σ)
      | Fault _ => None
      end
  end.

Fixpoint exec_all (l : list action) (σ : config) : option config :=
  match l with
  | [] => Some σ
  | a :: l => σ' ← exec a σ; exec_all l σ'
  end.

Lemma queue_exec_sound a σ σ' : exec a σ = Some σ' -> step σ σ'.
Proof.
  destruct a as [i item|i|i|i]; simpl; intros H.
  - destruct (pc_of i σ) eqn:E; try done. destruct (Z.eqb_spec item 0); [done|].
    injection H as <-. by constructor.
  - destruct (pc_of i σ) eqn:E; try done. injection H as <-. by constructor.
  - destruct (pc_of i σ) eqn:E; try done. injection H as <-. by constructor.
  - destruct (pc_step (pc_of i σ) (mem σ)) as [[p q]|] eqn:E; [|done]. injection H as <-. by constructor.
Qed.

Lemma exec_all_steps l σ σ' : exec_all l σ = Some σ' -> rtc step σ σ'.
Proof.
  revert σ; induction l as [|a l IH]; intros σ H; simpl in H; [by injection H as <-|].
  apply bind_Some in H as (σ1 & H1 & H2). eapply rtc_l; [by eapply queue_exec_sound|auto].
Qed.

(** ** The invariant

    [c] is the chain of all nodes ever linked, from the first dummy on; the head is
    the node number [claimed], the tail the node number [ti]. *)
Record chain_ok (c : list Z) (ti : nat) (q : queue) : Prop := {
  c_nodup : NoDup c;
  c_len : length c = S (length (linked q));
  c_heap : forall i a, c !! i = Some a ->
    exists nd, heap q !! a = Some nd /\ m_next nd = default 0 (c !! S i);
  c_head : c !! claimed q = Some (m_head q);
  c_tail : c !! ti = Some (m_tail q);
  c_le : (claimed q <= ti)%nat;
  c_item : forall i a nd, (claimed q <= i)%nat -> c !! S i = Some a -> heap q !! a = Some nd ->
    linked q !! i = Some (m_item nd);
  c_nz : Forall (fun v => v <> 0) (linked q);
  c_addr : forall a, is_Some (heap q !! a) -> a <> 0;
  c_pos : 0 < next_free q;
  c_free : forall a, is_Some (heap q !! a) -> a < next_free q;
  c_ret : NoDup (returned q).*1;
  c_val : forall k v, (k, v) ∈ returned q -> (k < claimed q)%nat /\ linked q !! k = Some v;
  c_empty : Forall (fun b => b = true) (saw_empty q)
}.

Definition edge (c : list Z) (a b : Z) : Prop := exists i, c !! i = Some a /\ c !! S i = Some b.

(** What a thread knows about the values it has loaded. *)
Definition knows (c : list Z) (ti : nat) (q : queue) (p : pc) : Prop :=
  match p with
  | Idle | ETail _ | DHead | FHead => True
  | ENext _ t | ECas _ t => t ∈ c
  | ECheck _ t s => t ∈ c /\ (s <> 0 -> edge c t s)
  | EAdvance n t => edge c t n
  | EHelp _ t s => edge c t s
  | DTail h | FTail h => exists i, c !! i = Some h /\ (i <= claimed q)%nat
  | DNext h t | FNext h t => exists i j, c !! i = Some h /\ c !! j = Some t /\ (i <= j <= ti)%nat /\
      (i <= claimed q)%nat
  | DCheck h t f e => (exists i j, c !! i = Some h /\ c !! j = Some t /\ (i <= j <= ti)%nat /\
      (f = 0 -> i = j) /\ (f <> 0 -> c !! S i = Some f)) /\ (f = 0 -> e = true)
  | FCheck h t f => exists i j, c !! i = Some h /\ c !! j = Some t /\ (i <= j <= ti)%nat /\
      (f = 0 -> i = j) /\ (f <> 0 -> c !! S i = Some f)
  | DHelp t f | FHelp t f => edge c t f
  | DCas h f => exists i, c !! i = Some h /\ c !! S i = Some f /\ (S i <= ti)%nat
  | FItem h f => edge c h f
  | FCas h f => exists i, c !! i = Some h /\ c !! S i = Some f /\ (i < claimed q)%nat
  | DItem k f => c !! S k = Some f /\ (k < claimed q)%nat /\
      exists nd, heap q !! f = Some nd /\ linked q !! k = Some (m_item nd)
  | DClear k f item => c !! S k = Some f /\ (k < claimed q)%nat /\ linked q !! k = Some item
  end.

(** The node a thread has not linked yet, and the number it has claimed. *)
Definition priv (p : pc) : option Z :=
  match p with
  | ETail n | ENext n _ | ECheck n _ _ | ECas n _ | EHelp n _ _ => Some n
  | _ => None
  end.
Definition ticket (p : pc) : option nat :=
  match p with DItem k _ | DClear k _ _ => Some k | _ => None end.

Definition priv_ok (c : list Z) (q : queue) (p : pc) : Prop :=
  forall n, priv p = Some n -> (n ∉ c) /\ exists v, v <> 0 /\ heap q !! n = Some (MkQnode v 0).

Record inv_with (c : list Z) (ti : nat) (σ : config) : Prop := {
  i_chain : chain_ok c ti (mem σ);
  i_knows : forall i, knows c ti (mem σ) (pc_of i σ);
  i_priv : forall i, priv_ok c (mem σ) (pc_of i σ);
  i_privs : forall i j n, priv (pc_of i σ) = Some n -> priv (pc_of j σ) = Some n -> i = j;
  i_tickets : forall i j k, ticket (pc_of i σ) = Some k -> ticket (pc_of j σ) = Some k -> i = j;
  i_unret : forall i k, ticket (pc_of i σ) = Some k -> k ∉ (returned (mem σ)).*1
}.

Definition inv (σ : config) : Prop := exists c ti, inv_with c ti σ.

Lemma pc_of_set i j p q σ : pc_of j (set_pc i p q σ) = if decide (i = j) then p else pc_of j σ.
Proof.
  unfold pc_of, set_pc. simpl. destruct (decide (i = j)) as [->|].
  - by rewrite lookup_insert_eq.
  - by rewrite lookup_insert_ne.
Qed.

(** [grows c ti q c' ti' q']: chain, tail and claims only move forward. *)
Record grows (c : list Z) (ti : nat) (q : queue) (c' : list Z) (ti' : nat) (q' : queue) : Prop := {
  gr_chain : c `prefix_of` c';
  gr_tail : (ti <= ti')%nat;
  gr_claimed : (claimed q <= claimed q')%nat;
  gr_linked : linked q `prefix_of` linked q'
}.

Lemma grows_refl c ti q q' :
  claimed q' = claimed q -> linked q' = linked q -> grows c ti q c ti q'.
Proof. intros H1 H2. split; [done|lia|lia|by rewrite H2]. Qed.

Lemma edge_mono c c' a b : c `prefix_of` c' -> edge c a b -> edge c' a b.
Proof. intros Hc (i & H1 & H2). exists i. split; by eapply prefix_lookup_Some. Qed.

Lemma elem_mono c c' (a : Z) : c `prefix_of` c' -> a ∈ c -> a ∈ c'.
Proof. intros [k ->] Ha. apply elem_of_app. by left. Qed.

Lemma knows_mono c ti q c' ti' q' p :
  grows c ti q c' ti' q' ->
  (forall k f nd, p = DItem k f -> heap q !! f = Some nd ->
     exists nd', heap q' !! f = Some nd' /\ m_item nd' = m_item nd) ->
  knows c ti q p -> knows c' ti' q' p.
Proof.
  intros [Hc Ht Hd Hl] Hi.
  assert (forall i a, c !! i = Some a -> c' !! i = Some a) as Hlk
    by (intros; by eapply prefix_lookup_Some).
  assert (forall i v, linked q !! i = Some v -> linked q' !! i = Some v) as Hll
    by (intros; by eapply prefix_lookup_Some).
  destruct p; simpl; try done; try (by apply edge_mono); try (by apply elem_mono).
  - intros [H1 H2]. split; [by eapply elem_mono|]. intros Hs. eapply edge_mono; eauto.
  - intros (i & H1 & H2). exists i. split; [auto|lia].
  - intros (i & j & H1 & H2 & H3 & H4). exists i, j. split_and!; auto; lia.
  - intros [(i & j & H1 & H2 & H3 & H4 & H5) H6]. split; [|done]. exists i, j. split_and!; auto; lia.
  - intros (i & H1 & H2 & H3). exists i. split_and!; auto; lia.
  - intros (H1 & H2 & nd & H3 & H4). split; [auto|]. split; [lia|].
    destruct (Hi k f nd eq_refl H3) as (nd' & H5 & H6). exists nd'. rewrite H6. auto.
  - intros (H1 & H2 & H3). split_and!; auto; lia.
  - intros (i & H1 & H2). exists i. split; [auto|lia].
  - intros (i & j & H1 & H2 & H3 & H4). exists i, j. split_and!; auto; lia.
  - intros (i & j & H1 & H2 & H3 & H4 & H5). exists i, j. split_and!; auto; lia.
  - intros (i & H1 & H2 & H3). exists i. split_and!; auto; lia.
Qed.

(** One thread moves: what its step must preserve for the others. *)
Lemma inv_move c ti c' ti' σ i p q :
  inv_with c ti σ -> chain_ok c' ti' q -> grows c ti (mem σ) c' ti' q ->
  knows c' ti' q p -> priv_ok c' q p ->
  (forall n nd, heap (mem σ) !! n = Some nd -> n ∉ c -> priv (pc_of i σ) <> Some n ->
     heap q !! n = Some nd /\ n ∉ c') ->
  (forall k f nd, c !! S k = Some f -> ticket (pc_of i σ) <> Some k -> heap (mem σ) !! f = Some nd ->
     exists nd', heap q !! f = Some nd' /\ m_item nd' = m_item nd) ->
  (forall n, priv p = Some n -> priv (pc_of i σ) = Some n \/ n = next_free (mem σ)) ->
  (forall k, ticket p = Some k -> ticket (pc_of i σ) = Some k \/ k = claimed (mem σ)) ->
  (forall k, k ∈ (returned q).*1 -> k ∈ (returned (mem σ)).*1 \/ ticket (pc_of i σ) = Some k) ->
  (forall k, ticket p = Some k -> k ∉ (returned q).*1) ->
  inv_with c' ti' (set_pc i p q σ).
Proof.
  intros [Hch Hk Hp Hps Hts Hu] Hch' Hg Hkp Hpp Hpriv Hitem Hpn Htn Hr Hur.
  assert (forall j n, priv (pc_of j σ) = Some n -> n <> next_free (mem σ)) as Hfresh.
  { intros j n Hn. destruct (Hp j n Hn) as (_ & v & _ & Hv).
    pose proof (c_free _ _ _ Hch n ltac:(eauto)). lia. }
  assert (forall j k, ticket (pc_of j σ) = Some k -> k <> claimed (mem σ)) as Hclaim.
  { intros j k Ht. specialize (Hk j). destruct (pc_of j σ); simplify_eq/=; lia. }
  split; [done|..].
  - intros j. rewrite pc_of_set. destruct (decide (i = j)) as [<-|Hij]; [done|].
    eapply knows_mono; [exact Hg| |apply Hk]. intros k f nd Hj Hf. specialize (Hk j).
    rewrite Hj in Hk. destruct Hk as (Hk1 & _). apply (Hitem k f nd Hk1); [|done].
    intros Hti. apply Hij. eapply Hts; [exact Hti|]. by rewrite Hj.
  - intros j. rewrite pc_of_set. destruct (decide (i = j)) as [<-|Hij]; [done|].
    intros n Hn. destruct (Hp j n Hn) as (Hnc & v & Hv & Hh).
    destruct (Hpriv n _ Hh Hnc) as [H1 H2]; [|by eauto]. intros Hi. apply Hij. by eapply Hps.
  - intros j j' n. rewrite !pc_of_set. destruct (decide (i = j)) as [<-|], (decide (i = j')) as [<-|];
      [done|..|apply Hps].
    + intros Hn Hn'. destruct (Hpn n Hn) as [Hi| ->]; [by eapply Hps|]. by apply Hfresh in Hn'.
    + intros Hn' Hn. destruct (Hpn n Hn) as [Hi| ->]; [by eapply Hps|]. by apply Hfresh in Hn'.
  - intros j j' k. rewrite !pc_of_set. destruct (decide (i = j)) as [<-|], (decide (i = j')) as [<-|];
      [done|..|apply Hts].
    + intros Ht Ht'. destruct (Htn k Ht) as [Hi| ->]; [by eapply Hts|]. by apply Hclaim in Ht'.
    + intros Ht' Ht. destruct (Htn k Ht) as [Hi| ->]; [by eapply Hts|]. by apply Hclaim in Ht'.
  - intros j k. rewrite pc_of_set. destruct (decide (i = j)) as [<-|Hij]; [apply Hur|].
    intros Ht Hin. destruct (Hr k Hin) as [Hin'|Hi]; [by eapply Hu|]. apply Hij. by eapply Hts.
Qed.

(** A step that leaves the heap, the links, the claims and the results alone. *)
Lemma inv_quiet c ti ti' σ i p q :
  inv_with c ti σ -> chain_ok c ti' q -> (ti <= ti')%nat ->
  heap q = heap (mem σ) -> linked q = linked (mem σ) -> claimed q = claimed (mem σ) ->
  returned q = returned (mem σ) -> knows c ti' q p ->
  (forall n, priv p = Some n -> priv (pc_of i σ) = Some n) -> ticket p = None ->
  inv_with c ti' (set_pc i p q σ).
Proof.
  intros Hinv Hch Ht Hh Hl Hd Hr Hk Hpn Htk. eapply inv_move; try done.
  - split; [done|done|lia|by rewrite Hl].
  - intros n Hn. rewrite Hh. by apply (i_priv _ _ _ Hinv i n), Hpn.
  - intros n nd. by rewrite Hh.
  - intros k f nd _ _ Hf. exists nd. by rewrite Hh.
  - auto.
  - intros k. rewrite Htk. done.
  - intros k. rewrite Hr. auto.
  - intros k. rewrite Htk. done.
Qed.

Lemma inv_local c ti σ i p :
  inv_with c ti σ -> knows c ti (mem σ) p ->
  (forall n, priv p = Some n -> priv (pc_of i σ) = Some n) -> ticket p = None ->
  inv_with c ti (set_pc i p (mem σ) σ).
Proof. intros Hinv Hk Hpn Htk. eapply inv_quiet; try done. apply (i_chain _ _ _ Hinv). Qed.

Lemma inv_cas_tail c ti σ i p t n :
  inv_with c ti σ -> edge c t n -> (forall ti' q, knows c ti' q p) ->
  (forall n, priv p = Some n -> priv (pc_of i σ) = Some n) -> ticket p = None ->
  exists ti', inv_with c ti' (set_pc i p (cas_tail t n (mem σ)) σ).
Proof.
  intros Hinv (k & Hkt & Hkn) Hkp Hpn Htk. pose proof (i_chain _ _ _ Hinv) as [].
  unfold cas_tail. destruct (Z.eqb_spec (m_tail (mem σ)) t) as [He|]; [|by exists ti; apply inv_local].
  assert (k = ti) as -> by (eapply NoDup_lookup; [exact c_nodup0|exact Hkt|by rewrite <- He]).
  exists (S ti). eapply inv_quiet; try done; [|lia]. split; simpl; try done; lia.
Qed.

(** The chain's own pointers *)
Lemma chain_next c ti q i a :
  chain_ok c ti q -> c !! i = Some a ->
  exists nd, heap q !! a = Some nd /\
    (m_next nd = 0 -> length c = S i) /\ (m_next nd <> 0 -> c !! S i = Some (m_next nd)).
Proof.
  intros Hch Hi. destruct (c_heap _ _ _ Hch i a Hi) as (nd & Hnd & Hn). exists nd. split; [done|].
  destruct (c !! S i) as [b|] eqn:Hb; simpl in Hn.
  - split; [|by rewrite Hn]. intros H0. exfalso. apply (c_addr _ _ _ Hch b); [|congruence].
    destruct (c_heap _ _ _ Hch (S i) b Hb) as (x & Hx & _). eauto.
  - split; [|congruence]. intros _. apply lookup_ge_None in Hb. apply lookup_lt_Some in Hi. lia.
Qed.

(** A new node is linked behind the last one. *)
Lemma chain_link c ti q k n t nd v :
  chain_ok c ti q -> c !! k = Some t -> length c = S k -> n ∉ c -> v <> 0 ->
  heap q !! t = Some nd -> heap q !! n = Some (MkQnode v 0) ->
  chain_ok (c ++ [n]) ti (link v (set_node t (MkQnode (m_item nd) n) q)).
Proof.
  intros Hch Hk Hlast Hnc Hv' Hnd Hn.
  assert (t <> n) as Htn by (intros ->; by apply Hnc; eapply list_elem_of_lookup_2).
  assert (forall j a, c !! j = Some a -> (c ++ [n]) !! j = Some a) as Happ
    by (intros; by apply lookup_app_l_Some).
  assert ((c ++ [n]) !! S k = Some n) as Hnew.
  { rewrite lookup_app_r by lia. by rewrite Hlast, Nat.sub_diag. }
  pose proof Hch as [Hnd0 Hlen Hheap Hhead Htail Hle Hitem Hnz Haddr Hpos Hfree Hret Hval Hemp].
  split; simpl; auto.
  + apply NoDup_app. split; [done|]. split; [|apply NoDup_singleton].
    intros a Ha Hs%list_elem_of_singleton. by subst.
  + rewrite !length_app. simpl. lia.
  + intros j a. rewrite lookup_app_Some. intros [Hj|[Hge Hj]].
    * destruct (decide (a = t)) as [->|Hat].
      { rewrite lookup_insert_eq. eexists. split; [done|]. simpl.
        by rewrite (NoDup_lookup c j k t Hnd0 Hj Hk), Hnew. }
      destruct (Hheap j a Hj) as (x & Hx & Hxn). rewrite lookup_insert_ne by done. exists x.
      split; [done|]. rewrite Hxn. destruct (c !! S j) as [b|] eqn:Hb.
      { by rewrite (Happ _ _ Hb). }
      exfalso. apply lookup_ge_None in Hb. pose proof (lookup_lt_Some _ _ _ Hj).
      apply Hat. assert (j = k) as -> by lia. congruence.
    * apply list_lookup_singleton_Some in Hj as [Hj <-]. rewrite lookup_insert_ne by done.
      exists (MkQnode v 0). split; [done|]. simpl. rewrite (proj2 (lookup_ge_None _ _)); [done|].
      rewrite length_app. simpl. lia.
  + intros j a x Hj. rewrite lookup_app_Some. intros [Hja|[Hge Hja]] Hx.
    * assert (linked q !! j = Some (m_item x)) as Hjl; [|by apply lookup_app_l_Some].
      destruct (decide (a = t)) as [->|Hat].
      { rewrite lookup_insert_eq in Hx. injection Hx as <-. simpl. by eapply Hitem. }
      rewrite lookup_insert_ne in Hx by done. by eapply Hitem.
    * apply list_lookup_singleton_Some in Hja as [Hja <-]. rewrite lookup_insert_ne, Hn in Hx by done.
      injection Hx as <-. simpl. rewrite lookup_app_r by lia.
      by replace (j - length (linked q))%nat with 0%nat by lia.
  + apply Forall_app. split; [done|]. by repeat constructor.
  + intros a. rewrite lookup_insert_is_Some'. intros [<-|Ha]; [|auto]. apply Haddr. eauto.
  + intros a. rewrite lookup_insert_is_Some'. intros [<-|Ha]; [|auto]. apply Hfree. eauto.
  + intros j w Hj. destruct (Hval j w Hj). split; [done|]. by apply lookup_app_l_Some.
Qed.

(** enqueue links its node behind the last one. *)
Lemma inv_link c ti σ i n t nd v :
  inv_with c ti σ -> pc_of i σ = ECas n t -> heap (mem σ) !! t = Some nd -> m_next nd = 0 ->
  heap (mem σ) !! n = Some (MkQnode v 0) ->
  inv_with (c ++ [n]) ti
    (set_pc i (EAdvance n t) (link v (set_node t (MkQnode (m_item nd) n) (mem σ))) σ).
Proof.
  intros Hinv Hpc Hnd H0 Hn. pose proof (i_chain _ _ _ Hinv) as Hch.
  pose proof (i_knows _ _ _ Hinv i) as Ht. pose proof (i_priv _ _ _ Hinv i) as Hp.
  rewrite Hpc in Ht, Hp. simpl in Ht. destruct (Hp n eq_refl) as (Hnc & v' & Hv' & Hn').
  rewrite Hn in Hn'. injection Hn' as <-.
  apply list_elem_of_lookup in Ht as [k Hk].
  destruct (chain_next _ _ _ _ _ Hch Hk) as (nd' & Hnd' & Hlast & _).
  rewrite Hnd in Hnd'. injection Hnd' as <-. specialize (Hlast H0).
  assert (t <> n) as Htn by (intros ->; by apply Hnc; eapply list_elem_of_lookup_2).
  assert (forall j a, c !! j = Some a -> (c ++ [n]) !! j = Some a) as Happ
    by (intros; by apply lookup_app_l_Some).
  assert ((c ++ [n]) !! S k = Some n) as Hnew.
  { rewrite lookup_app_r by lia. by rewrite Hlast, Nat.sub_diag. }
  eapply inv_move; [exact Hinv| | | | |..]; simpl.
  - by apply (chain_link c ti (mem σ) k).
  - split; simpl; [by apply prefix_app_r|done|done|by apply prefix_app_r].
  - exists k. auto.
  - done.
  - rewrite Hpc. simpl. intros a x Ha Hac Hne. rewrite lookup_insert_ne.
    + split; [done|]. rewrite not_elem_of_app, list_elem_of_singleton. split; [done|congruence].
    + intros <-. apply Hac. by eapply list_elem_of_lookup_2.
  - intros j f x Hf _ Hx. destruct (decide (f = t)) as [->|].
    + rewrite lookup_insert_eq. eexists. split; [done|]. simpl. congruence.
    + rewrite lookup_insert_ne by done. eauto.
  - done.
  - done.
  - auto.
  - done.
Qed.

(** dequeue claims the node behind the head. *)
Lemma inv_claim c ti σ i h f :
  inv_with c ti σ -> pc_of i σ = DCas h f -> m_head (mem σ) = h ->
  inv_with c ti (set_pc i (DItem (claimed (mem σ)) f) (claim f (mem σ)) σ).
Proof.
  intros Hinv Hpc Hh. pose proof (i_chain _ _ _ Hinv) as Hch. pose proof (i_knows _ _ _ Hinv i) as Hk.
  rewrite Hpc in Hk. destruct Hk as (k & Hkh & Hkf & Hkt).
  pose proof Hch as [Hnd0 Hlen Hheap Hhead Htail Hle Hitem Hnz Haddr Hpos Hfree Hret Hval Hemp].
  assert (k = claimed (mem σ)) as -> by (eapply (NoDup_lookup c); [done|exact Hkh|congruence]).
  destruct (Hheap _ _ Hkf) as (nd & Hnd & _).
  eapply inv_move; [exact Hinv| | | | |..]; simpl.
  - split; simpl; try done; try lia.
    + intros j a x Hj. apply Hitem. lia.
    + intros j v Hj. destruct (Hval j v Hj). split; [lia|done].
  - split; simpl; done || lia.
  - split; [done|]. split; [lia|]. exists nd. split; [done|]. by eapply Hitem.
  - done.
  - auto.
  - eauto.
  - done.
  - intros j [= <-]. by right.
  - auto.
  - intros j [= <-] Hin. apply list_elem_of_fmap in Hin as ([j v] & Hj & Hv). simpl in Hj. subst j.
    apply Hval in Hv. lia.
Qed.

(** dequeue clears the node it claimed and returns its item. *)
Lemma inv_clear c ti σ i k f item nd :
  inv_with c ti σ -> pc_of i σ = DClear k f item -> heap (mem σ) !! f = Some nd ->
  inv_with c ti (set_pc i Idle (give k item (set_node f (MkQnode 0 (m_next nd)) (mem σ))) σ).
Proof.
  intros Hinv Hpc Hnd. pose proof (i_chain _ _ _ Hinv) as Hch. pose proof (i_knows _ _ _ Hinv i) as Hk.
  pose proof (i_unret _ _ _ Hinv i k) as Hu. rewrite Hpc in Hk, Hu. destruct Hk as (Hkf & Hkd & Hkl).
  pose proof Hch as [Hnd0 Hlen Hheap Hhead Htail Hle Hitem Hnz Haddr Hpos Hfree Hret Hval Hemp].
  eapply inv_move; [exact Hinv| | | | |..]; simpl; try done.
  - split; simpl; try done.
    + intros j a Hj. destruct (Hheap j a Hj) as (x & Hx & Hxn). destruct (decide (a = f)) as [->|].
      * rewrite lookup_insert_eq. eexists. split; [done|]. simpl. congruence.
      * rewrite lookup_insert_ne by done. eauto.
    + intros j a x Hj Hja. destruct (decide (a = f)) as [->|].
      * pose proof (NoDup_lookup c _ _ _ Hnd0 Hja Hkf). lia.
      * rewrite lookup_insert_ne by done. by apply Hitem.
    + intros a. rewrite lookup_insert_is_Some'. intros [<-|Ha]; apply Haddr; eauto.
    + intros a. rewrite lookup_insert_is_Some'. intros [<-|Ha]; apply Hfree; eauto.
    + rewrite fmap_app. simpl. apply NoDup_app. split; [done|]. split; [|apply NoDup_singleton].
      intros j Hj Hs%list_elem_of_singleton. subst. by apply Hu.
    + intros j v. rewrite elem_of_app, list_elem_of_singleton. intros [Hj|[= -> ->]]; auto.
  - intros a x Ha Hac _. split; [|done]. rewrite lookup_insert_ne; [done|]. intros <-.
    apply Hac. by eapply list_elem_of_lookup_2.
  - rewrite Hpc. simpl. intros j g x Hj Hne Hx. exists x. rewrite lookup_insert_ne; [done|].
    intros <-. pose proof (NoDup_lookup c _ _ _ Hnd0 Hj Hkf). congruence.
  - rewrite Hpc. simpl. intros j. rewrite fmap_app, elem_of_app. simpl.
    rewrite list_elem_of_singleton. intros [?| ->]; auto.
Qed.

(** enqueue makes its node. *)
Lemma inv_alloc c ti σ i item :
  inv_with c ti σ -> item <> 0 ->
  inv_with c ti (set_pc i (ETail (alloc item (mem σ)).1) (alloc item (mem σ)).2 σ).
Proof.
  intros Hinv Hi. pose proof (i_chain _ _ _ Hinv) as Hch.
  pose proof Hch as [Hnd0 Hlen Hheap Hhead Htail Hle Hitem Hnz Haddr Hpos Hfree Hret Hval Hemp].
  assert (heap (mem σ) !! next_free (mem σ) = None) as Hnone.
  { apply eq_None_not_Some. intros Hs. apply Hfree in Hs. lia. }
  assert (forall a x, heap (mem σ) !! a = Some x ->
    <[next_free (mem σ) := MkQnode item 0]> (heap (mem σ)) !! a = Some x) as Hkeep.
  { intros a x Ha. rewrite lookup_insert_ne; [done|]. intros <-. congruence. }
  eapply inv_move; [exact Hinv| | | | |..]; simpl; try done.
  - split; simpl; try done; try lia.
    + intros j a Hj. destruct (Hheap j a Hj) as (x & Hx & Hxn). eauto.
    + intros j a x Hj Hja Hx. destruct (Hheap _ _ Hja) as (y & Hy & _).
      rewrite (Hkeep _ _ Hy) in Hx. injection Hx as <-. by eapply Hitem.
    + intros a. rewrite lookup_insert_is_Some'. intros [<-|Ha]; [lia|auto].
    + intros a. rewrite lookup_insert_is_Some'. intros [<-|Ha]; [lia|]. apply Hfree in Ha. lia.
  - intros n [= <-]. split.
    + intros (j & Hj)%list_elem_of_lookup. destruct (Hheap _ _ Hj) as (x & Hx & _). congruence.
    + exists item. split; [done|]. apply lookup_insert_eq.
  - eauto.
  - eauto.
  - intros n [= <-]. by right.
  - auto.
Qed.

Lemma chain_item_nz c ti q i a nd :
  chain_ok c ti q -> c !! S i = Some a -> heap q !! a = Some nd -> m_item nd = 0 ->
  (i < claimed q)%nat.
Proof.
  intros Hch Hi Ha H0. destruct (decide (i < claimed q)%nat) as [|Hge]; [done|]. exfalso.
  pose proof (c_item _ _ _ Hch i a nd ltac:(lia) Hi Ha) as Hl.
  eapply Forall_lookup_1 in Hl; [|apply (c_nz _ _ _ Hch)]. done.
Qed.

(** What the next pointer of a loaded head says. *)
Lemma read_next c ti q h t :
  chain_ok c ti q ->
  (exists i j, c !! i = Some h /\ c !! j = Some t /\ (i <= j <= ti)%nat /\ (i <= claimed q)%nat) ->
  exists nd, heap q !! h = Some nd /\
    (exists i j, c !! i = Some h /\ c !! j = Some t /\ (i <= j <= ti)%nat /\
       (m_next nd = 0 -> i = j) /\ (m_next nd <> 0 -> c !! S i = Some (m_next nd))) /\
    (m_next nd = 0 -> (claimed q =? length (linked q))%nat = true).
Proof.
  intros Hch (i & j & Hi & Hj & Hij & Hic). destruct (chain_next _ _ _ _ _ Hch Hi) as (nd & Hnd & Hz & Hnx).
  exists nd. split; [done|]. pose proof (c_len _ _ _ Hch). pose proof (c_le _ _ _ Hch).
  pose proof (lookup_lt_Some _ _ _ Hj). pose proof (lookup_lt_Some _ _ _ (c_tail _ _ _ Hch)).
  split.
  - exists i, j. split; [done|]. split; [done|]. split; [lia|]. split; [|done].
    intros Hn. specialize (Hz Hn). lia.
  - intros Hn. specialize (Hz Hn). apply Nat.eqb_eq. lia.
Qed.

(** Reading the item does not disturb the others. *)
Lemma inv_item c ti σ i k f nd :
  inv_with c ti σ -> pc_of i σ = DItem k f -> heap (mem σ) !! f = Some nd ->
  linked (mem σ) !! k = Some (m_item nd) -> inv_with c ti (set_pc i (DClear k f (m_item nd)) (mem σ) σ).
Proof.
  intros Hinv Hpc Hnd Hl. pose proof (i_knows _ _ _ Hinv i) as Hk. rewrite Hpc in Hk.
  destruct Hk as (Hkf & Hkd & _).
  eapply inv_move; [exact Hinv|apply (i_chain _ _ _ Hinv)|by apply grows_refl|done|done|..]; simpl.
  - auto.
  - eauto.
  - done.
  - intros j [= <-]. left. by rewrite Hpc.
  - auto.
  - intros j [= <-]. apply (i_unret _ _ _ Hinv i). by rewrite Hpc.
Qed.

(** dequeue returns nullptr. *)
Lemma inv_give_null c ti σ i e :
  inv_with c ti σ -> ticket (pc_of i σ) = None -> e = true ->
  inv_with c ti (set_pc i Idle (give_null e (mem σ)) σ).
Proof.
  intros Hinv _ ->. eapply inv_quiet; try done.
  destruct (i_chain _ _ _ Hinv). split; simpl; try done. apply Forall_app. split; [done|].
  by repeat constructor.
Qed.

(** Which function a thread is in *)
Definition in_enqueue (p : pc) : bool :=
  match p with ETail _ | ENext _ _ | ECheck _ _ _ | ECas _ _ | EAdvance _ _ | EHelp _ _ _ => true | _ => false end.
Definition in_dequeue (p : pc) : bool :=
  match p with DHead | DTail _ | DNext _ _ | DCheck _ _ _ _ | DHelp _ _ | DCas _ _ | DItem _ _ | DClear _ _ _ => true | _ => false end.

(** A step of thread [i] is defined and keeps the invariant. *)
Definition step_kept (i : nat) (σ : config) : Prop :=
  exists p q, pc_step (pc_of i σ) (mem σ) = Ok (p, q) /\ exists c' ti', inv_with c' ti' (set_pc i p q σ).

Lemma inv_stays c ti σ i p : inv_with c ti σ -> knows c ti (mem σ) p ->
  (forall n, priv p = Some n -> priv (pc_of i σ) = Some n) -> ticket p = None ->
  exists c' ti', inv_with c' ti' (set_pc i p (mem σ) σ).
Proof. intros. exists c, ti. by apply inv_local. Qed.

Lemma enqueue_step_inv c ti σ i : inv_with c ti σ -> in_enqueue (pc_of i σ) = true -> step_kept i σ.
Proof.
  intros Hinv Hop. pose proof (i_chain _ _ _ Hinv) as Hch. pose proof (i_knows _ _ _ Hinv i) as Hk.
  pose proof (i_priv _ _ _ Hinv i) as Hp. pose proof (fun p => inv_stays c ti σ i p Hinv) as Hloc. unfold step_kept.
  destruct (pc_of i σ) as [|n|n t|n t s|n t|n t|n t s| |h|h t|h t f e|t f|h f|k f|k f item
    | |h|h t|h t f|t f|h f|h f] eqn:Hpc; try done; simpl in Hk; cbn [pc_step].
  - eexists _, _. split; [done|]. apply Hloc; [|by intros ? [= <-]|done].
    simpl. eapply list_elem_of_lookup_2, (c_tail _ _ _ Hch).
  - apply list_elem_of_lookup in Hk as [j Hj].
    destruct (chain_next _ _ _ _ _ Hch Hj) as (nd & -> & _ & Hnx). cbn.
    eexists _, _. split; [done|]. apply Hloc; [|by intros ? [= <-]|done]. simpl.
    split; [by eapply list_elem_of_lookup_2|]. intros H0. exists j. auto.
  - destruct Hk as [Ht He]. destruct (t =? m_tail (mem σ)); eexists _, _; (split; [done|]);
      [|apply Hloc; [done|by intros ? [= <-]|done]].
    destruct (Z.eqb_spec s 0); (apply Hloc; [by simpl; auto|by intros ? [= <-]|done]).
  - apply list_elem_of_lookup in Hk as [j Hj].
    destruct (chain_next _ _ _ _ _ Hch Hj) as (nd & Hnd & _ & _). rewrite Hnd. cbn.
    destruct (Hp n eq_refl) as (Hnc & v & Hv & Hn). rewrite Hn. cbn.
    destruct (Z.eqb_spec (m_next nd) 0); eexists _, _; (split; [done|]).
    + exists (c ++ [n]), ti. by eapply inv_link.
    + apply Hloc; [done|by intros ? [= <-]|done].
  - eexists _, _. split; [done|]. exists c. by apply (inv_cas_tail c ti).
  - eexists _, _. split; [done|]. exists c. apply (inv_cas_tail c ti); try done.
    intros ? [= <-]. by rewrite Hpc.
Qed.

Lemma dequeue_step_inv c ti σ i : inv_with c ti σ -> in_dequeue (pc_of i σ) = true -> step_kept i σ.
Proof.
  intros Hinv Hop. pose proof (i_chain _ _ _ Hinv) as Hch. pose proof (i_knows _ _ _ Hinv i) as Hk.
  pose proof (i_priv _ _ _ Hinv i) as Hp. pose proof (fun p => inv_stays c ti σ i p Hinv) as Hloc. unfold step_kept.
  destruct (pc_of i σ) as [|n|n t|n t s|n t|n t|n t s| |h|h t|h t f e|t f|h f|k f|k f item
    | |h|h t|h t f|t f|h f|h f] eqn:Hpc; try done; simpl in Hk; cbn [pc_step].
  - eexists _, _. split; [done|]. apply Hloc; try done. simpl.
    exists (claimed (mem σ)). split; [apply (c_head _ _ _ Hch)|done].
  - eexists _, _. split; [done|]. apply Hloc; try done. simpl. destruct Hk as (j & Hj & Hjc).
    exists j, ti. split; [done|]. split; [apply (c_tail _ _ _ Hch)|].
    pose proof (c_le _ _ _ Hch). lia.
  - destruct (read_next _ _ _ _ _ Hch Hk) as (nd & -> & Hij & He). cbn.
    eexists _, _. split; [done|]. by apply Hloc.
  - destruct Hk as [(j & l & Hj & Hl & Hjl & Hz & Hnx) He].
    destruct (h =? m_head (mem σ)); [|eexists _, _; split; [done|]; by apply Hloc].
    destruct (Z.eqb_spec h t) as [<-|Hht]; [destruct (Z.eqb_spec f 0) as [H0|H0]|];
      eexists _, _; (split; [done|]).
    + exists c, ti. apply inv_give_null; [done|by rewrite Hpc|auto].
    + apply Hloc; try done. exists j. auto.
    + apply Hloc; try done. assert (j <> l) by congruence.
      assert (f <> 0) as H0 by (intros ->; specialize (Hz eq_refl); lia). exists j. split_and!; auto. lia.
  - eexists _, _. split; [done|]. exists c. by apply (inv_cas_tail c ti).
  - destruct (Z.eqb_spec (m_head (mem σ)) h) as [He|]; eexists _, _; (split; [done|]); [|by apply Hloc].
    exists c, ti. by eapply inv_claim.
  - destruct Hk as (Hkf & Hkd & nd & Hnd & Hkl). rewrite Hnd. cbn.
    assert (m_item nd <> 0) as Hnz by (eapply Forall_lookup_1 in Hkl; [|apply (c_nz _ _ _ Hch)]; done).
    rewrite (proj2 (Z.eqb_neq _ _)) by done. eexists _, _. split; [done|].
    exists c, ti. by apply inv_item.
  - destruct Hk as (Hkf & Hkd & Hkl). destruct (c_heap _ _ _ Hch _ _ Hkf) as (nd & Hnd & _).
    rewrite Hnd. cbn. eexists _, _. split; [done|]. exists c, ti. by eapply inv_clear.
Qed.

(** The others: a thread in first, or in no function. *)
Lemma first_step_inv c ti σ i : inv_with c ti σ -> in_enqueue (pc_of i σ) || in_dequeue (pc_of i σ) = false -> step_kept i σ.
Proof.
  intros Hinv Hop. pose proof (i_chain _ _ _ Hinv) as Hch. pose proof (i_knows _ _ _ Hinv i) as Hk.
  pose proof (i_priv _ _ _ Hinv i) as Hp. pose proof (fun p => inv_stays c ti σ i p Hinv) as Hloc. unfold step_kept.
  destruct (pc_of i σ) as [|n|n t|n t s|n t|n t|n t s| |h|h t|h t f e|t f|h f|k f|k f item
    | |h|h t|h t f|t f|h f|h f] eqn:Hpc; try done; simpl in Hk; cbn [pc_step].
  - eexists _, _. split; [done|]. by apply Hloc.
  - eexists _, _. split; [done|]. apply Hloc; try done. simpl.
    exists (claimed (mem σ)). split; [apply (c_head _ _ _ Hch)|done].
  - eexists _, _. split; [done|]. apply Hloc; try done. simpl. destruct Hk as (j & Hj & Hjc).
    exists j, ti. split; [done|]. split; [apply (c_tail _ _ _ Hch)|].
    pose proof (c_le _ _ _ Hch). lia.
  - destruct (read_next _ _ _ _ _ Hch Hk) as (nd & -> & Hij & _). cbn.
    eexists _, _. split; [done|]. by apply Hloc.
  - destruct Hk as (j & l & Hj & Hl & Hjl & Hz & Hnx).
    destruct (h =? m_head (mem σ)); [|eexists _, _; split; [done|]; by apply Hloc].
    destruct (Z.eqb_spec h t) as [<-|Hht]; eexists _, _; (split; [done|]).
    + destruct (Z.eqb_spec f 0); apply Hloc; try done. exists j. auto.
    + apply Hloc; try done. assert (j <> l) by congruence.
      assert (f <> 0) as H0 by (intros ->; specialize (Hz eq_refl); lia). exists j. auto.
  - eexists _, _. split; [done|]. exists c. by apply (inv_cas_tail c ti).
  - destruct Hk as (j & Hj & Hjf). destruct (c_heap _ _ _ Hch _ _ Hjf) as (nd & Hnd & _).
    rewrite Hnd. cbn. eexists _, _. split; [done|].
    destruct (Z.eqb_spec (m_item nd) 0); apply Hloc; try done. exists j. split_and!; try done.
    by eapply chain_item_nz.
  - destruct Hk as (j & Hj & Hjf & Hjc). pose proof (c_head _ _ _ Hch) as Hh.
    rewrite (proj2 (Z.eqb_neq _ _)).
    + eexists _, _. split; [done|]. by apply Hloc.
    + intros He. rewrite He in Hh. pose proof (NoDup_lookup c _ _ _ (c_nodup _ _ _ Hch) Hj Hh). lia.
Qed.

(** Every step of a thread, in every state it can be in, is defined. *)
Lemma pc_step_inv c ti σ i : inv_with c ti σ -> step_kept i σ.
Proof.
  intros Hinv. destruct (in_enqueue (pc_of i σ)) eqn:He; [by eapply enqueue_step_inv|].
  destruct (in_dequeue (pc_of i σ)) eqn:Hd; [by eapply dequeue_step_inv|].
  eapply first_step_inv; [done|]. by rewrite He, Hd.
Qed.

Lemma queue_step_inv σ σ' : inv σ -> step σ σ' -> inv σ'.
Proof.
  intros (c & ti & Hinv) Hs. destruct Hs as [σ i item Hp Hi|σ i Hp|σ i Hp|σ i p q Hq].
  - exists c, ti. by apply inv_alloc.
  - exists c, ti. by apply inv_local.
  - exists c, ti. by apply inv_local.
  - destruct (pc_step_inv c ti σ i Hinv) as (p' & q' & Hq' & Hi'). rewrite Hq in Hq'.
    by injection Hq' as <- <-.
Qed.

Lemma queue_init_inv : inv init.
Proof.
  exists [1], 0%nat. split; try (intros; unfold pc_of, init in *; simpl in *; done).
  split; simpl; try done; try (by constructor).
  - apply NoDup_singleton.
  - intros [|i] a; simpl; [|done]. intros [= <-]. eexists. split; [apply lookup_singleton_eq|done].
  - intros a (nd & [<- _]%lookup_singleton_Some). done.
  - intros a (nd & [<- _]%lookup_singleton_Some). lia.
  - intros k v Hkv. by apply not_elem_of_nil in Hkv.
Qed.

Lemma queue_reachable_inv σ : reachable σ -> inv σ.
Proof.
  unfold reachable. revert σ. apply rtc_ind_r; [apply queue_init_inv|].
  intros σ1 σ2 _ Hs IH. by eapply queue_step_inv.
Qed.

(** ** What the queue promises *)

(** C4: the lock-free queue hands every item out at most once and in order: in
    every state that any number of threads can reach, each item a dequeue returned
    carries the number of its claim - numbers that no two dequeues share and that
    are below the number of claims - and is the item that was linked with that
    number, so that the n-th dequeue to claim gets the n-th item enqueued; and no
    more is claimed than was linked. *)
Theorem queue_fifo (σ : config) :
  reachable σ ->
  NoDup (returned (mem σ)).*1 /\
  (forall k v, (k, v) ∈ returned (mem σ) ->
     (k < claimed (mem σ))%nat /\ linked (mem σ) !! k = Some v) /\
  (claimed (mem σ) <= length (linked (mem σ)))%nat /\ Forall (fun v => v <> 0) (linked (mem σ)).
Proof.
  intros (c & ti & Hinv)%queue_reachable_inv. destruct (i_chain _ _ _ Hinv). split_and!; try done.
  pose proof (lookup_lt_Some _ _ _ c_tail0). lia.
Qed.

(** A dequeue reports the queue empty only if it was: between its call and its
    return there was a moment (its read of the head's next pointer) when every
    item linked so far had been claimed. *)
Theorem queue_empty_sound (σ : config) :
  reachable σ -> Forall (fun b => b = true) (saw_empty (mem σ)).
Proof. intros (c & ti & Hinv)%queue_reachable_inv. apply (i_chain _ _ _ Hinv). Qed.

(** No thread ever goes wrong: whatever the interleaving, the next access of
    every thread is to a node that exists (the null next pointer is never
    followed, and a claimed node still has its item). *)
Theorem queue_threads_safe (σ : config) (i : nat) :
  reachable σ -> exists p q, pc_step (pc_of i σ) (mem σ) = Ok (p, q).
Proof.
  intros (c & ti & Hinv)%queue_reachable_inv.
  destruct (pc_step_inv c ti σ i Hinv) as (p & q & Hs & _). eauto.
Qed.

(** ** An operation that runs alone *)
Fixpoint run (fuel : nat) (p : pc) (q : queue) : outcome queue :=
  match p with
  | Idle => mret q
  | _ =>
      match fuel with
      | O => Fault OutOfFuel
      | S fuel => '(p, q) ← pc_step p q; run fuel p q
      end
  end.

Lemma run_S n p q p' q' :
  p <> Idle -> pc_step p q = Ok (p', q') -> run (S n) p q = run n p' q'.
Proof. intros Hp Hs. destruct p; [done|..]; cbn [run]; by rewrite Hs. Qed.

Lemma run_Idle n q : run n Idle q = Ok q.
Proof. by destruct n. Qed.

(** The four reads of dequeue, when nothing else happens. *)
Lemma run_reads n q nd :
  heap q !! m_head q = Some nd ->
  run (4 + n) DHead q =
    '(p, q) ← pc_step (DCheck (m_head q) (m_tail q) (m_next nd) (claimed q =? length (linked q))%nat) q;
    run n p q.
Proof.
  intros Hnd. change (4 + n)%nat with (S (S (S (S n)))).
  rewrite (run_S _ DHead q (DTail (m_head q)) q), (run_S _ (DTail _) q (DNext (m_head q) (m_tail q)) q)
    by done.
  rewrite (run_S _ (DNext _ _) q _ _ ltac:(done) ltac:(simpl; rewrite Hnd; reflexivity)). done.
Qed.

Lemma run_more n m p q q' : run n p q = Ok q' -> run (n + m) p q = Ok q'.
Proof.
  revert p q; induction n as [|n IH]; intros p q H; [by destruct p, m|].
  destruct p; try done; cbn [run Nat.add] in *; apply bind_inv in H as ([p1 q1] & Hs & H);
    rewrite Hs; cbn; by apply IH.
Qed.

(** The tail does not lag behind. *)
Definition at_end (q : queue) : Prop := exists nd, heap q !! m_tail q = Some nd /\ m_next nd = 0.

(** The head is loaded, the tail is beyond it: the item is claimed and returned. *)
Lemma run_claim c ti q nd :
  chain_ok c ti q -> m_head q <> m_tail q -> heap q !! m_head q = Some nd ->
  exists v q', run 7 DHead q = Ok q' /\ linked q !! claimed q = Some v /\
    returned q' = returned q ++ [(claimed q, v)] /\ linked q' = linked q /\
    claimed q' = S (claimed q) /\ (at_end q -> at_end q').
Proof.
  intros Hch Hne Hnd.
  destruct (read_next c ti q (m_head q) (m_tail q) Hch) as (nd' & Hnd' & (j & l & Hj & Hl & Hjl & Hz & Hnx) & _).
  { exists (claimed q), ti. split; [apply (c_head _ _ _ Hch)|]. split; [apply (c_tail _ _ _ Hch)|].
    pose proof (c_le _ _ _ Hch). lia. }
  rewrite Hnd in Hnd'. injection Hnd' as <-. assert (j <> l) by congruence.
  assert (m_next nd <> 0) as H0 by (intros H0; specialize (Hz H0); lia).
  assert (j = claimed q) as ->
    by (eapply (NoDup_lookup c); [apply (c_nodup _ _ _ Hch)|exact Hj|apply (c_head _ _ _ Hch)]).
  destruct (c_heap _ _ _ Hch _ _ (Hnx H0)) as (x & Hx & _).
  pose proof (c_item _ _ _ Hch _ _ _ (le_n _) (Hnx H0) Hx) as Hv.
  assert (m_item x <> 0) as Hxz.
  { intros Hi. pose proof (chain_item_nz _ _ _ _ _ _ Hch (Hnx H0) Hx Hi). lia. }
  change 7%nat with (4 + 3)%nat. rewrite (run_reads 3 q nd Hnd). unfold pc_step at 1.
  rewrite Z.eqb_refl, (proj2 (Z.eqb_neq _ _)) by done. cbn [mbind outcome_bind mret outcome_ret].
  set (q1 := claim (m_next nd) q).
  rewrite (run_S _ (DCas _ _) q (DItem (claimed q) (m_next nd)) q1)
    by (done || (simpl; by rewrite Z.eqb_refl)).
  rewrite (run_S _ (DItem _ _) q1 (DClear (claimed q) (m_next nd) (m_item x)) q1)
    by (done || (simpl; rewrite Hx; simpl; by rewrite (proj2 (Z.eqb_neq _ _)))).
  rewrite (run_S _ (DClear _ _ _) q1 Idle
    (give (claimed q) (m_item x) (set_node (m_next nd) (MkQnode 0 (m_next x)) q1)))
    by (done || (simpl; by rewrite Hx)).
  rewrite run_Idle. eexists _, _. split; [done|]. split_and!; try done.
  intros (tl & Htl & H1). unfold at_end. simpl. destruct (decide (m_next nd = m_tail q)) as [Hft|Hft].
  - rewrite Hft, lookup_insert_eq. rewrite Hft in Hx. assert (x = tl) as -> by congruence. eauto.
  - rewrite lookup_insert_ne by done. eauto.
Qed.

(** A dequeue that is not disturbed finishes: in every reachable state, run
    alone it returns within twelve accesses, also when it first has to help a
    tail that lags behind; it returns the next item in order if one is linked and
    not claimed, and nullptr exactly if there is none. *)
Theorem dequeue_alone (σ : config) :
  reachable σ ->
  exists q', run 12 DHead (mem σ) = Ok q' /\ linked q' = linked (mem σ) /\
    match linked (mem σ) !! claimed (mem σ) with
    | Some v => returned q' = returned (mem σ) ++ [(claimed (mem σ), v)]
    | None => returned q' = returned (mem σ) /\ saw_empty q' = saw_empty (mem σ) ++ [true]
    end.
Proof.
  intros (c & ti & Hinv)%queue_reachable_inv. pose proof (i_chain _ _ _ Hinv) as Hch.
  set (q := mem σ) in *. clearbody q. clear Hinv σ.
  destruct (read_next c ti q (m_head q) (m_tail q) Hch) as (nd & Hnd & (j & l & Hj & Hl & Hjl & Hz & Hnx) & He).
  { exists (claimed q), ti. split; [apply (c_head _ _ _ Hch)|]. split; [apply (c_tail _ _ _ Hch)|].
    pose proof (c_le _ _ _ Hch). lia. }
  destruct (decide (m_head q = m_tail q)) as [Heq|Hne].
  - destruct (decide (m_next nd = 0)) as [H0|H0].
    + change 12%nat with (4 + 8)%nat. rewrite (run_reads 8 q nd Hnd). unfold pc_step at 1.
      rewrite <- Heq, !Z.eqb_refl, H0, He by done. cbn [mbind outcome_bind mret outcome_ret Z.eqb].
      rewrite run_Idle. eexists. split; [done|]. split; [done|]. specialize (He H0). apply Nat.eqb_eq in He. by rewrite He, (proj2 (lookup_ge_None _ _)) by done.
    + assert (run 12 DHead q = run 7 DHead (cas_tail (m_tail q) (m_next nd) q)) as ->.
      { change 12%nat with (4 + 8)%nat. rewrite (run_reads 8 q nd Hnd). unfold pc_step at 1.
        rewrite <- Heq, !Z.eqb_refl, (proj2 (Z.eqb_neq (m_next nd) 0)) by done.
        cbn [mbind outcome_bind mret outcome_ret]. by apply run_S. }
      unfold cas_tail. rewrite Z.eqb_refl.
      set (q1 := MkQueue _ _ _ _ _ _ _ _).
      assert (chain_ok c (S ti) q1) as Hch1.
      { assert (j = ti) as ->.
        { eapply (NoDup_lookup c); [apply (c_nodup _ _ _ Hch)|exact Hj|].
          rewrite Heq. apply (c_tail _ _ _ Hch). }
        destruct Hch. split; simpl; try done; [auto|lia]. }
      assert (m_head q <> m_next nd) as Hb.
      { intros Hb. assert (j = S j); [|lia].
        eapply (NoDup_lookup c); [apply (c_nodup _ _ _ Hch)|exact Hj|]. rewrite Hb. auto. }
      destruct (run_claim c (S ti) q1 nd Hch1 Hb Hnd) as (v & q' & H1 & H2 & H3 & H4 & _). exists q'.
      change (linked q1) with (linked q) in *. change (claimed q1) with (claimed q) in *.
      by rewrite H2.
  - destruct (run_claim c ti q nd Hch Hne Hnd) as (v & q' & H1 & H2 & H3 & H4 & _). exists q'.
    rewrite H2. split; [|by split]. by apply (run_more 7 5).
Qed.

(** ** The queue of one thread

    enqueue and dequeue from their call to their return, for the strategies that
    use the queue; the bounds are the accesses of an operation that nobody disturbs. *)
Definition enqueue_one (item : Z) (q : queue) : outcome (bool * queue) :=
  if item =? 0 then mret (false, q)
  else
    let '(n, q1) := alloc item q in
    q' ← run 5 (ETail n) q1; mret (true, q').

Definition dequeue_one (q : queue) : outcome (Z * queue) :=
  q' ← run 7 DHead q;
  mret (match drop (length (returned q)) (returned q') with (_, v) :: _ => v | [] => 0 end, q').

(** The items of a queue that no thread is using. *)
Definition quiet (q : queue) (l : list Z) : Prop :=
  (exists c ti, chain_ok c ti q) /\ at_end q /\ l = drop (claimed q) (linked q).

Lemma chain_inv c ti q : chain_ok c ti q -> inv_with c ti (MkConfig q ∅).
Proof. intros Hch. by split. Qed.

Lemma run_inv n p q q' c ti σ :
  inv_with c ti (set_pc 0 p q σ) -> run n p q = Ok q' -> exists c' ti', chain_ok c' ti' q'.
Proof.
  revert p q c ti σ; induction n as [|n IH]; intros p q c ti σ Hinv Hr.
  - destruct p; try done. injection Hr as <-. eexists _, _. apply (i_chain _ _ _ Hinv).
  - destruct (decide (p = Idle)) as [->|Hp].
    { injection Hr as <-. eexists _, _. apply (i_chain _ _ _ Hinv). }
    destruct (pc_step_inv c ti _ 0%nat Hinv) as (p1 & q1 & Hs & c1 & ti1 & Hinv1).
    rewrite pc_of_set in Hs. simpl in Hs. rewrite (run_S n p q p1 q1 Hp Hs) in Hr.
    by eapply IH in Hr.
Qed.

Lemma quiet_new : quiet init_queue [].
Proof.
  destruct queue_init_inv as (c & ti & Hinv). split; [eexists _, _; apply (i_chain _ _ _ Hinv)|].
  split; [|done]. exists (MkQnode 0 0). done.
Qed.

Lemma enqueue_one_quiet q l item :
  quiet q l -> item <> 0 ->
  exists q', enqueue_one item q = Ok (true, q') /\ quiet q' (l ++ [item]).
Proof.
  intros ((c & ti & Hch) & (nd & Hnd & H0) & ->) Hi. unfold enqueue_one.
  rewrite (proj2 (Z.eqb_neq item 0)) by done.
  pose proof (inv_alloc c ti _ 0 item (chain_inv _ _ _ Hch) Hi) as Hinv. cbn in Hinv.
  assert (next_free q <> m_tail q) as Hne.
  { intros He. pose proof (c_free _ _ _ Hch (m_tail q) (ltac:(eauto))). lia. }
  assert (exists q', run 5 (ETail (next_free q)) (alloc item q).2 = Ok q' /\
            linked q' = linked q ++ [item] /\ claimed q' = claimed q /\ at_end q')
    as (q' & Hr & Hl & Hc & He).
  { set (q1 := (alloc item q).2).
    assert (heap q1 !! m_tail q1 = Some nd) as Hnd1 by (by simpl; rewrite lookup_insert_ne).
    assert (heap q1 !! next_free q = Some (MkQnode item 0)) as Hn1 by apply lookup_insert_eq.
    change 5%nat with (S (S (S (S (S 0))))).
    rewrite (run_S _ (ETail _) q1 (ENext (next_free q) (m_tail q1)) q1) by done.
    rewrite (run_S _ (ENext _ _) q1 (ECheck (next_free q) (m_tail q1) 0) q1)
      by (done || (cbn [pc_step]; rewrite Hnd1; cbn; by rewrite H0)).
    rewrite (run_S _ (ECheck _ _ _) q1 (ECas (next_free q) (m_tail q1)) q1)
      by (done || (cbn [pc_step]; by rewrite Z.eqb_refl)).
    set (q2 := link item (set_node (m_tail q1) (MkQnode (m_item nd) (next_free q)) q1)).
    rewrite (run_S _ (ECas _ _) q1 (EAdvance (next_free q) (m_tail q1)) q2)
      by (done || (cbn [pc_step]; rewrite Hnd1, Hn1; cbn; by rewrite H0)).
    rewrite (run_S _ (EAdvance _ _) q2 Idle (cas_tail (m_tail q1) (next_free q) q2)) by done.
    rewrite run_Idle. eexists. split; [done|]. unfold cas_tail. simpl. rewrite Z.eqb_refl.
    split_and!; try done. exists (MkQnode item 0). split; [|done]. simpl.
    rewrite lookup_insert_ne by done. apply lookup_insert_eq. }
  cbn [alloc]. unfold alloc in Hr. cbn [snd] in Hr. rewrite Hr. cbn. eexists. split; [done|].
  split; [by eapply run_inv|]. split; [done|]. rewrite Hl, Hc, drop_app_le; [done|].
  pose proof (lookup_lt_Some _ _ _ (c_head _ _ _ Hch)). rewrite (c_len _ _ _ Hch) in *. lia.
Qed.

Lemma dequeue_one_quiet q l :
  quiet q l ->
  exists q', dequeue_one q = Ok (match l with x :: _ => x | [] => 0 end, q') /\ quiet q' (tail l).
Proof.
  intros ((c & ti & Hch) & He & ->). pose proof He as (tl & Htl & H0). unfold dequeue_one.
  pose proof (inv_local c ti _ 0 DHead (chain_inv _ _ _ Hch) I ltac:(done) eq_refl) as Hinv.
  assert (exists nd, heap q !! m_head q = Some nd) as [nd Hnd].
  { destruct (c_heap _ _ _ Hch _ _ (c_head _ _ _ Hch)) as (nd & Hnd & _). eauto. }
  destruct (decide (m_head q = m_tail q)) as [Heq|Hne].
  - assert (nd = tl) as -> by congruence.
    assert (claimed q = length (linked q)) as Hcl.
    { destruct (chain_next _ _ _ _ _ Hch (c_head _ _ _ Hch)) as (nd' & Hnd' & Hz & _).
      assert (nd' = tl) as -> by congruence. specialize (Hz H0). rewrite (c_len _ _ _ Hch) in Hz. lia. }
    assert (run 7 DHead q = Ok (give_null true q)) as Hr.
    { change 7%nat with (4 + 3)%nat. rewrite (run_reads 3 q tl Hnd). unfold pc_step at 1.
      rewrite <- Heq, !Z.eqb_refl, H0, Hcl, Nat.eqb_refl. cbn [mbind outcome_bind mret outcome_ret Z.eqb].
      by rewrite run_Idle. }
    rewrite Hr. cbn. rewrite drop_all, (drop_ge (linked q)) by lia. eexists. split; [done|].
    split; [by eapply run_inv in Hr|]. split; [done|]. simpl. by rewrite drop_ge by lia.
  - destruct (run_claim c ti q nd Hch Hne Hnd) as (v & q' & Hr & Hv & Hret & Hl & Hc & He').
    rewrite Hr. cbn. rewrite Hret, drop_app_length. cbn.
    rewrite (drop_S _ _ _ Hv). eexists. split; [done|]. split; [by eapply run_inv in Hr|].
    split; [auto|]. by rewrite Hl, Hc.
Qed.

(** ** empty and size, when nobody else moves

    first may move the tail and, past nodes without an item, the head. *)
Fixpoint first_alone (fuel : nat) (q : queue) : outcome (Z * queue) :=
  match fuel with
  | O => Fault OutOfFuel
  | S fuel =>
      nd ← deref (heap q !! m_head q);
      if m_head q =? m_tail q then
        if m_next nd =? 0 then mret (0, q) else first_alone fuel (cas_tail (m_tail q) (m_next nd) q)
      else
        f ← deref (heap q !! m_next nd);
        if m_item f =? 0 then first_alone fuel (claim (m_next nd) q) else mret (m_next nd, q)
  end.

Definition empty_alone (q : queue) : outcome bool := '(f, _) ← first_alone 2 q; mret (f =? 0).

Definition INT_MAX : Z := 2 ^ 31 - 1.

(** The loop of size: from [p] on, with [count] items so far *)
Fixpoint count_from (fuel : nat) (p count : Z) (q : queue) : outcome Z :=
  if p =? 0 then mret count
  else
    match fuel with
    | O => Fault OutOfFuel
    | S fuel =>
        nd ← deref (heap q !! p);
        if m_item nd =? 0 then count_from fuel (m_next nd) count q
        else if count + 1 =? INT_MAX then mret (count + 1) else count_from fuel (m_next nd) (count + 1) q
    end.

(** There are not more nodes to visit than there are in the heap. *)
Definition size_alone (q : queue) : outcome Z :=
  '(f, q) ← first_alone 2 q; count_from (size (heap q)) f 0 q.

(** The node after the head, if there is one. *)
Lemma first_alone_spec c ti q : chain_ok c ti q ->
  exists q' ti', first_alone 2 q = Ok (default 0 (c !! S (claimed q)), q') /\ chain_ok c ti' q' /\
    claimed q' = claimed q /\ linked q' = linked q /\ next_free q' = next_free q.
Proof.
  intros Hch. pose proof (c_head _ _ _ Hch) as Hh. destruct (c_heap _ _ _ Hch _ _ Hh) as (nd & Hnd & Hnx).
  assert (forall q' ti', chain_ok c ti' q' -> heap q' = heap q -> m_head q' = m_head q -> claimed q' = claimed q ->
    linked q' = linked q -> next_free q' = next_free q -> m_head q' <> m_tail q' ->
    forall n, first_alone (S n) q' = Ok (default 0 (c !! S (claimed q)), q')) as Hgo.
  { intros q' ti' Hch' Eh Ehd Ecl El _ Hne n. cbn [first_alone]. rewrite Eh, Ehd, Hnd. cbn.
    rewrite Ehd in Hne. rewrite (proj2 (Z.eqb_neq _ _)) by done. rewrite Hnx.
    destruct (c !! S (claimed q)) as [f|] eqn:Ef; cbn.
    - destruct (c_heap _ _ _ Hch _ _ Ef) as (x & Hx & _). rewrite Hx. cbn.
      destruct (Z.eqb_spec (m_item x) 0) as [H0|]; [|done].
      pose proof (chain_item_nz _ _ _ _ _ _ Hch Ef Hx H0). lia.
    - exfalso. apply lookup_ge_None in Ef. pose proof (c_tail _ _ _ Hch') as Ht. pose proof (c_le _ _ _ Hch').
      pose proof (lookup_lt_Some _ _ _ Ht). assert (ti' = claimed q) as -> by lia. rewrite Hh in Ht. congruence. }
  destruct (decide (m_head q = m_tail q)) as [Heq|Hne]; [|exists q, ti; split_and!; eauto].
  cbn [first_alone]. rewrite Hnd. cbn. rewrite (proj2 (Z.eqb_eq _ _) Heq).
  destruct (Z.eqb_spec (m_next nd) 0) as [H0|H0].
  { exists q, ti. rewrite <- Hnx, H0. by split_and!. }
  destruct (c !! S (claimed q)) as [f|] eqn:Ef; cbn in Hnx; [|done].
  assert (ti = claimed q) as ->.
  { eapply (NoDup_lookup c); [apply (c_nodup _ _ _ Hch)|apply (c_tail _ _ _ Hch)|]. by rewrite <- Heq. }
  set (q1 := cas_tail (m_tail q) (m_next nd) q).
  assert (chain_ok c (S (claimed q)) q1) as Hch1.
  { unfold q1, cas_tail. rewrite Z.eqb_refl. destruct Hch. split; simpl; try done; [congruence|lia]. }
  assert (m_head q <> m_tail q1) as Hne.
  { unfold q1, cas_tail. rewrite Z.eqb_refl. cbn. rewrite Hnx. intros E. rewrite E in Hh.
    pose proof (NoDup_lookup c _ _ _ (c_nodup _ _ _ Hch) Hh Ef). lia. }
  exists q1, (S (claimed q)).
  assert (heap q1 = heap q /\ m_head q1 = m_head q /\ claimed q1 = claimed q /\ linked q1 = linked q /\ next_free q1 = next_free q)
    as (E1 & E2 & E3 & E4 & E5) by (unfold q1, cas_tail; by rewrite Z.eqb_refl).
  split; [|done]. apply (Hgo q1 _ Hch1 E1 E2 E3 E4 E5 ltac:(by rewrite E2) 0%nat).
Qed.

Lemma count_from_spec c ti q i n fuel : chain_ok c ti q -> (claimed q <= i)%nat -> (length c <= fuel + S i)%nat ->
  0 <= n -> n + Z.of_nat (length (linked q)) - Z.of_nat i < INT_MAX ->
  count_from fuel (default 0 (c !! S i)) n q = Ok (n + Z.of_nat (length (linked q) - i)).
Proof.
  intros Hch. revert i n. induction fuel as [|fuel IH]; intros i n Hi Hf Hn Hlt; pose proof (c_len _ _ _ Hch) as Hl.
  - rewrite (proj2 (lookup_ge_None _ _)) by lia. cbn. f_equal. lia.
  - destruct (c !! S i) as [a|] eqn:E; cbn [default from_option id].
    + destruct (c_heap _ _ _ Hch _ _ E) as (nd & Hnd & Hnx). pose proof (lookup_lt_Some _ _ _ E).
      cbn [count_from]. rewrite (proj2 (Z.eqb_neq a 0)) by (apply (c_addr _ _ _ Hch); eauto). rewrite Hnd. cbn [mbind outcome_bind deref].
      destruct (Z.eqb_spec (m_item nd) 0) as [H0|_]; [pose proof (chain_item_nz _ _ _ _ _ _ Hch E Hnd H0); lia|].
      rewrite (proj2 (Z.eqb_neq _ INT_MAX)) by lia. rewrite Hnx, IH by lia. f_equal. lia.
    + apply lookup_ge_None in E. cbn. f_equal. lia.
Qed.

(** In every state that threads can reach, empty and size, run alone, return and tell how
    many items were linked and not claimed. *)
Theorem size_exact (σ : config) : reachable σ -> Z.of_nat (length (linked (mem σ))) < INT_MAX ->
  size_alone (mem σ) = Ok (Z.of_nat (length (linked (mem σ)) - claimed (mem σ))) /\
  empty_alone (mem σ) = Ok (bool_decide (claimed (mem σ) = length (linked (mem σ)))).
Proof.
  intros (c & ti & Hinv)%queue_reachable_inv Hlt. pose proof (i_chain _ _ _ Hinv) as Hch.
  set (q := mem σ) in *. clearbody q. clear Hinv σ.
  destruct (first_alone_spec c ti q Hch) as (q' & ti' & Hf & Hch' & Hc & Hl & Hn).
  pose proof (c_len _ _ _ Hch) as Hlen. pose proof (lookup_lt_Some _ _ _ (c_head _ _ _ Hch)) as Hcl.
  split.
  - unfold size_alone. rewrite Hf. cbn -[count_from]. rewrite <- Hc. rewrite <- Hl.
    rewrite (count_from_spec c ti' q'); [done|done|done| |lia|rewrite Hl; lia].
    enough (length c <= size (heap q'))%nat by lia.
    rewrite <- (size_list_to_set (C := gset Z) c), <- size_dom by apply (c_nodup _ _ _ Hch').
    apply subseteq_size. intros a (i & Ha)%elem_of_list_to_set%list_elem_of_lookup.
    destruct (c_heap _ _ _ Hch' _ _ Ha) as (nd & Hnd & _). by apply elem_of_dom.
  - unfold empty_alone. rewrite Hf. cbn. f_equal. destruct (c !! S (claimed q)) as [f|] eqn:Ef; cbn.
    + destruct (c_heap _ _ _ Hch _ _ Ef) as (nd & Hnd & _). rewrite (proj2 (Z.eqb_neq f 0)) by (apply (c_addr _ _ _ Hch); eauto).
      symmetry. apply bool_decide_eq_false_2. apply lookup_lt_Some in Ef. lia.
    + apply lookup_ge_None in Ef. symmetry. apply bool_decide_eq_true_2. lia.
Qed.

(** ** Witnesses *)
Module LinkedQueueExamples.

(** Thread 0 links 7 and stops before it moves the tail; thread 1 has to help to
    enqueue 8; thread 2 dequeues, once more than there are items. *)
Definition schedule : list action :=
  [AEnq 0 7] ++ replicate 4 (AStep 0) ++ [AEnq 1 8] ++ replicate 9 (AStep 1) ++
  [ADeq 2] ++ replicate 7 (AStep 2) ++ [ADeq 2] ++ replicate 7 (AStep 2) ++
  [AStep 0; ADeq 2] ++ replicate 4 (AStep 2).

Definition raced : config := default init (exec_all schedule init).

Lemma queue_raced_reachable : reachable raced.
Proof. apply (exec_all_steps schedule). vm_compute. reflexivity. Qed.

Example raced_result :
  returned (mem raced) = [(0%nat, 7); (1%nat, 8)] /\ saw_empty (mem raced) = [true].
Proof. vm_compute. split; reflexivity. Qed.

Lemma queue_fifo_witness : linked (mem raced) !! 1%nat = Some 8.
Proof.
  pose proof (queue_fifo raced queue_raced_reachable) as (_ & H & _).
  apply (H 1%nat 8). vm_compute. apply elem_of_cons. right. apply elem_of_cons. left. reflexivity.
Defined.

Lemma queue_empty_sound_witness : Forall (fun b => b = true) (saw_empty (mem raced)).
Proof. apply (queue_empty_sound raced queue_raced_reachable). Defined.

Lemma queue_threads_safe_witness : exists p q, pc_step (pc_of 2 raced) (mem raced) = Ok (p, q).
Proof. apply (queue_threads_safe raced 2 queue_raced_reachable). Defined.

(** The tail lags behind here. *)
Definition lagging : config := default init (exec_all ([AEnq 0 7] ++ replicate 4 (AStep 0)) init).

Lemma dequeue_alone_witness : exists q', run 12 DHead (mem lagging) = Ok q' /\ returned q' = [(0%nat, 7)].
Proof.
  destruct (dequeue_alone lagging) as (q' & H1 & _ & H2).
  - apply (exec_all_steps ([AEnq 0%nat 7] ++ replicate 4 (AStep 0))). vm_compute. reflexivity.
  - exists q'. split; [exact H1|]. exact H2.
Defined.

Lemma size_exact_witness : size_alone (mem lagging) = Ok 1.
Proof.
  apply (size_exact lagging); [|reflexivity].
  apply (exec_all_steps ([AEnq 0%nat 7] ++ replicate 4 (AStep 0))). vm_compute. reflexivity.
Defined.
End LinkedQueueExamples.
