(* ===== verification/WorkSteal.v ===== *)
(** * The work-stealing scheduler

    include/mola/work_steal.hpp (WorkStealStrategy and LockFreeStrategy with the
    locked global queue) and the random numbers of include/mola/scheduler.hpp.

    Every thread has a ring of N task pointers with 32-bit head and tail
    counters that only grow and wrap around; a full ring moves half of its tasks
    to the global queue, a thread without work takes from the global queue and
    then steals half of a victim's ring.  Here each operation runs alone;
    WorkStealConc.v has the interleavings of one ring. *)
From stdpp Require Import base list gmap numbers.
From S2P Require Import Prelude.

(** ** AbsolateWorker::srand, AbsolateWorker::random *)
Definition RNGMOD : Z := 4294967291.
Definition RNGMUL : Z := 69070.

Definition srand (s : Z) : Z :=
  let s := s mod RNGMOD in u32 (s + (if s =? 0 then 1 else 0)).

Definition random (seed : Z) : Z := u32 (u64 (RNGMUL * seed) mod RNGMOD).

(** The per-thread random generator never gets stuck at zero: srand gives a
    seed between 1 and RNGMOD - 1 for every argument, and random maps such a
    seed to such a seed (the 64-bit product does not overflow). *)
Theorem random_nonzero (s seed : Z) :
  0 <= s -> 0 < seed < RNGMOD ->
  0 < srand s < RNGMOD /\ 0 < random seed < RNGMOD.
Proof.
  intros Hs Hseed. unfold srand, random, RNGMOD, RNGMUL in *. split.
  - pose proof (Z.mod_pos_bound s 4294967291 ltac:(lia)).
    destruct (Z.eqb_spec (s mod 4294967291) 0) as [->|]; [vm_compute; split; reflexivity|].
    rewrite Z.add_0_r, wrap_small by width_lia. lia.
  - rewrite (wrap_small 64) by width_lia.
    pose proof (Z.mod_pos_bound (69070 * seed) 4294967291 ltac:(lia)) as Hb.
    rewrite wrap_small by width_lia. split; [|lia].
    destruct (Z.eq_dec ((69070 * seed) mod 4294967291) 0) as [H0|]; [|lia].
    apply Z.mod_divide in H0; [|lia]. apply Z.gauss in H0; [|reflexivity].
    apply Z.divide_pos_le in H0; lia.
Qed.

Lemma random_nonzero_witness : 0 < srand 0 < RNGMOD /\ 0 < random 1 < RNGMOD.
Proof. apply (random_nonzero 0 1); unfold RNGMOD; lia. Defined.

Section WorkSteal.
(** The template parameter N; LockFreeStrategy<4096> is what the runtime uses. *)
Context (N : Z) (HN : 2 <= N < 2 ^ 31) (HN2 : N mod 2 = 0)
  (HN32 : (N | 2 ^ 32)).

(** A task is the address of a WorkItem, 0 is nullptr. *)
Record LockFreeQue := MkQue { head : Z; tail : Z; content : list Z }.

Definition new_que (garbage : list Z) : LockFreeQue := MkQue 0 0 garbage.

Definition slot (i : Z) : nat := Z.to_nat (u32 i mod N).
Definition get (q : LockFreeQue) (i : Z) : Z := nth (slot i) (content q) 0.

(** __dequeue *)
Definition que_dequeue (q : LockFreeQue) : Z * LockFreeQue :=
  if head q =? tail q then (0, q)
  else (get q (head q), MkQue (u32 (head q + 1)) (tail q) (content q)).

(** The first [n] tasks from [h] on. *)
Definition copy_out (q : LockFreeQue) (h : Z) (n : nat) : list Z :=
  map (fun i => get q (h + Z.of_nat i)) (seq 0 n).

(** __enqueue: the ring and what goes to the global queue. *)
Definition que_enqueue (q : LockFreeQue) (task : Z) : LockFreeQue * list Z :=
  if u32 (tail q - head q) <? N then
    (MkQue (head q) (u32 (tail q + 1)) (<[slot (tail q) := task]> (content q)), [])
  else
    let n := u32 (tail q - head q) / 2 in
    (MkQue (u32 (head q + n)) (tail q) (content q),
     copy_out q (head q) (Z.to_nat n) ++ [task]).

(** __grab; the [continue] of the source makes no progress when it runs alone. *)
Definition grab (q : LockFreeQue) : outcome (list Z * LockFreeQue) :=
  let m := u32 (tail q - head q) in
  let n := u32 (m - m / 2) in
  if n =? 0 then mret ([], q)
  else if N / 2 <? n then Fault OutOfFuel
  else mret (copy_out q (head q) (Z.to_nat n), MkQue (u32 (head q + n)) (tail q) (content q)).

Fixpoint store_all (t : Z) (ts : list Z) (c : list Z) : list Z :=
  match ts with
  | [] => c
  | x :: ts => store_all (t + 1) ts (<[slot t := x]> c)
  end.

(** __steal, on the thief's ring [q] and the tasks that __grab returned *)
Definition put_stolen (q : LockFreeQue) (temp : list Z) : outcome (Z * LockFreeQue) :=
  match reverse temp with
  | [] => mret (0, q)
  | task :: rest =>
      let rest := reverse rest in
      let n := Z.of_nat (length rest) in
      if n =? 0 then mret (task, q)
      else
        _ ← mola_assert (u32 (tail q - head q + n) <? N);
        mret (task, MkQue (head q) (u32 (tail q + n)) (store_all (tail q) rest (content q)))
  end.

(** ** A ring holds a list of tasks *)
Record que_repr (q : LockFreeQue) (l : list Z) : Prop := {
  qr_head : in_width 32 (head q);
  qr_tail : tail q = u32 (head q + Z.of_nat (length l));
  qr_len : Z.of_nat (length l) <= N;
  qr_content : length (content q) = Z.to_nat N;
  qr_get : forall i x, l !! i = Some x -> get q (head q + Z.of_nat i) = x
}.

Lemma slot_mod i : slot i = Z.to_nat (i mod N).
Proof.
  unfold slot, wrap. f_equal. by apply Z.mod_mod_divide.
Qed.

Lemma slot_lt i : (slot i < Z.to_nat N)%nat.
Proof. rewrite slot_mod. pose proof (Z.mod_pos_bound i N ltac:(lia)). lia. Qed.

Lemma slot_inj i j : slot i = slot j -> Z.abs (i - j) < N -> i = j.
Proof.
  rewrite !slot_mod. intros H Hd.
  pose proof (Z.mod_pos_bound i N ltac:(lia)). pose proof (Z.mod_pos_bound j N ltac:(lia)).
  assert (i mod N = j mod N) as Hm by lia.
  pose proof (Z.div_mod i N ltac:(lia)). pose proof (Z.div_mod j N ltac:(lia)).
  assert (i - j = N * (i / N - j / N)) as Hij by lia.
  assert (i / N - j / N = 0) by nia. lia.
Qed.

Lemma slot_u32 i : slot (u32 i) = slot i.
Proof. unfold slot. by rewrite wrap_idem by lia. Qed.

Lemma get_wrap q i j : get q (u32 i + j) = get q (i + j).
Proof.
  unfold get. rewrite <- (slot_u32 (u32 i + j)), <- (slot_u32 (i + j)).
  by rewrite wrap_add_l.
Qed.

Lemma que_count q l : que_repr q l -> u32 (tail q - head q) = Z.of_nat (length l).
Proof.
  intros [Hh Ht Hl _ _]. rewrite Ht. autorewrite with width.
  rewrite Z.add_simpl_l. apply wrap_small. width_lia.
Qed.

Lemma que_empty q l : que_repr q l -> (head q =? tail q) = bool_decide (l = []).
Proof.
  intros Hr. pose proof (que_count q l Hr) as Hc. destruct (Z.eqb_spec (head q) (tail q)) as [He|He].
  - rewrite He, Z.sub_diag in Hc. change (u32 0) with 0 in Hc. destruct l; [done|].
    simpl in Hc. lia.
  - symmetry. apply bool_decide_eq_false. intros ->. apply He.
    destruct Hr as [Hh Ht _ _ _]. rewrite Ht. simpl. by rewrite Z.add_0_r, wrap_small.
Qed.

Lemma copy_out_take q l n :
  que_repr q l -> (n <= length l)%nat -> copy_out q (head q) n = take n l.
Proof.
  intros Hr Hn. apply list_eq. intros i. unfold copy_out.
  destruct (decide (i < n)%nat) as [Hi|Hi].
  - rewrite lookup_take_lt by done. destruct (lookup_lt_is_Some_2 l i) as [x Hx]; [lia|].
    rewrite Hx. rewrite list_lookup_fmap, lookup_seq_lt by done. simpl.
    f_equal. by apply (qr_get _ _ Hr).
  - rewrite lookup_take_ge by lia. rewrite list_lookup_fmap, lookup_seq_ge by lia. done.
Qed.

(** Moving the head forward drops tasks. *)
Lemma que_advance q l (n : nat) :
  que_repr q l -> (n <= length l)%nat ->
  que_repr (MkQue (u32 (head q + Z.of_nat n)) (tail q) (content q)) (drop n l).
Proof.
  intros [Hh Ht Hl Hc Hg] Hn. split; simpl.
  - apply wrap_range. lia.
  - rewrite Ht, wrap_add_l, length_drop. f_equal. lia.
  - rewrite length_drop. lia.
  - done.
  - intros i x. rewrite lookup_drop. intros Hx. rewrite get_wrap.
    rewrite <- (Hg _ _ Hx). unfold get. simpl. f_equal. f_equal. lia.
Qed.

(** Writing at the tail appends. *)
Lemma que_append q l x :
  que_repr q l -> Z.of_nat (length l) < N ->
  que_repr (MkQue (head q) (u32 (tail q + 1)) (<[slot (tail q) := x]> (content q))) (l ++ [x]).
Proof.
  intros [Hh Ht Hl Hc Hg] Hlt. split; simpl; try done.
  - rewrite Ht, wrap_add_l, length_app. simpl. f_equal. lia.
  - rewrite length_app. simpl. lia.
  - by rewrite length_insert.
  - intros i y Hy. unfold get. simpl. rewrite Ht, slot_u32.
    destruct (decide (i = length l)) as [->|Hne].
    + rewrite lookup_app_r, Nat.sub_diag in Hy by lia. injection Hy as <-.
      rewrite nth_lookup, list_lookup_insert_eq; [done|]. rewrite Hc. apply slot_lt.
    + assert (i < length l)%nat as Hi.
      { apply lookup_lt_Some in Hy. rewrite length_app in Hy. simpl in Hy. lia. }
      rewrite lookup_app_l in Hy by done. rewrite nth_lookup, list_lookup_insert_ne.
      * rewrite <- nth_lookup. by apply Hg.
      * intros Hs. apply slot_inj in Hs; lia.
Qed.

Lemma store_all_append q l ts :
  que_repr q l -> Z.of_nat (length l + length ts) <= N ->
  que_repr (MkQue (head q) (u32 (tail q + Z.of_nat (length ts)))
              (store_all (tail q) ts (content q))) (l ++ ts).
Proof.
  revert q l; induction ts as [|x ts IH]; intros q l Hr Hlen; simpl.
  - rewrite app_nil_r, Z.add_0_r. destruct Hr as [Hh Ht Hl Hc Hg].
    rewrite Ht, wrap_idem by lia. by split; simpl.
  - simpl in Hlen. pose proof (que_append q l x Hr ltac:(lia)) as H1.
    apply IH in H1; [|rewrite length_app; simpl; lia]. simpl in H1.
    rewrite <- app_assoc in H1. simpl in H1.
    replace (u32 (u32 (tail q + 1) + Z.of_nat (length ts)))
      with (u32 (tail q + Z.of_nat (S (length ts)))) in H1
      by (rewrite wrap_add_l; f_equal; lia).
    assert (forall t c, store_all (u32 t) ts c = store_all t ts c) as Hst.
    { clear. induction ts as [|y ts IH]; intros t c; simpl; [done|].
      rewrite slot_u32. rewrite <- IH, wrap_add_l, IH. done. }
    by rewrite Hst in H1.
Qed.

(** *** The operations on one ring *)
Lemma que_dequeue_spec q l :
  que_repr q l ->
  match l with
  | [] => que_dequeue q = (0, q)
  | x :: l' => exists q', que_dequeue q = (x, q') /\ que_repr q' l'
  end.
Proof.
  intros Hr. unfold que_dequeue. rewrite (que_empty q l Hr). destruct l as [|x l]; simpl; [done|].
  eexists. split.
  - f_equal. rewrite <- (qr_get _ _ Hr O x eq_refl). f_equal. lia.
  - apply (que_advance q (x :: l) 1 Hr). simpl. lia.
Qed.

Lemma que_enqueue_spec q l task :
  que_repr q l ->
  exists q', que_enqueue q task =
    (q', if Z.of_nat (length l) <? N then [] else take (length l / 2) l ++ [task]) /\
    que_repr q' (if Z.of_nat (length l) <? N then l ++ [task] else drop (length l / 2) l).
Proof.
  intros Hr. unfold que_enqueue. rewrite (que_count q l Hr).
  destruct (Z.ltb_spec (Z.of_nat (length l)) N) as [Hlt|Hge].
  - eexists. split; [done|]. by apply que_append.
  - replace (Z.to_nat (Z.of_nat (length l) / 2)) with (length l / 2)%nat
      by (rewrite Z2Nat.inj_div, Nat2Z.id by lia; done).
    replace (Z.of_nat (length l) / 2) with (Z.of_nat (length l / 2))
      by (rewrite Nat2Z.inj_div; done).
    assert (length l / 2 <= length l)%nat by (apply Nat.Div0.div_le_upper_bound; lia).
    rewrite (copy_out_take q l) by done. eexists. split; [done|]. by apply que_advance.
Qed.

Definition half_up (n : nat) : nat := (n - n / 2)%nat.

Lemma grab_spec q l :
  que_repr q l ->
  exists q', grab q = Ok (take (half_up (length l)) l, q') /\
    que_repr q' (drop (half_up (length l)) l) /\
    Z.of_nat (half_up (length l)) <= N / 2.
Proof.
  intros Hr. unfold grab. rewrite (que_count q l Hr).
  pose proof (qr_len _ _ Hr) as Hlen.
  assert (Z.of_nat (half_up (length l)) =
          Z.of_nat (length l) - Z.of_nat (length l) / 2) as Hn.
  { unfold half_up. rewrite Nat2Z.inj_sub, Nat2Z.inj_div; [done|].
    apply Nat.Div0.div_le_upper_bound. lia. }
  assert (Z.of_nat (half_up (length l)) <= N / 2) as Hhalf
    by (rewrite Hn; Z.to_euclidean_division_equations; lia).
  assert (half_up (length l) <= length l)%nat as Hle by (unfold half_up; lia).
  rewrite <- Hn, wrap_small by width_lia.
  destruct (Z.eqb_spec (Z.of_nat (half_up (length l))) 0) as [H0|H0].
  - assert (l = []) as -> by (destruct l; [done|]; simpl in Hn, H0; Z.to_euclidean_division_equations; lia).
    exists q. done.
  - destruct (Z.ltb_spec (N / 2) (Z.of_nat (half_up (length l)))); [lia|].
    rewrite Nat2Z.id, (copy_out_take q l) by done. eexists. split; [done|].
    split; [by apply que_advance|done].
Qed.

Lemma put_stolen_spec q temp :
  que_repr q [] -> Z.of_nat (length temp) <= N / 2 ->
  match reverse temp with
  | [] => put_stolen q temp = Ok (0, q)
  | task :: rest => exists q', put_stolen q temp = Ok (task, q') /\ que_repr q' (reverse rest)
  end.
Proof.
  intros Hr Hlen. unfold put_stolen. destruct (reverse temp) as [|task rest] eqn:Ht; [done|].
  assert (length temp = S (length rest)) as Hl.
  { rewrite <- (length_reverse temp), Ht. done. }
  assert (N / 2 <= N) by (apply Z.div_le_upper_bound; lia).
  rewrite length_reverse.
  destruct (Z.eqb_spec (Z.of_nat (length rest)) 0) as [H0|H0].
  - exists q. split; [done|]. by destruct rest.
  - assert (u32 (tail q - head q + Z.of_nat (length rest)) = Z.of_nat (length rest)) as ->.
    { rewrite <- wrap_add_l, (que_count q [] Hr). simpl. apply wrap_small. width_lia. }
    destruct (Z.ltb_spec (Z.of_nat (length rest)) N); [|lia]. cbn.
    eexists. split; [done|].
    pose proof (store_all_append q [] (reverse rest) Hr) as Hs.
    rewrite length_reverse in Hs. apply Hs. simpl. lia.
Qed.

(** ** The strategy *)
Context (m_workers_num m_total_thr_num : Z).

Record strategy := MkStrat {
  m_queues : list LockFreeQue;
  m_global_queue : list Z;
  m_global_queue_num : Z;
  m_total_jobs : Z;
  m_sleep_num : Z
}.

Definition set_queues (qs : list LockFreeQue) (st : strategy) : strategy :=
  MkStrat qs (m_global_queue st) (m_global_queue_num st) (m_total_jobs st) (m_sleep_num st).

(** WAKEUP_FACTOR(N) *)
Definition m_factor : Z := 1.

Definition busy (st : strategy) : Z := u32 (m_workers_num - m_sleep_num st).

(** wakeup: the new state and whether a sleeping worker is notified *)
Definition wakeup (st : strategy) : bool * strategy :=
  let st' := MkStrat (m_queues st) (m_global_queue st) (m_global_queue_num st)
               (u32 (m_total_jobs st + 1)) (m_sleep_num st) in
  ((busy st' <? m_workers_num) && (u32 (m_factor * busy st') <? m_total_jobs st'), st').

Definition push_global (ts : list Z) (st : strategy) : strategy :=
  MkStrat (m_queues st) (m_global_queue st ++ ts)
    (u64 (m_global_queue_num st + Z.of_nat (length ts))) (m_total_jobs st) (m_sleep_num st).

Definition global_enqueue (task : Z) (st : strategy) : bool * strategy :=
  wakeup (push_global [task] st).

Definition enqueue_id (id : nat) (task : Z) (st : strategy) : outcome (bool * strategy) :=
  q ← deref (m_queues st !! id);
  let '(q', moved) := que_enqueue q task in
  let st1 := set_queues (<[id := q']> (m_queues st)) st in
  mret (wakeup (if bool_decide (moved = []) then st1 else push_global moved st1)).

(** enqueue: from a worker thread, or from a thread that is none *)
Definition enqueue (worker : option nat) (task : Z) (st : strategy) : outcome (bool * strategy) :=
  match worker with
  | Some id => enqueue_id id task st
  | None => mret (global_enqueue task st)
  end.

Definition global_dequeue (st : strategy) : Z * strategy :=
  if m_global_queue_num st =? 0 then (0, st)
  else match m_global_queue st with
       | [] => (0, st)
       | task :: g =>
           (task, MkStrat (m_queues st) g (u64 (m_global_queue_num st - 1))
                    (m_total_jobs st) (m_sleep_num st))
       end.

Definition dequeue_id (id : nat) (st : strategy) : outcome (Z * strategy) :=
  q ← deref (m_queues st !! id);
  let '(t, q') := que_dequeue q in
  mret (t, set_queues (<[id := q']> (m_queues st)) st).

(** steal, with __steal *)
Definition steal (me victim : nat) (st : strategy) : outcome (Z * strategy) :=
  qv ← deref (m_queues st !! victim);
  '(temp, qv') ← grab qv;
  let qs := <[victim := qv']> (m_queues st) in
  qm ← deref (qs !! me);
  '(t, qm') ← put_stolen qm temp;
  mret (t, set_queues (<[me := qm']> qs) st).

(** The loop over the victims that the random numbers give *)
Fixpoint steal_loop (me : nat) (victims : list nat) (st : strategy) : outcome (Z * strategy) :=
  match victims with
  | [] => mret (0, st)
  | v :: victims =>
      '(t, st') ← steal me v st;
      if t =? 0 then steal_loop me victims st' else mret (t, st')
  end.

(** What one turn of the loop of dequeue(Worker) ends with: a task, another turn,
    or sleep, without or with a time limit. *)
Inductive turn := Got (task : Z) | Again | Sleep (timed : bool).

Definition got (t : Z) (st : strategy) : turn * strategy :=
  (Got t, MkStrat (m_queues st) (m_global_queue st) (m_global_queue_num st)
            (u32 (m_total_jobs st - 1)) (m_sleep_num st)).

Definition sleep_or_again (st : strategy) : turn * strategy :=
  if u32 (m_factor * busy st) <? m_total_jobs st then (Again, st)
  else
    let n := u32 (m_sleep_num st + 1) in
    let st' := MkStrat (m_queues st) (m_global_queue st) (m_global_queue_num st)
                 (m_total_jobs st) n in
    if n <? m_workers_num then (Sleep false, st')
    else if m_total_jobs st =? 0 then (Sleep true, st')
    else (Again, st).

(** The [m_sleep_num--] after the wait *)
Definition awake (st : strategy) : strategy :=
  MkStrat (m_queues st) (m_global_queue st) (m_global_queue_num st)
    (m_total_jobs st) (u32 (m_sleep_num st - 1)).

Definition search (id : nat) (victims : list nat) (st : strategy) : outcome (turn * strategy) :=
  if 0 <? m_total_jobs st then
    let '(t, st1) := global_dequeue st in
    if negb (t =? 0) then mret (got t st1)
    else if m_total_thr_num =? 1 then mret (Again, st1)
    else
      '(t, st2) ← steal_loop id victims st1;
      mret (if negb (t =? 0) then got t st2 else sleep_or_again st2)
  else mret (sleep_or_again st).

(** dequeue(Worker): the own ring, then the first turn of the loop *)
Definition dequeue (id : nat) (victims : list nat) (st : strategy) : outcome (turn * strategy) :=
  '(t, st1) ← dequeue_id id st;
  if negb (t =? 0) then mret (got t st1) else search id victims st1.

(** ** The strategy holds a multiset of tasks *)
Definition pending (Ls : list (list Z)) (G : list Z) : list Z := concat Ls ++ G.

Record strat_repr (st : strategy) (Ls : list (list Z)) (G : list Z) : Prop := {
  sr_queues : Forall2 que_repr (m_queues st) Ls;
  sr_global : m_global_queue st = G;
  sr_gnum : m_global_queue_num st = u64 (Z.of_nat (length G));
  sr_jobs : m_total_jobs st = u32 (Z.of_nat (length (pending Ls G)));
  sr_null : Forall (fun t => t <> 0) (pending Ls G)
}.

Lemma repr_lookup st Ls G id l :
  strat_repr st Ls G -> Ls !! id = Some l ->
  exists q, m_queues st !! id = Some q /\ que_repr q l.
Proof.
  intros Hr Hl. destruct (Forall2_lookup_r _ _ _ _ _ (sr_queues _ _ _ Hr) Hl) as (q & Hq & HR).
  eauto.
Qed.

Lemma wakeup_queues st :
  m_queues (wakeup st).2 = m_queues st /\ m_global_queue (wakeup st).2 = m_global_queue st /\
  m_global_queue_num (wakeup st).2 = m_global_queue_num st /\
  m_total_jobs (wakeup st).2 = u32 (m_total_jobs st + 1).
Proof. done. Qed.

Lemma pending_append Ls G id l task :
  Ls !! id = Some l -> pending (<[id := l ++ [task]]> Ls) G ≡ₚ task :: pending Ls G.
Proof.
  intros Hl. unfold pending. apply (Permutation_app_inv_r l).
  rewrite <- !app_assoc, (Permutation_app_comm G l), !app_assoc, concat_insert_perm by done.
  solve_Permutation.
Qed.

Lemma pending_spill Ls G id l h d task :
  Ls !! id = Some l -> l = h ++ d ->
  pending (<[id := d]> Ls) (G ++ h ++ [task]) ≡ₚ task :: pending Ls G.
Proof.
  intros Hl ->. unfold pending. pose proof (concat_insert_perm Ls id _ d Hl) as HPc.
  apply (Permutation_app_inv_r d).
  transitivity (task :: (concat (<[id:=d]> Ls) ++ h ++ d) ++ G); [solve_Permutation|].
  rewrite HPc. solve_Permutation.
Qed.

Lemma pending_steal Ls G me v l t r d :
  Ls !! me = Some [] -> Ls !! v = Some l -> me <> v -> l ≡ₚ t :: r ++ d ->
  pending Ls G ≡ₚ t :: pending (<[me := r]> (<[v := d]> Ls)) G.
Proof.
  intros Hme Hv Hne Hl. unfold pending. rewrite app_comm_cons. apply Permutation_app_tail.
  pose proof (concat_insert_perm Ls v l d Hv) as H1.
  pose proof (concat_insert_perm (<[v := d]> Ls) me [] r) as H2.
  rewrite app_nil_r in H2. rewrite H2 by (by rewrite list_lookup_insert_ne).
  apply (Permutation_app_inv_r d). rewrite <- H1.
  transitivity (concat (<[v := d]> Ls) ++ t :: r ++ d); [by apply Permutation_app_head|].
  solve_Permutation.
Qed.

(** Enqueueing adds the task to the pending work of the scheduler and nothing
    else: whatever moves from a full ring to the global queue stays pending, no
    task is lost or duplicated, and the job counter counts the pending tasks. *)
Theorem enqueue_conserves (st : strategy) (Ls : list (list Z)) (G : list Z)
    (worker : option nat) (task : Z) :
  strat_repr st Ls G -> task <> 0 ->
  (forall id, worker = Some id -> (id < length Ls)%nat) ->
  exists b st' Ls' G', enqueue worker task st = Ok (b, st') /\ strat_repr st' Ls' G' /\
    length Ls' = length Ls /\ pending Ls' G' ≡ₚ task :: pending Ls G.
Proof.
  intros Hr Ht Hid.
  assert (forall st' Ls' G', Forall2 que_repr (m_queues st') Ls' -> m_global_queue st' = G' ->
            m_global_queue_num st' = u64 (Z.of_nat (length G')) ->
            m_total_jobs st' = m_total_jobs st -> pending Ls' G' ≡ₚ task :: pending Ls G ->
            strat_repr (wakeup st').2 Ls' G') as Hfin.
  { intros st' Ls' G' HQ HG Hn Hj HP. split; simpl; try done.
    - rewrite Hj, (sr_jobs _ _ _ Hr), wrap_add_l, HP. simpl. f_equal. lia.
    - rewrite HP. constructor; [done|]. apply (sr_null _ _ _ Hr). }
  destruct worker as [id|]; simpl.
  - destruct (lookup_lt_is_Some_2 Ls id (Hid id eq_refl)) as [l Hl].
    destruct (repr_lookup _ _ _ _ _ Hr Hl) as (q & Hq & HR).
    unfold enqueue_id. rewrite Hq. cbn.
    destruct (que_enqueue_spec q l task HR) as (q' & -> & HR').
    destruct (Z.of_nat (length l) <? N) eqn:Hlt; cbn.
    + eexists _, _, (<[id := l ++ [task]]> Ls), G. split; [reflexivity|].
      pose proof (pending_append Ls G id l task Hl) as HP.
      rewrite length_insert. split; [|done]. apply Hfin; simpl; try apply Hr; try done.
      apply Forall2_insert; [apply Hr|done].
    + rewrite bool_decide_eq_false_2 by (by destruct (take _ _)).
      set (h := take (length l / 2) l) in *. set (d := drop (length l / 2) l) in *.
      eexists _, _, (<[id := d]> Ls), (G ++ h ++ [task]). split; [reflexivity|].
      pose proof (pending_spill Ls G id l h d task Hl (eq_sym (take_drop _ l))) as HP.
      rewrite length_insert. split; [|done]. apply Hfin; simpl; try done.
      * apply Forall2_insert; [apply Hr|done].
      * by rewrite (sr_global _ _ _ Hr).
      * rewrite (sr_gnum _ _ _ Hr), wrap_add_l. by rewrite (length_app G), Nat2Z.inj_add.
  - eexists _, _, Ls, (G ++ [task]). split; [reflexivity|].
    assert (pending Ls (G ++ [task]) ≡ₚ task :: pending Ls G) as HP
      by (unfold pending; solve_Permutation).
    split; [|done]. apply Hfin; simpl; try done; try apply Hr.
    + by rewrite (sr_global _ _ _ Hr).
    + rewrite (sr_gnum _ _ _ Hr), wrap_add_l, length_app. simpl. f_equal. lia.
Qed.

Lemma repr_null st Ls G id t l :
  strat_repr st Ls G -> Ls !! id = Some l -> t ∈ l -> t <> 0.
Proof.
  intros Hr Hl Ht. pose proof (sr_null _ _ _ Hr) as Hn. eapply Forall_forall in Hn; [done|].
  unfold pending. apply in_app_iff. left. apply in_concat. exists l.
  rewrite <- !list_elem_of_In. split; [by eapply list_elem_of_lookup_2|done].
Qed.

(** Taking the task [t] out, whatever part of the state changed. *)
Lemma got_repr st st' Ls Ls' G G' t :
  strat_repr st Ls G -> Forall2 que_repr (m_queues st') Ls' -> m_global_queue st' = G' ->
  m_global_queue_num st' = u64 (Z.of_nat (length G')) -> m_total_jobs st' = m_total_jobs st ->
  pending Ls G ≡ₚ t :: pending Ls' G' -> strat_repr (got t st').2 Ls' G'.
Proof.
  intros Hr HQ HG Hn Hj HP. split; simpl; try done.
  - rewrite Hj, (sr_jobs _ _ _ Hr), wrap_sub_l, HP. simpl. f_equal. lia.
  - pose proof (sr_null _ _ _ Hr) as H. rewrite HP in H. by inversion H.
Qed.

(** A steal from a ring with work: its older half changes hands. *)
Lemma steal_spec st Ls G me v l :
  strat_repr st Ls G -> Ls !! me = Some [] -> Ls !! v = Some l -> me <> v ->
  match l with
  | [] => steal me v st = Ok (0, st)
  | _ => exists t st' Ls', steal me v st = Ok (t, st') /\ t <> 0 /\
      length Ls' = length Ls /\
      Forall2 que_repr (m_queues st') Ls' /\ pending Ls G ≡ₚ t :: pending Ls' G /\
      st' = set_queues (m_queues st') st
  end.
Proof.
  intros Hr Hme Hv Hne.
  destruct (repr_lookup _ _ _ _ _ Hr Hv) as (qv & Hqv & HRv).
  destruct (repr_lookup _ _ _ _ _ Hr Hme) as (qm & Hqm & HRm).
  unfold steal. rewrite Hqv. cbn.
  destruct (grab_spec qv l HRv) as (qv' & Hg & HRv' & Hhalf). rewrite Hg. cbn.
  rewrite list_lookup_insert_ne by done. rewrite Hqm. cbn.
  set (k := half_up (length l)) in *.
  assert (Z.of_nat (length (take k l)) <= N / 2) as Hlen by (rewrite length_take; lia).
  pose proof (put_stolen_spec qm (take k l) HRm Hlen) as Hput.
  destruct l as [|x l'].
  - unfold grab in Hg. simpl in Hput. rewrite take_nil in *. simpl in Hput. rewrite Hput. cbn.
    destruct (Z.eqb_spec (u32 (u32 (tail qv - head qv) - u32 (tail qv - head qv) / 2)) 0) as [_|Hz].
    + injection Hg as <-. rewrite !list_insert_id by (rewrite ?list_insert_id by done; done).
      by destruct st.
    + exfalso. rewrite (que_count qv [] HRv) in Hz. by apply Hz.
  - destruct (reverse (take k (x :: l'))) as [|t rest] eqn:Hrev.
    { apply (f_equal reverse) in Hrev. rewrite reverse_involutive in Hrev.
      assert (length (take k (x :: l')) = 0%nat) as Hz by (by rewrite Hrev).
      rewrite length_take in Hz. unfold k, half_up in Hz. simpl length in Hz.
      assert (S (length l') / 2 < S (length l'))%nat by (apply Nat.div_lt; lia). lia. }
    destruct Hput as (qm' & -> & HRm'). cbn.
    assert (x :: l' ≡ₚ t :: reverse rest ++ drop k (x :: l')) as Hl.
    { rewrite <- (take_drop k (x :: l')) at 1. rewrite <- (reverse_involutive (take k _)), Hrev.
      rewrite reverse_cons. solve_Permutation. }
    eexists t, _, (<[me := reverse rest]> (<[v := drop k (x :: l')]> Ls)).
    split; [reflexivity|]. split_and!.
    + eapply repr_null; [done..|]. rewrite Hl. constructor.
    + by rewrite !length_insert.
    + simpl. apply Forall2_insert; [|done]. apply Forall2_insert; [apply Hr|done].
    + by apply pending_steal with (x :: l').
    + done.
Qed.

Lemma steal_loop_spec st Ls G me victims :
  strat_repr st Ls G -> Ls !! me = Some [] ->
  Forall (fun v => v <> me /\ (v < length Ls)%nat) victims ->
  (steal_loop me victims st = Ok (0, st) /\ Forall (fun v => Ls !! v = Some []) victims) \/
  exists t st' Ls', steal_loop me victims st = Ok (t, st') /\ t <> 0 /\
      length Ls' = length Ls /\
      Forall2 que_repr (m_queues st') Ls' /\ pending Ls G ≡ₚ t :: pending Ls' G /\
      st' = set_queues (m_queues st') st.
Proof.
  intros Hr Hme Hvs. induction Hvs as [|v victims [Hne Hlt] Hvs IH]; simpl; [left; done|].
  destruct (lookup_lt_is_Some_2 Ls v Hlt) as [l Hl].
  pose proof (steal_spec st Ls G me v l Hr Hme Hl ltac:(done)) as Hst.
  destruct l as [|x l].
  - rewrite Hst. cbn. destruct IH as [[-> Hall]|IH]; [left; split; [done|by constructor]|by right].
  - destruct Hst as (t & st' & Ls' & -> & Ht & Hrest). right. exists t, st', Ls'. cbn.
    by rewrite (proj2 (Z.eqb_neq t 0)).
Qed.

Lemma global_dequeue_spec st Ls G :
  strat_repr st Ls G -> Z.of_nat (length G) < 2 ^ 64 ->
  match G with
  | [] => global_dequeue st = (0, st)
  | t :: G' => t <> 0 /\ exists st', global_dequeue st = (t, st') /\
      strat_repr (got t st').2 Ls G' /\ pending Ls G ≡ₚ t :: pending Ls G'
  end.
Proof.
  intros Hr Hb. unfold global_dequeue. rewrite (sr_gnum _ _ _ Hr), (sr_global _ _ _ Hr).
  destruct G as [|t G]; [by destruct (_ =? _)|].
  assert (pending Ls (t :: G) ≡ₚ t :: pending Ls G) as HP by (unfold pending; solve_Permutation).
  split.
  - pose proof (sr_null _ _ _ Hr) as Hn. rewrite HP in Hn. by inversion Hn.
  - rewrite wrap_small by width_lia.
    destruct (Z.eqb_spec (Z.of_nat (length (t :: G))) 0) as [H|_]; [simpl in H; lia|].
    eexists. split; [reflexivity|]. split; [|done].
    eapply got_repr; [done|apply Hr|done| |done|done]. simpl. f_equal. lia.
Qed.

Lemma sleep_or_again_repr st Ls G :
  strat_repr st Ls G -> strat_repr (sleep_or_again st).2 Ls G.
Proof.
  intros Hr. unfold sleep_or_again. destruct (_ <? _); [done|]. cbn.
  destruct (_ <? _); [|destruct (_ =? _)]; [by destruct Hr..|done].
Qed.

Lemma sleep_or_again_turn st t : (sleep_or_again st).1 <> Got t.
Proof. unfold sleep_or_again. repeat (destruct (_ <? _); [done|]; cbn). by destruct (_ =? _). Qed.

Lemma empty_pending Ls G id (victims : list nat) :
  G = [] -> Ls !! id = Some [] -> Forall (fun v => Ls !! v = Some []) victims ->
  (forall v, (v < length Ls)%nat -> v <> id -> v ∈ victims) -> pending Ls G = [].
Proof.
  intros -> Hid Hvs Hall. unfold pending. rewrite app_nil_r. apply concat_nil_Forall.
  apply Forall_lookup. intros v l Hl. destruct (decide (v = id)) as [->|Hne]; [congruence|].
  assert (v ∈ victims) as Hin by (apply Hall; [by eapply lookup_lt_Some|done]).
  apply list_elem_of_In in Hin. eapply Forall_forall in Hvs; [|done]. congruence.
Qed.

Definition turn_ok (st' : strategy) (r : turn) (Ls : list (list Z)) (G : list Z) : Prop :=
  exists Ls' G', strat_repr st' Ls' G' /\
    match r with
    | Got t => pending Ls G ≡ₚ t :: pending Ls' G'
    | _ => pending Ls' G' = pending Ls G
    end.

Lemma search_spec st Ls G id victims :
  strat_repr st Ls G -> Ls !! id = Some [] -> m_total_thr_num <> 1 ->
  Forall (fun v => v <> id /\ (v < length Ls)%nat) victims ->
  Z.of_nat (length (pending Ls G)) < 2 ^ 32 ->
  exists r st', search id victims st = Ok (r, st') /\ turn_ok st' r Ls G /\
    ((forall v, (v < length Ls)%nat -> v <> id -> v ∈ victims) ->
     pending Ls G <> [] -> exists t, r = Got t).
Proof.
  intros Hr Hid Hthr Hvs Hb.
  assert (Z.of_nat (length G) < 2 ^ 64) as HbG.
  { unfold pending in Hb. rewrite length_app in Hb. width_lia. }
  unfold search. rewrite (sr_jobs _ _ _ Hr), (wrap_small 32) by (split; lia).
  destruct (Z.ltb_spec 0 (Z.of_nat (length (pending Ls G)))) as [Hpos|Hz].
  - pose proof (global_dequeue_spec st Ls G Hr HbG) as Hg. destruct G as [|g G].
    + rewrite Hg. cbn. rewrite (proj2 (Z.eqb_neq m_total_thr_num 1)) by done.
      destruct (steal_loop_spec st Ls [] id victims Hr Hid Hvs)
        as [[-> Hall]|(t & st' & Ls' & -> & Ht & Hlen & HQ & HP & Hst)]; cbn.
      * eexists _, _. split; [by rewrite <- surjective_pairing|]. split.
        { exists Ls, []. split; [by apply sleep_or_again_repr|].
          pose proof (sleep_or_again_turn st) as Hn. destruct (sleep_or_again st).1; [|done..].
          by destruct (Hn task). }
        intros Hcov Hne. exfalso. apply Hne. by eapply empty_pending.
      * rewrite (proj2 (Z.eqb_neq t 0)) by done. cbn. eexists _, _. split; [reflexivity|].
        split; [|eauto]. exists Ls', []. split; [|done].
        apply (got_repr st st' Ls Ls' [] [] t Hr HQ); try (rewrite Hst; apply Hr); try done; by rewrite Hst.
    + destruct Hg as (Hg0 & st' & -> & Hr' & HP). rewrite (proj2 (Z.eqb_neq g 0)) by done. cbn.
      eexists _, _. split; [reflexivity|]. split; [|eauto]. exists Ls, G. done.
  - eexists _, _. split; [by rewrite <- surjective_pairing|]. split.
    { exists Ls, G. split; [by apply sleep_or_again_repr|].
      pose proof (sleep_or_again_turn st) as Hn. destruct (sleep_or_again st).1; [|done..].
      by destruct (Hn task). }
    intros _ Hne. destruct (pending Ls G); [done|simpl in Hz; lia].
Qed.

(** Dequeue hands out pending work exactly once: run alone it never faults
    (the assertion on the thief's ring holds, the grab loop does not spin), a
    task it returns was pending and is no longer, and otherwise nothing changes.
    When the victims it draws include every other thread, it finds a task
    whenever there is one, in a ring or in the global queue. *)
Theorem dequeue_conserves (st : strategy) (Ls : list (list Z)) (G : list Z)
    (id : nat) (victims : list nat) :
  strat_repr st Ls G -> (id < length Ls)%nat -> m_total_thr_num <> 1 ->
  Forall (fun v => v <> id /\ (v < length Ls)%nat) victims ->
  Z.of_nat (length (pending Ls G)) < 2 ^ 32 ->
  exists r st', dequeue id victims st = Ok (r, st') /\ turn_ok st' r Ls G /\
    ((forall v, (v < length Ls)%nat -> v <> id -> v ∈ victims) ->
     pending Ls G <> [] -> exists t, r = Got t).
Proof.
  intros Hr Hid Hthr Hvs Hb. destruct (lookup_lt_is_Some_2 Ls id Hid) as [l Hl].
  destruct (repr_lookup _ _ _ _ _ Hr Hl) as (q & Hq & HR).
  pose proof (que_dequeue_spec q l HR) as Hd. unfold dequeue, dequeue_id. rewrite Hq. cbn.
  destruct l as [|t l].
  - rewrite Hd. cbn. rewrite list_insert_id by done.
    replace (set_queues (m_queues st) st) with st by (by destruct st).
    by apply search_spec.
  - destruct Hd as (q' & -> & HR'). cbn.
    assert (t <> 0) as Ht by (eapply repr_null; [done..|constructor]).
    rewrite (proj2 (Z.eqb_neq t 0)) by done. cbn. eexists _, _. split; [reflexivity|].
    split; [|eauto]. exists (<[id := l]> Ls), G.
    assert (pending Ls G ≡ₚ t :: pending (<[id := l]> Ls) G) as HP.
    { unfold pending. by rewrite (concat_uncons_perm Ls id t l Hl). }
    split; [|done]. eapply got_repr; [done|..|done]; simpl; try apply Hr; [|done].
    apply Forall2_insert; [apply Hr|done].
Qed.
End WorkSteal.

(** ** Witnesses: rings of four slots; the counters of the first are about to wrap *)
Module WorkStealExamples.
Definition q0 : LockFreeQue := MkQue 4294967295 1 [8; 0; 0; 7].
Definition q1 : LockFreeQue := MkQue 5 5 [0; 0; 0; 0].
Definition st0 : strategy := MkStrat [q0; q1] [9] 1 3 0.

Lemma st0_repr : strat_repr 4 st0 [[7; 8]; []] [9].
Proof.
  split; try done; [|by repeat constructor].
  constructor; [|constructor; [|constructor]]; split; simpl; try done; try lia.
  - intros [|[|i]] x; simpl; intros [= <-]; vm_compute; reflexivity.
Qed.

Lemma enqueue_conserves_witness :
  exists b st' Ls' G', enqueue 4 2 (Some 0%nat) 5 st0 = Ok (b, st') /\
    strat_repr 4 st' Ls' G' /\ length Ls' = 2%nat /\ pending Ls' G' ≡ₚ [5; 7; 8; 9].
Proof.
  apply (enqueue_conserves 4 ltac:(lia) (ltac:(by exists (2 ^ 30))) 2 st0 [[7; 8]; []] [9] (Some 0%nat) 5).
  - exact st0_repr.
  - discriminate.
  - intros id [= <-]. simpl. lia.
Defined.

Lemma dequeue_conserves_witness :
  exists r st', dequeue 4 2 2 1 [0%nat] st0 = Ok (r, st') /\
    turn_ok 4 st' r [[7; 8]; []] [9] /\ exists t, r = Got t.
Proof.
  destruct (dequeue_conserves 4 ltac:(lia) eq_refl (ltac:(by exists (2 ^ 30))) 2 2 st0
              [[7; 8]; []] [9] 1 [0%nat]) as (r & st' & H1 & H2 & H3).
  - exact st0_repr.
  - simpl. lia.
  - discriminate.
  - repeat constructor; lia.
  - reflexivity.
  - exists r, st'. split; [exact H1|]. split; [exact H2|]. apply H3; [|discriminate].
    simpl. intros v Hv Hne. assert (v = 0%nat) as -> by lia. constructor.
Defined.
End WorkStealExamples.
