(* ===== verification/WorkStealConc.v ===== *)
(** * One task ring under concurrency

    The owner of a ring enqueues, dequeues and stores stolen tasks while any
    number of thieves run __grab (include/mola/work_steal.hpp).  Each step is one
    access to the shared head, tail or content.  The counters of a configuration
    are the numbers of tasks ever removed and ever added; the memory holds them
    modulo 2^32, and that is all that the threads compare.  Nothing bounds the time
    between a thread's load of the head and its compare-and-swap; the theorems are about the
    schedules in which fewer than 2^32 tasks are removed in that time ([in_time]), and
    [ring_aba] shows that they fail when exactly 2^32 are. *)
From stdpp Require Import base list gmap numbers relations.
From S2P Require Import Prelude WorkSteal.

Section WorkStealConc.
Context (N : Z) (HN : 2 <= N < 2 ^ 31) (HN2 : N mod 2 = 0) (HN32 : (N | 2 ^ 32)).

(** Program counters; the loaded head and tail are the arguments [h] and [t]. *)
Inductive owner_pc :=
| OIdle
| OEnqH (task : Z) (h : nat)
| OEnqT (task : Z) (h t : nat)
| OHalf (task : Z) (h : nat) (n : nat) (temp : list Z)
| OWrite (ts : list Z) (k : nat)
| ODeqH (h : nat)
| ODeqT (h t : nat)
| ODeqR (h : nat) (item : Z)
| OPutH (ts : list Z) (h : nat)
| OPutT (ts : list Z) (h t : nat).

Inductive thief_pc :=
| GIdle
| GH (h : nat)
| GT (h t : nat)
| GRead (h n : nat) (temp : list Z).

(** [added] is every task stored so far, [removed] every task that a successful
    compare-and-swap took, in order; head and tail are their lengths. *)
Record config := MkConfig {
  cells : list Z;
  added : list Z;
  removed : list Z;
  owner : owner_pc;
  thieves : gmap nat thief_pc
}.

Definition hd (σ : config) : nat := length (removed σ).
Definition tl (σ : config) : nat := length (added σ).

Definition set_owner (pc : owner_pc) (σ : config) : config :=
  MkConfig (cells σ) (added σ) (removed σ) pc (thieves σ).
Definition set_thief (t : nat) (pc : thief_pc) (σ : config) : config :=
  MkConfig (cells σ) (added σ) (removed σ) (owner σ) (<[t := pc]> (thieves σ)).
Definition take_out (ts : list Z) (σ : config) : config :=
  MkConfig (cells σ) (added σ) (removed σ ++ ts) (owner σ) (thieves σ).

(** Comparisons and differences of counters, on their 32-bit values. *)
Definition same (a b : nat) : bool := u32 (Z.of_nat a) =? u32 (Z.of_nat b).
Definition diff (a b : nat) : Z := u32 (u32 (Z.of_nat a) - u32 (Z.of_nat b)).

Definition cell (σ : config) (i : nat) : Z := nth (slot N (Z.of_nat i)) (cells σ) 0.

(** The compare-and-swap of the head from [h] to [h + n]. *)
Definition cas_head (h : nat) (ts : list Z) (σ : config) : option config :=
  if same (hd σ) h then Some (take_out ts σ) else None.

Definition owner_step (σ : config) : outcome config :=
  match owner σ with
  | OIdle => mret σ
  | OEnqH task h => mret (set_owner (OEnqT task h (tl σ)) σ)
  | OEnqT task h t =>
      if diff t h <? N then mret (set_owner (OWrite [task] 0) σ)
      else mret (set_owner (OHalf task h (Z.to_nat (diff t h / 2)) []) σ)
  | OHalf task h n temp =>
      if Nat.ltb (length temp) n then
        mret (set_owner (OHalf task h n (temp ++ [cell σ (h + length temp)])) σ)
      else
        (* on success [temp] and [task] go to the global queue *)
        match cas_head h temp σ with
        | Some σ' => mret (set_owner OIdle σ')
        | None => mret (set_owner (OEnqH task (hd σ)) σ)
        end
  | OWrite ts k =>
      match ts !! k with
      | Some x =>
          mret (MkConfig (<[slot N (Z.of_nat (tl σ + k)) := x]> (cells σ)) (added σ)
                  (removed σ) (OWrite ts (S k)) (thieves σ))
      | None => mret (MkConfig (cells σ) (added σ ++ ts) (removed σ) OIdle (thieves σ))
      end
  | ODeqH h => mret (set_owner (ODeqT h (tl σ)) σ)
  | ODeqT h t =>
      if same h t then mret (set_owner OIdle σ) else mret (set_owner (ODeqR h (cell σ h)) σ)
  | ODeqR h item =>
      match cas_head h [item] σ with
      | Some σ' => mret (set_owner OIdle σ')
      | None => mret (set_owner (ODeqH (hd σ)) σ)
      end
  | OPutH ts h => mret (set_owner (OPutT ts h (tl σ)) σ)
  | OPutT ts h t =>
      _ ← mola_assert (u32 (diff t h + Z.of_nat (length ts)) <? N);
      mret (set_owner (OWrite ts 0) σ)
  end.

Definition thief_step (t : nat) (σ : config) : config :=
  match thieves σ !! t with
  | Some (GH h) => set_thief t (GT h (tl σ)) σ
  | Some (GT h tl') =>
      let m := diff tl' h in
      let n := u32 (m - m / 2) in
      if n =? 0 then set_thief t GIdle σ
      else if N / 2 <? n then set_thief t (GH (hd σ)) σ
      else set_thief t (GRead h (Z.to_nat n) []) σ
  | Some (GRead h n temp) =>
      if Nat.ltb (length temp) n then
        set_thief t (GRead h n (temp ++ [cell σ (h + length temp)])) σ
      else
        match cas_head h temp σ with
        | Some σ' => set_thief t GIdle σ'
        | None => set_thief t (GH (hd σ)) σ
        end
  | _ => σ
  end.

(** The head that a thread remembers. *)
Definition owner_head (pc : owner_pc) : option nat :=
  match pc with
  | OEnqH _ h | OEnqT _ h _ | OHalf _ h _ _ | ODeqH h | ODeqT h _ | ODeqR h _
  | OPutH _ h | OPutT _ h _ => Some h
  | _ => None
  end.
Definition thief_head (pc : thief_pc) : option nat :=
  match pc with GIdle => None | GH h | GT h _ | GRead h _ _ => Some h end.

(** Fewer than 2^32 tasks were removed since the thread loaded the head. *)
Definition young (σ : config) (o : option nat) : bool :=
  match o with Some h => Z.of_nat (hd σ) <? Z.of_nat h + 2 ^ 32 | None => true end.

Definition init (garbage : list Z) : config := MkConfig garbage [] [] OIdle ∅.

(** Schedules: the owner enters an operation when it is in none, a thief a steal; the
    others are one step of a thread.  The owner stores stolen tasks when its ring is
    empty (__steal is called after __dequeue found nothing). *)
Inductive action := AEnq (task : Z) | ADeq | APut (ts : list Z) | ASteal (t : nat) | AOwn | AThief (t : nat).

Definition step (a : action) (σ : config) : option config :=
  match a, owner σ with
  | AEnq task, OIdle => Some (set_owner (OEnqH task (hd σ)) σ)
  | ADeq, OIdle => Some (set_owner (ODeqH (hd σ)) σ)
  | APut ts, OIdle =>
      if Nat.eqb (hd σ) (tl σ) && (Z.of_nat (length ts) <? N)
      then Some (set_owner (OPutH ts (hd σ)) σ) else None
  | ASteal t, _ =>
      match default GIdle (thieves σ !! t) with
      | GIdle => Some (set_thief t (GH (hd σ)) σ)
      | _ => None
      end
  | AOwn, _ => match owner_step σ with Ok σ' => Some σ' | Fault _ => None end
  | AThief t, _ => _ ← thieves σ !! t; Some (thief_step t σ)
  | _, _ => None
  end.

Fixpoint run (l : list action) (σ : config) : option config :=
  match l with
  | [] => Some σ
  | a :: l => σ' ← step a σ; run l σ'
  end.

(** A schedule is in time when every thread that moves does so before 2^32 tasks were
    removed since its load of the head. *)
Definition prompt (a : action) (σ : config) : bool :=
  match a with
  | AOwn => young σ (owner_head (owner σ))
  | AThief t => match thieves σ !! t with Some pc => young σ (thief_head pc) | None => true end
  | _ => true
  end.

Fixpoint in_time (l : list action) (σ : config) : bool :=
  match l with
  | [] => true
  | a :: l => prompt a σ && match step a σ with Some σ' => in_time l σ' | None => true end
  end.

Definition reachable (σ : config) : Prop :=
  exists garbage l, length garbage = Z.to_nat N /\ in_time l (init garbage) = true /\ run l (init garbage) = Some σ.

(** ** The invariant *)

(** What a thread read is right as long as the head did not move. *)
Definition read_ok (σ : config) (h n : nat) (temp : list Z) : Prop :=
  (h <= hd σ)%nat /\ (length temp <= n)%nat /\
  (hd σ = h -> (h + n <= tl σ)%nat /\
     forall i x, temp !! i = Some x -> added σ !! (h + i)%nat = Some x).

Definition owner_ok (σ : config) (pc : owner_pc) : Prop :=
  match pc with
  | OIdle => True
  | ODeqH h => (h <= hd σ)%nat
  | OEnqH _ h => (h <= hd σ)%nat /\ Z.of_nat (tl σ) <= Z.of_nat h + N
  | OEnqT _ h t => (h <= hd σ)%nat /\ t = tl σ /\ Z.of_nat (tl σ) <= Z.of_nat h + N
  | ODeqT h t => (h <= hd σ)%nat /\ t = tl σ
  | OHalf _ h n temp => read_ok σ h n temp /\ Z.of_nat n <= N / 2
  | OWrite ts k =>
      Z.of_nat (tl σ + length ts) <= Z.of_nat (hd σ) + N /\ (k <= length ts)%nat /\
      forall i x, (i < k)%nat -> ts !! i = Some x -> cell σ (tl σ + i) = x
  | ODeqR h item => read_ok σ h 1 [item]
  | OPutH ts h => h = hd σ /\ hd σ = tl σ /\ Z.of_nat (length ts) < N
  | OPutT ts h t => h = hd σ /\ hd σ = tl σ /\ t = tl σ /\ Z.of_nat (length ts) < N
  end.

Definition thief_ok (σ : config) (pc : thief_pc) : Prop :=
  match pc with
  | GIdle => True
  | GH h => (h <= hd σ)%nat
  | GT h t => (h <= hd σ)%nat /\ (h <= t <= tl σ)%nat
  | GRead h n temp => read_ok σ h n temp /\ Z.of_nat n <= N / 2
  end.

Record inv (σ : config) : Prop := {
  i_cells : length (cells σ) = Z.to_nat N;
  i_prefix : removed σ = take (hd σ) (added σ);
  i_window : Z.of_nat (tl σ) <= Z.of_nat (hd σ) + N;
  i_cell : forall i x, (hd σ <= i)%nat -> added σ !! i = Some x -> cell σ i = x;
  i_owner : owner_ok σ (owner σ);
  i_thieves : forall t pc, thieves σ !! t = Some pc -> thief_ok σ pc
}.

Lemma inv_order σ : inv σ -> (hd σ <= tl σ)%nat.
Proof.
  intros Hi. pose proof (f_equal length (i_prefix _ Hi)) as H.
  rewrite length_take in H. unfold hd, tl in *. lia.
Qed.

Lemma same_young σ h :
  (h <= hd σ)%nat -> young σ (Some h) = true -> same (hd σ) h = true -> hd σ = h.
Proof.
  intros Hle Hy%Z.ltb_lt Hs. unfold same in Hs. apply Z.eqb_eq in Hs.
  unfold wrap in Hs. assert ((Z.of_nat (hd σ) - Z.of_nat h) mod 2 ^ 32 = 0) as H0.
  { rewrite Zminus_mod, Hs, Z.sub_diag. done. }
  rewrite Z.mod_small in H0 by lia. lia.
Qed.

Lemma same_refl a : same a a = true.
Proof. apply Z.eqb_refl. Qed.

Lemma diff_small a b :
  (b <= a)%nat -> Z.of_nat a - Z.of_nat b < 2 ^ 32 -> diff a b = Z.of_nat a - Z.of_nat b.
Proof.
  intros Hle Hlt. unfold diff. rewrite wrap_sub_l, wrap_sub_r. apply wrap_small. unfold in_width. lia.
Qed.

(** Threads other than the one that moves: the head only grows, tasks are only
    appended. *)
Lemma read_ok_mono σ σ' h n temp l :
  (hd σ <= hd σ')%nat -> added σ' = added σ ++ l -> read_ok σ h n temp -> read_ok σ' h n temp.
Proof.
  intros Hh Ha (H1 & H2 & H3). split; [lia|]. split; [done|]. intros He.
  destruct (H3 ltac:(lia)) as [H4 H5]. unfold tl in *. rewrite Ha, length_app. split; [lia|].
  intros i x Hx. apply lookup_app_l_Some. auto.
Qed.

Lemma thief_ok_mono σ σ' pc l :
  (hd σ <= hd σ')%nat -> added σ' = added σ ++ l -> thief_ok σ pc -> thief_ok σ' pc.
Proof.
  intros Hh Ha. destruct pc as [|h|h t|h n temp]; simpl; [done|lia| |].
  - unfold tl. rewrite Ha, length_app. lia.
  - intros [H1 H2]. split; [by eapply read_ok_mono|done].
Qed.

Lemma set_owner_inv pc σ : inv σ -> owner_ok σ pc -> inv (set_owner pc σ).
Proof. intros [Hc Hp Hw Hcl Ho Ht] Hok. by split. Qed.

Lemma set_thief_inv t pc σ : inv σ -> thief_ok σ pc -> inv (set_thief t pc σ).
Proof.
  intros [Hc Hp Hw Hcl Ho Ht] Hok. split; try done. intros t' pc'. simpl.
  rewrite lookup_insert_Some. intros [[<- <-]|[_ Ht']]; [done|by eapply Ht].
Qed.

Lemma read_cell σ h n temp :
  inv σ -> read_ok σ h n temp -> (length temp < n)%nat ->
  read_ok σ h n (temp ++ [cell σ (h + length temp)]).
Proof.
  intros Hi (H1 & H2 & H3) Hlt. split; [done|]. split; [rewrite length_app; simpl; lia|].
  intros He. destruct (H3 He) as [H4 H5]. split; [done|]. intros i x Hx.
  apply lookup_app_Some in Hx as [Hx|[Hge Hx]]; [auto|].
  assert (i = length temp) as ->.
  { destruct (i - length temp)%nat eqn:E; [lia|]. done. }
  rewrite Nat.sub_diag in Hx. injection Hx as <-.
  destruct (lookup_lt_is_Some_2 (added σ) (h + length temp)) as [y Hy]; [unfold tl in H4; lia|].
  rewrite Hy. f_equal. symmetry. apply (i_cell _ Hi); [lia|done].
Qed.

Lemma owner_ok_take σ σ' pc :
  owner_ok σ pc -> cells σ' = cells σ -> added σ' = added σ ->
  (hd σ <= hd σ')%nat -> (hd σ = tl σ -> hd σ' = hd σ) -> owner_ok σ' pc.
Proof.
  intros Ho Ec Ea Hle Hem.
  assert (tl σ' = tl σ) as Et by (unfold tl; by rewrite Ea).
  assert (forall h n temp, read_ok σ h n temp -> read_ok σ' h n temp) as Hrd.
  { intros h n temp. apply read_ok_mono with []; [done|by rewrite app_nil_r]. }
  unfold owner_ok, cell in *. rewrite Ec, Et.
  destruct pc as [|task h|task h t|task h n temp|ts k|h|h t|h item|ts h|ts h t].
  - done.
  - destruct Ho. split; [lia|done].
  - destruct Ho as (? & ? & ?). split; [lia|done].
  - destruct Ho. auto.
  - destruct Ho as (? & ? & ?). split; [lia|done].
  - lia.
  - destruct Ho. split; [lia|done].
  - auto.
  - destruct Ho as (-> & He & ?). rewrite Hem by done. done.
  - destruct Ho as (-> & He & ? & ?). rewrite Hem by done. done.
Qed.

(** The successful compare-and-swap takes the next tasks. *)
Lemma take_out_inv σ h n temp :
  inv σ -> read_ok σ h n temp -> length temp = n -> hd σ = h ->
  inv (take_out temp σ) /\ removed (take_out temp σ) = take (hd σ + n) (added σ).
Proof.
  intros [Hc Hp Hw Hcl Ho Ht] (H1 & H2 & H3) Hlen He. destruct (H3 He) as [H4 H5].
  assert (removed σ ++ temp = take (hd σ + n) (added σ)) as Hr.
  { rewrite Hp at 1. rewrite <- take_take_drop. f_equal. apply list_eq. intros i.
    destruct (decide (i < n)%nat) as [Hi|Hi].
    - rewrite lookup_take_lt, lookup_drop by done.
      destruct (lookup_lt_is_Some_2 temp i) as [x Hx]; [lia|]. rewrite Hx, He. symmetry. auto.
    - rewrite lookup_take_ge by lia. apply lookup_ge_None. lia. }
  split; [|done].
  assert (hd (take_out temp σ) = (hd σ + n)%nat) as Hh.
  { unfold hd. simpl. rewrite length_app. lia. }
  assert (hd σ <= hd (take_out temp σ))%nat as Hle by lia.
  split; simpl; try done.
  - by rewrite Hh.
  - rewrite Hh. unfold tl in *. simpl. lia.
  - rewrite Hh. intros i x Hi. apply Hcl. lia.
  - apply (owner_ok_take σ); try done. unfold tl in *. lia.
  - intros t pc Ht'. eapply (thief_ok_mono σ _ _ []); [done|simpl; by rewrite app_nil_r|eauto].
Qed.

(** The owner writes above the tail, where no live task is. *)
Lemma write_inv σ ts k x :
  inv σ -> owner σ = OWrite ts k -> ts !! k = Some x ->
  inv (MkConfig (<[slot N (Z.of_nat (tl σ + k)) := x]> (cells σ)) (added σ)
         (removed σ) (OWrite ts (S k)) (thieves σ)).
Proof.
  intros Hi Ho Hx. pose proof (inv_order σ Hi) as Hord.
  destruct Hi as [Hc Hp Hw Hcl Hok Ht]. rewrite Ho in Hok.
  destruct Hok as (Hb & Hk & Hwr). apply lookup_lt_Some in Hx as Hlt.
  assert (forall i, (hd σ <= i)%nat -> (i < tl σ + k)%nat ->
    nth (slot N (Z.of_nat i)) (<[slot N (Z.of_nat (tl σ + k)) := x]> (cells σ)) 0 = cell σ i) as Hne.
  { intros i H1 H2. unfold cell. rewrite !nth_lookup, list_lookup_insert_ne; [done|].
    intros Hs. apply slot_inj in Hs; try done; lia. }
  split; simpl; try done.
  - by rewrite length_insert.
  - intros i y Hi Hy. unfold cell. simpl. apply lookup_lt_Some in Hy as Hit.
    unfold hd in Hi. simpl in Hi. rewrite Hne; [by apply Hcl|done|unfold tl; lia].
  - split; [done|]. split; [lia|]. intros i y Hik Hy. unfold cell. simpl.
    change (tl (MkConfig _ _ _ _ _)) with (tl σ).
    destruct (decide (i = k)) as [->|Hn].
    + simplify_eq. rewrite nth_lookup, list_lookup_insert_eq; [done|]. rewrite Hc. by apply slot_lt.
    + rewrite Hne by lia. apply Hwr; [lia|done].
Qed.

Lemma store_inv σ ts k :
  inv σ -> owner σ = OWrite ts k -> ts !! k = None ->
  inv (MkConfig (cells σ) (added σ ++ ts) (removed σ) OIdle (thieves σ)).
Proof.
  intros Hi Ho Hx. pose proof (inv_order σ Hi) as Hord.
  destruct Hi as [Hc Hp Hw Hcl Hok Ht]. rewrite Ho in Hok.
  destruct Hok as (Hb & Hk & Hwr). apply lookup_ge_None in Hx.
  split; simpl; try done.
  - rewrite take_app_le by (unfold hd, tl in *; simpl; lia). done.
  - unfold tl, hd in *. simpl. rewrite length_app. lia.
  - intros i y Hi Hy. apply lookup_app_Some in Hy as [Hy|[Hge Hy]]; [by apply Hcl|].
    apply lookup_lt_Some in Hy as Hlt. unfold cell. simpl.
    rewrite <- (Hwr (i - tl σ)%nat y); [|unfold tl; lia|done].
    unfold cell. f_equal. f_equal. unfold tl. lia.
  - intros t pc Ht'. eapply (thief_ok_mono σ); [done|done|eauto].
Qed.

Lemma half_le_N a : 0 <= a <= N -> a / 2 <= N / 2.
Proof. intros. apply Z.div_le_mono; lia. Qed.

Lemma read_ok_start σ h n :
  (h <= hd σ)%nat -> (hd σ = h -> (h + n <= tl σ)%nat) -> read_ok σ h n [].
Proof. intros H1 H2. split; [done|]. split; [simpl; lia|]. intros He. split; [auto|done]. Qed.

(** A thread that read all of its tasks attempts its compare-and-swap. *)
Lemma cas_inv σ h n temp :
  inv σ -> read_ok σ h n temp -> length temp = n -> young σ (Some h) = true ->
  match cas_head h temp σ with
  | Some σ' => σ' = take_out temp σ /\ inv σ'
  | None => True
  end.
Proof.
  intros Hi Hr Hlen Hy. unfold cas_head. destruct (same (hd σ) h) eqn:Hs; [|done].
  split; [done|]. pose proof Hr as [Hle _]. pose proof (same_young σ h Hle Hy Hs) as He.
  by destruct (take_out_inv σ h n temp Hi Hr Hlen He).
Qed.

Lemma owner_step_inv σ :
  inv σ -> young σ (owner_head (owner σ)) = true -> exists σ', owner_step σ = Ok σ' /\ inv σ'.
Proof.
  intros Hi Hy. pose proof (i_owner _ Hi) as Hok. pose proof (inv_order σ Hi) as Hord.
  pose proof (i_window _ Hi) as Hwin. unfold owner_step.
  destruct (owner σ) as [|task h|task h t|task h n temp|ts k|h|h t|h item|ts h|ts h t] eqn:Ho.
  - by exists σ.
  - eexists. split; [done|]. apply set_owner_inv; [done|]. cbn. destruct Hok. done.
  - destruct Hok as (Hle & -> & Hb). rewrite diff_small by lia.
    destruct (Z.ltb_spec (Z.of_nat (tl σ) - Z.of_nat h) N) as [Hlt|Hge].
    + eexists. split; [done|]. apply set_owner_inv; [done|]. split; [simpl; lia|]. split; [simpl; lia|].
      intros i x Hi0. lia.
    + eexists. split; [done|]. apply set_owner_inv; [done|]. cbn.
      split; [|rewrite Z2Nat.id; [apply half_le_N; lia|apply Z.div_pos; lia]].
      apply read_ok_start; [done|]. intros _.
      assert ((Z.of_nat (tl σ) - Z.of_nat h) / 2 <= Z.of_nat (tl σ) - Z.of_nat h)
        by (apply Z.div_le_upper_bound; lia). lia.
  - destruct Hok as [Hr Hn]. destruct (Nat.ltb_spec (length temp) n) as [Hlt|Hge].
    + eexists. split; [done|]. apply set_owner_inv; [done|]. split; [by apply read_cell|done].
    + pose proof (cas_inv σ h n temp Hi Hr) as Hc. destruct (cas_head h temp σ) as [σ'|].
      * destruct Hc as [-> Hi']; [destruct Hr as (_ & ? & _); lia|done|].
        eexists. split; [done|]. by apply set_owner_inv.
      * eexists. split; [done|]. apply set_owner_inv; [done|]. cbn. unfold hd in *. simpl. auto.
  - destruct (ts !! k) as [x|] eqn:Hx; eexists; (split; [done|]);
      [by eapply write_inv|by eapply store_inv].
  - eexists. split; [done|]. by apply set_owner_inv.
  - destruct Hok as [Hle ->]. destruct (same h (tl σ)) eqn:Hs; eexists; (split; [done|]).
    + by apply set_owner_inv.
    + apply set_owner_inv; [done|]. cbn.
      apply (read_cell σ h 1 []) in Hi as Hrc; [by rewrite Nat.add_0_r in Hrc| |simpl; lia].
      apply read_ok_start; [done|]. intros He. destruct (decide (h = tl σ)) as [->|]; [|lia].
      by rewrite same_refl in Hs.
  - pose proof (cas_inv σ h 1 [item] Hi Hok eq_refl Hy) as Hc.
    destruct (cas_head h [item] σ) as [σ'|].
    + destruct Hc as [-> Hi']. eexists. split; [done|]. by apply set_owner_inv.
    + eexists. split; [done|]. apply set_owner_inv; [done|]. cbn. done.
  - destruct Hok as (-> & He & Hlen). eexists. split; [done|]. apply set_owner_inv; [done|]. done.
  - destruct Hok as (-> & He & -> & Hlen). rewrite <- He, diff_small, Z.sub_diag, wrap_small by
      (unfold in_width; lia). destruct (Z.ltb_spec (0 + Z.of_nat (length ts)) N); [|lia]. cbn.
    eexists. split; [done|]. apply set_owner_inv; [done|]. split; [lia|]. split; [lia|].
    intros i x Hi0. lia.
Qed.

Lemma thief_step_inv σ t pc :
  inv σ -> thieves σ !! t = Some pc -> young σ (thief_head pc) = true -> inv (thief_step t σ).
Proof.
  intros Hi Ht Hy. pose proof (i_thieves _ Hi _ _ Ht) as Hok. pose proof (inv_order σ Hi) as Hord.
  pose proof (i_window _ Hi) as Hwin. unfold thief_step. rewrite Ht.
  destruct pc as [|h|h t'|h n temp]; simpl in Hok; [done| | |].
  - apply set_thief_inv; [done|]. simpl. lia.
  - destruct Hok as [Hle Htl].
    destruct (Z.eqb_spec (u32 (diff t' h - diff t' h / 2)) 0) as [H0|H0];
      [(apply set_thief_inv; [done|simpl; auto])|].
    destruct (Z.ltb_spec (N / 2) (u32 (diff t' h - diff t' h / 2))) as [Hbig|Hsm];
      [(apply set_thief_inv; [done|simpl; auto])|].
    apply set_thief_inv; [done|]. pose proof (wrap_range 32 (diff t' h - diff t' h / 2) ltac:(lia)) as Hr.
    unfold in_width in Hr. split; [|lia]. apply read_ok_start; [done|]. intros He.
    assert (diff t' h = Z.of_nat t' - Z.of_nat h) as Hd by (apply diff_small; lia).
    rewrite Hd in *. set (m := Z.of_nat t' - Z.of_nat h) in *.
    assert (0 <= m / 2 <= m) by (split; [apply Z.div_pos|apply Z.div_le_upper_bound]; lia).
    assert (u32 (m - m / 2) = m - m / 2) as Hu by (apply wrap_small; unfold in_width; lia).
    rewrite Hu. lia.
  - destruct Hok as [Hr Hn]. destruct (Nat.ltb_spec (length temp) n) as [Hlt|Hge].
    + apply set_thief_inv; [done|]. split; [by apply read_cell|done].
    + pose proof (cas_inv σ h n temp Hi Hr) as Hc. destruct (cas_head h temp σ) as [σ'|].
      * destruct Hc as [-> Hi']; [destruct Hr as (_ & ? & _); lia|done|].
        (apply set_thief_inv; [done|simpl; auto]).
      * (apply set_thief_inv; [done|simpl; auto]).
Qed.

Lemma ring_step_inv a σ σ' : inv σ -> prompt a σ = true -> step a σ = Some σ' -> inv σ'.
Proof.
  intros Hi Hy Hs. pose proof (i_window _ Hi) as Hwin. unfold step in Hs.
  destruct a as [task| |ts|t| |t]; try (destruct (owner σ) eqn:Ho; [|done..]).
  - injection Hs as <-. apply set_owner_inv; [done|simpl; auto].
  - injection Hs as <-. apply set_owner_inv; [done|simpl; auto].
  - destruct (_ && _) eqn:Eb in Hs; [|done]. injection Hs as <-.
    apply andb_true_iff in Eb as [E1%Nat.eqb_eq E2%Z.ltb_lt]. apply set_owner_inv; [done|simpl; auto].
  - destruct (default GIdle (thieves σ !! t)); try done. injection Hs as <-. apply set_thief_inv; [done|simpl; auto].
  - destruct (owner_step_inv σ Hi Hy) as (σ2 & H2 & Hi2). rewrite H2 in Hs. by injection Hs as <-.
  - destruct (thieves σ !! t) as [pc|] eqn:Ht; [|done]. cbn in Hs, Hy. rewrite Ht in Hy. injection Hs as <-.
    by eapply thief_step_inv.
Qed.

Lemma ring_reachable_inv σ : reachable σ -> inv σ.
Proof.
  intros (g & l & Hg & Hy & Hr). assert (inv (init g)) as H0.
  { split; cbn; try done; lia. }
  revert Hy Hr H0. generalize (init g). induction l as [|a l IH]; cbn; intros σ0 Hy Hr H0; [by injection Hr as <-|].
  apply andb_true_iff in Hy as [Hp Hy]. destruct (step a σ0) as [σ1|] eqn:E; [|done]. cbn in Hr.
  apply (IH σ1); [done|done|]. by eapply ring_step_inv.
Qed.

(** ** Theorems *)

(** C5: every task of a ring is taken exactly once and in order, whoever takes
    it: under any interleaving of the owner with any number of thieves in which no thread
    is delayed for 2^32 removals between its load of the head and its compare-and-swap, the
    tasks that successful compare-and-swaps took are a prefix of the tasks stored, the
    ring never holds more than N, and the tasks not yet taken are in its cells. *)
Theorem ring_exactly_once (garbage : list Z) (l : list action) (σ : config) :
  length garbage = Z.to_nat N -> in_time l (init garbage) = true -> run l (init garbage) = Some σ ->
  removed σ = take (hd σ) (added σ) /\ (hd σ <= tl σ)%nat /\
  Z.of_nat (tl σ) <= Z.of_nat (hd σ) + N /\
  forall i x, (hd σ <= i)%nat -> added σ !! i = Some x -> cell σ i = x.
Proof.
  intros Hg Hy Hr. assert (inv σ) as Hi by (apply ring_reachable_inv; by exists garbage, l).
  split; [apply Hi|]. split; [by apply inv_order|]. split; [apply Hi|apply Hi].
Qed.

(** No thread of a ring ever fails: the assertion of __steal on the thief's
    own ring holds, and the arrays that __enqueue and __grab copy tasks into,
    of N / 2 + 1 and N / 2 cells, are never overrun. *)
Theorem ring_threads_safe (σ : config) :
  reachable σ ->
  (young σ (owner_head (owner σ)) = true -> exists σ', owner_step σ = Ok σ') /\
  (forall task h n temp, owner σ = OHalf task h n temp ->
     (length temp <= n)%nat /\ Z.of_nat n + 1 <= N / 2 + 1) /\
  (forall t h n temp, thieves σ !! t = Some (GRead h n temp) ->
     (length temp <= n)%nat /\ Z.of_nat n <= N / 2).
Proof.
  intros Hi%ring_reachable_inv. split_and!.
  - intros Hy. destruct (owner_step_inv σ Hi Hy) as (σ' & H & _). eauto.
  - intros task h n temp Ho. pose proof (i_owner _ Hi) as Hok. rewrite Ho in Hok.
    destruct Hok as [(_ & ? & _) ?]. lia.
  - intros t h n temp Ht. destruct (i_thieves _ Hi _ _ Ht) as [(_ & ? & _) ?]. lia.
Qed.

(** ** The bound is needed *)
Lemma run_app l k σ : run (l ++ k) σ = σ' ← run l σ; run k σ'.
Proof. revert σ; induction l as [|a l IH]; intros σ; cbn; [done|]. destruct (step a σ); cbn; [apply IH|done]. Qed.

(** The owner enqueues into its empty ring and dequeues again. *)
Definition cycle : list action := [AEnq 0; AOwn; AOwn; AOwn; AOwn; ADeq; AOwn; AOwn; AOwn].

Lemma same_succ a : same a (S a) = false.
Proof.
  apply Z.eqb_neq. unfold wrap. intros H. assert ((Z.of_nat (S a) - Z.of_nat a) mod 2 ^ 32 = 0) as H0.
  { rewrite Zminus_mod, H, Z.sub_diag. done. }
  replace (Z.of_nat (S a) - Z.of_nat a) with 1 in H0 by lia. done.
Qed.

Lemma enqueue_run σ : owner σ = OIdle -> hd σ = tl σ ->
  exists σ', run [AEnq 0; AOwn; AOwn; AOwn; AOwn] σ = Some σ' /\ owner σ' = OIdle /\ hd σ' = hd σ /\
    tl σ' = S (tl σ) /\ thieves σ' = thieves σ.
Proof.
  intros Ho He. assert (diff (tl σ) (hd σ) = 0) as Hd by (rewrite He, diff_small; lia).
  unfold run, step. rewrite Ho. cbn. unfold owner_step. cbn.
  unfold hd, tl in *. cbn. rewrite Hd. destruct (Z.ltb_spec 0 N); [|lia]. cbn.
  eexists. split; [done|]. cbn. rewrite length_app. cbn. split_and!; (done || lia).
Qed.

Lemma dequeue_run σ : owner σ = OIdle -> tl σ = S (hd σ) ->
  exists σ', run [ADeq; AOwn; AOwn; AOwn] σ = Some σ' /\ owner σ' = OIdle /\ hd σ' = S (hd σ) /\
    tl σ' = tl σ /\ thieves σ' = thieves σ.
Proof.
  intros Ho He. unfold run, step. rewrite Ho. cbn. unfold owner_step. cbn.
  unfold tl in *. cbn. rewrite He, same_succ. cbn. unfold cas_head. rewrite same_refl. cbn.
  eexists. split; [done|]. unfold hd. cbn. rewrite length_app. cbn. split_and!; (done || lia).
Qed.

Lemma cycle_run σ : owner σ = OIdle -> hd σ = tl σ ->
  exists σ', run cycle σ = Some σ' /\ owner σ' = OIdle /\ hd σ' = S (hd σ) /\ tl σ' = S (tl σ) /\ thieves σ' = thieves σ.
Proof.
  intros Ho He. destruct (enqueue_run σ Ho He) as (σ1 & R1 & O1 & H1 & T1 & G1).
  destruct (dequeue_run σ1 O1 ltac:(lia)) as (σ2 & R2 & O2 & H2 & T2 & G2).
  exists σ2. change cycle with ([AEnq 0; AOwn; AOwn; AOwn; AOwn] ++ [ADeq; AOwn; AOwn; AOwn]).
  rewrite run_app, R1. cbn [mbind option_bind]. rewrite R2, G2, G1. split_and!; (done || lia).
Qed.

Lemma cycles_run n σ : owner σ = OIdle -> hd σ = tl σ ->
  exists l σ', run l σ = Some σ' /\ owner σ' = OIdle /\ hd σ' = (n + hd σ)%nat /\ tl σ' = (n + tl σ)%nat /\
    thieves σ' = thieves σ.
Proof.
  revert σ; induction n as [|n IH]; intros σ Ho He; [by exists [], σ|].
  destruct (cycle_run σ Ho He) as (σ1 & R1 & O1 & H1 & T1 & G1).
  destruct (IH σ1 O1 ltac:(lia)) as (l & σ2 & R2 & O2 & H2 & T2 & G2).
  exists (cycle ++ l), σ2. rewrite run_app, R1. cbn [mbind option_bind]. rewrite R2, G2, G1. split_and!; (done || lia).
Qed.

Lemma step_AThief t σ pc : thieves σ !! t = Some pc -> step (AThief t) σ = Some (thief_step t σ).
Proof. intros H. cbn. by rewrite H. Qed.

(** A thief that is delayed for exactly 2^32 removals takes a task that is not there: the
    head comes back to the value that it loaded and passes the tail. *)
Theorem ring_aba (garbage : list Z) :
  exists l σ, run l (init garbage) = Some σ /\ (tl σ < hd σ)%nat /\ Z.of_nat (tl σ) = 2 ^ 32.
Proof.
  destruct (enqueue_run (init garbage) eq_refl eq_refl) as (σ1 & R1 & O1 & H1 & T1 & G1).
  assert (exists σ2, run [ASteal 1; AThief 1; AThief 1; AThief 1] σ1 = Some σ2 /\ owner σ2 = OIdle /\
    hd σ2 = hd σ1 /\ tl σ2 = tl σ1 /\ exists x, thieves σ2 !! 1%nat = Some (GRead 0 1 [x])) as (σ2 & R2 & O2 & H2 & T2 & x & G2).
  { set (σa := set_thief 1 (GH 0) σ1). set (σb := set_thief 1 (GT 0 1) σa). set (σc := set_thief 1 (GRead 0 1 []) σb).
    exists (set_thief 1 (GRead 0 1 [cell σc 0]) σc). split; [|split_and!; try done; eexists; apply lookup_insert_eq].
    assert (step (ASteal 1) σ1 = Some σa) as E by (unfold step; rewrite G1; cbn; by rewrite H1).
    cbn [run]. rewrite E. cbn [mbind option_bind].
    rewrite (step_AThief 1 σa (GH 0)) by apply lookup_insert_eq. cbn [mbind option_bind].
    assert (thief_step 1 σa = σb) as ->.
    { unfold thief_step. cbn [thieves set_thief σa]. rewrite lookup_insert_eq. unfold σb. do 2 f_equal. exact T1. }
    rewrite (step_AThief 1 σb (GT 0 1)) by apply lookup_insert_eq. cbn [mbind option_bind].
    assert (thief_step 1 σb = σc) as ->.
    { unfold thief_step. cbn [thieves set_thief σb]. rewrite lookup_insert_eq. change (diff 1 0) with 1.
      change (u32 (1 - 1 / 2)) with 1. assert (1 <= N / 2) by (apply Z.div_le_lower_bound; lia).
      cbn [Z.eqb]. by destruct (Z.ltb_spec (N / 2) 1); [lia|]. }
    rewrite (step_AThief 1 σc (GRead 0 1 [])) by apply lookup_insert_eq. cbn [mbind option_bind].
    unfold thief_step. cbn [thieves set_thief σc]. by rewrite lookup_insert_eq. }
  destruct (dequeue_run σ2 O2) as (σ3 & R3 & O3 & H3 & T3 & G3); [rewrite T2, T1, H2, H1; done|].
  destruct (cycles_run (Z.to_nat (2 ^ 32 - 1)) σ3 O3) as (l & σ4 & R4 & O4 & H4 & T4 & G4);
    [rewrite H3, T3, H2, T2, H1, T1; done|].
  rewrite H3, H2, H1 in H4. rewrite T3, T2, T1 in T4. change (hd (init garbage)) with 0%nat in H4.
  change (tl (init garbage)) with 0%nat in T4.
  assert (same (hd σ4) 0 = true) as Hs.
  { unfold same. apply Z.eqb_eq. rewrite H4. replace (Z.of_nat (Z.to_nat (2 ^ 32 - 1) + 1)) with (2 ^ 32) by lia. done. }
  exists ([AEnq 0; AOwn; AOwn; AOwn; AOwn] ++ [ASteal 1; AThief 1; AThief 1; AThief 1] ++ [ADeq; AOwn; AOwn; AOwn]
    ++ l ++ [AThief 1]), (set_thief 1 GIdle (take_out [x] σ4)).
  rewrite run_app, R1. cbn [mbind option_bind]. rewrite run_app, R2. cbn [mbind option_bind].
  rewrite run_app, R3. cbn [mbind option_bind]. rewrite run_app, R4. cbn [mbind option_bind].
  rewrite G3 in G4. split.
  { cbn [run]. unfold step, thief_step. rewrite G4, G2. cbn. unfold cas_head. by rewrite Hs. }
  unfold hd, tl in *. cbn. rewrite length_app. cbn. lia.
Qed.
End WorkStealConc.

(** ** Witnesses: a thief and the owner race for the first of two tasks; the thief
    reads it, the owner dequeues it, the compare-and-swap of the thief fails and
    it starts over with the second task. *)
Module WorkStealConcExamples.
Definition own (n : nat) : list action := replicate n AOwn.
Definition thief (n : nat) : list action := replicate n (AThief 1).
Definition start : config := init [0; 0; 0; 0].
Definition race : list action :=
  AEnq 7 :: own 4 ++ AEnq 8 :: own 4 ++ ASteal 1 :: thief 3 ++ ADeq :: own 3 ++ thief 5.
Definition raced : config := default start (run 4 race start).

Lemma ring_raced_reachable : reachable 4 raced.
Proof. by exists [0; 0; 0; 0], race. Qed.

Example ring_raced_history : (added raced, removed raced) = ([7; 8], [7; 8]).
Proof. reflexivity. Qed.

Lemma ring_exactly_once_witness : removed raced = take 2 [7; 8].
Proof.
  apply (ring_exactly_once 4 ltac:(lia) (ltac:(by exists (2 ^ 30))) [0; 0; 0; 0] race raced); reflexivity.
Defined.

Lemma ring_threads_safe_witness : exists σ', owner_step 4 raced = Ok σ'.
Proof.
  apply (ring_threads_safe 4 ltac:(lia) (ltac:(by exists (2 ^ 30))) raced ring_raced_reachable).
  reflexivity.
Defined.
End WorkStealConcExamples.
