(* ===== verification/Strategy.v ===== *)
(** * The strategies behind the scheduler's interface

    include/mola/work_steal.hpp: class WorkStealStrategy is a template method.  Its
    dequeue(Worker), enqueue and wakeup are written over four virtual functions, and
    SimpleStrategy and LockFreeStrategy (with either of its two global queues)
    implement those.  Here the virtual functions are a class [SchedQueues] with the
    laws that the base class relies on; the base class is proved once against the
    laws, and each strategy discharges them.  The queues that the strategies are
    built from are a class of their own, with an instance for each queue of
    include/mola/queue.hpp.  Every operation runs alone here, as in WorkSteal.v;
    SchedSleep.v has the interleavings of wakeup with the sleeping workers. *)
From stdpp Require Import base list gmap numbers.
From S2P Require Import Prelude Locks LinkedQueue WorkSteal.

#[local] Abbreviation ltail := List.tl.

(** ** Queues of tasks

    [queue_type] of SimpleStrategy and the global queue of LockFreeStrategy *)
Class TaskQueue (Q : Type) := {
  q_enqueue : Z -> Q -> outcome Q;
  q_enqueue_all : list Z -> Q -> outcome Q;
  q_dequeue : Q -> outcome (Z * Q)
}.

(** First in, first out; 0 is what a dequeue of the empty queue returns. *)
Class TaskQueueLaws (Q : Type) `{TaskQueue Q} := {
  q_holds : Q -> list Z -> Prop;
  q_enqueue_ok q l x :
    q_holds q l -> x <> 0 -> Z.of_nat (length l) + 1 < 2 ^ 64 ->
    exists q', q_enqueue x q = Ok q' /\ q_holds q' (l ++ [x]);
  q_enqueue_all_ok q l xs :
    q_holds q l -> Forall (fun x => x <> 0) xs -> Z.of_nat (length l + length xs) + 1 < 2 ^ 64 ->
    exists q', q_enqueue_all xs q = Ok q' /\ q_holds q' (l ++ xs);
  q_dequeue_ok q l :
    q_holds q l -> Z.of_nat (length l) + 1 < 2 ^ 64 ->
    exists q', q_dequeue q = Ok (hd 0 l, q') /\ q_holds q' (ltail l)
}.

(** The loop of __global_enqueue over a queue without an operation for it *)
Fixpoint enqueue_each {Q} (enq : Z -> Q -> outcome Q) (xs : list Z) (q : Q) : outcome Q :=
  match xs with
  | [] => mret q
  | x :: xs => q ← enq x q; enqueue_each enq xs q
  end.

Lemma enqueue_each_ok {Q} (enq : Z -> Q -> outcome Q) (holds : Q -> list Z -> Prop) q l xs :
  (forall q l x, holds q l -> x <> 0 -> Z.of_nat (length l) + 1 < 2 ^ 64 ->
     exists q', enq x q = Ok q' /\ holds q' (l ++ [x])) ->
  holds q l -> Forall (fun x => x <> 0) xs -> Z.of_nat (length l + length xs) + 1 < 2 ^ 64 ->
  exists q', enqueue_each enq xs q = Ok q' /\ holds q' (l ++ xs).
Proof.
  intros Henq. revert q l; induction xs as [|x xs IH]; intros q l Hq Hnz Hb; simpl in *.
  - exists q. by rewrite app_nil_r.
  - apply list.Forall_cons in Hnz as [Hx Hnz].
    destruct (Henq q l x Hq Hx ltac:(lia)) as (q1 & -> & Hq1). cbn.
    destruct (IH q1 (l ++ [x]) Hq1 Hnz) as (q2 & -> & Hq2).
    { rewrite length_app. simpl. lia. }
    exists q2. by rewrite <- app_assoc in Hq2.
Qed.

(** ThreadSafeQueue *)
#[global] Instance safe_queue : TaskQueue SafeQueue.queue := {
  q_enqueue := SafeQueue.enqueue;
  q_enqueue_all := enqueue_each SafeQueue.enqueue;
  q_dequeue := SafeQueue.dequeue
}.

#[global] Program Instance safe_queue_laws : TaskQueueLaws SafeQueue.queue := {|
  q_holds := SafeQueue.rep
|}.
Next Obligation. intros q l x Hq _ Hb. by apply SafeQueue.enqueue_rep. Qed.
Next Obligation.
  intros q l xs Hq Hnz Hb. apply (enqueue_each_ok _ SafeQueue.rep); try done.
  intros ???? _ ?. by apply SafeQueue.enqueue_rep.
Qed.
Next Obligation.
  intros q l Hq Hb. cbn [q_dequeue safe_queue]. destruct (SafeQueue.dequeue_rep q l Hq Hb) as (q' & -> & Hq').
  exists q'. by destruct l.
Qed.

(** ConcurrentLinkedQueue; the strategies ignore the result of enqueue. *)
Definition linked_enqueue (x : Z) (q : LinkedQueue.queue) : outcome LinkedQueue.queue :=
  '(_, q') ← LinkedQueue.enqueue_one x q; mret q'.

#[global] Instance linked_queue : TaskQueue LinkedQueue.queue := {
  q_enqueue := linked_enqueue;
  q_enqueue_all := enqueue_each linked_enqueue;
  q_dequeue := LinkedQueue.dequeue_one
}.

Lemma linked_enqueue_ok q l x :
  LinkedQueue.quiet q l -> x <> 0 ->
  exists q', linked_enqueue x q = Ok q' /\ LinkedQueue.quiet q' (l ++ [x]).
Proof.
  intros Hq Hx. unfold linked_enqueue.
  destruct (LinkedQueue.enqueue_one_quiet q l x Hq Hx) as (q' & -> & Hq'). eauto.
Qed.

#[global] Program Instance linked_queue_laws : TaskQueueLaws LinkedQueue.queue := {|
  q_holds := LinkedQueue.quiet
|}.
Next Obligation. intros q l x Hq Hx _. by apply linked_enqueue_ok. Qed.
Next Obligation.
  intros q l xs Hq Hnz Hb. apply (enqueue_each_ok _ LinkedQueue.quiet); try done.
  intros ??????. by apply linked_enqueue_ok.
Qed.
Next Obligation.
  intros q l Hq _. cbn [q_dequeue linked_queue]. destruct (LinkedQueue.dequeue_one_quiet q l Hq) as (q' & -> & Hq').
  exists q'. by destruct l.
Qed.

(** The deque of LockFreeStrategy with the number of its items, an atomic of its own *)
Record counted_deque := MkDeque { m_global_queue : list Z; m_global_queue_num : Z }.

Definition deque_push (xs : list Z) (q : counted_deque) : outcome counted_deque :=
  mret (MkDeque (m_global_queue q ++ xs) (u64 (m_global_queue_num q + Z.of_nat (length xs)))).

Definition deque_pop (q : counted_deque) : outcome (Z * counted_deque) :=
  if m_global_queue_num q =? 0 then mret (0, q)
  else match m_global_queue q with
       | [] => mret (0, q)
       | task :: g => mret (task, MkDeque g (u64 (m_global_queue_num q - 1)))
       end.

#[global] Instance deque_queue : TaskQueue counted_deque := {
  q_enqueue := fun x => deque_push [x];
  q_enqueue_all := deque_push;
  q_dequeue := deque_pop
}.

Definition deque_holds (q : counted_deque) (l : list Z) : Prop :=
  m_global_queue q = l /\ m_global_queue_num q = Z.of_nat (length l).

Lemma deque_push_ok q l xs :
  deque_holds q l -> Z.of_nat (length l + length xs) < 2 ^ 64 ->
  exists q', deque_push xs q = Ok q' /\ deque_holds q' (l ++ xs).
Proof.
  intros [<- Hn] Hb. eexists. split; [done|]. split; [done|]. simpl.
  rewrite Hn, length_app, wrap_small by width_lia. lia.
Qed.

#[global] Program Instance deque_queue_laws : TaskQueueLaws counted_deque := {|
  q_holds := deque_holds
|}.
Next Obligation. intros q l x Hq _ Hb. apply deque_push_ok; [done|simpl; lia]. Qed.
Next Obligation. intros q l xs Hq _ Hb. apply deque_push_ok; [done|lia]. Qed.
Next Obligation.
  intros [g n] l [<- Hn] Hb. simpl in *. unfold q_dequeue, deque_pop. simpl. rewrite Hn.
  destruct g as [|t g]; simpl; [by eexists|].
  eexists. split; [done|]. split; [done|]. cbn [m_global_queue_num].
  change (Z.pos (Pos.of_succ_nat (length g))) with (Z.of_nat (length (t :: g))).
  rewrite wrap_small; simpl length in *; width_lia.
Qed.

(** ** The virtual functions of WorkStealStrategy *)
Class SchedQueues (S : Type) := {
  s_enqueue : nat -> Z -> S -> outcome S;
  s_global_enqueue : Z -> S -> outcome S;
  s_dequeue : nat -> S -> outcome (Z * S);
  s_steal : nat -> nat -> S -> outcome (Z * S);
  s_global_dequeue : S -> outcome (Z * S)
}.

(** What the base class relies on: [s_holds s Ls G] says that the threads' queues
    hold [Ls] and the global queue [G]. *)
Class SchedQueuesLaws (S : Type) `{SchedQueues S} := {
  s_holds : S -> list (list Z) -> list Z -> Prop;
  s_enqueue_ok s Ls G id x :
    s_holds s Ls G -> x <> 0 -> (id < length Ls)%nat ->
    Forall (fun t => t <> 0) (pending Ls G) -> Z.of_nat (length (pending Ls G)) < 2 ^ 32 ->
    exists s' Ls' G', s_enqueue id x s = Ok s' /\ s_holds s' Ls' G' /\
      length Ls' = length Ls /\ pending Ls' G' ≡ₚ x :: pending Ls G;
  s_global_enqueue_ok s Ls G x :
    s_holds s Ls G -> x <> 0 -> Z.of_nat (length (pending Ls G)) < 2 ^ 32 ->
    exists s', s_global_enqueue x s = Ok s' /\ s_holds s' Ls (G ++ [x]);
  s_dequeue_ok s Ls G id l :
    s_holds s Ls G -> Ls !! id = Some l -> Z.of_nat (length (pending Ls G)) < 2 ^ 32 ->
    exists s', s_dequeue id s = Ok (hd 0 l, s') /\ s_holds s' (<[id := ltail l]> Ls) G;
  s_global_dequeue_ok s Ls G :
    s_holds s Ls G -> Z.of_nat (length (pending Ls G)) < 2 ^ 32 ->
    exists s', s_global_dequeue s = Ok (hd 0 G, s') /\ s_holds s' Ls (ltail G);
  s_steal_ok s Ls G me v l :
    s_holds s Ls G -> Ls !! me = Some [] -> Ls !! v = Some l -> v <> me ->
    Z.of_nat (length (pending Ls G)) < 2 ^ 32 ->
    exists t s' Ls', s_steal me v s = Ok (t, s') /\ s_holds s' Ls' G /\ length Ls' = length Ls /\
      (if decide (l = []) then t = 0 /\ Ls' = Ls
       else t ∈ l /\ pending Ls G ≡ₚ t :: pending Ls' G)
}.

(** ** WorkStealStrategy *)
Module WorkStealStrategy.
Section Base.
Context {S : Type} `{!SchedQueues S} (m_workers_num m_total_thr_num : Z).

(** The queues of the derived class and the two counters of the base class *)
Record strategy := MkStrategy { queues : S; m_total_jobs : Z; m_sleep_num : Z }.

Definition busy (st : strategy) : Z := u32 (m_workers_num - m_sleep_num st).

(** wakeup: whether a sleeping worker is notified, and the new state *)
Definition wakeup (st : strategy) : bool * strategy :=
  let st' := MkStrategy (queues st) (u32 (m_total_jobs st + 1)) (m_sleep_num st) in
  ((busy st' <? m_workers_num) && (u32 (m_factor * busy st') <? m_total_jobs st'), st').

Definition on_queues {A} (f : S -> outcome (A * S)) (st : strategy) : outcome (A * strategy) :=
  '(a, s) ← f (queues st); mret (a, MkStrategy s (m_total_jobs st) (m_sleep_num st)).

(** enqueue(AbsolateWorker, WorkItem): from a thread of the runtime or from another *)
Definition enqueue (worker : option nat) (task : Z) (st : strategy) : outcome (bool * strategy) :=
  s ← match worker with
      | Some id => s_enqueue id task (queues st)
      | None => s_global_enqueue task (queues st)
      end;
  mret (wakeup (MkStrategy s (m_total_jobs st) (m_sleep_num st))).

Definition global_enqueue (task : Z) (st : strategy) : outcome (bool * strategy) :=
  enqueue None task st.

Fixpoint steal_loop (me : nat) (victims : list nat) (st : strategy) : outcome (Z * strategy) :=
  match victims with
  | [] => mret (0, st)
  | v :: victims =>
      '(t, st') ← on_queues (s_steal me v) st;
      if t =? 0 then steal_loop me victims st' else mret (t, st')
  end.

Definition got (t : Z) (st : strategy) : turn * strategy :=
  (Got t, MkStrategy (queues st) (u32 (m_total_jobs st - 1)) (m_sleep_num st)).

Definition sleep_or_again (st : strategy) : turn * strategy :=
  if u32 (m_factor * busy st) <? m_total_jobs st then (Again, st)
  else
    let n := u32 (m_sleep_num st + 1) in
    let st' := MkStrategy (queues st) (m_total_jobs st) n in
    if n <? m_workers_num then (Sleep false, st')
    else if m_total_jobs st =? 0 then (Sleep true, st')
    else (Again, st).

(** The [m_sleep_num--] after the wait *)
Definition awake (st : strategy) : strategy :=
  MkStrategy (queues st) (m_total_jobs st) (u32 (m_sleep_num st - 1)).

(** One turn of the loop of dequeue(Worker) *)
Definition search (id : nat) (victims : list nat) (st : strategy) : outcome (turn * strategy) :=
  if 0 <? m_total_jobs st then
    '(t, st1) ← on_queues s_global_dequeue st;
    if negb (t =? 0) then mret (got t st1)
    else if m_total_thr_num =? 1 then mret (Again, st1)
    else
      '(t, st2) ← steal_loop id victims st1;
      mret (if negb (t =? 0) then got t st2 else sleep_or_again st2)
  else mret (sleep_or_again st).

(** dequeue(Worker): the own queue, then the first turn of the loop *)
Definition dequeue (id : nat) (victims : list nat) (st : strategy) : outcome (turn * strategy) :=
  '(t, st1) ← on_queues (s_dequeue id) st;
  if negb (t =? 0) then mret (got t st1) else search id victims st1.

(** ** What the base class promises, from the laws of the queues *)
Context `{!SchedQueuesLaws S}.

Record repr (st : strategy) (Ls : list (list Z)) (G : list Z) : Prop := {
  r_holds : s_holds (queues st) Ls G;
  r_jobs : m_total_jobs st = u32 (Z.of_nat (length (pending Ls G)));
  r_null : Forall (fun t => t <> 0) (pending Ls G)
}.

(** [some_repr n P st]: the strategy holds, with [n] threads, the tasks [P] in some order. *)
Definition some_repr (n : nat) (P : list Z) (st : strategy) : Prop :=
  exists Ls G, repr st Ls G /\ length Ls = n /\ pending Ls G ≡ₚ P.

Lemma got_task_repr st s' Ls Ls' G G' t :
  repr st Ls G -> s_holds s' Ls' G' -> pending Ls G ≡ₚ t :: pending Ls' G' ->
  repr (got t (MkStrategy s' (m_total_jobs st) (m_sleep_num st))).2 Ls' G'.
Proof.
  intros [Hh Hj Hn] Hs HP. split; simpl; [done| |].
  - rewrite Hj, HP, wrap_sub_l. simpl. f_equal. lia.
  - rewrite HP in Hn. by apply list.Forall_cons in Hn as [_ Hn].
Qed.

Lemma no_task_repr st Ls G :
  repr st Ls G -> repr (sleep_or_again st).2 Ls G /\ forall t, (sleep_or_again st).1 <> Got t.
Proof.
  intros [Hh Hj Hn]. unfold sleep_or_again. repeat case_match; by split.
Qed.

Lemma repr_elem st Ls G id l t :
  repr st Ls G -> Ls !! id = Some l -> t ∈ l -> t <> 0.
Proof.
  intros [_ _ Hn] Hl Ht. eapply list.Forall_forall in Hn; [exact Hn|].
  unfold pending. apply elem_of_app. left. apply list_elem_of_In, in_concat.
  exists l. split; apply list_elem_of_In; [by eapply list_elem_of_lookup_2|done].
Qed.

Lemma enqueue_repr n P st worker x :
  some_repr n P st -> x <> 0 -> (forall id, worker = Some id -> (id < n)%nat) ->
  Z.of_nat (length P) < 2 ^ 32 ->
  exists b st', enqueue worker x st = Ok (b, st') /\ some_repr n (x :: P) st'.
Proof.
  intros (Ls & G & [Hh Hj Hn] & <- & HP) Hx Hid Hb.
  assert (Z.of_nat (length (pending Ls G)) < 2 ^ 32) as Hb' by (by rewrite HP).
  assert (exists s' Ls' G', match worker with
      | Some id => s_enqueue id x (queues st)
      | None => s_global_enqueue x (queues st)
      end = Ok s' /\ s_holds s' Ls' G' /\ length Ls' = length Ls /\
      pending Ls' G' ≡ₚ x :: pending Ls G) as (s' & Ls' & G' & Hs & Hs' & Hl & HP').
  { destruct worker as [id|].
    - apply s_enqueue_ok; auto.
    - destruct (s_global_enqueue_ok (queues st) Ls G x Hh Hx Hb') as (s' & Hs & Hs').
      exists s', Ls, (G ++ [x]). split_and!; try done. unfold pending. solve_Permutation. }
  unfold enqueue. rewrite Hs. cbn. eexists _, _. split; [done|]. exists Ls', G'.
  split; [|by rewrite HP', HP]. split; simpl; [done| |].
  - rewrite Hj, HP', wrap_add_l. simpl. f_equal. lia.
  - rewrite HP'. by constructor.
Qed.

Lemma steal_loop_ok st Ls G me victims :
  repr st Ls G -> Ls !! me = Some [] -> Z.of_nat (length (pending Ls G)) < 2 ^ 32 ->
  Forall (fun v => v <> me /\ (v < length Ls)%nat) victims ->
  exists t s' Ls', let st' := MkStrategy s' (m_total_jobs st) (m_sleep_num st) in
    steal_loop me victims st = Ok (t, st') /\ s_holds s' Ls' G /\ length Ls' = length Ls /\
    ((t = 0 /\ Ls' = Ls /\ Forall (fun v => Ls !! v = Some []) victims) \/
     (t <> 0 /\ pending Ls G ≡ₚ t :: pending Ls' G)).
Proof.
  intros Hr Hme Hb Hvs. revert st Hr. induction Hvs as [|v victims [Hne Hlt] Hvs IH]; intros st Hr; cbn.
  - exists 0, (queues st), Ls. split; [by destruct st|]. split; [apply Hr|]. split; [done|]. by left.
  - destruct (lookup_lt_is_Some_2 Ls v Hlt) as [l Hl]. unfold on_queues.
    destruct (s_steal_ok (queues st) Ls G me v l (r_holds _ _ _ Hr) Hme Hl Hne Hb)
      as (t & s' & Ls' & -> & Hs' & Hlen & Hcase). cbn.
    destruct (decide (l = [])) as [->|Hl0].
    + destruct Hcase as [-> ->]. cbn.
      destruct (IH (MkStrategy s' (m_total_jobs st) (m_sleep_num st)))
        as (t & s2 & Ls2 & Heq & Hs2 & Hlen2 & Hc); [by destruct Hr; split|].
      exists t, s2, Ls2. split; [exact Heq|]. split_and!; try done.
      destruct Hc as [(-> & -> & Hall)|Hc]; [left|by right]. split_and!; try done. by constructor.
    + destruct Hcase as [Htl HP]. assert (t <> 0) as Ht by (by eapply repr_elem).
      rewrite (proj2 (Z.eqb_neq t 0)) by done. exists t, s', Ls'. split_and!; try done. by right.
Qed.

(** The result of a dequeue: a task that was pending and no longer is, or nothing changed. *)
Definition turn_ok (n : nat) (P : list Z) (r : turn) (st : strategy) : Prop :=
  match r with
  | Got t => exists P', P ≡ₚ t :: P' /\ some_repr n P' st
  | _ => some_repr n P st
  end.

Lemma turn_got n P st s' Ls Ls' G G' t :
  repr st Ls G -> pending Ls G ≡ₚ P -> s_holds s' Ls' G' -> length Ls' = n ->
  pending Ls G ≡ₚ t :: pending Ls' G' ->
  turn_ok n P (Got t) (got t (MkStrategy s' (m_total_jobs st) (m_sleep_num st))).2.
Proof.
  intros Hr HP Hs Hl HP'. exists (pending Ls' G'). split; [by rewrite <- HP, HP'|].
  exists Ls', G'. split; [by eapply got_task_repr|done].
Qed.

Lemma turn_none n P st : some_repr n P st -> turn_ok n P (sleep_or_again st).1 (sleep_or_again st).2.
Proof.
  intros (Ls & G & Hr & Hl & HP). destruct (no_task_repr st Ls G Hr) as [Hr' Hno].
  assert (some_repr n P (sleep_or_again st).2) as Hs by (by exists Ls, G).
  destruct (sleep_or_again st).1 as [t| |b]; [by destruct (Hno t)|done..].
Qed.

Definition covers (n id : nat) (victims : list nat) : Prop :=
  forall v, (v < n)%nat -> v <> id -> v ∈ victims.

Lemma none_pending (Ls : list (list Z)) id victims :
  Ls !! id = Some [] -> Forall (fun v => Ls !! v = Some []) victims ->
  covers (length Ls) id victims -> pending Ls [] = [].
Proof. intros. by eapply (empty_pending Ls [] id victims). Qed.

Lemma single_pending (Ls : list (list Z)) id :
  Ls !! id = Some [] -> Z.of_nat (length Ls) = 1 -> pending Ls [] = [].
Proof.
  intros Hid Hl. apply (none_pending Ls id []); [done|done|].
  intros v Hv Hne. apply lookup_lt_Some in Hid. lia.
Qed.

Lemma search_ok st Ls G id victims :
  repr st Ls G -> Ls !! id = Some [] -> Z.of_nat (length (pending Ls G)) < 2 ^ 32 ->
  Forall (fun v => v <> id /\ (v < length Ls)%nat) victims ->
  exists r st', search id victims st = Ok (r, st') /\ turn_ok (length Ls) (pending Ls G) r st' /\
    (m_total_thr_num = Z.of_nat (length Ls) -> covers (length Ls) id victims ->
     pending Ls G <> [] -> exists t, r = Got t).
Proof.
  intros Hr Hid Hb Hvs. unfold search. rewrite (r_jobs _ _ _ Hr), (wrap_small 32) by (split; lia).
  assert (some_repr (length Ls) (pending Ls G) st) as Hsr by (by exists Ls, G).
  destruct (Z.ltb_spec 0 (Z.of_nat (length (pending Ls G)))) as [Hpos|Hz].
  2: { eexists _, _. split; [by rewrite <- surjective_pairing|]. split; [by apply turn_none|].
       intros _ _ Hne. destruct (pending Ls G); [done|simpl in Hz; lia]. }
  unfold on_queues at 1.
  destruct (s_global_dequeue_ok (queues st) Ls G (r_holds _ _ _ Hr) Hb) as (s1 & -> & Hs1). cbn.
  destruct G as [|g G]; cbn.
  - set (st1 := MkStrategy s1 (m_total_jobs st) (m_sleep_num st)).
    assert (repr st1 Ls []) as Hr1 by (by destruct Hr; split).
    destruct (Z.eqb_spec m_total_thr_num 1) as [H1|H1].
    { eexists _, _. split; [done|]. split; [by exists Ls, []|].
      intros Hthr _ Hne. exfalso. apply Hne. apply (single_pending Ls id Hid). lia. }
    destruct (steal_loop_ok st1 Ls [] id victims Hr1 Hid Hb Hvs)
      as (t & s2 & Ls2 & -> & Hs2 & Hlen & [(-> & -> & Hall)|(Ht & HP)]); cbn.
    + eexists _, _. split; [by rewrite <- surjective_pairing|]. split.
      { apply turn_none. exists Ls, []. by destruct Hr; split. }
      intros _ Hcov Hne. exfalso. apply Hne. by eapply none_pending.
    + rewrite (proj2 (Z.eqb_neq t 0)) by done. cbn. eexists _, _. split; [done|]. split; [|eauto].
      by apply (turn_got _ _ st1 s2 Ls Ls2 [] []).
  - assert (pending Ls (g :: G) ≡ₚ g :: pending Ls G) as HP by (unfold pending; solve_Permutation).
    assert (g <> 0) as Hg.
    { pose proof (r_null _ _ _ Hr) as Hn. rewrite HP in Hn. by apply list.Forall_cons in Hn as [? _]. }
    rewrite (proj2 (Z.eqb_neq g 0)) by done. cbn. eexists _, _. split; [done|]. split; [|eauto].
    by apply (turn_got _ _ st s1 Ls Ls (g :: G) G).
Qed.

Lemma dequeue_repr n P st id victims :
  some_repr n P st -> (id < n)%nat -> Z.of_nat (length P) < 2 ^ 32 ->
  Forall (fun v => v <> id /\ (v < n)%nat) victims ->
  exists r st', dequeue id victims st = Ok (r, st') /\ turn_ok n P r st' /\
    (m_total_thr_num = Z.of_nat n -> covers n id victims -> P <> [] -> exists t, r = Got t).
Proof.
  intros (Ls & G & Hr & <- & HP) Hid Hb Hvs.
  assert (Z.of_nat (length (pending Ls G)) < 2 ^ 32) as Hb' by (by rewrite HP).
  destruct (lookup_lt_is_Some_2 Ls id Hid) as [l Hl]. unfold dequeue, on_queues.
  destruct (s_dequeue_ok (queues st) Ls G id l (r_holds _ _ _ Hr) Hl Hb') as (s1 & -> & Hs1). cbn.
  destruct l as [|t l]; cbn.
  - rewrite list_insert_id in Hs1 by done.
    set (st1 := MkStrategy s1 (m_total_jobs st) (m_sleep_num st)).
    assert (repr st1 Ls G) as Hr1 by (by destruct Hr; split).
    destruct (search_ok st1 Ls G id victims Hr1 Hl Hb' Hvs) as (r & st' & -> & Ht & Hprog).
    exists r, st'. split; [done|]. split.
    + destruct r; simpl in *; [|by destruct Ht as (A & B & ? & ? & C); exists A, B; rewrite <- HP..].
      destruct Ht as (P' & HP' & Hs). exists P'. by rewrite <- HP.
    + intros Hthr Hcov Hne. apply Hprog; try done. intros H0. rewrite H0 in HP. by apply Permutation_nil in HP.
  - assert (t <> 0) as Ht by (eapply repr_elem; [done..|constructor]).
    rewrite (proj2 (Z.eqb_neq t 0)) by done. cbn. eexists _, _. split; [done|]. split; [|eauto].
    eapply (turn_got _ _ st s1 Ls (<[id := l]> Ls) G G); try done; [by rewrite length_insert|].
    unfold pending. by rewrite (concat_uncons_perm Ls id t l Hl).
Qed.

(** *** Sequences of operations *)
Inductive op := Enq (worker : option nat) (task : Z) | Deq (id : nat) (victims : list nat) | Wake.

(** What a caller may ask for with [n] threads. *)
Definition op_ok (n : nat) (o : op) : Prop :=
  match o with
  | Enq worker task => task <> 0 /\ forall id, worker = Some id -> (id < n)%nat
  | Deq id victims => (id < n)%nat /\ Forall (fun v => v <> id /\ (v < n)%nat) victims
  | Wake => True
  end.

Definition tasks_of (ops : list op) : list Z :=
  omap (fun o => match o with Enq _ task => Some task | _ => None end) ops.

(** Runs the operations; the tasks that were handed out, in order. *)
Fixpoint run (ops : list op) (st : strategy) : outcome (list Z * strategy) :=
  match ops with
  | [] => mret ([], st)
  | Enq worker task :: ops => '(_, st') ← enqueue worker task st; run ops st'
  | Deq id victims :: ops =>
      '(r, st') ← dequeue id victims st;
      '(out, st'') ← run ops st';
      mret (match r with Got t => t :: out | _ => out end, st'')
  | Wake :: ops => run ops (awake st)
  end.

Lemma run_conserves n P st ops :
  some_repr n P st -> Forall (op_ok n) ops -> Z.of_nat (length P + length ops) < 2 ^ 32 ->
  exists out st' P', run ops st = Ok (out, st') /\ some_repr n P' st' /\
    P ++ tasks_of ops ≡ₚ out ++ P' /\ Z.of_nat (length P') < 2 ^ 32.
Proof.
  intros Hs Hok. revert P st Hs. induction Hok as [|o ops Ho Hops IH]; intros P st Hs Hb; simpl in Hb.
  { exists [], st, P. rewrite app_nil_r. split_and!; done || lia. }
  destruct o as [worker x|id victims|]; simpl in Ho; cbn [run tasks_of omap list_omap].
  - destruct Ho as [Hx Hw].
    destruct (enqueue_repr n P st worker x Hs Hx Hw ltac:(lia)) as (b & st1 & -> & Hs1).
    destruct (IH (x :: P) st1 Hs1 ltac:(simpl; lia)) as (out & st' & P' & Hr & Hs' & HP & Hl).
    exists out, st', P'. cbn. split_and!; try done. rewrite <- HP. unfold tasks_of. solve_Permutation.
  - destruct Ho as [Hid Hvs].
    destruct (dequeue_repr n P st id victims Hs Hid ltac:(lia) Hvs) as (r & st1 & -> & Ht & _). cbn.
    destruct r as [t| |b]; simpl in Ht.
    + destruct Ht as (P1 & HP1 & Hs1).
      assert (length P = 1 + length P1)%nat as Hl1 by (by rewrite HP1).
      destruct (IH P1 st1 Hs1 ltac:(lia)) as (out & st' & P' & -> & Hs' & HP & Hl).
      exists (t :: out), st', P'. cbn. split_and!; try done. rewrite HP1. simpl. by rewrite <- HP.
    + destruct (IH P st1 Ht ltac:(lia)) as (out & st' & P' & -> & Hs' & HP & Hl).
      by exists out, st', P'.
    + destruct (IH P st1 Ht ltac:(lia)) as (out & st' & P' & -> & Hs' & HP & Hl).
      by exists out, st', P'.
  - apply IH; [|lia]. destruct Hs as (Ls & G & [Hh Hj Hn] & Hl & HP). exists Ls, G. by split.
Qed.

(** C14: whatever queues a strategy is built from, as long as they keep the laws of
    the interface, the scheduler neither loses nor duplicates a task: over any
    sequence of enqueues from runtime threads and others, dequeues by workers and
    wake-ups, nothing fails, the tasks enqueued are those handed out and those
    still held, each once, the job counter is the number of the latter, and any
    worker whose victims include all other threads gets a task as long as one is
    held anywhere. *)
Theorem strategy_conserves (n : nat) (P : list Z) (st : strategy) (ops : list op) :
  m_total_thr_num = Z.of_nat n -> some_repr n P st -> Forall (op_ok n) ops ->
  Z.of_nat (length P + length ops) < 2 ^ 32 ->
  exists out st' P', run ops st = Ok (out, st') /\ P ++ tasks_of ops ≡ₚ out ++ P' /\
    m_total_jobs st' = Z.of_nat (length P') /\
    forall id victims, op_ok n (Deq id victims) -> covers n id victims -> P' <> [] ->
      exists t st'', dequeue id victims st' = Ok (Got t, st'') /\ t ∈ P'.
Proof.
  intros Hthr Hs Hok Hb.
  destruct (run_conserves n P st ops Hs Hok Hb) as (out & st' & P' & Hr & Hs' & HP & Hl).
  exists out, st', P'. split_and!; try done.
  - destruct Hs' as (Ls & G & [_ Hj _] & _ & HP'). rewrite Hj, HP'. apply wrap_small. split; lia.
  - intros id victims [Hid Hvs] Hcov Hne.
    destruct (dequeue_repr n P' st' id victims Hs' Hid Hl Hvs) as (r & st2 & Hd & Ht & Hprog).
    destruct (Hprog Hthr Hcov Hne) as [t ->]. exists t, st2. split; [done|].
    destruct Ht as (P2 & -> & _). constructor.
Qed.
End Base.
End WorkStealStrategy.

(** ** SimpleStrategy: a queue per thread and a last one for everybody *)
Record simple (m_total_thr_num : nat) (Q : Type) := MkSimple { m_queues : list Q }.
Arguments MkSimple {_ _}.
Arguments m_queues {_ _}.

Section SimpleStrategy.
Context {Q : Type} `{TQ : TaskQueue Q} {n : nat}.
Implicit Types s : simple n Q.

Definition simple_enqueue (id : nat) (job : Z) s : outcome (simple n Q) :=
  q ← deref (m_queues s !! id);
  q' ← q_enqueue job q;
  mret (MkSimple (<[id := q']> (m_queues s))).

Definition simple_dequeue (id : nat) s : outcome (Z * simple n Q) :=
  q ← deref (m_queues s !! id);
  '(t, q') ← q_dequeue q;
  mret (t, MkSimple (<[id := q']> (m_queues s))).

#[global] Instance simple_strategy : SchedQueues (simple n Q) := {
  s_enqueue := simple_enqueue;
  s_global_enqueue := simple_enqueue n;
  s_dequeue := simple_dequeue;
  s_steal := fun _ victim => simple_dequeue victim;
  s_global_dequeue := simple_dequeue n
}.

Context `{!TaskQueueLaws Q}.

Definition simple_holds s (Ls : list (list Z)) (G : list Z) : Prop :=
  Forall2 q_holds (m_queues s) (Ls ++ [G]) /\ length Ls = n.

Lemma pending_part (Ls : list (list Z)) G id l :
  (Ls ++ [G]) !! id = Some l -> (length l <= length (pending Ls G))%nat.
Proof.
  intros Hl. unfold pending. replace (concat Ls ++ G) with (concat (Ls ++ [G]))
    by (rewrite concat_app; simpl; by rewrite app_nil_r).
  revert id Hl. induction (Ls ++ [G]) as [|x L IH]; intros [|id]; simpl; try done.
  - intros [= ->]. rewrite length_app. lia.
  - intros H. apply IH in H. rewrite length_app. lia.
Qed.

Lemma simple_enqueue_ok s Ls G id l x :
  simple_holds s Ls G -> (Ls ++ [G]) !! id = Some l -> x <> 0 ->
  Z.of_nat (length (pending Ls G)) < 2 ^ 32 ->
  exists s', simple_enqueue id x s = Ok s' /\
    Forall2 q_holds (m_queues s') (<[id := l ++ [x]]> (Ls ++ [G])).
Proof.
  intros [Hh Hn] Hl Hx Hb. pose proof (pending_part _ _ _ _ Hl) as Hle.
  destruct (Forall2_lookup_r _ _ _ _ _ Hh Hl) as (q & Hq & HR).
  unfold simple_enqueue. rewrite Hq. cbn.
  destruct (q_enqueue_ok q l x HR Hx) as (q' & -> & HR'); [lia|].
  eexists. split; [done|]. by apply Forall2_insert.
Qed.

Lemma simple_dequeue_ok s Ls G id l :
  simple_holds s Ls G -> (Ls ++ [G]) !! id = Some l ->
  Z.of_nat (length (pending Ls G)) < 2 ^ 32 ->
  exists s', simple_dequeue id s = Ok (hd 0 l, s') /\
    Forall2 q_holds (m_queues s') (<[id := ltail l]> (Ls ++ [G])).
Proof.
  intros [Hh Hn] Hl Hb. pose proof (pending_part _ _ _ _ Hl) as Hle.
  destruct (Forall2_lookup_r _ _ _ _ _ Hh Hl) as (q & Hq & HR).
  unfold simple_dequeue. rewrite Hq. cbn.
  destruct (q_dequeue_ok q l HR) as (q' & -> & HR'); [lia|].
  eexists. split; [done|]. by apply Forall2_insert.
Qed.

(** The queue behind the last thread is the global one. *)
Lemma last_lookup (Ls : list (list Z)) G : length Ls = n -> (Ls ++ [G]) !! n = Some G.
Proof. intros <-. by rewrite lookup_app_r, Nat.sub_diag by lia. Qed.
Lemma last_insert (Ls : list (list Z)) G G' : length Ls = n -> <[n := G']> (Ls ++ [G]) = Ls ++ [G'].
Proof. intros <-. by rewrite insert_app_r_alt, Nat.sub_diag by lia. Qed.
Lemma other_insert (Ls : list (list Z)) G id l :
  (id < length Ls)%nat -> <[id := l]> (Ls ++ [G]) = <[id := l]> Ls ++ [G].
Proof. intros. by rewrite insert_app_l. Qed.

Lemma simple_take s Ls G id l :
  simple_holds s Ls G -> Ls !! id = Some l -> Z.of_nat (length (pending Ls G)) < 2 ^ 32 ->
  exists s', simple_dequeue id s = Ok (hd 0 l, s') /\ simple_holds s' (<[id := ltail l]> Ls) G.
Proof.
  intros Hh Hl Hb. pose proof (lookup_lt_Some _ _ _ Hl) as Hlt.
  destruct (simple_dequeue_ok s Ls G id l Hh) as (s' & Hd & Hs'); [by rewrite lookup_app_l|done|].
  exists s'. split; [done|]. rewrite other_insert in Hs' by done. split; [done|].
  rewrite length_insert. apply Hh.
Qed.

#[global] Program Instance simple_laws : SchedQueuesLaws (simple n Q) := {|
  s_holds := simple_holds
|}.
Next Obligation.
  intros s Ls G id x Hh Hx Hid _ Hb. destruct (lookup_lt_is_Some_2 Ls id Hid) as [l Hl].
  destruct (simple_enqueue_ok s Ls G id l x Hh) as (s' & He & Hs'); [by rewrite lookup_app_l|done..|].
  exists s', (<[id := l ++ [x]]> Ls), G. rewrite other_insert in Hs' by done.
  split; [done|]. unfold simple_holds. rewrite length_insert. split; [split; [done|apply Hh]|].
  split; [done|]. by apply pending_append.
Qed.
Next Obligation.
  intros s Ls G x Hh Hx Hb. pose proof (proj2 Hh) as Hn.
  destruct (simple_enqueue_ok s Ls G n G x Hh (last_lookup Ls G Hn) Hx Hb) as (s' & He & Hs').
  exists s'. split; [done|]. by rewrite last_insert in Hs'.
Qed.
Next Obligation. intros s Ls G id l Hh Hl Hb. by apply simple_take. Qed.
Next Obligation.
  intros s Ls G Hh Hb. pose proof (proj2 Hh) as Hn.
  destruct (simple_dequeue_ok s Ls G n G Hh (last_lookup Ls G Hn) Hb) as (s' & He & Hs').
  exists s'. split; [done|]. by rewrite last_insert in Hs'.
Qed.
Next Obligation.
  intros s Ls G me v l Hh _ Hl _ Hb. destruct (simple_take s Ls G v l Hh Hl Hb) as (s' & Hd & Hs').
  exists (hd 0 l), s', (<[v := ltail l]> Ls). split; [done|]. split; [done|].
  rewrite length_insert. split; [done|]. case_decide as Hl0; [subst; by rewrite list_insert_id|].
  destruct l as [|t l]; [done|]. split; [constructor|]. unfold pending. cbn.
  by rewrite (concat_uncons_perm Ls v t l Hl).
Qed.
End SimpleStrategy.

(** ** LockFreeStrategy, over either of its global queues *)
Record lockfree (N : Z) (Q : Type) := MkLockFree { rings : list LockFreeQue; global : Q }.
Arguments MkLockFree {_ _}.
Arguments rings {_ _}.
Arguments global {_ _}.

(** What the code needs of its template parameter. *)
Class RingSize (N : Z) := {
  ring_range : 2 <= N < 2 ^ 31;
  ring_even : N mod 2 = 0;
  ring_divides : (N | 2 ^ 32)
}.

#[global] Instance ring_4096 : RingSize 4096.
Proof. split; [lia|done|]. by exists (2 ^ 20). Qed.
#[global] Instance ring_4 : RingSize 4.
Proof. split; [lia|done|]. by exists (2 ^ 30). Qed.

Section LockFreeStrategy.
Context {Q : Type} `{TQ : TaskQueue Q} {N : Z}.
Implicit Types s : lockfree N Q.

Definition lockfree_enqueue (id : nat) (task : Z) s : outcome (lockfree N Q) :=
  q ← deref (rings s !! id);
  let '(q', moved) := que_enqueue N q task in
  g ← (if bool_decide (moved = []) then mret (global s) else q_enqueue_all moved (global s));
  mret (MkLockFree (<[id := q']> (rings s)) g).

Definition lockfree_global_enqueue (task : Z) s : outcome (lockfree N Q) :=
  g ← q_enqueue task (global s); mret (MkLockFree (rings s) g).

Definition lockfree_dequeue (id : nat) s : outcome (Z * lockfree N Q) :=
  q ← deref (rings s !! id);
  let '(t, q') := que_dequeue N q in
  mret (t, MkLockFree (<[id := q']> (rings s)) (global s)).

Definition lockfree_steal (me victim : nat) s : outcome (Z * lockfree N Q) :=
  qv ← deref (rings s !! victim);
  '(temp, qv') ← grab N qv;
  let qs := <[victim := qv']> (rings s) in
  qm ← deref (qs !! me);
  '(t, qm') ← put_stolen N qm temp;
  mret (t, MkLockFree (<[me := qm']> qs) (global s)).

Definition lockfree_global_dequeue s : outcome (Z * lockfree N Q) :=
  '(t, g) ← q_dequeue (global s); mret (t, MkLockFree (rings s) g).

#[global] Instance lockfree_strategy : SchedQueues (lockfree N Q) := {
  s_enqueue := lockfree_enqueue;
  s_global_enqueue := lockfree_global_enqueue;
  s_dequeue := lockfree_dequeue;
  s_steal := lockfree_steal;
  s_global_dequeue := lockfree_global_dequeue
}.

Context `{!TaskQueueLaws Q, !RingSize N}.

Definition lockfree_holds s (Ls : list (list Z)) (G : list Z) : Prop :=
  Forall2 (que_repr N) (rings s) Ls /\ q_holds (global s) G.

Lemma ring_lookup s Ls G id l :
  lockfree_holds s Ls G -> Ls !! id = Some l -> exists q, rings s !! id = Some q /\ que_repr N q l.
Proof. intros [Hh _] Hl. destruct (Forall2_lookup_r _ _ _ _ _ Hh Hl) as (q & Hq & HR). eauto. Qed.

Lemma pending_global (Ls : list (list Z)) G : (length G <= length (pending Ls G))%nat.
Proof. unfold pending. rewrite length_app. lia. Qed.

Lemma lockfree_enqueue_ok s Ls G id x :
  lockfree_holds s Ls G -> x <> 0 -> (id < length Ls)%nat ->
  Forall (fun t => t <> 0) (pending Ls G) -> Z.of_nat (length (pending Ls G)) < 2 ^ 32 ->
  exists s' Ls' G', lockfree_enqueue id x s = Ok s' /\ lockfree_holds s' Ls' G' /\
    length Ls' = length Ls /\ pending Ls' G' ≡ₚ x :: pending Ls G.
Proof.
  intros Hh Hx Hid Hnz Hb. destruct (lookup_lt_is_Some_2 Ls id Hid) as [l Hl].
  destruct (ring_lookup s Ls G id l Hh Hl) as (q & Hq & HR). destruct Hh as [Hrs Hg].
  unfold lockfree_enqueue. rewrite Hq. cbn.
  destruct (que_enqueue_spec N ring_range ring_divides q l x HR) as (q' & -> & HR').
  set (h := take (length l / 2) l) in *. set (d := drop (length l / 2) l) in *.
  destruct (Z.of_nat (length l) <? N); cbn [bool_decide].
  - eexists _, (<[id := l ++ [x]]> Ls), G. split; [done|]. rewrite length_insert. split.
    + split; [by apply Forall2_insert|done].
    + split; [done|]. by apply pending_append.
  - rewrite bool_decide_eq_false_2 by (by destruct h).
    assert (l = h ++ d) as Hhd by (unfold h, d; by rewrite take_drop).
    assert (pending (<[id := d]> Ls) (G ++ h ++ [x]) ≡ₚ x :: pending Ls G) as HP
      by (by apply pending_spill with l).
    assert (Forall (fun t => t <> 0) (h ++ [x])) as Hnz'.
    { assert (Forall (fun t => t <> 0) (pending (<[id := d]> Ls) (G ++ h ++ [x]))) as Ha
        by (rewrite HP; by constructor).
      unfold pending in Ha. rewrite !Forall_app in Ha. rewrite Forall_app. tauto. }
    destruct (q_enqueue_all_ok (global s) G (h ++ [x]) Hg Hnz') as (g' & -> & Hg').
    { pose proof (pending_global (<[id := d]> Ls) (G ++ h ++ [x])) as Hle.
      rewrite HP, length_app in Hle. simpl length in Hle. lia. }
    cbn. eexists _, (<[id := d]> Ls), (G ++ h ++ [x]). split; [done|]. rewrite length_insert.
    split; [|done]. split; [by apply Forall2_insert|done].
Qed.

Lemma half_up_pos n : (0 < n)%nat -> (0 < half_up n)%nat.
Proof. intros Hn. unfold half_up. pose proof (Nat.div_lt n 2). lia. Qed.

Lemma lockfree_steal_ok s Ls G me v l :
  lockfree_holds s Ls G -> Ls !! me = Some [] -> Ls !! v = Some l -> v <> me ->
  exists t s' Ls', lockfree_steal me v s = Ok (t, s') /\ lockfree_holds s' Ls' G /\
    length Ls' = length Ls /\
    (if decide (l = []) then t = 0 /\ Ls' = Ls else t ∈ l /\ pending Ls G ≡ₚ t :: pending Ls' G).
Proof.
  intros Hh Hme Hv Hne. destruct (ring_lookup s Ls G v l Hh Hv) as (qv & Hqv & HRv).
  destruct (ring_lookup s Ls G me [] Hh Hme) as (qm & Hqm & HRm). destruct Hh as [Hrs Hg].
  unfold lockfree_steal. rewrite Hqv. cbn.
  destruct (grab_spec N ring_range ring_even ring_divides qv l HRv) as (qv' & -> & HRv' & Hhalf). cbn.
  rewrite list_lookup_insert_ne, Hqm by done. cbn. set (k := half_up (length l)) in *.
  pose proof (put_stolen_spec N ring_range ring_divides qm (take k l) HRm) as Hput.
  rewrite length_take in Hput. specialize (Hput ltac:(lia)).
  destruct (reverse (take k l)) as [|t rest] eqn:Hrev.
  - assert (l = []) as ->.
    { apply (f_equal length) in Hrev. rewrite length_reverse, length_take in Hrev. simpl in Hrev.
      destruct l as [|y l]; [done|]. pose proof (half_up_pos (length (y :: l)) ltac:(simpl; lia)).
      unfold k in Hrev. simpl length in *. lia. }
    rewrite Hput. cbn. eexists 0, _, Ls. split; [done|]. split; [|done]. split; [|done]. cbn.
    rewrite <- (list_insert_id Ls me []), <- (list_insert_id Ls v []) at 1 by done.
    apply Forall2_insert; [by apply Forall2_insert|done].
  - destruct Hput as (qm' & -> & HRm'). cbn.
    assert (l ≡ₚ t :: reverse rest ++ drop k l) as HP.
    { rewrite <- (take_drop k l) at 1. rewrite <- (reverse_involutive (take k l)), Hrev, reverse_cons.
      solve_Permutation. }
    eexists t, _, (<[me := reverse rest]> (<[v := drop k l]> Ls)). split; [done|]. split_and!.
    + split; [|done]. apply Forall2_insert; [by apply Forall2_insert|done].
    + by rewrite !length_insert.
    + case_decide as Hl0; [subst l; by apply Permutation_nil in HP|]. split.
      * rewrite HP. constructor.
      * apply pending_steal with l; auto.
Qed.

#[global] Program Instance lockfree_laws : SchedQueuesLaws (lockfree N Q) := {|
  s_holds := lockfree_holds
|}.
Next Obligation. intros s Ls G id x Hh Hx Hid Hnz Hb. by apply lockfree_enqueue_ok. Qed.
Next Obligation.
  intros s Ls G x [Hrs Hg] Hx Hb. pose proof (pending_global Ls G).
  destruct (q_enqueue_ok (global s) G x Hg Hx ltac:(lia)) as (g' & He & Hg').
  cbn [s_global_enqueue lockfree_strategy]. unfold lockfree_global_enqueue. rewrite He. cbn.
  eexists. split; [done|]. by split.
Qed.
Next Obligation.
  intros s Ls G id l Hh Hl Hb. destruct (ring_lookup s Ls G id l Hh Hl) as (q & Hq & HR).
  destruct Hh as [Hrs Hg]. cbn [s_dequeue lockfree_strategy]. unfold lockfree_dequeue. rewrite Hq. cbn.
  pose proof (que_dequeue_spec N ring_range q l HR) as Hd. destruct l as [|t l].
  - rewrite Hd. cbn. eexists. split; [done|]. split; [|done]. by apply Forall2_insert.
  - destruct Hd as (q' & -> & HR'). cbn. eexists. split; [done|]. split; [|done]. by apply Forall2_insert.
Qed.
Next Obligation.
  intros s Ls G [Hrs Hg] Hb. pose proof (pending_global Ls G).
  destruct (q_dequeue_ok (global s) G Hg ltac:(lia)) as (g' & He & Hg').
  cbn [s_global_dequeue lockfree_strategy]. unfold lockfree_global_dequeue. rewrite He. cbn.
  eexists. split; [done|]. by split.
Qed.
Next Obligation. intros s Ls G me v l Hh Hme Hv Hne _. by apply lockfree_steal_ok. Qed.
End LockFreeStrategy.

(** ** The scheduler of WorkSteal.v is this template at the deque *)
Section Equivalence.
Context (N m_workers_num m_total_thr_num : Z).

Abbreviation strategy := (WorkStealStrategy.strategy (S := lockfree N counted_deque)).

Definition flat (st : strategy) : WorkSteal.strategy :=
  let s := WorkStealStrategy.queues st in
  WorkSteal.MkStrat (rings s) (m_global_queue (global s)) (m_global_queue_num (global s))
    (WorkStealStrategy.m_total_jobs st) (WorkStealStrategy.m_sleep_num st).

Definition flatten {A} (r : A * strategy) : A * WorkSteal.strategy := (r.1, flat r.2).

Lemma flat_steal me v st :
  WorkSteal.steal N me v (flat st) =
  (r ← WorkStealStrategy.on_queues (s_steal me v) st; mret (flatten r)).
Proof.
  destruct st as [[rs g] j z]. unfold WorkSteal.steal, WorkStealStrategy.on_queues. cbn.
  unfold lockfree_steal. cbn. destruct (rs !! v) as [qv|]; [|done]. cbn.
  destruct (grab N qv) as [[temp qv']|]; [|done]. cbn. destruct (<[v := qv']> rs !! me); [|done]. cbn.
  by destruct (put_stolen N _ temp) as [[t q]|].
Qed.

Lemma flat_steal_loop me victims st :
  WorkSteal.steal_loop N me victims (flat st) =
  (r ← WorkStealStrategy.steal_loop me victims st; mret (flatten r)).
Proof.
  revert st; induction victims as [|v victims IH]; intros st; [done|]. cbn [WorkSteal.steal_loop
    WorkStealStrategy.steal_loop]. rewrite flat_steal.
  destruct (WorkStealStrategy.on_queues _ st) as [[t st']|]; [|done]. cbn. destruct (t =? 0); [|done].
  apply IH.
Qed.

Lemma flat_sleep st :
  WorkSteal.sleep_or_again m_workers_num (flat st) =
  flatten (WorkStealStrategy.sleep_or_again m_workers_num st).
Proof.
  unfold WorkSteal.sleep_or_again, WorkStealStrategy.sleep_or_again, WorkStealStrategy.busy,
    WorkSteal.busy. cbn. repeat case_match; done.
Qed.

Lemma flat_search id victims st :
  WorkSteal.search N m_workers_num m_total_thr_num id victims (flat st) =
  (r ← WorkStealStrategy.search m_workers_num m_total_thr_num id victims st; mret (flatten r)).
Proof.
  unfold WorkSteal.search, WorkStealStrategy.search. change (WorkSteal.m_total_jobs (flat st))
    with (WorkStealStrategy.m_total_jobs st). destruct (0 <? _); [|by rewrite flat_sleep].
  assert (Ok (WorkSteal.global_dequeue (flat st)) =
    (r ← WorkStealStrategy.on_queues s_global_dequeue st; mret (flatten r))) as Hg.
  { destruct st as [[rs [g num]] j z]. unfold WorkSteal.global_dequeue, WorkStealStrategy.on_queues. cbn.
    unfold lockfree_global_dequeue, deque_pop. cbn. destruct (num =? 0); [done|]. by destruct g. }
  destruct (WorkStealStrategy.on_queues _ st) as [[t st1]|]; [|done]. injection Hg as ->. cbn.
  destruct (t =? 0); cbn; [|done]. destruct (m_total_thr_num =? 1); [done|].
  rewrite flat_steal_loop. destruct (WorkStealStrategy.steal_loop _ _ _) as [[t' st2]|]; [|done]. cbn.
  destruct (t' =? 0); cbn; [by rewrite flat_sleep|done].
Qed.

(** The template method over LockFreeStrategy's rings and its counted deque is
    the scheduler of WorkSteal.v, step for step: dequeue and enqueue give the same
    results, the same faults and the same states. *)
Theorem template_is_worksteal (st : strategy) (id : nat) (victims : list nat)
    (worker : option nat) (task : Z) :
  WorkSteal.dequeue N m_workers_num m_total_thr_num id victims (flat st) =
    (r ← WorkStealStrategy.dequeue m_workers_num m_total_thr_num id victims st; mret (flatten r)) /\
  WorkSteal.enqueue N m_workers_num worker task (flat st) =
    (r ← WorkStealStrategy.enqueue m_workers_num worker task st; mret (flatten r)).
Proof.
  split.
  - unfold WorkSteal.dequeue, WorkStealStrategy.dequeue, WorkSteal.dequeue_id,
      WorkStealStrategy.on_queues. destruct st as [[rs g] j z]. cbn. unfold lockfree_dequeue. cbn.
    destruct (rs !! id) as [q|]; [|done]. cbn. destruct (que_dequeue N q) as [t q']. cbn.
    destruct (t =? 0); cbn; [|done].
    by rewrite <- (flat_search id victims).
  - destruct st as [[rs [g num]] j z], worker as [id'|]; [|done].
    unfold WorkSteal.enqueue, WorkSteal.enqueue_id, WorkStealStrategy.enqueue. cbn.
    unfold lockfree_enqueue. cbn. destruct (rs !! id') as [q|]; [|done]. cbn.
    destruct (que_enqueue N q task) as [q' moved]. by destruct (bool_decide (moved = [])).
Qed.
End Equivalence.

(** ** Witnesses: every strategy, with two threads and a few tasks *)
Module StrategyExamples.
Import WorkStealStrategy.

Definition simple0 {Q} (q : Q) : strategy (S := simple 2 Q) :=
  MkStrategy (MkSimple [q; q; q]) 0 0.
Definition lockfree0 {Q} (q : Q) : strategy (S := lockfree 4 Q) :=
  MkStrategy (MkLockFree [new_que [0; 0; 0; 0]; new_que [0; 0; 0; 0]] q) 0 0.

(** Thread 0 enqueues three tasks and another thread one; thread 1 takes two. *)
Definition ops0 : list op :=
  [Enq (Some 0%nat) 11; Enq (Some 0%nat) 12; Enq None 13; Enq (Some 0%nat) 14;
   Deq 1 [0%nat]; Deq 1 [0%nat]].

Lemma ops0_ok : Forall (op_ok 2) ops0.
Proof.
  repeat (apply list.Forall_cons; split); [..|by apply list.Forall_nil]; simpl;
    (split; [lia|]); try (intros id [= <-]; lia);
    (apply list.Forall_cons; split; [lia|by apply list.Forall_nil]).
Qed.

Lemma simple0_repr {Q} `{TaskQueueLaws Q} (q : Q) : q_holds q [] -> some_repr 2 [] (simple0 q).
Proof. intros Hq. exists [[]; []], []. split; [|done]. split; [|done..]. split; [|done]. by repeat constructor. Qed.

Lemma lockfree0_repr {Q} `{TaskQueueLaws Q} (q : Q) : q_holds q [] -> some_repr 2 [] (lockfree0 q).
Proof.
  intros Hq. exists [[]; []], []. split; [|done]. split; [|done..]. split; [|done].
  repeat constructor; simpl; try done; try lia.
Qed.

(** The order differs: the simple strategy steals the oldest task of its victim, the
    lock-free one the newest of the older half. *)
Definition taken {S} (r : outcome (list Z * strategy (S := S))) : list Z :=
  match r with Ok (out, _) => out | _ => [] end.

Example simple_safe_takes : taken (run 2 2 ops0 (simple0 SafeQueue.new_queue)) = [13; 11].
Proof. vm_compute. reflexivity. Qed.
Example simple_linked_takes : taken (run 2 2 ops0 (simple0 init_queue)) = [13; 11].
Proof. vm_compute. reflexivity. Qed.
Example lockfree_linked_takes : taken (run 2 2 ops0 (lockfree0 init_queue)) = [13; 12].
Proof. vm_compute. reflexivity. Qed.
Example lockfree_deque_takes : taken (run 2 2 ops0 (lockfree0 (MkDeque [] 0))) = [13; 12].
Proof. vm_compute. reflexivity. Qed.

Lemma strategy_conserves_witness :
  (exists out st' P', run 2 2 ops0 (simple0 init_queue) = Ok (out, st') /\
     [11; 12; 13; 14] ≡ₚ out ++ P' /\ m_total_jobs st' = Z.of_nat (length P')) /\
  (exists out st' P', run 2 2 ops0 (lockfree0 init_queue) = Ok (out, st') /\
     [11; 12; 13; 14] ≡ₚ out ++ P' /\ m_total_jobs st' = Z.of_nat (length P')).
Proof.
  split.
  - destruct (strategy_conserves 2 2 2 [] (simple0 init_queue) ops0) as (out & st' & P' & H1 & H2 & H3 & _).
    + reflexivity.
    + apply simple0_repr. exact quiet_new.
    + exact ops0_ok.
    + reflexivity.
    + exists out, st', P'. split; [exact H1|]. split; [exact H2|exact H3].
  - destruct (strategy_conserves 2 2 2 [] (lockfree0 init_queue) ops0) as (out & st' & P' & H1 & H2 & H3 & _).
    + reflexivity.
    + apply lockfree0_repr. exact quiet_new.
    + exact ops0_ok.
    + reflexivity.
    + exists out, st', P'. split; [exact H1|]. split; [exact H2|exact H3].
Defined.
End StrategyExamples.
