(* ===== verification/Stream.v ===== *)
(** * Stream handlers

    include/mola/event_handler.hpp: StreamBuffer, StreamManager and
    StreamHandler, the non-blocking reader and writer of one socket.

    The reader asks its StreamManager for a buffer of some size, fills it with
    whatever the reads return and hands it back when it is full.  A manager is
    an instance of the class [StreamManager]; the theorems about the handler are
    proved against the class.  The writer takes buffers from its mailbox and
    writes them piece by piece; the mailbox has one priority, and its behaviour
    is the abstract one of Mailbox.v: a queue. *)
From stdpp Require Import base list numbers.
From S2P Require Import Prelude.

(** ** StreamManager: [S] is its state, [E] what it hands on *)
Class StreamManager (S E : Type) := {
  get_buffer : S -> outcome (nat * S);
  consume : S -> list Z -> outcome (S * list E)
}.

(** What ::read and ::write can do *)
Inductive io := IoError | IoAgain | IoDone (bytes : list Z).

Section Reader.
Context {S E : Type} `{!StreamManager S E}.

(** The reading half of a StreamHandler: [rd_size] is the size of m_rd_buf,
    [collected] the bytes read into it so far; [reading] says that the handler is
    still registered for READ. *)
Record reader := MkReader {
  mgr : S;
  rd_size : nat;
  collected : list Z;
  reading : bool
}.

(** read_loop, also what start() does *)
Definition read_loop (s : S) : outcome reader :=
  '(n, s') ← get_buffer s;
  mret (MkReader s' n [] true).

(** handle_event(READ): the result says whether to call it again.  The read is
    asked for [rd_size - length collected] bytes and returns at most that. *)
Definition handle_read (r : io) (h : reader) : outcome (bool * reader * list E) :=
  match r with
  | IoError | IoDone [] => mret (false, MkReader (mgr h) (rd_size h) (collected h) false, [])
  | IoAgain => mret (false, h, [])
  | IoDone bytes =>
      let c := collected h ++ bytes in
      if Nat.eqb (length c) (rd_size h) then
        '(s, evs) ← consume (mgr h) c;
        h' ← read_loop s;
        mret (true, h', evs)
      else mret (true, MkReader (mgr h) (rd_size h) c (reading h), [])
  end.

(** A sequence of reads, and what they hand on. *)
Fixpoint run_reads (rs : list io) (h : reader) : outcome (reader * list E) :=
  match rs with
  | [] => mret (h, [])
  | r :: rs =>
      '(_, h', evs) ← handle_read r h;
      '(h'', evs') ← run_reads rs h';
      mret (h'', evs ++ evs')
  end.

(** The reference: the stream byte by byte. *)
Definition feed1 (b : Z) (h : reader) : outcome (reader * list E) :=
  let c := collected h ++ [b] in
  if Nat.eqb (length c) (rd_size h) then
    '(s, evs) ← consume (mgr h) c;
    h' ← read_loop s;
    mret (h', evs)
  else mret (MkReader (mgr h) (rd_size h) c (reading h), []).

Fixpoint feed (bs : list Z) (h : reader) : outcome (reader * list E) :=
  match bs with
  | [] => mret (h, [])
  | b :: bs =>
      '(h', evs) ← feed1 b h;
      '(h'', evs') ← feed bs h';
      mret (h'', evs ++ evs')
  end.

Lemma feed_app bs cs h :
  feed (bs ++ cs) h =
  ('(h', e1) ← feed bs h; '(h'', e2) ← feed cs h'; mret (h'', e1 ++ e2)).
Proof.
  revert h; induction bs as [|b bs IH]; intros h; simpl.
  - destruct (feed cs h) as [[h' e]|]; done.
  - destruct (feed1 b h) as [[h' e]|]; simpl; [|done]. rewrite IH.
    destruct (feed bs h') as [[h2 e2]|]; simpl; [|done].
    destruct (feed cs h2) as [[h3 e3]|]; simpl; [|done]. by rewrite app_assoc.
Qed.

(** Bytes that do not fill the buffer are only collected. *)
Lemma feed_short bs h :
  (length (collected h) + length bs < rd_size h)%nat ->
  feed bs h = Ok (MkReader (mgr h) (rd_size h) (collected h ++ bs) (reading h), []).
Proof.
  revert h; induction bs as [|b bs IH]; intros h Hlt; simpl.
  - rewrite app_nil_r. by destruct h.
  - simpl in Hlt. unfold feed1. rewrite (proj2 (Nat.eqb_neq _ _)) by (rewrite length_app; simpl; lia).
    cbn. rewrite IH by (simpl; rewrite length_app; simpl; lia). cbn. by rewrite <- app_assoc.
Qed.

(** Bytes that fill it exactly. *)
Lemma feed_exact bs h :
  bs <> [] -> (length (collected h) + length bs = rd_size h)%nat ->
  feed bs h =
  ('(s, evs) ← consume (mgr h) (collected h ++ bs); h' ← read_loop s; mret (h', evs)).
Proof.
  intros Hne Hlen. destruct (exists_last Hne) as (pre & b & ->).
  rewrite length_app in Hlen. simpl in Hlen.
  rewrite feed_app, feed_short by lia. cbn. unfold feed1. cbn.
  rewrite !length_app. simpl. rewrite (proj2 (Nat.eqb_eq _ _)) by lia. rewrite <- app_assoc.
  destruct (consume (mgr h) (collected h ++ pre ++ [b])) as [[s evs]|]; cbn; [|done].
  destruct (read_loop s) as [h'|]; cbn; [|done]. by rewrite app_nil_r.
Qed.

(** The reads of a run never return more than they were asked for. *)
Inductive fits : list io -> reader -> Prop :=
| fits_nil h : fits [] h
| fits_again rs h : fits rs h -> fits (IoAgain :: rs) h
| fits_done bytes rs h b h' evs :
    bytes <> [] -> (length (collected h) + length bytes <= rd_size h)%nat ->
    handle_read (IoDone bytes) h = Ok (b, h', evs) -> fits rs h' ->
    fits (IoDone bytes :: rs) h.

Definition io_bytes (rs : list io) : list Z :=
  concat (map (fun r => match r with IoDone bytes => bytes | _ => [] end) rs).

Lemma handle_read_feed bytes h :
  bytes <> [] -> (length (collected h) + length bytes <= rd_size h)%nat ->
  ('(_, h', evs) ← handle_read (IoDone bytes) h; mret (h', evs)) = feed bytes h.
Proof.
  intros Hne Hle. destruct bytes as [|b0 bs0]; [done|]. set (bytes := b0 :: bs0) in *.
  unfold handle_read. fold bytes. change (match bytes with [] => _ | _ :: _ => ?x end) with x.
  destruct (Nat.eqb_spec (length (collected h ++ bytes)) (rd_size h)) as [He|He];
    rewrite length_app in He.
  - rewrite feed_exact by done.
    destruct (consume (mgr h) (collected h ++ bytes)) as [[s evs]|]; cbn; [|done].
    by destruct (read_loop s).
  - rewrite feed_short by lia. done.
Qed.

(** Any reads that fit are the same as reading byte by byte. *)
Lemma reads_feed (rs : list io) (h : reader) : fits rs h -> run_reads rs h = feed (io_bytes rs) h.
Proof.
  induction 1 as [h|rs h _ IH|bytes rs h b h' evs Hne Hle Hh _ IH]; [done| |].
  - cbn [run_reads handle_read io_bytes map concat]. cbn.
    change (concat (map _ rs)) with (io_bytes rs). rewrite <- IH.
    by destruct (run_reads rs h) as [[h2 e2]|].
  - unfold io_bytes. cbn [map concat]. change (concat (map _ rs)) with (io_bytes rs).
    rewrite feed_app, <- (handle_read_feed bytes h Hne Hle).
    cbn [run_reads]. rewrite Hh. cbn. by rewrite IH.
Qed.

(** How the network cuts the byte stream does not matter: any sequence of
    reads, of any sizes and with any number of EAGAIN in between, leaves the
    handler in the state and hands on the messages that reading the stream byte
    by byte gives. *)
Theorem reads_chunking_irrelevant (rs : list io) (h : reader) :
  fits rs h -> run_reads rs h = feed (io_bytes rs) h.
Proof. apply reads_feed. Qed.
End Reader.

(** ** The writer *)

(** A StreamBuffer with the buffers linked behind it (async_write of a vector). *)
Definition chain := (list Z * list (list Z))%type.
Definition chain_bytes (c : chain) : list Z := c.1 ++ concat c.2.

(** What ::write can do: fail, EAGAIN, or take up to [n] bytes. *)
Inductive wio := WError | WAgain | WDone (n : nat).

(** The writing half of a StreamHandler.  [mq] is the content of its mailbox,
    oldest first; [wire] everything that the socket took. *)
Record writer := MkWriter {
  mq : list chain;
  mblocked : bool;
  mclosed : bool;
  wr_buf : option chain;
  written : nat;
  writing : bool;
  wire : list Z
}.

Definition new_writer : writer := MkWriter [] true false None 0 true [].

(** The loop that makes m_wr_buf non-null; None when the mailbox got blocked.  The
    mailbox is open: the branch that closes it also takes the handler from the
    multiplexer, and async_write then refuses before it writes. *)
Definition fetch_buf (w : writer) : option (chain * writer) :=
  match wr_buf w with
  | Some c => Some (c, w)
  | None =>
      match mq w with
      | [] => None
      | c :: q => Some (c, MkWriter q (mblocked w) (mclosed w) (Some c) (written w) (writing w) (wire w))
      end
  end.

Definition block (w : writer) : writer :=
  MkWriter (mq w) true (mclosed w) (wr_buf w) (written w) (writing w) (wire w).

(** write_loop *)
Definition next_link (c : chain) : option chain :=
  match c.2 with [] => None | b :: l => Some (b, l) end.

(** handle_event(WRITE), with the results of its writes; when [rs] is used up
    the socket takes no more.  The result is always false here: true is only
    returned when another thread holds the lock. *)
Fixpoint handle_write (rs : list wio) (w : writer) : bool * writer :=
  match fetch_buf w with
  | None => (false, block w)
  | Some (c, w) =>
      match rs with
      | [] | WAgain :: _ => (false, w)
      | WError :: _ =>
          (false, MkWriter [] (mblocked w) true (wr_buf w) (written w) false (wire w))
      | WDone n :: rs =>
          let out := take n (drop (written w) c.1) in
          let done := (written w + length out)%nat in
          let w1 := MkWriter (mq w) (mblocked w) (mclosed w) (wr_buf w) done (writing w) (wire w ++ out) in
          if Nat.ltb 0 (length out) && Nat.eqb done (length c.1) then
            handle_write rs
              (MkWriter (mq w) (mblocked w) (mclosed w) (next_link c) 0 (writing w) (wire w ++ out))
          else (false, w1)
      end
  end.

(** async_write *)
Definition async_write (c : chain) (rs : list wio) (w : writer) : Z * writer :=
  if mclosed w then (-1, w)
  else
    let w1 := MkWriter (mq w ++ [c]) false (mclosed w) (wr_buf w) (written w) (writing w) (wire w) in
    (0, if mblocked w then (handle_write rs w1).2 else w1).

(** async_write(std::vector<StreamBuffer*>& ) *)
Definition async_write_list (cs : list (list Z)) (rs : list wio) (w : writer) : outcome (Z * writer) :=
  match cs with
  | [] => Fault BadDeref
  | c :: l => mret (async_write (c, l) rs w)
  end.

(** The bytes that were accepted and not yet written. *)
Definition unsent (w : writer) : list Z :=
  match wr_buf w with Some c => drop (written w) (chain_bytes c) | None => [] end
  ++ concat (map chain_bytes (mq w)).

Definition writer_ok (w : writer) : Prop :=
  match wr_buf w with Some c => (written w <= length c.1)%nat | None => written w = O end.

Lemma next_link_bytes c : match next_link c with Some c' => chain_bytes c' | None => [] end = concat c.2.
Proof. unfold next_link. by destruct c.2. Qed.

Lemma fetch_buf_spec w c w' :
  writer_ok w -> fetch_buf w = Some (c, w') ->
  writer_ok w' /\ wr_buf w' = Some c /\ unsent w' = unsent w /\ wire w' = wire w /\
  mclosed w' = mclosed w.
Proof.
  unfold fetch_buf, writer_ok, unsent. intros Hok. destruct (wr_buf w) as [c0|] eqn:Hb.
  - intros [= <- <-]. by rewrite Hb.
  - destruct (mq w) as [|c1 q]; [done|]. intros [= <- <-]. simpl. rewrite Hok. split_and!; try done. lia.
Qed.

Lemma drop_take_length {A} (n : nat) (d : list A) : drop (length (take n d)) d = drop n d.
Proof.
  rewrite length_take. destruct (decide (n <= length d)%nat).
  - by rewrite Nat.min_l.
  - rewrite Nat.min_r by lia. rewrite !drop_ge by lia. done.
Qed.

(** Writing [out] from the current buffer. *)
Lemma unsent_write w c n :
  writer_ok w -> wr_buf w = Some c ->
  let out := take n (drop (written w) c.1) in
  let done := (written w + length out)%nat in
  (done <= length c.1)%nat /\
  unsent w = out ++ drop done c.1 ++ concat c.2 ++ concat (map chain_bytes (mq w)).
Proof.
  unfold writer_ok, unsent. intros Hok Hb. rewrite Hb in *. cbv zeta.
  split; [rewrite length_take, length_drop; lia|].
  unfold chain_bytes at 1. rewrite drop_app_le by done. rewrite <- drop_drop, drop_take_length.
  rewrite <- (take_drop n (drop (written w) c.1)) at 1. by rewrite <- !app_assoc.
Qed.

(** One event, whatever the socket does: bytes move from [unsent] to [wire] in
    order; only a failing write loses the queue. *)
Lemma handle_write_spec rs w :
  writer_ok w ->
  let w' := (handle_write rs w).2 in
  writer_ok w' /\ exists lost, wire w ++ unsent w = wire w' ++ unsent w' ++ lost /\
    (mclosed w' = false -> lost = []) /\ (mclosed w = true -> mclosed w' = true).
Proof.
  revert w; induction rs as [|r rs IH]; intros w Hok; simpl;
    (destruct (fetch_buf w) as [[c w1]|] eqn:Hf; simpl;
      [|split; [done|]; exists []; by rewrite app_nil_r]);
    destruct (fetch_buf_spec _ _ _ Hok Hf) as (H1 & H2 & H3 & H4 & H5); clear Hf;
    rewrite <- H3, <- H4, <- H5.
  - split; [done|]. exists []. by rewrite app_nil_r.
  - destruct r as [| |n]; simpl.
    + split; [done|]. exists (concat (map chain_bytes (mq w1))). unfold unsent. simpl.
      by rewrite app_nil_r.
    + split; [done|]. exists []. by rewrite app_nil_r.
    + destruct (unsent_write w1 c n H1 H2) as [Hle Hun].
      set (out := take n (drop (written w1) c.1)) in *.
      destruct (_ && _) eqn:Hfull.
      * apply andb_true_iff in Hfull as [_ Hd%Nat.eqb_eq].
        match goal with |- context [handle_write rs ?z] => set (w2 := z) end.
        destruct (IH w2) as (Hok2 & lost & Heq & Hl1 & Hl2).
        { unfold writer_ok, w2. simpl. destruct (next_link c); [lia|done]. }
        split; [done|]. exists lost. rewrite <- Heq. split; [|done].
        rewrite Hun, Hd, drop_all. unfold unsent, w2. simpl.
        rewrite <- app_assoc. f_equal. f_equal. simpl. f_equal.
        rewrite <- (next_link_bytes c). by destruct (next_link c).
      * split; [unfold writer_ok; simpl; by rewrite H2|]. exists []. simpl. rewrite app_nil_r.
        split; [|done]. rewrite Hun, <- app_assoc. unfold unsent. simpl. rewrite H2.
        unfold chain_bytes at 2. rewrite drop_app_le by done. by rewrite <- app_assoc.
Qed.

Lemma async_write_spec c rs w :
  writer_ok w ->
  let w' := (async_write c rs w).2 in
  writer_ok w' /\ exists lost, wire w ++ unsent w ++ (if mclosed w then [] else chain_bytes c)
                    = wire w' ++ unsent w' ++ lost /\
    (mclosed w' = false -> lost = []) /\ (mclosed w = true -> mclosed w' = true).
Proof.
  intros Hok. unfold async_write. destruct (mclosed w) eqn:Hc; simpl.
  { split; [done|]. exists []. by rewrite !app_nil_r. }
  match goal with |- context [handle_write rs ?z] => set (w1 := z) end.
  assert (writer_ok w1) as Hok1 by done.
  assert (unsent w1 = unsent w ++ chain_bytes c) as Hun.
  { unfold unsent, w1. simpl. rewrite map_app, concat_app. simpl. by rewrite app_nil_r, app_assoc. }
  destruct (mblocked w); simpl.
  - destruct (handle_write_spec rs w1 Hok1) as (H1 & lost & H2 & H3 & H4).
    split; [done|]. exists lost. rewrite <- H2, Hun. done.
  - split; [done|]. exists []. by rewrite app_nil_r, Hun.
Qed.

(** A run of the writer: sends by any thread and WRITE events of the backend. *)
Inductive wop := OpSend (c : chain) (rs : list wio) | OpEvent (rs : list wio).

Definition run_wop (o : wop) (w : writer) : writer :=
  match o with
  | OpSend c rs => (async_write c rs w).2
  | OpEvent rs => (handle_write rs w).2
  end.

Fixpoint run_wops (os : list wop) (w : writer) : writer :=
  match os with [] => w | o :: os => run_wops os (run_wop o w) end.

(** The bytes of all sends. *)
Definition offered (os : list wop) : list Z :=
  concat (map (fun o => match o with OpSend c _ => chain_bytes c | OpEvent _ => [] end) os).

Lemma run_wops_spec os w :
  writer_ok w ->
  let w' := run_wops os w in
  writer_ok w' /\ (mclosed w = true -> mclosed w' = true) /\
  (mclosed w' = false -> wire w ++ unsent w ++ offered os = wire w' ++ unsent w').
Proof.
  revert w; induction os as [|o os IH]; intros w Hok; simpl.
  - split; [done|]. split; [done|]. by rewrite app_nil_r.
  - assert (writer_ok (run_wop o w) /\ (mclosed w = true -> mclosed (run_wop o w) = true) /\
      (mclosed (run_wop o w) = false ->
       wire w ++ unsent w ++ match o with OpSend c _ => chain_bytes c | _ => [] end =
       wire (run_wop o w) ++ unsent (run_wop o w))) as (H1 & H2 & H3).
    { destruct o as [c rs|rs]; simpl.
      - destruct (async_write_spec c rs w Hok) as (H1 & lost & H2 & H3 & H4).
        split; [done|]. split; [done|]. intros Hcl. rewrite (H3 Hcl), app_nil_r in H2.
        destruct (mclosed w); [|done]. by rewrite H4 in Hcl.
      - destruct (handle_write_spec rs w Hok) as (H1 & lost & H2 & H3 & H4).
        split; [done|]. split; [done|]. intros Hcl. rewrite (H3 Hcl), app_nil_r in H2.
        by rewrite app_nil_r. }
    destruct (IH _ H1) as (H4 & H5 & H6). split; [done|]. split; [auto|]. intros Hcl.
    rewrite <- H6 by done. unfold offered. simpl. change (concat (map _ os)) with (offered os).
    rewrite !app_assoc. f_equal. rewrite <- app_assoc. apply H3.
    destruct (mclosed (run_wop o w)) eqn:E; [|done]. rewrite H5 in Hcl; done.
Qed.

(** The writer keeps the order and loses nothing: for any sequence of sends
    and WRITE events and any partial, refused or blocked writes, as long as no
    write failed, the bytes on the wire followed by those still queued are
    exactly the bytes of the sends in their order. *)
Theorem writer_preserves_order (os : list wop) :
  mclosed (run_wops os new_writer) = false ->
  offered os = wire (run_wops os new_writer) ++ unsent (run_wops os new_writer).
Proof. intros Hc. destruct (run_wops_spec os new_writer eq_refl) as (_ & _ & H). exact (H Hc). Qed.

(** The pieces left to write. *)
Definition pieces (w : writer) : list (list Z) :=
  match wr_buf w with Some c => drop (written w) c.1 :: c.2 | None => [] end
  ++ concat (map (fun c => c.1 :: c.2) (mq w)).

Lemma pieces_fetch w c w' : writer_ok w -> fetch_buf w = Some (c, w') -> pieces w' = pieces w.
Proof.
  unfold fetch_buf, pieces, writer_ok. intros Hok. destruct (wr_buf w) as [c0|] eqn:Hb.
  - intros [= <- <-]. by rewrite Hb.
  - destruct (mq w) as [|c1 q]; [done|]. intros [= <- <-]. simpl. by rewrite Hok.
Qed.

(** A socket that takes everything is drained: one WRITE event with enough
    complete writes puts all queued bytes on the wire and blocks the mailbox,
    provided that no buffer is empty. *)
Theorem writer_drains (n k : nat) (w : writer) :
  writer_ok w -> Forall (fun p => (0 < length p <= n)%nat) (pieces w) ->
  (length (pieces w) <= k)%nat ->
  let w' := (handle_write (replicate k (WDone n)) w).2 in
  wire w' = wire w ++ unsent w /\ unsent w' = [] /\ mblocked w' = true.
Proof.
  revert w; induction k as [|k IH]; intros w Hok Hp Hk; simpl;
    destruct (fetch_buf w) as [[c w1]|] eqn:Hf.
  - rewrite <- (pieces_fetch _ _ _ Hok Hf) in Hk.
    destruct (fetch_buf_spec _ _ _ Hok Hf) as (_ & H2 & _). unfold pieces in Hk.
    rewrite H2 in Hk. simpl in Hk. lia.
  - unfold fetch_buf in Hf. unfold unsent. simpl. destruct (wr_buf w); [done|].
    destruct (mq w); [|done]. by rewrite app_nil_r.
  - rewrite <- (pieces_fetch _ _ _ Hok Hf) in Hp, Hk.
    destruct (fetch_buf_spec _ _ _ Hok Hf) as (H1 & H2 & H3 & H4 & H5). clear Hf.
    rewrite <- H3, <- H4. destruct (unsent_write w1 c n H1 H2) as [Hle Hun].
    unfold pieces in Hp, Hk. rewrite H2 in Hp, Hk. simpl in Hp, Hk.
    apply Forall_cons_iff in Hp as [Hp0 Hp].
    assert (take n (drop (written w1) c.1) = drop (written w1) c.1) as Hall by (apply take_ge; lia).
    rewrite Hall in *. clear Hall. rewrite length_drop in *.
    unfold writer_ok in H1. rewrite H2 in H1.
    rewrite (proj2 (Nat.ltb_lt _ _)), (proj2 (Nat.eqb_eq _ _)) by lia. simpl.
    match goal with |- context [handle_write _ ?z] => set (w2 := z) end.
    assert (pieces w2 = c.2 ++ concat (map (fun c => c.1 :: c.2) (mq w1))) as Hpw.
    { unfold pieces, w2, next_link. simpl. by destruct c.2. }
    destruct (IH w2) as (IH1 & IH2 & IH3).
    + unfold writer_ok, w2. simpl. destruct (next_link c); [lia|done].
    + by rewrite Hpw.
    + rewrite Hpw. lia.
    + split; [|done]. rewrite IH1. unfold w2 at 1. simpl. rewrite Hun, <- app_assoc. f_equal. f_equal.
      replace (written w1 + (length c.1 - written w1))%nat with (length c.1) by lia.
      rewrite drop_all. simpl. unfold unsent, w2. simpl. f_equal.
      rewrite <- (next_link_bytes c). by destruct (next_link c).
  - unfold fetch_buf in Hf. unfold unsent. simpl. destruct (wr_buf w); [done|].
    destruct (mq w); [|done]. by rewrite app_nil_r.
Qed.

(** An empty buffer stalls the connection: once it is the current one, every
    WRITE event whose writes do not fail leaves the handler as it was, so what is
    queued behind it is never sent. *)
Theorem empty_buffer_stalls (l : list (list Z)) (rs : list wio) (w : writer) :
  wr_buf w = Some ([], l) -> written w = O -> hd WAgain rs <> WError ->
  handle_write rs w = (false, w).
Proof.
  intros Hb Hw Hr. destruct rs as [|r rs]; simpl; unfold fetch_buf; rewrite Hb; [done|].
  destruct r as [| |n]; [done|done|]. rewrite Hw. simpl. rewrite take_nil. simpl.
  rewrite app_nil_r. destruct w; simpl in *. by subst.
Qed.

(** ** Witnesses *)
Module StreamExamples.
(** A manager that reads records of three bytes. *)
#[local] Instance three : StreamManager unit (list Z) :=
  {| get_buffer s := Ok (3%nat, s); consume s bs := Ok (s, [bs]) |}.

Definition demo_reads : list io := [IoDone [1; 2]; IoAgain; IoDone [3]; IoDone [4]].

Lemma reads_chunking_irrelevant_witness :
  run_reads demo_reads (MkReader tt 3 [] true) = Ok (MkReader tt 3 [4] true, [[1; 2; 3]]).
Proof.
  rewrite (reads_chunking_irrelevant demo_reads (MkReader tt 3 [] true)); [reflexivity|].
  eapply fits_done; [done|simpl; lia|reflexivity|].
  apply fits_again. eapply fits_done; [done|simpl; lia|reflexivity|].
  eapply fits_done; [done|simpl; lia|reflexivity|]. apply fits_nil.
Defined.

Definition demo_ops : list wop :=
  [OpSend ([1; 2], [[3; 4; 5]]) [WDone 9; WDone 1]; OpSend ([6], []) []; OpEvent [WDone 9; WAgain]].

Lemma writer_preserves_order_witness :
  offered demo_ops = wire (run_wops demo_ops new_writer) ++ [6].
Proof. apply (writer_preserves_order demo_ops). reflexivity. Defined.

Definition demo_w : writer := MkWriter [([6], [[7; 8]])] false false (Some ([1; 2], [])) 1 true [1].

Lemma writer_drains_witness :
  wire (handle_write (replicate 3 (WDone 4)) demo_w).2 = [1; 2; 6; 7; 8].
Proof.
  apply (writer_drains 4 3 demo_w); [vm_compute; lia| |simpl; lia].
  repeat constructor; simpl; lia.
Defined.

Lemma empty_buffer_stalls_witness :
  handle_write [WDone 5; WDone 5] (MkWriter [([6], [])] false false (Some ([], [])) 0 true [1])
  = (false, MkWriter [([6], [])] false false (Some ([], [])) 0 true [1]).
Proof. apply (empty_buffer_stalls []); [reflexivity|reflexivity|discriminate]. Defined.
End StreamExamples.
