(* ===== verification/Gateway.v ===== *)
(** * Receivers: messages between nodes and user protocols

    GatewayReceiver (include/mola/gateway.hpp, src/gateway.cpp) reads the
    messages that Node::deliver_message (src/node_manager.cpp) writes, a metadata
    header followed by the body; BuiltinReceiver (src/network.cpp) reads packets
    of a head/body protocol given by the user, with a default one.  Both are
    instances of [StreamManager]. *)
From stdpp Require Import base list numbers.
From S2P Require Import Prelude Bytes ActorId Message Stream.

(** ** GatewayReceiver *)
Inductive gw_state := STATE_HANDSHAKE | STATE_WAIT_HANDSHAKE | STATE_GET_HEAD | STATE_GET_BODY.

Record GatewayReceiver := MkGateway {
  g_state : gw_state;
  g_nid : Z;
  g_raw : option metadata
}.

(** What it hands on: the node id of a passive connection's peer, and messages
    (without a body when its size is 0). *)
Inductive gw_event := GwHandshake (nid : Z) | GwMessage (m : metadata) (body : option (list Z)).

Section Gateway.
(** [le]: the byte order of this host; [local]: the id of the local node. *)
Context (le : bool) (local : Z).

Definition new_gateway (passive : bool) (nid : Z) : GatewayReceiver :=
  MkGateway (if passive then STATE_WAIT_HANDSHAKE else STATE_HANDSHAKE) nid None.

(** deliver_message, in the runtime: a message for another node is fatal. *)
Definition gw_deliver (m : metadata) (body : option (list Z)) : outcome gw_event :=
  _ ← mola_assert (is_local local (target m));
  mret (GwMessage m body).

Definition gw_head (nid : Z) (bytes : list Z) : outcome (GatewayReceiver * list gw_event) :=
  _ ← mola_assert (Nat.eqb (length bytes) sizeof_metadata);
  let meta := set_data_type TYPE_STREAM (meta_of_bytes le bytes) in
  if 0 <? msize meta then mret (MkGateway STATE_GET_BODY nid (Some meta), [])
  else ev ← gw_deliver meta None; mret (MkGateway STATE_GET_HEAD nid None, [ev]).

Definition gw_consume (g : GatewayReceiver) (bytes : list Z)
  : outcome (GatewayReceiver * list gw_event) :=
  match g_state g with
  | STATE_WAIT_HANDSHAKE =>
      let nid := of_le (reverse (take 4 bytes)) in   (* ntohl *)
      mret (MkGateway STATE_GET_HEAD nid (g_raw g), [GwHandshake nid])
  | STATE_HANDSHAKE | STATE_GET_HEAD => gw_head (g_nid g) bytes
  | STATE_GET_BODY =>
      meta ← deref (g_raw g);
      _ ← mola_assert (msize meta =? Z.of_nat (length bytes));
      ev ← gw_deliver (set_data_type TYPE_STREAM meta) (Some bytes);
      mret (MkGateway STATE_GET_HEAD (g_nid g) None, [ev])
  end.

Definition gw_get_buffer (g : GatewayReceiver) : outcome (nat * GatewayReceiver) :=
  match g_state g with
  | STATE_WAIT_HANDSHAKE => mret (4%nat, g)
  | STATE_HANDSHAKE | STATE_GET_HEAD =>
      mret (sizeof_metadata, MkGateway STATE_GET_HEAD (g_nid g) (Some zero_meta))
  | STATE_GET_BODY =>
      meta ← deref (g_raw g);
      mret (Z.to_nat (msize meta), g)
  end.

#[global] Instance gateway_manager : StreamManager GatewayReceiver gw_event :=
  {| get_buffer := gw_get_buffer; consume := gw_consume |}.

(** Node::deliver_message: what it puts on the wire for a message with metadata
    [m], after serialize, from a host of byte order [le_s]; this node's record
    in the sender's NodeManager says which order to convert to. *)
Definition send_bytes (le_s : bool) (m : metadata) (body : list Z) : list Z :=
  meta_bytes le_s ((if negb le then metatobe le_s else metatole le_s) m) ++ body.

(** A message that may be sent to this node. *)
Record sent := MkSent { s_le : bool; s_meta : metadata; s_body : list Z }.

Definition sent_ok (x : sent) : Prop :=
  meta_wf (s_meta x) /\ msize (s_meta x) = Z.of_nat (length (s_body x)) /\
  is_local local (target (s_meta x)) = true.

Definition sent_bytes (x : sent) : list Z := send_bytes (s_le x) (s_meta x) (s_body x).

Definition received (x : sent) : gw_event :=
  GwMessage (set_data_type TYPE_STREAM (s_meta x))
    (if 0 <? Z.of_nat (length (s_body x)) then Some (s_body x) else None).

(** The handler between two messages. *)
Definition at_head (nid : Z) : reader :=
  MkReader (MkGateway STATE_GET_HEAD nid (Some zero_meta)) sizeof_metadata [] true.

Lemma feed_message nid x :
  sent_ok x -> feed (sent_bytes x) (at_head nid) = Ok (at_head nid, [received x]).
Proof.
  destruct x as [les m body]. intros (Hm & Hs & Hl). simpl in *.
  unfold sent_bytes, send_bytes. simpl. rewrite meta_bytes_converted, feed_app.
  rewrite feed_exact; [|by destruct le|by rewrite length_meta_bytes]. cbn.
  unfold gw_consume. cbn. unfold gw_head. rewrite length_meta_bytes, meta_of_bytes_bytes by done.
  cbn. rewrite Hs. unfold received. simpl.
  destruct (Z.ltb_spec 0 (Z.of_nat (length body))) as [Hpos|Hz]; cbn.
  - rewrite Hs. rewrite Nat2Z.id. rewrite feed_exact; [|by destruct body|done]. cbn.
    unfold gw_consume. cbn. rewrite Hs, Z.eqb_refl. cbn. unfold gw_deliver. cbn.
    rewrite Hl. cbn. done.
  - unfold gw_deliver. cbn. rewrite Hl. cbn. destruct body; [done|simpl in Hz; lia].
Qed.

Lemma feed_messages nid xs :
  Forall sent_ok xs ->
  feed (concat (map sent_bytes xs)) (at_head nid) = Ok (at_head nid, map received xs).
Proof.
  induction 1 as [|x xs Hx Hxs IH]; [done|]. cbn [map concat].
  rewrite feed_app, feed_message by done. cbn. rewrite IH. done.
Qed.

(** C33: messages between nodes arrive as they were sent: a node that reads any
    part of the byte stream that its peers' sends produced has delivered an
    initial segment of the messages, each with its metadata (now marked as a
    stream) and its body, whatever the byte orders of the hosts; after the whole
    stream it has delivered all of them and waits for the next header. *)
Theorem gateway_roundtrip (nid : Z) (xs : list sent) (bs rest : list Z) :
  Forall sent_ok xs -> concat (map sent_bytes xs) = bs ++ rest ->
  exists h evs, feed bs (at_head nid) = Ok (h, evs) /\ evs `prefix_of` map received xs /\
    (rest = [] -> h = at_head nid /\ evs = map received xs).
Proof.
  intros Hxs Heq. pose proof (feed_messages nid xs Hxs) as Hf. rewrite Heq, feed_app in Hf.
  destruct (feed bs (at_head nid)) as [[h evs]|] eqn:E; [|done]. cbn in Hf.
  destruct (feed rest h) as [[h2 e2]|] eqn:E2; [|done]. cbn in Hf. injection Hf as <- <-.
  exists h, evs. split; [done|]. split; [by exists e2|]. intros ->. cbn in E2.
  injection E2 as <- <-. by rewrite app_nil_r.
Qed.
End Gateway.

(** ** BuiltinReceiver *)

(** mola_proto: the head of a packet has a known size and determines the size of
    the body. *)
Record proto := MkProto {
  header_size : Z;
  body_size : list Z -> Z;
  make_buffer : list Z -> list Z
}.

(** What a protocol must satisfy to be usable for bodies [P]. *)
Class ProtoLaws (p : proto) (P : list Z -> Prop) := {
  proto_header : 0 < header_size p;
  proto_frame : forall body, P body -> exists head,
    make_buffer p body = head ++ body /\ Z.of_nat (length head) = header_size p /\
    body_size p head = Z.of_nat (length body)
}.

Inductive b_state := STATE_GET_LEN | STATE_GET_BUF.

Record BuiltinReceiver := MkBuiltin { bst : b_state; m_len : Z; m_disable : bool }.

Section Builtin.
Context (p : proto).

(** A packet goes to deliver_message through an AsyncTask. *)
Definition b_consume (b : BuiltinReceiver) (bytes : list Z)
  : outcome (BuiltinReceiver * list (list Z)) :=
  _ ← mola_assert (m_len b =? Z.of_nat (length bytes));
  mret match bst b with
       | STATE_GET_LEN =>
           let n := body_size p bytes in
           (MkBuiltin (if 0 <? n then STATE_GET_BUF else STATE_GET_LEN) n (m_disable b), [])
       | STATE_GET_BUF =>
           (MkBuiltin STATE_GET_LEN (m_len b) (m_disable b),
            if m_disable b then [] else [bytes])
       end.

Definition b_get_buffer (b : BuiltinReceiver) : outcome (nat * BuiltinReceiver) :=
  let n := match bst b with STATE_GET_LEN => header_size p | STATE_GET_BUF => m_len b end in
  _ ← mola_assert (0 <? n);
  mret (Z.to_nat n, MkBuiltin (bst b) n (m_disable b)).

#[global] Instance builtin_manager : StreamManager BuiltinReceiver (list Z) :=
  {| get_buffer := b_get_buffer; consume := b_consume |}.

Definition at_len (disable : bool) : reader :=
  MkReader (MkBuiltin STATE_GET_LEN (header_size p) disable) (Z.to_nat (header_size p)) [] true.

#[local] Arguments read_loop : simpl never.

Fixpoint nonempty (l : list (list Z)) : list (list Z) :=
  match l with
  | [] => []
  | [] :: l => nonempty l
  | b :: l => b :: nonempty l
  end.

(** Packets of a head/body protocol arrive whole and in order: for every
    protocol that satisfies its laws, reading the packets that SendToSocket makes
    delivers exactly the non-empty bodies; a disabled client delivers nothing and
    keeps reading. *)
Theorem builtin_roundtrip `{!ProtoLaws p P} (disable : bool) (bodies : list (list Z)) :
  Forall P bodies ->
  feed (concat (map (make_buffer p) bodies)) (at_len disable) =
  Ok (at_len disable, if disable then [] else nonempty bodies).
Proof.
  pose proof proto_header as Hpos.
  assert (forall n, read_loop (MkBuiltin STATE_GET_LEN n disable) = Ok (at_len disable)) as Hloop.
  { intros n. unfold read_loop. cbn. unfold b_get_buffer. cbn. by rewrite (proj2 (Z.ltb_lt _ _) Hpos). }
  induction 1 as [|body bodies Hb _ IH]; [by destruct disable|]. cbn [map concat].
  destruct (proto_frame body Hb) as (head & Hmk & Hlen & Hsz).
  rewrite Hmk, <- app_assoc, feed_app. rewrite feed_exact; cycle 1.
  { intros ->. simpl in Hlen. lia. }
  { simpl. lia. }
  cbn. unfold b_consume. cbn. rewrite Hlen, Z.eqb_refl, Hsz. cbn.
  destruct (Z.ltb_spec 0 (Z.of_nat (length body))) as [Hnb|Hz].
  - unfold read_loop. cbn. unfold b_get_buffer. cbn. rewrite (proj2 (Z.ltb_lt _ _) Hnb). cbn.
    rewrite feed_app, feed_exact; [|by destruct body|simpl; lia]. cbn. unfold b_consume. cbn.
    rewrite Z.eqb_refl. cbn. rewrite Hloop. cbn. rewrite IH. cbn.
    by destruct disable, body.
  - destruct body; [|simpl in Hz; lia]. rewrite Hloop. cbn. rewrite IH. cbn.
    by destruct disable.
Qed.
End Builtin.

(** *** The default protocol: the size of the body as a size_t of the host *)
Section DefaultProto.
Context (le : bool).

Definition simple_get_header_size : Z := 8.
Definition simple_get_body_size (header : list Z) : Z := of_host le header.
Definition simple_make_buffer (body : list Z) : list Z :=
  to_host le 8 (Z.of_nat (length body)) ++ body.

Definition default_proto : proto :=
  MkProto simple_get_header_size simple_get_body_size simple_make_buffer.

#[global] Instance default_proto_laws :
  ProtoLaws default_proto (fun body => Z.of_nat (length body) < 2 ^ 64).
Proof.
  split; [done|]. intros body Hb. eexists. split; [done|]. split.
  - by rewrite length_to_host.
  - cbn. unfold simple_get_body_size. apply of_to_host. change (256 ^ Z.of_nat 8) with (2 ^ 64). lia.
Qed.
End DefaultProto.

(** ** Witnesses *)
Module GatewayExamples.
Definition m1 : metadata := MkMeta 1 3 2 (MkActorID 9 1 1 1) (MkActorID 7 2 1 5) 77.
Definition m2 : metadata := MkMeta 2 3 0 (MkActorID 9 1 1 1) (MkActorID 7 2 1 5) 78.
Definition demo_sent : list sent := [MkSent true m1 [11; 12]; MkSent false m2 []].

Lemma demo_sent_ok : Forall (sent_ok 7) demo_sent.
Proof.
  repeat constructor; simpl; unfold actor_id_wf, in_width; simpl; try lia.
Qed.

Lemma gateway_roundtrip_witness :
  exists h evs, @feed _ _ (gateway_manager true 7) (concat (map (sent_bytes true) demo_sent))
                  (at_head 9) = Ok (h, evs) /\
    evs = [GwMessage (set_data_type TYPE_STREAM m1) (Some [11; 12]);
           GwMessage (set_data_type TYPE_STREAM m2) None].
Proof.
  destruct (gateway_roundtrip true 7 9 demo_sent (concat (map (sent_bytes true) demo_sent)) [])
    as (h & evs & H1 & _ & H2); [apply demo_sent_ok|by rewrite app_nil_r|].
  exists h, evs. split; [exact H1|]. exact (proj2 (H2 eq_refl)).
Defined.

Lemma builtin_roundtrip_witness :
  @feed _ _ (builtin_manager (default_proto true))
    (concat (map (simple_make_buffer true) [[5; 6]; []; [7]])) (at_len (default_proto true) false)
  = Ok (at_len (default_proto true) false, [[5; 6]; [7]]).
Proof.
  apply (builtin_roundtrip (default_proto true) false [[5; 6]; []; [7]]).
  repeat constructor; simpl; lia.
Defined.
End GatewayExamples.
