(* ===== verification/Link.v ===== *)
(** * A connection from end to end

    What Message.v, Stream.v and Gateway.v say together about two nodes:
    Node::deliver_message of src/node_manager.cpp takes messages from the memory of one
    process, packs them and gives header and body to the writer of a connection; WRITE
    events move bytes to the socket, in pieces as the socket takes them; the reader of the
    other process gets them, in pieces as its reads return them, and its gateway hands on
    messages, which are unpacked into user data. *)
From stdpp Require Import base list gmap numbers.
From S2P Require Import Prelude Bytes ActorId Message Stream Gateway.

#[local] Arguments wrap : simpl never.

(** ** The sending process *)

(** Its memory of messages and the writer of the connection to one peer *)
Record sender_state := MkSender { s_mem : mem; s_writer : writer }.

(** deliver_message of messages, and WRITE events of the multiplexer *)
Inductive lop := LSend (p : Z) (rs : list wio) | LEvent (rs : list wio).

Section Link.
(** Byte orders of the hosts; ids of the sending and of the receiving node *)
Context (le_s le_r : bool) (nid_s nid_r : Z).

(** "Fix ID of current node", and the target's node id *)
Definition addressed (m : metadata) : metadata :=
  set_target (set_node_id nid_r (target m)) (set_sender (set_node_id nid_s (sender m)) m).

(** Node::deliver_message to another node, with a connected client *)
Definition deliver_message (p : Z) (rs : list wio) (S : sender_state) : outcome sender_state :=
  w ← deref (wraps (s_mem S) !! p);
  '(_, buf, size, s) ← serialize le_s p (negb le_r) (set_wraps <[p := with_meta addressed w]> (s_mem S));
  w ← deref (wraps s !! p);
  bytes ← deref (bufs s !! buf);
  mret (MkSender s (async_write (meta_bytes le_s (m_metadata w), [take (Z.to_nat size) bytes]) rs (s_writer S)).2).

Fixpoint run_link (os : list lop) (S : sender_state) : outcome sender_state :=
  match os with
  | [] => mret S
  | LSend p rs :: os => S ← deliver_message p rs S; run_link os S
  | LEvent rs :: os => run_link os (MkSender (s_mem S) (handle_write rs (s_writer S)).2)
  end.

Definition sends (os : list lop) : list Z :=
  omap (fun o => match o with LSend p _ => Some p | LEvent _ => None end) os.

(** ** Messages of a type with a pack function *)
Context (v : vtab) (ps : list Z -> Z) (pk : list Z -> list Z) (un : list Z -> option (list Z)).
Context (Hps : pack_size v = Some ps) (Hpk : pack v = Some pk).

(** What the type owes for data [ud]: packing is undone by unpacking, and announces its
    size. *)
Definition packable (ud : list Z) : Prop :=
  un (pk ud) = Some ud /\ ps ud = Z.of_nat (length (pk ud)) /\ 0 < ps ud < 2 ^ 32.

(** A message to send: its wrapper and its body in memory, its metadata and its data *)
Record letter := MkLetter { t_wrap : Z; t_body : Z; t_meta : metadata; t_data : list Z }.

Definition in_memory (s : mem) (t : letter) : Prop :=
  exists n m, wraps s !! t_wrap t = Some (MkWrapper n (t_meta t) (t_body t)) /\ t_body t <> 0 /\
    msgs s !! t_body t = Some m /\ mvtab m = Some v /\ user_data m = t_data t /\ 0 < count m < 2 ^ 32.

Definition letter_ok (t : letter) : Prop :=
  meta_wf (t_meta t) /\ data_type (t_meta t) = TYPE_USER_NORMAL /\ packable (t_data t).

(** What is on the wire for it *)
Definition sent_of (t : letter) : sent :=
  MkSent le_s (set_size (ps (t_data t)) (addressed (t_meta t))) (pk (t_data t)).

Definition chain_of (t : letter) : chain :=
  (meta_bytes le_s ((if negb le_r then metatobe le_s else metatole le_s) (s_meta (sent_of t))), [s_body (sent_of t)]).

Lemma chain_of_bytes t : chain_bytes (chain_of t) = sent_bytes le_r (sent_of t).
Proof. unfold chain_bytes, chain_of, sent_bytes, send_bytes. cbn. by rewrite app_nil_r. Qed.

Lemma sent_of_ok t : in_width 32 nid_r -> letter_ok t -> sent_ok nid_r (sent_of t).
Proof.
  intros Hn ((H1 & H2 & H3 & H4 & H5 & H6) & Ht & _ & Hsz & Hlt). unfold sent_ok, sent_of. cbn.
  assert (u32 (ps (t_data t)) = Z.of_nat (length (pk (t_data t)))) as Hu by (rewrite wrap_small; [done|width_lia]).
  split_and!; [|done|].
  - unfold meta_wf. cbn. split_and!; try done; [apply wrap_range; lia|..]; by apply actor_id_wf_setters.
  - unfold is_local, node_id. cbn. rewrite (wrap_small 32 nid_r) by done. rewrite Z.eqb_refl. by destruct (nid_r =? LOCAL).
Qed.

(** A message is packed and written; the others stay as they are. *)
Lemma deliver_message_spec t rs S : in_memory (s_mem S) t -> letter_ok t ->
  exists S', deliver_message (t_wrap t) rs S = Ok S' /\ s_writer S' = (async_write (chain_of t) rs (s_writer S)).2 /\
    forall t', t_wrap t' <> t_wrap t -> t_body t' <> t_body t -> in_memory (s_mem S) t' -> in_memory (s_mem S') t'.
Proof.
  intros (n & m & Hw & Hb & Hm & Hv & Hud & Hc) (_ & Ht & _ & Hsz & Hlt). unfold deliver_message. rewrite Hw. cbn.
  unfold serialize. cbn. rewrite lookup_insert_eq. cbn. rewrite Ht. cbn. rewrite Hm. cbn. rewrite Hv. cbn.
  rewrite Hps, Hpk. cbn. rewrite Hud, (proj2 (Z.leb_le _ _)) by lia. cbn.
  match goal with |- context [drop_ _ ?x] => set (s0 := x) end.
  destruct (drop_spec (t_wrap t) (MkWrapper n (set_size (ps (t_data t)) (addressed (t_meta t))) (t_body t)) m s0)
    as (s3 & -> & Hwr & Hbf & _ & Hms); [by unfold s0; cbn; rewrite lookup_insert_eq|unfold is_stream; cbn; by rewrite Ht|done|done|done|eauto|].
  cbn. rewrite Hwr. cbn. rewrite lookup_insert_eq. cbn. rewrite lookup_insert_eq. cbn. rewrite Hbf.
  unfold s0 at 1. cbn. rewrite lookup_insert_eq. cbn. eexists. split; [reflexivity|]. cbn. split.
  - unfold chain_of, sent_of. cbn. rewrite Hsz, Nat2Z.id, Nat.sub_diag. cbn. by rewrite app_nil_r, firstn_all.
  - intros t' Hw' Hb' (n' & m' & E & Hb0 & Em & Hrest). exists n', m'. cbn. rewrite Hms, Hwr.
    split; [|split; [done|split; [|done]]]; cbn.
    + unfold s0. cbn. by rewrite !lookup_insert_ne.
    + destruct (count m =? 1); [rewrite lookup_delete_ne|rewrite lookup_insert_ne]; done.
Qed.

(** The sends of a run are those of the letters, in their order. *)
Lemma run_link_spec os ts S : Forall (in_memory (s_mem S)) ts -> Forall letter_ok ts ->
  NoDup (t_wrap <$> ts) -> NoDup (t_body <$> ts) -> sends os = t_wrap <$> ts ->
  exists S' wos, run_link os S = Ok S' /\ s_writer S' = run_wops wos (s_writer S) /\
    offered wos = concat (map (sent_bytes le_r) (map sent_of ts)).
Proof.
  revert ts S. induction os as [|[p rs|rs] os IH]; intros ts S Hin Hok Hnw Hnb Hs.
  - destruct ts; [|done]. exists S, []. done.
  - destruct ts as [|t ts]; [done|]. cbn in Hs. injection Hs as Hp Hs. subst p.
    apply list.Forall_cons in Hin as [Ht Hin], Hok as [Hokt Hok]. cbn in Hnw, Hnb.
    apply list.NoDup_cons in Hnw as [Hw Hnw], Hnb as [Hb Hnb].
    destruct (deliver_message_spec t rs S Ht Hokt) as (S1 & HS1 & Hwr & Hkeep).
    edestruct (IH ts S1) as (S' & wos & Hrun & Hw' & Hoff); [|done..|].
    { apply list.Forall_forall. intros t' Ht'. apply Hkeep; [..|by apply (proj1 (list.Forall_forall _ _) Hin)].
      - intros E. apply Hw. rewrite <- E. by apply list_elem_of_fmap_2.
      - intros E. apply Hb. rewrite <- E. by apply list_elem_of_fmap_2. }
    exists S', (OpSend (chain_of t) rs :: wos). split; [cbn; by rewrite HS1|]. split; [by rewrite Hw', Hwr|].
    unfold offered in *. cbn [map concat]. by rewrite chain_of_bytes, Hoff.
  - cbn in Hs. destruct (IH ts (MkSender (s_mem S) (handle_write rs (s_writer S)).2) Hin Hok Hnw Hnb Hs)
      as (S' & wos & Hrun & Hw' & Hoff). exists S', (OpEvent rs :: wos). done.
Qed.

(** ** The receiving process *)
#[local] Instance receiver : StreamManager GatewayReceiver gw_event := gateway_manager le_r nid_r.

(** C31: a connection delivers, end to end: messages that one node sends to another, in any
    interleaving with the WRITE events of the connection and however little the socket takes
    at a time, are packed and written without touching memory that is not there; whatever
    part of the bytes the other node has read, however they were cut, it has handed on
    an initial segment of the messages in their order; once everything is written and
    read, all of them; and each body unpacks to the data of its message. *)
Theorem link_end_to_end (nid : Z) (os : list lop) (ts : list letter) (s : mem) :
  in_width 32 nid_r -> Forall (in_memory s) ts -> Forall letter_ok ts ->
  NoDup (t_wrap <$> ts) -> NoDup (t_body <$> ts) -> sends os = t_wrap <$> ts ->
  exists S, run_link os (MkSender s new_writer) = Ok S /\
    (forall rs, mclosed (s_writer S) = false -> fits rs (at_head nid) -> io_bytes rs `prefix_of` wire (s_writer S) ->
       exists h evs, run_reads rs (at_head nid) = Ok (h, evs) /\ evs `prefix_of` map received (map sent_of ts) /\
         (io_bytes rs = wire (s_writer S) -> unsent (s_writer S) = [] -> evs = map received (map sent_of ts))) /\
    forall t, t ∈ ts -> un (s_body (sent_of t)) = Some (t_data t).
Proof.
  intros Hn Hin Hok Hnw Hnb Hs.
  destruct (run_link_spec os ts (MkSender s new_writer) Hin Hok Hnw Hnb Hs) as (S & wos & Hrun & Hw & Hoff).
  exists S. split; [done|]. split.
  - intros rs Hcl Hfits [rest1 Hpre]. destruct (run_wops_spec wos new_writer eq_refl) as (_ & _ & Hsp).
    cbn [s_writer] in Hw. rewrite <- Hw in Hsp. specialize (Hsp Hcl). cbn in Hsp.
    assert (Forall (sent_ok nid_r) (map sent_of ts)) as Hsent.
    { change (map sent_of ts) with (sent_of <$> ts). apply Forall_fmap. eapply list.Forall_impl; [exact Hok|]. intros t. by apply sent_of_ok. }
    pose proof (feed_messages le_r nid_r nid _ Hsent) as Hf.
    rewrite <- Hoff, Hsp, Hpre, <- app_assoc, feed_app in Hf. rewrite reads_feed by done.
    destruct (feed (io_bytes rs) (at_head nid)) as [[h evs]|] eqn:E; cbn in Hf; [|done].
    destruct (feed (rest1 ++ unsent (s_writer S)) h) as [[h2 e2]|] eqn:E2; cbn in Hf; [|done]. injection Hf as -> <-.
    exists h, evs. split; [done|]. split; [by exists e2|]. intros Hall Hun.
    assert (rest1 = []) as -> by (rewrite Hall in Hpre; by apply (app_inv_head (wire (s_writer S))); rewrite app_nil_r).
    rewrite Hun in E2. cbn in E2. injection E2 as _ <-. by rewrite app_nil_r.
  - intros t Ht. by apply (proj1 (list.Forall_forall _ _) Hok t Ht).
Qed.
End Link.

(** Example: one message of MessageExamples, written in two pieces and read in three. *)
Module LinkExamples.
Import MessageExamples.

Definition demo_un (bs : list Z) : option (list Z) := match bs with [] => None | _ :: ud => Some ud end.
Definition demo_ps (ud : list Z) : Z := Z.of_nat (length ud) + 1.

Definition demo_letter : letter :=
  MkLetter 2 1 (set_data_type TYPE_USER_NORMAL zero_meta) [5; 6].

(** The bytes of the wire, read in three pieces: the first part of the header, the rest of
    it, the body *)
Definition demo_wire : list Z := sent_bytes false (sent_of true 3 4 demo_ps demo_pack demo_letter).
Definition demo_reads : list io :=
  [IoDone (take 7 demo_wire); IoAgain; IoDone (take (sizeof_metadata - 7) (drop 7 demo_wire));
   IoDone (drop sizeof_metadata demo_wire)].

#[local] Instance demo_receiver : StreamManager GatewayReceiver gw_event := receiver false 4.

Lemma demo_reads_fit : fits demo_reads (at_head 9).
Proof.
  unfold demo_reads.
  repeat first [apply fits_nil | apply fits_again
    | eapply fits_done; [vm_compute; discriminate|vm_compute; lia|vm_compute; reflexivity|]].
Qed.

Lemma link_end_to_end_witness :
  exists S, run_link true false 3 4 [LSend 2 [WDone 10]; LEvent [WDone 100; WDone 100]] (MkSender normal_mem new_writer) = Ok S /\
    (exists h, run_reads demo_reads (at_head 9) = Ok (h, [received (sent_of true 3 4 demo_ps demo_pack demo_letter)])) /\
    demo_un (s_body (sent_of true 3 4 demo_ps demo_pack demo_letter)) = Some [5; 6].
Proof.
  destruct (link_end_to_end true false 3 4 demo_vtab demo_ps demo_pack demo_un eq_refl eq_refl 9
    [LSend 2 [WDone 10]; LEvent [WDone 100; WDone 100]] [demo_letter] normal_mem) as (S & HS & Hread & Hun).
  - width_lia.
  - repeat constructor. exists 1, demo_body. by split_and!.
  - apply list.Forall_singleton. unfold letter_ok, meta_wf, actor_id_wf, packable, in_width. by split_and!.
  - apply list.NoDup_singleton.
  - apply list.NoDup_singleton.
  - reflexivity.
  - exists S. split; [exact HS|]. split; [|apply (Hun demo_letter); left].
    assert (wire (s_writer S) = io_bytes demo_reads /\ unsent (s_writer S) = [] /\ mclosed (s_writer S) = false) as (Ew & Eu & Ec).
    { clear -HS. vm_compute in HS. injection HS as <-. by vm_compute. }
    destruct (Hread demo_reads Ec demo_reads_fit) as (h & evs & Hrun & _ & Hall); [by rewrite Ew|].
    exists h. rewrite Hall in Hrun by done. exact Hrun.
Defined.
End LinkExamples.
