(* ===== verification/Actor.v ===== *)
(** * Actors: the schedule loop and the request contexts

    include/mola/actor.hpp, with the gather groups of include/mola/message.hpp
    and the gather calls of src/dispatcher.cpp.

    [execute] is one scheduling of an actor: it takes messages from its mailbox,
    which is the abstract mailbox of Mailbox.v with two priorities, until the
    module's threshold is reached or nothing is left, while other threads (and the callbacks
    themselves) deliver messages to it.  The second part is the
    bookkeeping of asynchronous requests: request ids are allocated, recycled and
    key the saved contexts. *)
From stdpp Require Import base list gmap numbers.
From S2P Require Import Prelude Message Mailbox.

(** ** Actor::GetMsgPriority: replies overtake requests *)
Definition is_reply (m : metadata) : bool := is_response m || is_gather m.
Definition GetMsgPriority (m : metadata) : nat := if is_reply m then 0%nat else 1%nat.

Inductive ExecStatus := RESUMABLE | BLOCKED | EXIT.

Section Execute.
(** [St] is the state of the actor's module instance and [invoke] the processing
    of one message (set_current_ctx, Module::invoke_message, delete_req_ctx),
    which may end in the exception of Actor::exit: [None]. *)
Context {St : Type} (invoke : metadata -> St -> option St).

(** The mailbox, abstractly: the shared stack, newest first, and the two queues. *)
Definition amailbox := (list (Z * metadata) * list (list (Z * metadata)))%type.

Definition inbox (mb : amailbox) : list (Z * metadata) := mb.1 ++ concat mb.2.

(** get_message *)
Definition get_message (mb : amailbox) : option metadata * amailbox :=
  let '(r, Sk, Qs) := spec_dequeue GetMsgPriority mb.1 mb.2 in (snd <$> r, (Sk, Qs)).

(** deliver_message of any number of messages, in the order they came: a message to a
    blocked mailbox unblocks it. *)
Abbreviation batch := (list (Z * metadata)).
Definition arrive (l : batch) (mb : amailbox) (blocked : bool) : amailbox * bool :=
  ((reverse l ++ mb.1, mb.2), blocked && bool_decide (l = [])).

(** What arrives during a scheduling is given as the batches between its accesses to the
    mailbox; nothing comes after the last one. *)
Definition next_batch (env : list batch) : batch * list batch :=
  match env with [] => ([], []) | l :: env => (l, env) end.

(** The loop of execute, from the counter [i] on; a reply does not count.  The
    result is None when an exception ended it. *)
Fixpoint exec_loop (fuel : nat) (i threshold : Z) (env : list batch) (mb : amailbox) (blocked : bool) (s : St)
  : outcome (option St * amailbox * bool * list batch * list metadata) :=
  match fuel with
  | O => Fault OutOfFuel
  | S fuel =>
      if i <=? threshold then
        let '(l, env) := next_batch env in
        let '(mb, blocked) := arrive l mb blocked in
        match get_message mb with
        | (None, mb') => mret (Some s, mb', blocked, env, [])
        | (Some m, mb') =>
            match invoke m s with
            | None => mret (None, mb', blocked, env, [m])
            | Some s' =>
                '(r, mb'', blocked, env, ms) ←
                  exec_loop fuel (if is_reply m then i else u32 (i + 1)) threshold env mb' blocked s';
                mret (r, mb'', blocked, env, m :: ms)
            end
        end
      else mret (Some s, mb, blocked, env, [])
  end.

(** is_blocked() or try_block(): the mailbox was blocked, as that of an actor that
    was started without a message is, or nothing is pending *)
Definition idle (blocked : bool) (mb : amailbox) : bool :=
  blocked || bool_decide (inbox mb = []).

(** What execute sees of an actor: whether its init callback has run, the state
    of its module instance, its mailbox and whether that is blocked or closed. *)
Inductive State := ACTOR_STARTUP | ACTOR_RUNNING | ACTOR_SUSPEND.
Inductive mbox_tag := MB_OPEN | MB_BLOCKED | MB_CLOSED.
Record sched := MkSched {
  m_status : State;
  m_data : option St;
  m_mbox : amailbox;
  m_tag : mbox_tag
}.

(** Module::init_instance: the init callback of the spec, if there is one; it may
    not throw. *)
Definition init_instance (init : option (St -> St)) (s : St) : St :=
  match init with Some f => f s | None => s end.

(** The first schedule of an actor. *)
Definition startup (init : option (St -> St)) (st : State) (s : St) : State * St :=
  match st with
  | ACTOR_STARTUP => (ACTOR_RUNNING, init_instance init s)
  | _ => (st, s)
  end.

(** The end of execute: m_mbox.is_blocked() || m_mbox.try_block() *)
Definition exec_end (env : list batch) (mb : amailbox) (blocked : bool) : bool * amailbox * list batch :=
  let '(l, env) := next_batch env in
  let '(mb, blocked) := arrive l mb blocked in
  if blocked then (true, mb, env)
  else
    let '(l, env) := next_batch env in
    let '(mb, _) := arrive l mb blocked in
    (bool_decide (inbox mb = []), mb, env).

(** Actor::execute for an actor with the instance state [s] and a mailbox that is
    [blocked] or open: nobody but the actor itself closes it.  Every turn of the
    loop but the last takes a message, so that one more than the messages there are and
    the messages that come is enough fuel.  An exception closes the mailbox; what close
    does to the memory of the messages left is in Mailbox.v. *)
Definition execute (init : option (St -> St)) (threshold : Z) (st : State) (env : list batch) (mb : amailbox)
    (blocked : bool) (s : St) : outcome (ExecStatus * sched * list metadata * list batch) :=
  let '(st', s0) := startup init st s in
  '(r, mb', blocked, env, ms) ←
    exec_loop (S (length (inbox mb) + length (concat env))) 1 threshold env mb blocked s0;
  mret (match r with
        | None => (EXIT, MkSched st' None mb' MB_CLOSED, ms, env)
        | Some s' =>
            match exec_end env mb' blocked with
            | (true, mb', env) => (BLOCKED, MkSched st' (Some s') mb' MB_BLOCKED, ms, env)
            | (false, mb', env) => (RESUMABLE, MkSched st' (Some s') mb' MB_OPEN, ms, env)
            end
        end).

Definition mb_wf (mb : amailbox) : Prop :=
  length mb.2 = 2%nat.

Lemma prio_lt (m : metadata) : (GetMsgPriority m < 2)%nat.
Proof. unfold GetMsgPriority. destruct (is_reply m); lia. Qed.

Lemma get_message_spec mb :
  mb_wf mb ->
  match get_message mb with
  | (None, mb') => inbox mb = [] /\ mb_wf mb' /\ inbox mb' = []
  | (Some m, mb') => mb_wf mb' /\ exists a, inbox mb ≡ₚ (a, m) :: inbox mb'
  end.
Proof.
  destruct mb as [Sk Qs]. unfold mb_wf, get_message, inbox, spec_dequeue. simpl. intros Hlen.
  assert (forall x, x ∈ Sk -> (GetMsgPriority x.2 < length Qs)%nat) as Hpr
    by (intros; rewrite Hlen; apply prio_lt).
  assert (forall D Qs, length (sort_into GetMsgPriority D Qs) = length Qs) as Hsl.
  { clear. induction D as [|x D IH]; intros Qs; simpl; [done|]. by rewrite IH, length_insert. }
  destruct (decide (concat Qs = [])) as [HQ|HQ].
  - pose proof (sort_into_perm GetMsgPriority Sk Qs Hpr) as HP. rewrite HQ, app_nil_r in HP.
    destruct (first_nonempty (sort_into GetMsgPriority Sk Qs)) as [[[p x] l]|] eqn:Hf; simpl.
    + apply first_nonempty_spec in Hf as [Hp _].
      rewrite length_insert, Hsl, HQ, app_nil_r. split; [done|]. exists x.1.
      etransitivity; [symmetry; exact HP|]. etransitivity; [exact (concat_uncons_perm _ _ _ _ Hp)|].
      by destruct x.
    + apply first_nonempty_None in Hf. rewrite Hsl, Hf, HQ, app_nil_r. rewrite Hf in HP.
      apply Permutation_nil in HP. done.
  - destruct (first_nonempty Qs) as [[[p x] l]|] eqn:Hf; simpl.
    + apply first_nonempty_spec in Hf as [Hp _]. rewrite length_insert. split; [done|].
      exists x.1. rewrite (concat_uncons_perm _ _ _ _ Hp). destruct x. simpl. solve_Permutation.
    + by apply first_nonempty_None in Hf.
Qed.

Fixpoint count_requests (ms : list metadata) : Z :=
  match ms with
  | [] => 0
  | m :: ms => (if is_reply m then 0 else 1) + count_requests ms
  end.

Lemma count_requests_nonneg ms : 0 <= count_requests ms.
Proof. induction ms as [|m ms IH]; simpl; [lia|]. destruct (is_reply m); lia. Qed.

(** The module's state after the messages [ms]. *)
Fixpoint run_all (ms : list metadata) (s : St) : option St :=
  match ms with
  | [] => Some s
  | m :: ms => invoke m s ≫= run_all ms
  end.

Lemma next_batch_eq env : exists used, env = used ++ (next_batch env).2 /\ concat used = (next_batch env).1 /\
  (length used <= 1)%nat.
Proof. destruct env as [|l env]; [exists []|exists [l]]; cbn; rewrite ?app_nil_r; split_and!; (done || lia). Qed.

Lemma arrive_spec l mb blocked : mb_wf mb -> (blocked = true -> inbox mb = []) ->
  mb_wf (arrive l mb blocked).1 /\ (inbox (arrive l mb blocked).1).*2 ≡ₚ (inbox mb).*2 ++ l.*2 /\
  ((arrive l mb blocked).2 = true -> inbox (arrive l mb blocked).1 = []).
Proof.
  intros Hwf Hb. unfold arrive, inbox. cbn. split; [done|]. split.
  - rewrite <- app_assoc, fmap_app, (Permutation_app_comm (reverse l).*2). by rewrite reverse_Permutation.
  - intros [-> ->%bool_decide_eq_true]%andb_true_iff. by apply Hb.
Qed.

Lemma inbox_nil_perm (mb mb' : amailbox) (l : list metadata) :
  (inbox mb').*2 ≡ₚ (inbox mb).*2 ++ l -> (length (inbox mb') = length (inbox mb) + length l)%nat.
Proof. intros H. apply Permutation_length in H. by rewrite length_app, !length_fmap in H. Qed.

(** What the loop does: [used] are the batches that came in time. *)
Lemma exec_loop_spec fuel i threshold env mb blocked s :
  mb_wf mb -> (blocked = true -> inbox mb = []) -> (length (inbox mb) + length (concat env) < fuel)%nat ->
  1 <= i -> threshold + 1 < 2 ^ 32 ->
  exists r mb' blocked' env' ms used,
    exec_loop fuel i threshold env mb blocked s = Ok (r, mb', blocked', env', ms) /\
    env = used ++ env' /\ mb_wf mb' /\ (blocked' = true -> inbox mb' = []) /\
    (inbox mb).*2 ++ (concat used).*2 ≡ₚ ms ++ (inbox mb').*2 /\ r = run_all ms s /\
    (0 < count_requests ms -> i + count_requests ms <= threshold + 1) /\
    (is_Some r -> i <= threshold + 1 -> inbox mb' = [] \/ i + count_requests ms = threshold + 1).
Proof.
  revert i env mb blocked s; induction fuel as [|fuel IH]; intros i env mb blocked s Hwf Hbl Hf Hi1 Ht; [lia|].
  cbn [exec_loop]. destruct (Z.leb_spec i threshold) as [Hi|Hi].
  2:{ eexists (Some s), mb, blocked, env, [], []. do 4 (split; [done|]). split; [by rewrite app_nil_r|].
      simpl. split; [done|]. split; [lia|]. intros _ Hle. right. lia. }
  destruct (next_batch_eq env) as (used & Henv & Hused & _). destruct (next_batch env) as [l env1]. cbn in Henv, Hused.
  destruct (arrive_spec l mb blocked Hwf Hbl) as (Hwf0 & HP0 & Hbl0). destruct (arrive l mb blocked) as [mb0 bl0]. cbn in Hwf0, HP0, Hbl0.
  pose proof (inbox_nil_perm _ _ _ HP0) as Hlen. rewrite length_fmap in Hlen.
  rewrite Henv, concat_app, length_app, Hused in Hf.
  pose proof (get_message_spec mb0 Hwf0) as Hg. destruct (get_message mb0) as [[m|] mb1].
  - destruct Hg as (Hwf1 & a & HP). pose proof HP as HPl. apply Permutation_length in HPl. cbn in HPl.
    assert ((inbox mb).*2 ++ l.*2 ≡ₚ m :: (inbox mb1).*2) as HPm by (rewrite <- HP0, HP; done).
    assert (bl0 = true -> inbox mb1 = []) as Hbl1.
    { intros H0. specialize (Hbl0 H0). rewrite Hbl0 in HPl. cbn in HPl. lia. }
    destruct (invoke m s) as [s'|] eqn:Hinv.
    + rewrite wrap_small by width_lia.
      destruct (IH (if is_reply m then i else i + 1) env1 mb1 bl0 s' Hwf1 Hbl1)
        as (r & mb' & bl' & env' & ms & used' & -> & -> & Hwf' & Hbl' & HP' & Hrun & Hle & Heq);
        [lia|destruct (is_reply m); lia|done|].
      cbn. exists r, mb', bl', env', (m :: ms), (used ++ used'). split; [done|]. split; [by rewrite Henv, app_assoc|].
      split; [done|]. split; [done|]. pose proof (count_requests_nonneg ms). split; [|split; [|split]]; simpl.
      * rewrite concat_app, fmap_app, Hused, app_assoc, HPm. cbn. by rewrite HP'.
      * by rewrite Hinv.
      * destruct (is_reply m); [lia|]. destruct (decide (0 < count_requests ms)); lia.
      * intros Hr Hb. destruct (Heq Hr) as [?|He]; [destruct (is_reply m); lia|by left|]. right. destruct (is_reply m); lia.
    + eexists None, mb1, bl0, env1, [m], used. split; [done|]. do 3 (split; [done|]). simpl. rewrite Hused.
      split; [by rewrite HPm|]. split; [by rewrite Hinv|]. split; [destruct (is_reply m); lia|by intros [? ?]].
  - destruct Hg as (He & Hwf1 & He1). eexists (Some s), mb1, bl0, env1, [], used. split; [done|]. do 2 (split; [done|]).
    split; [done|]. rewrite Hused, <- HP0, He, He1. split; [done|]. split; [done|]. split; [simpl; lia|by left].
Qed.

(** The end: at most two more batches come in time. *)
Lemma exec_end_spec env mb blocked : mb_wf mb -> (blocked = true -> inbox mb = []) ->
  exists idle mb' env' late, exec_end env mb blocked = (idle, mb', env') /\ env = late ++ env' /\ (length late <= 2)%nat /\
    (inbox mb').*2 ≡ₚ (inbox mb).*2 ++ (concat late).*2 /\ (idle = true <-> inbox mb' = []).
Proof.
  intros Hwf Hbl. unfold exec_end. destruct (next_batch_eq env) as (u1 & E1 & C1 & L1).
  destruct (next_batch env) as [l1 env1]. cbn in E1, C1.
  destruct (arrive_spec l1 mb blocked Hwf Hbl) as (Hwf1 & HP1 & Hbl1). destruct (arrive l1 mb blocked) as [mb1 bl1]. cbn in Hwf1, HP1, Hbl1.
  destruct bl1.
  { exists true, mb1, env1, u1. split; [done|]. split; [done|]. split; [lia|]. rewrite C1. split; [done|]. split; auto. }
  destruct (next_batch_eq env1) as (u2 & E2 & C2 & L2). destruct (next_batch env1) as [l2 env2]. cbn in E2, C2.
  destruct (arrive_spec l2 mb1 false Hwf1 Hbl1) as (Hwf2 & HP2 & _). destruct (arrive l2 mb1 false) as [mb2 bl2]. cbn in Hwf2, HP2.
  eexists _, mb2, env2, (u1 ++ u2). split; [done|]. split; [by rewrite <- app_assoc, <- E2|].
  split; [rewrite length_app; lia|]. rewrite bool_decide_eq_true. split; [|done].
  by rewrite HP2, HP1, concat_app, fmap_app, C1, C2, app_assoc.
Qed.

(** C9: one scheduling of an actor, while other threads deliver finitely many messages
    to its mailbox at any time, terminates; it runs the init callback first if it is the first
    one; every message that was there or came in time is either invoked, exactly once,
    or left in the mailbox; at most [threshold] messages that are not replies are
    invoked.  The mailbox is left blocked exactly when nothing is in it at that moment, and the
    actor yields with messages left only when its threshold is used up or the messages came
    after the loop had found nothing. *)
Theorem execute_spec (init : option (St -> St)) (threshold : Z) (st : State) (env : list batch) (mb : amailbox)
    (blocked : bool) (s : St) :
  mb_wf mb -> (blocked = true -> inbox mb = []) -> 0 <= threshold < 2 ^ 32 - 1 ->
  exists es c ms early late rest, execute init threshold st env mb blocked s = Ok (es, c, ms, rest) /\
    env = early ++ late ++ rest /\
    m_status c = (startup init st s).1 /\
    (inbox mb).*2 ++ (concat (early ++ late)).*2 ≡ₚ ms ++ (inbox (m_mbox c)).*2 /\
    count_requests ms <= threshold /\
    m_data c = run_all ms (startup init st s).2 /\
    match es with
    | BLOCKED => m_tag c = MB_BLOCKED /\ inbox (m_mbox c) = []
    | RESUMABLE => m_tag c = MB_OPEN /\ inbox (m_mbox c) <> [] /\
        (count_requests ms = threshold \/ ((inbox mb).*2 ++ (concat early).*2 ≡ₚ ms /\ concat late <> []))
    | EXIT => m_tag c = MB_CLOSED /\ m_data c = None
    end.
Proof.
  intros Hwf Hbl Ht. unfold execute. destruct (startup init st s) as [st' s0].
  destruct (exec_loop_spec (S (length (inbox mb) + length (concat env))) 1 threshold env mb blocked s0 Hwf Hbl
    ltac:(lia) ltac:(lia) ltac:(lia)) as (r & mb' & bl' & env' & ms & early & -> & -> & Hwf' & Hbl' & HP & Hrun & Hle & Heq).
  assert (count_requests ms <= threshold) by (destruct (decide (0 < count_requests ms)); lia).
  cbn [mbind outcome_bind]. destruct r as [s'|].
  2:{ eexists _, _, ms, early, [], env'. split; [reflexivity|]. cbn [m_status m_data m_mbox m_tag fst snd app].
      rewrite app_nil_r. by split_and!. }
  destruct (exec_end_spec env' mb' bl' Hwf' Hbl') as (idle & mb2 & env2 & late & -> & -> & _ & HP2 & Hidle).
  assert ((inbox mb).*2 ++ (concat (early ++ late)).*2 ≡ₚ ms ++ (inbox mb2).*2) as HPall.
  { by rewrite concat_app, fmap_app, app_assoc, HP, HP2, <- app_assoc. }
  destruct idle; eexists _, _, ms, early, late, env2; (split; [reflexivity|]); cbn [m_status m_data m_mbox m_tag fst snd];
    do 4 (split; [done|]); (split; [by rewrite <- Hrun|]); (split; [done|]).
  { by apply Hidle. }
  split; [intros E; by apply Hidle in E|].
  destruct (Heq ltac:(eauto) ltac:(lia)) as [He|He]; [right|left; lia]. rewrite He in HP, HP2. cbn in HP, HP2.
  rewrite app_nil_r in HP. split; [done|]. intros El. rewrite El in HP2.
  apply Permutation_nil_r, fmap_nil_inv in HP2. by apply Hidle in HP2.
Qed.
End Execute.

(** ** Request contexts *)

(** GatherGroup: [gg_size] replies are awaited, [gg_msgs] arrived so far. *)
Record gather := MkGather { gg_size : Z; gg_msgs : list Z; gg_done : bool }.

(** RequestContext; [rc_gather] is set when it is a GatherGroup. *)
Record reqctx := MkCtx { rc_initiator : option metadata; rc_gather : option gather }.

Record reqs := MkReqs {
  m_reqid_recycle : list Z;
  m_reqid_generator : Z;
  m_req_ctx_map : gmap Z reqctx
}.

Definition INVALID_REQID : Z := 0.
Definition new_reqs : reqs := MkReqs [] 0 ∅.

Definition new_reqid (a : reqs) : Z * reqs :=
  match reverse (m_reqid_recycle a) with
  | r :: rest => (r, MkReqs (reverse rest) (m_reqid_generator a) (m_req_ctx_map a))
  | [] =>
      let g := u32 (m_reqid_generator a + 1) in
      (g, MkReqs (m_reqid_recycle a) g (m_req_ctx_map a))
  end.

Definition release_reqid (r : Z) (a : reqs) : reqs :=
  MkReqs (m_reqid_recycle a ++ [r]) (m_reqid_generator a) (m_req_ctx_map a).

Definition find_req_ctx (r : Z) (a : reqs) : option reqctx := m_req_ctx_map a !! r.

Definition insert_req_ctx (r : Z) (c : reqctx) (a : reqs) : outcome reqs :=
  _ ← mola_assert (bool_decide (find_req_ctx r a = None));
  mret (MkReqs (m_reqid_recycle a) (m_reqid_generator a) (<[r := c]> (m_req_ctx_map a))).

(** RequestContext::done, GatherGroup::done *)
Definition ctx_done (c : reqctx) : bool :=
  match rc_gather c with Some g => gg_done g | None => true end.

(** delete_req_ctx(RequestContext* ), for the context stored under [r] *)
Definition delete_req_ctx (r : Z) (c : reqctx) (a : reqs) : reqs :=
  if ctx_done c then
    MkReqs (m_reqid_recycle a ++ [r]) (m_reqid_generator a) (delete r (m_req_ctx_map a))
  else a.

(** The initiator of a new context: that of the current one, or the current
    message. *)
Definition initiator_of (current : option reqctx) (msg : option metadata) : option metadata :=
  match current with Some c => rc_initiator c | None => msg end.

Definition on_async_send_done (cur : option reqctx) (msg : option metadata) (r : Z) (a : reqs)
  : outcome reqs :=
  insert_req_ctx r (MkCtx (initiator_of cur msg) None) a.

Definition on_scatter_done (cur : option reqctx) (msg : option metadata) (r n : Z) (a : reqs)
  : outcome reqs :=
  insert_req_ctx r (MkCtx (initiator_of cur msg) (Some (MkGather n [] false))) a.

(** GatherGroup::ready *)
Definition gather_ready (g : gather) : bool := Z.of_nat (length (gg_msgs g)) =? gg_size g.

Definition set_gather_ctx (r : Z) (c : reqctx) (g : gather) (a : reqs) : reqs :=
  MkReqs (m_reqid_recycle a) (m_reqid_generator a)
    (<[r := MkCtx (rc_initiator c) (Some g)]> (m_req_ctx_map a)).

(** InsertToGatherCtx, then SwitchToGatherCtx: the wrapper of a gather interface
    adds the message and calls the gather callback when the group is complete.
    The result is what the callback was called with. *)
Definition InsertToGatherCtx (msg : Z) (g : gather) : gather :=
  MkGather (gg_size g) (gg_msgs g ++ [msg]) (gg_done g).

Definition SwitchToGatherCtx (g : gather) : option (list Z) * gather :=
  if gather_ready g then (Some (gg_msgs g), MkGather (gg_size g) (gg_msgs g) true)
  else (None, g).

(** What execute does around invoke_message for a reply with request id [r]. *)
Definition on_reply (r msg : Z) (a : reqs) : option (list Z) * reqs :=
  if r =? 0 then (None, a)
  else match find_req_ctx r a with
       | None => (None, a)
       | Some c =>
           match rc_gather c with
           | None => (None, delete_req_ctx r c a)
           | Some g =>
               let '(called, g') := SwitchToGatherCtx (InsertToGatherCtx msg g) in
               let c' := MkCtx (rc_initiator c) (Some g') in
               (called, delete_req_ctx r c' (set_gather_ctx r c g' a))
           end
       end.

(** The operations of an actor on its requests: a request or a scatter that was
    sent or failed (Dispatcher::dispatch, ScatterGroup), made under the context
    [cur] while the message [msg] is processed, and a reply. *)
Inductive rop :=
| RRequest (sent : bool) (cur : option reqctx) (msg : option metadata)
| RScatter (sent : bool) (n : Z) (cur : option reqctx) (msg : option metadata)
| RReply (r msg : Z).

(** [lost]: the ids of failed scatters, which are never used again. *)
Record ractor := MkRactor { ra : reqs; lost : list Z }.

Definition rexec (o : rop) (A : ractor) : outcome (option Z * ractor) :=
  match o with
  | RRequest sent cur msg =>
      let '(r, a) := new_reqid (ra A) in
      if sent then a' ← on_async_send_done cur msg r a; mret (Some r, MkRactor a' (lost A))
      else mret (Some r, MkRactor (release_reqid r a) (lost A))
  | RScatter sent n cur msg =>
      let '(r, a) := new_reqid (ra A) in
      if sent then a' ← on_scatter_done cur msg r n a; mret (Some r, MkRactor a' (lost A))
      else mret (Some r, MkRactor a (r :: lost A))
  | RReply r msg => mret (None, MkRactor (on_reply r msg (ra A)).2 (lost A))
  end.

Fixpoint rexec_all (os : list rop) (A : ractor) : outcome ractor :=
  match os with
  | [] => mret A
  | o :: os => ('(_, A') ← rexec o A; rexec_all os A')
  end.

(** Ids are idle ([F]: to be recycled, or lost) or in use (a context), never
    both, and none occurs twice; all were generated. *)
Record ids_ok (F : list Z) (C : gmap Z reqctx) (g : Z) : Prop := {
  id_nodup : NoDup F;
  id_ctx : forall r, r ∈ F -> C !! r = None;
  id_free : forall r, r ∈ F -> 0 < r <= g;
  id_used : forall r, is_Some (C !! r) -> 0 < r <= g;
  id_gen : 0 <= g
}.

Definition fresh_id (r : Z) (F : list Z) (C : gmap Z reqctx) (g : Z) : Prop :=
  (r ∉ F) /\ C !! r = None /\ 0 < r <= g.

Definition ractor_ok (A : ractor) : Prop :=
  ids_ok (m_reqid_recycle (ra A) ++ lost A) (m_req_ctx_map (ra A)) (m_reqid_generator (ra A)).

Lemma ids_perm F F' C g : F ≡ₚ F' -> ids_ok F C g -> ids_ok F' C g.
Proof.
  intros HP [Hnd Hc Hf Hu Hg]. split; try done; [by rewrite <- HP|..]; intros r; rewrite <- HP; auto.
Qed.

Lemma ids_take r F C g : ids_ok (r :: F) C g -> ids_ok F C g /\ fresh_id r F C g.
Proof.
  intros [Hnd Hc Hf Hu Hg]. inversion Hnd as [|? ? Hni Hnd']; subst.
  assert (r ∈ r :: F) by constructor.
  split; [split; try done; intros x Hx; [apply Hc|apply Hf]; by constructor|].
  split; [done|]. split; auto.
Qed.

Lemma ids_generate F C g : ids_ok F C g -> ids_ok F C (g + 1) /\ fresh_id (g + 1) F C (g + 1).
Proof.
  intros [Hnd Hc Hf Hu Hg]. split.
  - split; try done; [intros r Hr; specialize (Hf r Hr)|intros r Hr; specialize (Hu r Hr)|]; lia.
  - split; [intros Hin; specialize (Hf _ Hin); lia|]. split; [|lia].
    apply eq_None_not_Some. intros Hs. specialize (Hu _ Hs). lia.
Qed.

Lemma ids_put r F C g : ids_ok F C g -> fresh_id r F C g -> ids_ok (r :: F) C g.
Proof.
  intros [Hnd Hc Hf Hu Hg] (H1 & H2 & H3). split; try done.
  - by constructor.
  - intros x [->|Hx]%elem_of_cons; auto.
  - intros x [->|Hx]%elem_of_cons; auto.
Qed.

Lemma ids_use r c F C g : ids_ok F C g -> fresh_id r F C g -> ids_ok F (<[r := c]> C) g.
Proof.
  intros [Hnd Hc Hf Hu Hg] (H1 & H2 & H3). split; try done.
  - intros x Hx. rewrite lookup_insert_ne; [auto|]. intros <-. done.
  - intros x. rewrite lookup_insert_is_Some'. intros [<-|Hx]; auto.
Qed.

Lemma ids_done r F C g : ids_ok F C g -> is_Some (C !! r) -> ids_ok (r :: F) (delete r C) g.
Proof.
  intros [Hnd Hc Hf Hu Hg] Hr. split; try done.
  - constructor; [|done]. intros Hin. rewrite Hc in Hr by done. by destruct Hr.
  - intros x [->|Hx]%elem_of_cons; [apply lookup_delete_eq|]. rewrite lookup_delete_None. auto.
  - intros x [->|Hx]%elem_of_cons; auto.
  - intros x. rewrite lookup_delete_is_Some. intros [_ Hx]. auto.
Qed.

Lemma ids_update r c F C g : ids_ok F C g -> is_Some (C !! r) -> ids_ok F (<[r := c]> C) g.
Proof.
  intros [Hnd Hc Hf Hu Hg] Hr. split; try done.
  - intros x Hx. rewrite lookup_insert_ne; [auto|]. intros <-. rewrite Hc in Hr by done. by destruct Hr.
  - intros x. rewrite lookup_insert_is_Some'. intros [<-|Hx]; auto.
Qed.

(** The new id is in no state at all. *)
Lemma new_reqid_spec A :
  ractor_ok A -> m_reqid_generator (ra A) + 1 < 2 ^ 32 ->
  let '(r, a) := new_reqid (ra A) in
  ractor_ok (MkRactor a (lost A)) /\
  fresh_id r (m_reqid_recycle a ++ lost A) (m_req_ctx_map a) (m_reqid_generator a) /\
  m_req_ctx_map a = m_req_ctx_map (ra A) /\
  m_reqid_generator a <= m_reqid_generator (ra A) + 1.
Proof.
  unfold ractor_ok. intros Hok Hlt. unfold new_reqid. pose proof (id_gen _ _ _ Hok).
  destruct (reverse (m_reqid_recycle (ra A))) as [|r rest] eqn:Hrev; simpl.
  - rewrite wrap_small by width_lia. destruct (ids_generate _ _ _ Hok) as [H1 H2].
    split_and!; try done; lia.
  - assert (m_reqid_recycle (ra A) = reverse rest ++ [r]) as He.
    { rewrite <- (reverse_involutive (m_reqid_recycle (ra A))), Hrev. apply reverse_cons. }
    rewrite He in Hok. destruct (ids_take r (reverse rest ++ lost A) (m_req_ctx_map (ra A))
      (m_reqid_generator (ra A))) as [H1 H2].
    + eapply ids_perm; [|exact Hok]. rewrite <- app_assoc. simpl. symmetry. apply Permutation_middle.
    + split_and!; try done. lia.
Qed.

(** The id of a failed scatter is out of use for ever. *)
Lemma ractor_lose r a l : ractor_ok (MkRactor a l) ->
  fresh_id r (m_reqid_recycle a ++ l) (m_req_ctx_map a) (m_reqid_generator a) -> ractor_ok (MkRactor a (r :: l)).
Proof.
  unfold ractor_ok. simpl. intros H1 H2. eapply ids_perm; [|exact (ids_put _ _ _ _ H1 H2)]. apply Permutation_middle.
Qed.

Lemma ids_ok_new : ractor_ok (MkRactor new_reqs []).
Proof.
  split; simpl; try done; try (by intros r ?%not_elem_of_nil); [constructor|].
  intros r. rewrite lookup_empty. by intros [? ?].
Qed.

Lemma delete_req_ctx_ok r c a l :
  ractor_ok (MkRactor a l) -> is_Some (m_req_ctx_map a !! r) ->
  ractor_ok (MkRactor (delete_req_ctx r c a) l) /\
  m_reqid_generator (delete_req_ctx r c a) = m_reqid_generator a.
Proof.
  unfold ractor_ok, delete_req_ctx. simpl. intros Hok Hr. destruct (ctx_done c); [|done]. simpl.
  split; [|done]. eapply ids_perm; [|by apply ids_done].
  rewrite <- app_assoc. simpl. apply Permutation_middle.
Qed.

Lemma on_reply_ok r msg A :
  ractor_ok A ->
  ractor_ok (MkRactor (on_reply r msg (ra A)).2 (lost A)) /\
  m_reqid_generator (on_reply r msg (ra A)).2 = m_reqid_generator (ra A).
Proof.
  intros Hok. unfold on_reply. destruct (r =? 0); [by destruct A|].
  unfold find_req_ctx. destruct (m_req_ctx_map (ra A) !! r) as [c|] eqn:Hc; [|by destruct A].
  destruct (rc_gather c) as [g|].
  - destruct (SwitchToGatherCtx (InsertToGatherCtx msg g)) as [called g']. simpl.
    apply (delete_req_ctx_ok r _ (set_gather_ctx r c g' (ra A)) (lost A)).
    + unfold ractor_ok. simpl. apply ids_update; [done|eauto].
    + simpl. rewrite lookup_insert_eq. eauto.
  - simpl. destruct A. apply delete_req_ctx_ok; [done|eauto].
Qed.

Lemma insert_req_ctx_ok r c a l :
  ractor_ok (MkRactor a l) ->
  fresh_id r (m_reqid_recycle a ++ l) (m_req_ctx_map a) (m_reqid_generator a) ->
  exists a', insert_req_ctx r c a = Ok a' /\ ractor_ok (MkRactor a' l) /\
    m_reqid_generator a' = m_reqid_generator a.
Proof.
  intros Hok Hfr. pose proof Hfr as (_ & Hc & _). unfold insert_req_ctx, find_req_ctx.
  rewrite Hc, bool_decide_eq_true_2 by done. cbn. eexists. split; [done|]. split; [|done].
  by apply ids_use.
Qed.

Lemma rexec_spec o A :
  ractor_ok A -> m_reqid_generator (ra A) + 1 < 2 ^ 32 ->
  exists res A', rexec o A = Ok (res, A') /\ ractor_ok A' /\
    m_reqid_generator (ra A') <= m_reqid_generator (ra A) + 1 /\
    (forall r, res = Some r -> r <> INVALID_REQID /\ m_req_ctx_map (ra A) !! r = None /\ r ∉ lost A).
Proof.
  intros Hok Hlt. pose proof (new_reqid_spec A Hok Hlt) as Hnew. unfold rexec.
  destruct (new_reqid (ra A)) as [r a]. destruct Hnew as (H1 & H2 & H3 & H4).
  assert (r <> INVALID_REQID /\ m_req_ctx_map (ra A) !! r = None /\ r ∉ lost A) as Hres.
  { destruct H2 as (Hni & Hc & Hr). rewrite <- H3. unfold INVALID_REQID.
    rewrite elem_of_app in Hni. split_and!; try done; [lia|tauto]. }
  destruct o as [sent cur msg|sent n cur msg|r' msg].
  - destruct sent.
    + destruct (insert_req_ctx_ok r (MkCtx (initiator_of cur msg) None) a (lost A) H1 H2)
        as (a' & Ha & Hok' & Hg). unfold on_async_send_done. rewrite Ha. cbn.
      eexists _, _. split; [done|]. split; [done|]. simpl. split; [lia|]. by intros ? [= <-].
    + eexists _, _. split; [done|]. split; [|split; [done|by intros ? [= <-]]].
      unfold ractor_ok. simpl. eapply ids_perm; [|exact (ids_put _ _ _ _ H1 H2)]. simpl.
      rewrite <- app_assoc. apply Permutation_middle.
  - destruct sent.
    + destruct (insert_req_ctx_ok r (MkCtx (initiator_of cur msg) (Some (MkGather n [] false)))
        a (lost A) H1 H2) as (a' & Ha & Hok' & Hg). unfold on_scatter_done. rewrite Ha. cbn.
      eexists _, _. split; [done|]. split; [done|]. simpl. split; [lia|]. by intros ? [= <-].
    + eexists _, _. split; [done|]. split; [by apply ractor_lose|]. split; [done|by intros ? [= <-]].
  - destruct (on_reply_ok r' msg A Hok) as [Hok' Hg]. eexists _, _. split; [done|].
    split; [done|]. simpl. split; [lia|done].
Qed.

Lemma rexec_all_spec os A :
  ractor_ok A -> m_reqid_generator (ra A) + Z.of_nat (length os) < 2 ^ 32 ->
  exists A', rexec_all os A = Ok A' /\ ractor_ok A' /\
    m_reqid_generator (ra A') <= m_reqid_generator (ra A) + Z.of_nat (length os).
Proof.
  revert A; induction os as [|o os IH]; intros A Hok Hlt; simpl.
  - eexists. split; [done|]. split; [done|lia].
  - simpl in Hlt. destruct (rexec_spec o A Hok ltac:(lia)) as (res & A1 & -> & Hok1 & Hg & _).
    cbn. destruct (IH A1 Hok1 ltac:(lia)) as (A' & -> & Hok' & Hg').
    eexists. split; [done|]. split; [done|lia].
Qed.

(** C10: request ids are unique: after any sequence of requests, scatters (sent or
    failed) and replies, known or unknown, the assertion of insert_req_ctx never
    fails, and the next request gets an id that is not 0, that no outstanding
    context uses and that no failed scatter left behind. *)
Theorem reqids_unique (os : list rop) (sent : bool) (cur : option reqctx)
    (msg : option metadata) :
  Z.of_nat (length os) + 1 < 2 ^ 32 ->
  exists A r A', rexec_all os (MkRactor new_reqs []) = Ok A /\
    rexec (RRequest sent cur msg) A = Ok (Some r, A') /\
    r <> INVALID_REQID /\ m_req_ctx_map (ra A) !! r = None /\ r ∉ lost A.
Proof.
  intros Hlen. destruct (rexec_all_spec os (MkRactor new_reqs [])) as (A & HA & Hok & Hg).
  - apply ids_ok_new.
  - simpl. lia.
  - simpl in Hg. destruct (rexec_spec (RRequest sent cur msg) A Hok ltac:(lia))
      as (res & A' & He & _ & _ & Hres).
    destruct res as [r|]; [by exists A, r, A'; split; [|split; [|apply Hres]]|].
    exfalso. revert He. simpl. destruct (new_reqid (ra A)) as [r a]. destruct sent; [|done].
    unfold on_async_send_done, insert_req_ctx. destruct (bool_decide _); done.
Qed.

(** ** Gathering *)
Fixpoint reply_all (r : Z) (msgs : list Z) (a : reqs) : list (option (list Z)) * reqs :=
  match msgs with
  | [] => ([], a)
  | m :: msgs =>
      let '(c, a1) := on_reply r m a in
      let '(cs, a2) := reply_all r msgs a1 in (c :: cs, a2)
  end.

Definition gathering (ini : option metadata) (n : Z) (got : list Z) : reqctx :=
  MkCtx ini (Some (MkGather n got false)).

Lemma reply_collects r m a ini n got :
  r <> 0 -> m_req_ctx_map a !! r = Some (gathering ini n got) ->
  Z.of_nat (length got) + 1 < n ->
  on_reply r m a = (None, set_gather_ctx r (gathering ini n got) (MkGather n (got ++ [m]) false) a).
Proof.
  intros Hr Hc Hn. unfold on_reply, find_req_ctx. rewrite (proj2 (Z.eqb_neq r 0)), Hc by done. simpl.
  unfold SwitchToGatherCtx, gather_ready. simpl. rewrite length_app. simpl.
  by rewrite (proj2 (Z.eqb_neq _ _)) by lia.
Qed.

Lemma gather_from r rest last ini n a got :
  r <> 0 -> m_req_ctx_map a !! r = Some (gathering ini n got) ->
  Z.of_nat (length got + length rest) + 1 = n ->
  exists a', reply_all r (rest ++ [last]) a =
    (replicate (length rest) None ++ [Some (got ++ rest ++ [last])], a') /\
    m_req_ctx_map a' = delete r (m_req_ctx_map a) /\
    m_reqid_recycle a' = m_reqid_recycle a ++ [r].
Proof.
  intros Hr. revert a got. induction rest as [|m rest IH]; intros a got Hc Hn; simpl in *.
  - unfold on_reply, find_req_ctx. rewrite (proj2 (Z.eqb_neq r 0)), Hc by done. simpl.
    unfold SwitchToGatherCtx, gather_ready. simpl. rewrite length_app. simpl.
    rewrite (proj2 (Z.eqb_eq _ _)) by lia. simpl.
    eexists. split; [reflexivity|]. simpl. split; [|done]. by rewrite delete_insert_eq.
  - rewrite (reply_collects _ _ _ _ _ _ Hr Hc) by lia.
    destruct (IH (set_gather_ctx r (gathering ini n got) (MkGather n (got ++ [m]) false) a)
      (got ++ [m])) as (a' & Hre & Hm & Hrc).
    { simpl. by rewrite lookup_insert_eq. }
    { rewrite length_app. simpl. lia. }
    rewrite <- app_assoc in Hre. rewrite Hre. eexists. split; [reflexivity|].
    rewrite Hm, Hrc. simpl. by rewrite delete_insert_eq.
Qed.

(** A scatter of n messages is gathered exactly once: the first n - 1 replies
    only collect, the n-th calls the gather callback with all of them in the order
    of their arrival, and then the context is gone and its id is free again. *)
Theorem gather_completes (r : Z) (msgs : list Z) (last : Z) (ini : option metadata) (a : reqs) :
  r <> 0 ->
  m_req_ctx_map a !! r = Some (MkCtx ini (Some (MkGather (Z.of_nat (length msgs) + 1) [] false))) ->
  exists a', reply_all r (msgs ++ [last]) a =
    (replicate (length msgs) None ++ [Some (msgs ++ [last])], a') /\
    m_req_ctx_map a' = delete r (m_req_ctx_map a) /\
    m_reqid_recycle a' = m_reqid_recycle a ++ [r].
Proof. intros Hr Hc. by apply (gather_from r msgs last ini _ a [] Hr Hc). Qed.

(** ** Witnesses *)
Module ActorExamples.
Definition req (n : Z) : metadata := set_reqid n (set_request zero_meta).
Definition rep (n : Z) : metadata := set_reqid n (set_response zero_meta).
Definition demo_mb : amailbox := ([(3, req 3); (2, rep 2); (1, req 1)], [[]; []]).

(** The handler counts.  A reply comes while the first request is processed; it runs next and
    does not use the threshold; a request that comes then is left for the next time. *)
Definition demo_env : list (list (Z * metadata)) := [[]; [(4, rep 4)]; [(5, req 5)]].

Lemma execute_spec_witness :
  exists es c ms rest,
    execute (fun _ n => Some (S n)) (Some (Nat.add 10)) 1 ACTOR_STARTUP demo_env demo_mb false 0%nat
      = Ok (es, c, ms, rest) /\
    m_status c = ACTOR_RUNNING /\ count_requests ms <= 1.
Proof.
  destruct (execute_spec (fun _ n => Some (S n)) (Some (Nat.add 10)) 1 ACTOR_STARTUP demo_env demo_mb false
              0%nat eq_refl ltac:(discriminate) ltac:(lia))
    as (es & c & ms & early & late & rest & H1 & _ & H2 & _ & H3 & _).
  exists es, c, ms, rest. split; [exact H1|]. split; [exact H2|exact H3].
Defined.

Example execute_demo :
  execute (fun _ n => Some (S n)) (Some (Nat.add 10)) 1 ACTOR_STARTUP demo_env demo_mb false 0%nat =
  Ok (RESUMABLE, MkSched ACTOR_RUNNING (Some 12%nat) ([(5, req 5); (4, rep 4)], [[]; [(3, req 3)]]) MB_OPEN,
      [rep 2; req 1], []).
Proof. reflexivity. Qed.

Definition demo_ops : list rop := [RRequest true None None; RScatter false 2 None None; RReply 1 9; RRequest false None None].

Lemma reqids_unique_witness :
  exists A r A', rexec_all demo_ops (MkRactor new_reqs []) = Ok A /\
    rexec (RRequest true None None) A = Ok (Some r, A') /\
    r <> INVALID_REQID /\ m_req_ctx_map (ra A) !! r = None /\ r ∉ lost A.
Proof. apply (reqids_unique demo_ops true None None). vm_compute. reflexivity. Defined.

Definition demo_reqs : reqs :=
  MkReqs [] 5 {[ 4 := MkCtx None (Some (MkGather 2 [] false)) ]}.

Lemma gather_completes_witness :
  exists a', reply_all 4 [70; 71] demo_reqs = ([None; Some [70; 71]], a') /\
    m_req_ctx_map a' = delete 4 (m_req_ctx_map demo_reqs) /\ m_reqid_recycle a' = [4].
Proof. apply (gather_completes 4 [70] 71 None demo_reqs); [discriminate|reflexivity]. Defined.
End ActorExamples.
