(* ===== verification/Module.v ===== *)
(** * Modules: configuration, instances and the invocation of messages

    include/mola/module.hpp, src/module.cpp and the spec of
    include/mola/c/mola_module.h.

    A module is configured from its spec and the arguments of its line in the
    options ([dynload_config]), owns the map of its actor instances, hands a
    message to an instance ([dispatch]) and invokes the interface of a message on
    behalf of an actor, routing what the callback returns ([invoke_message]). *)
From stdpp Require Import base list gmap numbers.
From stdpp Require Import strings.
From S2P Require Import Prelude Text ActorId Message Mailbox Actor.

#[local] Arguments wrap : simpl never.

(** ** The spec *)
Definition MOLA_MODULE_TYPE_SINGLETON : Z := 1.
Definition MOLA_MODULE_TYPE_AUTOSTART : Z := 2.
Definition MOLA_MODULE_TYPE_STRONG : Z := 8.
Definition MOLA_MODULE_TYPE_PRIVATE : Z := 16.

(** The enumerator is -1 and the field a uint32_t. *)
Definition MOLA_INTF_TYPE_INVALID : Z := u32 (-1).
Definition MOLA_INTF_TYPE_SYNC : Z := 1.

(** mola_intf_t; a callback is known by a number. *)
Record mola_intf := MkIntf { intf_type : Z; intf_callback : option Z }.

Record mola_module_spec := MkSpec {
  spec_type : Z;
  spec_size : Z;
  spec_max : Z;
  intf_tbl : list mola_intf
}.

Record module := MkModule {
  m_id : Z;
  m_node_id : Z;
  m_spec : mola_module_spec;
  m_threshold : Z;
  m_private : bool;
  m_autostart : bool;
  m_singleton : bool
}.

Definition type_bit (bit : Z) (sp : mola_module_spec) : bool :=
  negb (Z.land (spec_type sp) bit =? 0).

Definition is_strong (m : module) : bool := type_bit MOLA_MODULE_TYPE_STRONG (m_spec m).
Definition get_max_instances (m : module) : Z := spec_max (m_spec m).

Definition new_Module (id node : Z) (sp : mola_module_spec) : module :=
  MkModule id node sp 1 (type_bit MOLA_MODULE_TYPE_PRIVATE sp)
    (type_bit MOLA_MODULE_TYPE_AUTOSTART sp) (type_bit MOLA_MODULE_TYPE_SINGLETON sp).

Definition set_max_instances (n : Z) (m : module) : module :=
  MkModule (m_id m) (m_node_id m)
    (MkSpec (spec_type (m_spec m)) (spec_size (m_spec m)) (u32 n) (intf_tbl (m_spec m)))
    (m_threshold m) (m_private m) (m_autostart m) (m_singleton m).
Definition set_threshold (n : Z) (m : module) : module :=
  MkModule (m_id m) (m_node_id m) (m_spec m) (u32 n) (m_private m) (m_autostart m) (m_singleton m).
Definition set_private (b : bool) (m : module) : module :=
  MkModule (m_id m) (m_node_id m) (m_spec m) (m_threshold m) b (m_autostart m) (m_singleton m).
Definition set_autostart (b : bool) (m : module) : module :=
  MkModule (m_id m) (m_node_id m) (m_spec m) (m_threshold m) (m_private m) b (m_singleton m).
Definition set_singleton (b : bool) (m : module) : module :=
  let m' := MkModule (m_id m) (m_node_id m) (m_spec m) (m_threshold m) (m_private m)
              (m_autostart m) b in
  if b then set_max_instances 1 m' else m'.

(** ** Loading: the defaults and the arguments *)
Definition parse_number (n : text) : outcome Z :=
  if bool_decide (n = txt "MAX") then mret (2 ^ 32 - 1) else v ← stoul n; mret (u32 v).

Definition set_defaults (workers : Z) (m : module) : module :=
  let m := if get_max_instances m =? 0 then set_max_instances (2 * workers) m else m in
  if m_threshold m =? 0 then set_threshold 32 m else m.

Fixpoint parse_args (argv : list text) (m : module) : outcome module :=
  match argv with
  | [] => mret m
  | a :: argv =>
      if bool_decide (a = txt "autostart") then parse_args argv (set_autostart true m)
      else if bool_decide (a = txt "singleton") then parse_args argv (set_singleton true m)
      else if bool_decide (a = txt "private") then parse_args argv (set_private true m)
      else if bool_decide (a = txt "public") then parse_args argv (set_private false m)
      else if bool_decide (a = txt "max") then
        match argv with
        | [] => Fault AssertFailed
        | n :: argv =>
            max ← parse_number n;
            _ ← mola_assert ((0 <? max) && (max <? 1048576));
            parse_args argv (if max =? 1 then set_singleton true m else set_max_instances max m)
        end
      else if bool_decide (a = txt "threshold") then
        match argv with
        | [] => Fault AssertFailed
        | n :: argv =>
            threshold ← parse_number n;
            _ ← mola_assert (0 <? threshold);
            parse_args argv (set_threshold threshold m)
        end
      else Fault AssertFailed
  end.

(** The part of dynload_module between dlsym and register_module. *)
Definition dynload_config (id node workers : Z) (sp : mola_module_spec) (argv : list text)
  : outcome module :=
  parse_args argv (set_defaults workers (new_Module id node sp)).

Definition limits_ok (m : module) : Prop :=
  1 <= get_max_instances m < 2 ^ 32 /\ 1 <= m_threshold m < 2 ^ 32.

Lemma parse_number_range n v : parse_number n = Ok v -> 0 <= v < 2 ^ 32.
Proof.
  unfold parse_number. case_bool_decide; intros Hv; inv_ok; [lia|]. by apply wrap_range.
Qed.

Lemma set_max_limits n m : limits_ok m -> 1 <= n < 2 ^ 32 -> limits_ok (set_max_instances n m).
Proof. intros [H1 H2] Hn. unfold limits_ok, get_max_instances. simpl. by rewrite wrap_small by width_lia. Qed.

Lemma set_singleton_limits m : limits_ok m -> limits_ok (set_singleton true m).
Proof. intros [H1 H2]. apply set_max_limits; [done|lia]. Qed.

Lemma set_threshold_limits n m : limits_ok m -> 1 <= n < 2 ^ 32 -> limits_ok (set_threshold n m).
Proof. intros [H1 H2] Hn. unfold limits_ok, get_max_instances. simpl. by rewrite wrap_small by width_lia. Qed.

(** The arguments in the order they are read, [max] and [threshold] with theirs. *)
Lemma parse_args_ind (P : list text -> Prop) :
  P [] -> (forall a, P [a]) ->
  (forall a b argv, P argv -> P (b :: argv) -> P (a :: b :: argv)) -> forall argv, P argv.
Proof.
  intros H0 H1 H2 argv. enough (P argv /\ forall a, P (a :: argv)) by tauto.
  induction argv as [|b argv [IH1 IH2]]; [auto|]. split; [auto|]. intros a. apply H2; auto.
Qed.

Lemma parse_args_limits argv m m' :
  limits_ok m -> parse_args argv m = Ok m' -> limits_ok m'.
Proof.
  revert m. induction argv as [|a|a b argv IH1 IH2] using parse_args_ind; intros m Hm H;
    cbn [parse_args] in H; [by inv_ok|..].
  - repeat case_bool_decide; inv_ok; try done. by apply set_singleton_limits.
  - cbn [parse_args] in IH2. case_bool_decide; [by eapply IH2; [|exact H]|].
    case_bool_decide; [by eapply IH2; [|exact H]; apply set_singleton_limits|].
    case_bool_decide; [by eapply IH2; [|exact H]|]. case_bool_decide; [by eapply IH2; [|exact H]|].
    case_bool_decide; [|case_bool_decide; [|done]]; inv_ok; pose proof (parse_number_range _ _ E).
    + eapply IH1; [|exact H]. destruct (r =? 1); [by apply set_singleton_limits|].
      apply set_max_limits; [done|lia].
    + eapply IH1; [|exact H]. apply set_threshold_limits; [done|lia].
Qed.

(** Loading a module leaves it with limits that the scheduler can work with:
    whatever the arguments, either the process stops (an unknown word, a missing,
    malformed or excluded number) or the module may have at least one instance and
    an actor may process at least one message per scheduling. *)
Theorem dynload_limits (id node workers : Z) (sp : mola_module_spec) (argv : list text) (m : module) :
  0 <= spec_max sp < 2 ^ 32 -> 1 <= workers < 2 ^ 31 ->
  dynload_config id node workers sp argv = Ok m ->
  1 <= get_max_instances m < 2 ^ 32 /\ 1 <= m_threshold m < 2 ^ 32.
Proof.
  intros Hs Hw. apply parse_args_limits. unfold set_defaults, limits_ok, get_max_instances. simpl.
  destruct (Z.eqb_spec (spec_max sp) 0); simpl; [rewrite wrap_small by width_lia|]; lia.
Qed.

(** Without an argument [threshold] the threshold is the 1 of the constructor. *)
Lemma parse_args_threshold argv m m' :
  txt "threshold" ∉ argv -> parse_args argv m = Ok m' -> m_threshold m' = m_threshold m.
Proof.
  revert m. induction argv as [|a|a b argv IH1 IH2] using parse_args_ind; intros m Hn H;
    cbn [parse_args] in H; [by inv_ok|..].
  - repeat case_bool_decide; inv_ok; done.
  - rewrite !not_elem_of_cons in Hn. destruct Hn as (Ha & Hb & Hn).
    assert (txt "threshold" ∉ b :: argv) as Hn2 by (by rewrite not_elem_of_cons).
    cbn [parse_args] in IH2.
    do 4 (case_bool_decide; [by rewrite (IH2 _ Hn2 H)|]).
    case_bool_decide; [|case_bool_decide; [congruence|done]].
    inv_ok. rewrite (IH1 _ Hn H). by destruct (r =? 1).
Qed.

(** The default threshold of 32 messages per scheduling never takes effect: the
    constructor has set 1 before dynload_module tests for 0, so a module loaded
    without the argument [threshold] processes one request per scheduling. *)
Theorem default_threshold_unused (id node workers : Z) (sp : mola_module_spec)
    (argv : list text) (m : module) :
  txt "threshold" ∉ argv -> dynload_config id node workers sp argv = Ok m -> m_threshold m = 1.
Proof.
  intros Hn H. rewrite (parse_args_threshold _ _ _ Hn H). unfold set_defaults. simpl.
  by destruct (get_max_instances _ =? 0).
Qed.

(** A singleton module can end up with a limit of several instances, by its
    type with no limit of its own, or by an argument [max] after [singleton]. *)
Theorem singleton_limit_lost (id node workers n : Z) (sp : mola_module_spec) :
  1 <= workers < 2 ^ 31 -> 2 <= n < 1048576 ->
  type_bit MOLA_MODULE_TYPE_SINGLETON sp = true -> spec_max sp = 0 ->
  (exists m, dynload_config id node workers sp [] = Ok m /\
     m_singleton m = true /\ get_max_instances m = 2 * workers) /\
  (exists m, dynload_config id node workers sp [txt "singleton"; txt "max"; show_dec n] = Ok m /\
     m_singleton m = true /\ get_max_instances m = n).
Proof.
  intros Hw Hn Ht Hm. unfold dynload_config, set_defaults, get_max_instances. cbn [new_Module m_spec].
  rewrite Hm. simpl. split.
  - eexists. split; [done|]. simpl. split; [done|]. apply wrap_small. width_lia.
  - unfold parse_number. rewrite bool_decide_eq_false_2.
    + rewrite stoul_show by lia. cbn. rewrite wrap_small by width_lia.
      rewrite (proj2 (Z.ltb_lt 0 n)), (proj2 (Z.ltb_lt n 1048576)), (proj2 (Z.eqb_neq n 1)) by lia.
      eexists. split; [done|]. simpl. split; [done|]. apply wrap_small. width_lia.
    + destruct (show_dec_cons n ltac:(lia)) as (c & t & -> & Hc). intros [= -> _]. done.
Qed.

(** ** Instances *)

(** An actor as its module sees it: its id, the size of its private data (None:
    no data), the messages in its mailbox, oldest first, and the mailbox' state. *)
Record actor_obj := MkActor {
  a_id : ActorID;
  a_strong : bool;
  a_data : option Z;
  a_inbox : list metadata;
  a_blocked : bool;
  a_closed : bool
}.

(** The module's share of the process: its instance map (addresses of actors),
    the actors and the ready queue of the scheduler. *)
Record mstate := MkMstate {
  m_inst_map : gmap Z Z;
  actors : gmap Z actor_obj;
  next_addr : Z;
  ready : list Z
}.

Definition no_instances : mstate := MkMstate ∅ ∅ 1 [].

(** create_instance(inst_id): the id passes inst_id where the constructor takes
    the interface id. *)
Definition create_instance (m : module) (inst_id : Z) (s : mstate) : Z * mstate :=
  let new_id := new_ActorID (m_node_id m) (m_id m) ANY inst_id in
  let data := if 0 <? spec_size (m_spec m) then Some (spec_size (m_spec m)) else None in
  let infant := next_addr s in
  let key := instance_id new_id in
  (infant,
   MkMstate (match m_inst_map s !! key with
             | Some _ => m_inst_map s
             | None => <[key := infant]> (m_inst_map s)
             end)
     (<[infant := MkActor new_id (is_strong m) data [] true false]> (actors s))
     (infant + 1) (ready s)).

Definition select_or_create_actor_instance (m : module) (inst_id : Z) (s : mstate) : Z * mstate :=
  match m_inst_map s !! inst_id with
  | Some a => (a, s)
  | None => create_instance m inst_id s
  end.

(** Actor::deliver_message: a closed mailbox is fatal, a blocked one is unblocked
    and the actor enters the ready queue. *)
Definition deliver_message (a : Z) (msg : metadata) (s : mstate) : outcome mstate :=
  o ← deref (actors s !! a);
  _ ← mola_assert (negb (a_closed o));
  mret (MkMstate (m_inst_map s)
    (<[a := MkActor (a_id o) (a_strong o) (a_data o) (a_inbox o ++ [msg]) false false]> (actors s))
    (next_addr s) (if a_blocked o then ready s ++ [a] else ready s)).

(** Module::dispatch; the result is the address of the actor that got it. *)
Definition dispatch (m : module) (msg : metadata) (s : mstate) : outcome (Z * mstate) :=
  let '(a, s1) := select_or_create_actor_instance m (instance_id (target msg)) s in
  o ← deref (actors s1 !! a);
  let dest := set_intf_id (intf_id (target msg)) (a_id o) in
  s2 ← deliver_message a (set_target dest msg) s1;
  mret (a, s2).

(** on_remove_instance *)
Definition on_remove_instance (a : Z) (s : mstate) : outcome mstate :=
  o ← deref (actors s !! a);
  mret (MkMstate (delete (instance_id (a_id o)) (m_inst_map s)) (actors s) (next_addr s) (ready s)).

Fixpoint dispatch_all (m : module) (msgs : list metadata) (s : mstate)
  : outcome (list Z * mstate) :=
  match msgs with
  | [] => mret ([], s)
  | msg :: msgs =>
      '(a, s1) ← dispatch m msg s;
      '(l, s2) ← dispatch_all m msgs s1;
      mret (a :: l, s2)
  end.

Record instances_wf (s : mstate) : Prop := {
  inst_key : forall k a, m_inst_map s !! k = Some a -> k = ANY;
  inst_addr : forall a, is_Some (actors s !! a) -> a < next_addr s
}.

(** One message to an instance id that is not 0xffff creates an actor. *)
Lemma dispatch_creates m msg s :
  instances_wf s -> instance_id (target msg) <> ANY ->
  exists s', dispatch m msg s = Ok (next_addr s, s') /\ instances_wf s' /\
    next_addr s' = next_addr s + 1 /\ ready s' = ready s ++ [next_addr s] /\
    exists msg' o, actors s' = <[next_addr s := o]> (actors s) /\ a_inbox o = [msg'] /\
      instance_id (a_id o) = ANY.
Proof.
  intros [Hk Ha] Hi. unfold dispatch, select_or_create_actor_instance.
  destruct (m_inst_map s !! instance_id (target msg)) as [b|] eqn:Hm; [by apply Hk in Hm|].
  unfold create_instance, deliver_message. cbn. rewrite !lookup_insert_eq. cbn.
  eexists. split; [reflexivity|]. split.
  - split; cbn.
    + intros k a. change (u32 ANY) with ANY. destruct (m_inst_map s !! ANY) eqn:He; [apply Hk|].
      rewrite lookup_insert_Some. intros [[<- _]|[_ H]]; [done|by eapply Hk].
    + intros a. rewrite insert_insert_eq, lookup_insert_is_Some'.
      intros [<-|H]; [lia|]. apply Ha in H. lia.
  - cbn. split; [done|]. split; [done|]. eexists _, _. split; [by rewrite insert_insert_eq|]. done.
Qed.

(** Actors addressed by an instance id are never found again: the id the module
    builds for a new instance has 0xffff as its instance id and the requested id
    as its interface id, so that the map holds at most the key 0xffff and each of
    n messages to other ids - also n messages to one id - gets an actor of its
    own, which receives that message only. *)
Theorem instances_never_reused (m : module) (msgs : list metadata) :
  Forall (fun msg => instance_id (target msg) <> ANY) msgs ->
  exists l s, dispatch_all m msgs no_instances = Ok (l, s) /\
    NoDup l /\ length l = length msgs /\ ready s = l /\
    (forall a, a ∈ l -> exists o msg, actors s !! a = Some o /\ a_inbox o = [msg]) /\
    (forall k a, m_inst_map s !! k = Some a -> k = ANY).
Proof.
  intros Hall.
  enough (forall s0, instances_wf s0 -> exists l s, dispatch_all m msgs s0 = Ok (l, s) /\
    NoDup l /\ length l = length msgs /\ ready s = ready s0 ++ l /\ instances_wf s /\
    (forall a, a ∈ l -> next_addr s0 <= a /\ exists o msg, actors s !! a = Some o /\ a_inbox o = [msg]) /\
    (forall a, a < next_addr s0 -> actors s !! a = actors s0 !! a)) as H.
  { destruct (H no_instances) as (l & s & H1 & H2 & H3 & H4 & [H5 _] & H6 & _).
    - split; simpl; [intros ? ?; by rewrite lookup_empty|]. intros a. rewrite lookup_empty.
      by intros [? ?].
    - exists l, s. split_and!; try done. intros a Ha. by apply H6. }
  induction Hall as [|msg msgs Hmsg Hall IH]; intros s0 Hwf; simpl.
  - eexists [], s0. split_and!; try done; [constructor|by rewrite app_nil_r|set_solver].
  - destruct (dispatch_creates m msg s0 Hwf Hmsg)
      as (s1 & -> & Hwf1 & Hn & Hr & msg' & o & Ha & Ho & _). cbn.
    destruct (IH s1 Hwf1) as (l & s & -> & Hnd & Hl & Hr2 & Hwf2 & Hin & Hold). cbn.
    exists (next_addr s0 :: l), s. split; [done|].
    assert (forall a, a ∈ l -> next_addr s0 < a) as Hfresh by (intros a Hal; apply Hin in Hal; lia).
    split_and!; [|simpl; lia|by rewrite Hr2, Hr, <- app_assoc|done| |].
    + constructor; [|done]. intros Hal. apply Hfresh in Hal. lia.
    + intros a [->|Hal]%elem_of_cons.
      * split; [lia|]. exists o, msg'. rewrite Hold, Ha, lookup_insert_eq by lia. done.
      * split; [apply Hfresh in Hal; lia|]. by apply Hin.
    + intros a Hlt. rewrite Hold, Ha, lookup_insert_ne by lia. done.
Qed.

(** ** invoke_message *)

(** The type of the message against the request context: a reply to a scatter is
    fixed to be a gather message, and a gather message needs a gather group. *)
Definition check_message (ctx : option reqctx) (msg : metadata) : outcome metadata :=
  match ctx with
  | Some (MkCtx _ (Some _)) =>
      let msg' := if is_response msg then set_gather msg else msg in
      _ ← mola_assert (is_gather msg'); mret msg'
  | _ => _ ← mola_assert (negb (is_gather msg)); mret msg
  end.

(** Routing of what the callback returned. *)
Definition route_response (self : ActorID) (ctx : option reqctx) (msg response : metadata)
  : outcome metadata :=
  msg ← (if is_response msg then
           _ ← mola_assert (bool_decide (is_Some ctx)); c ← deref ctx; deref (rc_initiator c)
         else mret msg);
  let response := if is_scatter msg then set_gather response else set_response response in
  mret (set_target (sender msg) (set_sender self (set_reqid (reqid msg) response))).

(** [callback]: the interfaces of the module, on a fiber or not; the result is the
    metadata of the message they return. *)
Definition invoke_message (m : module) (self : ActorID) (ctx : option reqctx)
    (callback : Z -> metadata -> option metadata) (msg : metadata) : outcome (option metadata) :=
  let i := intf_id (target msg) in
  _ ← mola_assert (i <? Z.of_nat (length (intf_tbl (m_spec m))));
  e ← deref (intf_tbl (m_spec m) !! Z.to_nat i);
  _ ← mola_assert (bool_decide (is_Some (intf_callback e)) &&
                    negb (intf_type e =? MOLA_INTF_TYPE_INVALID));
  cb ← deref (intf_callback e);
  msg ← check_message ctx msg;
  match callback cb msg with
  | None => mret None
  | Some response => r ← route_response self ctx msg response; mret (Some r)
  end.

(** A chain of asynchronous calls made for one message [m0]: the handler of [m0]
    sends a request, the handler of its reply the next one, and so on; each call
    runs under the context of the reply being processed, which is deleted when its
    handler returns.  The result is the context the last reply runs under. *)
Fixpoint async_chain (n : nat) (m0 : metadata) (cur : option (Z * reqctx)) (a : reqs)
  : outcome (option (Z * reqctx) * reqs) :=
  match n with
  | O => mret (cur, a)
  | S n =>
      let '(r, a) := new_reqid a in
      let msg := match cur with
                 | None => m0
                 | Some (r0, _) => set_reqid r0 (set_response zero_meta)
                 end in
      a ← on_async_send_done (snd <$> cur) (Some msg) r a;
      let a := match cur with Some (r0, c0) => delete_req_ctx r0 c0 a | None => a end in
      c ← deref (find_req_ctx r a);
      async_chain n m0 (Some (r, c)) a
  end.

Definition chain_ok (m0 : metadata) (cur : option (Z * reqctx)) (a : reqs) : Prop :=
  match cur with
  | None => True
  | Some (r, c) => c = MkCtx (Some m0) None /\ find_req_ctx r a = Some c
  end.

Lemma async_chain_spec n m0 cur a :
  ractor_ok (MkRactor a []) -> chain_ok m0 cur a ->
  m_reqid_generator a + Z.of_nat n < 2 ^ 32 ->
  exists cur' a', async_chain n m0 cur a = Ok (cur', a') /\ chain_ok m0 cur' a' /\
    ((0 < n)%nat \/ is_Some cur -> is_Some cur').
Proof.
  revert cur a; induction n as [|n IH]; intros cur a Hok Hc Hg; simpl.
  - eexists _, _. split; [done|]. split; [done|]. by intros [?|?]; [lia|].
  - pose proof (new_reqid_spec (MkRactor a []) Hok ltac:(simpl; lia)) as Hnew. simpl in Hnew.
    destruct (new_reqid a) as [r a1]. destruct Hnew as (Hok1 & Hfr & Hctx & Hg1).
    unfold on_async_send_done.
    assert (exists m, initiator_of (snd <$> cur) m = Some m0 /\
      m = Some (match cur with None => m0 | Some (r0, _) => set_reqid r0 (set_response zero_meta) end))
      as (m & Hini & ->).
    { destruct cur as [[r0 c0]|]; [|by exists (Some m0)]. destruct Hc as [-> _]. by eexists. }
    rewrite Hini.
    destruct (insert_req_ctx_ok r (MkCtx (Some m0) None) a1 [] Hok1 Hfr) as (a2 & Ha2 & Hok2 & Hg2).
    assert (m_req_ctx_map a2 = <[r := MkCtx (Some m0) None]> (m_req_ctx_map a)) as Hm2.
    { rewrite <- Hctx. revert Ha2. unfold insert_req_ctx. intros; inv_ok. done. }
    rewrite Ha2. cbn [mbind outcome_bind].
    set (a3 := match cur with Some (r0, c0) => delete_req_ctx r0 c0 a2 | None => a2 end).
    assert (ractor_ok (MkRactor a3 []) /\ m_reqid_generator a3 = m_reqid_generator a2 /\
      find_req_ctx r a3 = Some (MkCtx (Some m0) None)) as (Hok3 & Hg3 & Hf3).
    { subst a3. unfold find_req_ctx. destruct cur as [[r0 c0]|].
      - destruct Hc as [-> Hr0]. unfold find_req_ctx in Hr0.
        assert (r0 <> r) by (intros ->; destruct Hfr as (_ & Hn & _); congruence).
        destruct (delete_req_ctx_ok r0 (MkCtx (Some m0) None) a2 [] Hok2) as [H1 H2].
        + rewrite Hm2, lookup_insert_ne by done. eauto.
        + split; [done|]. split; [done|]. simpl. rewrite lookup_delete_ne, Hm2 by done.
          apply lookup_insert_eq.
      - split; [done|]. split; [done|]. rewrite Hm2. apply lookup_insert_eq. }
    rewrite Hf3. cbn [deref mbind outcome_bind].
    destruct (IH (Some (r, MkCtx (Some m0) None)) a3 Hok3) as (cur' & a' & -> & Hc' & Hs').
    + by split.
    + lia.
    + exists cur', a'. split; [done|]. split; [done|]. intros _. apply Hs'. right. by eexists.
Qed.

(** C22: a reply finds its way back through any number of asynchronous calls: when
    the handler of a message [m0] makes a call, the handler of its reply the next
    one, and so on, what the last handler returns is sent to the sender of [m0],
    under the request id of [m0], and as a gather message exactly when [m0] was
    part of a scatter; no assertion fails on the way. *)
Theorem reply_routed_to_initiator (n : nat) (m0 reply response : metadata) (m : module)
    (self : ActorID) (callback : Z -> metadata -> option metadata) (ty cb : Z) :
  (1 <= n)%nat -> Z.of_nat n < 2 ^ 32 -> meta_wf m0 ->
  is_response reply = true -> is_gather reply = false ->
  0 <= intf_id (target reply) ->
  intf_tbl (m_spec m) !! Z.to_nat (intf_id (target reply)) = Some (MkIntf ty (Some cb)) ->
  ty <> MOLA_INTF_TYPE_INVALID -> callback cb reply = Some response ->
  exists r c a out, async_chain n m0 None new_reqs = Ok (Some (r, c), a) /\
    invoke_message m self (Some c) callback reply = Ok (Some out) /\
    target out = sender m0 /\ reqid out = reqid m0 /\ sender out = self /\
    is_gather out = is_scatter m0.
Proof.
  intros Hn Hlt (_ & _ & _ & _ & _ & Hw) Hr Hng Hi Htbl Hty Hcb.
  destruct (async_chain_spec n m0 None new_reqs) as (cur & a & Hch & Hok & Hs);
    [apply ids_ok_new|done|simpl; lia|].
  destruct (Hs (or_introl Hn)) as [[r c] ->]. destruct Hok as [-> _].
  exists r, (MkCtx (Some m0) None), a. eexists. split; [done|].
  pose proof (lookup_lt_Some _ _ _ Htbl). unfold invoke_message.
  rewrite (proj2 (Z.ltb_lt _ _)) by lia. cbn -[Z.to_nat]. rewrite Htbl. cbn.
  rewrite (proj2 (Z.eqb_neq _ _)) by done. cbn. rewrite Hng. cbn. rewrite Hcb.
  unfold route_response. rewrite Hr. cbn. split; [reflexivity|].
  destruct (is_scatter m0); simpl; split_and!; try done; by apply wrap_small.
Qed.

(** ** Witnesses *)
Module ModuleExamples.
Definition demo_spec (ty max : Z) : mola_module_spec :=
  MkSpec ty 16 max [MkIntf 0 (Some 0); MkIntf 0 (Some 1)].

Definition demo_module : module := new_Module 3 7 (demo_spec 0 4).

Example dynload_demo :
  dynload_config 3 7 4 (demo_spec 0 0) [txt "threshold"; txt "20"; txt "max"; txt "6"; txt "private"] =
  Ok (MkModule 3 7 (demo_spec 0 6) 20 true false false).
Proof. vm_compute. reflexivity. Qed.

Lemma dynload_limits_witness :
  1 <= get_max_instances (set_defaults 4 (new_Module 3 7 (demo_spec 0 0))) < 2 ^ 32 /\
  1 <= m_threshold (set_defaults 4 (new_Module 3 7 (demo_spec 0 0))) < 2 ^ 32.
Proof.
  apply (dynload_limits 3 7 4 (demo_spec 0 0) []); [split; reflexivity || discriminate..|reflexivity].
Defined.

Lemma default_threshold_unused_witness :
  m_threshold (set_private true (set_defaults 4 (new_Module 3 7 (demo_spec 0 0)))) = 1.
Proof.
  apply (default_threshold_unused 3 7 4 (demo_spec 0 0) [txt "private"]); [|reflexivity].
  intros H. apply list_elem_of_singleton in H. discriminate H.
Defined.

Lemma singleton_limit_lost_witness :
  exists m, dynload_config 3 7 4 (demo_spec 1 0) [] = Ok m /\
    m_singleton m = true /\ get_max_instances m = 8.
Proof.
  apply (singleton_limit_lost 3 7 4 5 (demo_spec 1 0)); try reflexivity; split; reflexivity || discriminate.
Defined.

Definition to_inst (i : Z) : metadata := set_target (new_ActorID 0 3 i 1) zero_meta.

Lemma instances_never_reused_witness :
  exists l s, dispatch_all demo_module [to_inst 5; to_inst 5] no_instances = Ok (l, s) /\
    NoDup l /\ length l = 2%nat.
Proof.
  destruct (instances_never_reused demo_module [to_inst 5; to_inst 5])
    as (l & s & H1 & H2 & H3 & _).
  - repeat constructor; discriminate.
  - exists l, s. split; [exact H1|]. split; [exact H2|exact H3].
Defined.

Definition demo_m0 : metadata :=
  set_reqid 9 (set_sender (new_ActorID 2 4 1 1) (set_scatter zero_meta)).
Definition demo_reply : metadata := set_target (new_ActorID 0 3 1 1) (set_response zero_meta).

Lemma reply_routed_to_initiator_witness :
  exists r c a out, async_chain 3 demo_m0 None new_reqs = Ok (Some (r, c), a) /\
    invoke_message demo_module (new_ActorID 0 3 1 1) (Some c) (fun _ m => Some zero_meta) demo_reply
      = Ok (Some out) /\
    target out = sender demo_m0 /\ reqid out = reqid demo_m0 /\
    sender out = new_ActorID 0 3 1 1 /\ is_gather out = is_scatter demo_m0.
Proof.
  apply (reply_routed_to_initiator 3 demo_m0 demo_reply zero_meta demo_module _ _ 0 1);
    try reflexivity; try discriminate; try lia.
  repeat split; vm_compute; congruence.
Defined.
End ModuleExamples.
