(* ===== verification/ActorExit.v ===== *)
(** * Actors that exit while messages are on their way

    Module::dispatch of src/module.cpp looks an actor up under the lock of the module and
    delivers the message after the lock is released; an actor whose callback calls
    InstanceExit (src/actor.cpp) is closed by Actor::execute and deleted by Worker::run
    (include/mola/scheduler.hpp), and its destructor takes it out of the instance map
    (Module::on_remove_instance).  A step is what a thread does between two points where
    another one can come in. *)
From stdpp Require Import base list gmap numbers.
From S2P Require Import Prelude ActorId.

(** The mailbox: whether it is open, and the messages in it *)
Record actor := MkActor { a_open : bool; a_inbox : list Z }.

(** [held]: the senders between the look-up and the delivery, with the actor they found and
    their message *)
Record mstate := MkM {
  actors : gmap Z actor;
  m_inst_map : gmap Z Z;
  held : list (Z * Z);
  next : Z
}.

Definition empty : mstate := MkM ∅ ∅ [] 1.

(** create_instance(inst_id): the id of the new actor has ANY as its instance id, and
    std::map::emplace keeps an entry that is there *)
Definition create_instance (s : mstate) : Z * mstate :=
  (next s, MkM (<[next s := MkActor true []]> (actors s))
    (match m_inst_map s !! ANY with Some _ => m_inst_map s | None => <[ANY := next s]> (m_inst_map s) end)
    (held s) (next s + 1)).

(** select_or_create_instance, under the lock *)
Definition select (inst msg : Z) (s : mstate) : mstate :=
  let '(a, s) := match m_inst_map s !! inst with Some a => (a, s) | None => create_instance s end in
  MkM (actors s) (m_inst_map s) (held s ++ [(a, msg)]) (next s).

(** Actor::deliver_message: a closed mailbox is fatal *)
Definition deliver (k : nat) (s : mstate) : outcome mstate :=
  '(a, msg) ← deref (held s !! k);
  x ← deref (actors s !! a);
  _ ← mola_assert (a_open x);
  mret (MkM (<[a := MkActor true (a_inbox x ++ [msg])]> (actors s)) (m_inst_map s) (delete k (held s)) (next s)).

(** The end of execute after InstanceExit: m_mbox.close() drops what is in the mailbox *)
Definition close (a : Z) (s : mstate) : outcome mstate :=
  _ ← deref (actors s !! a); mret (MkM (<[a := MkActor false []]> (actors s)) (m_inst_map s) (held s) (next s)).

(** delete m_current, with on_remove_instance: the entry of the actor's instance id goes *)
Definition destroy (a : Z) (s : mstate) : outcome mstate :=
  _ ← deref (actors s !! a); mret (MkM (delete a (actors s)) (delete ANY (m_inst_map s)) (held s) (next s)).

Inductive op := OSelect (inst msg : Z) | ODeliver (k : nat) | OLeave (a : Z).

(** [OLeave]: close and destroy, with no other step in between *)
Definition exec (o : op) (s : mstate) : outcome mstate :=
  match o with
  | OSelect inst msg => mret (select inst msg s)
  | ODeliver k => deliver k s
  | OLeave a => s ← close a s; destroy a s
  end.

(** No sender has found the actor that leaves. *)
Definition permitted (o : op) (s : mstate) : Prop :=
  match o with
  | OSelect _ _ => True
  | ODeliver k => is_Some (held s !! k)
  | OLeave a => is_Some (actors s !! a) /\ a ∉ (held s).*1
  end.

Definition step (s s' : mstate) : Prop := exists o, permitted o s /\ exec o s = Ok s'.

(** Whoever is found is there and open, and the map has no other key than ANY. *)
Record ok (s : mstate) : Prop := {
  ok_held : forall a, a ∈ (held s).*1 -> exists x, actors s !! a = Some x /\ a_open x = true;
  ok_map : forall i a, m_inst_map s !! i = Some a -> i = ANY /\ exists x, actors s !! a = Some x /\ a_open x = true;
  ok_open : forall a x, actors s !! a = Some x -> a_open x = true /\ a < next s
}.

Lemma create_keeps_ok s : ok s -> ok (create_instance s).2 /\ actors (create_instance s).2 !! (create_instance s).1 = Some (MkActor true []).
Proof.
  intros [H1 H2 H3]. split; [|cbn; apply lookup_insert_eq].
  assert (forall a x, actors s !! a = Some x -> <[next s := MkActor true []]> (actors s) !! a = Some x) as Hk.
  { intros a x E. rewrite lookup_insert_ne; [done|]. intros <-. destruct (H3 _ _ E). lia. }
  split; cbn.
  - intros a (x & E & Ho)%H1. eauto.
  - intros i a Hi. destruct (m_inst_map s !! ANY) eqn:E.
    + destruct (H2 _ _ Hi) as (-> & x & Ex & Ho). eauto.
    + apply lookup_insert_Some in Hi as [[<- <-]|[_ Hi]].
      * split; [done|]. eexists. by rewrite lookup_insert_eq.
      * destruct (H2 _ _ Hi) as (-> & x & Ex & Ho). eauto.
  - intros a x [[<- <-]|[_ E]]%lookup_insert_Some; cbn; [split; [done|lia]|]. destruct (H3 _ _ E). split; [done|lia].
Qed.

Lemma select_ok inst msg s : ok s -> ok (select inst msg s).
Proof.
  intros Hok. unfold select.
  assert (forall a t, ok t -> (exists x, actors t !! a = Some x /\ a_open x = true) ->
    ok (MkM (actors t) (m_inst_map t) (held t ++ [(a, msg)]) (next t))) as Hadd.
  { intros a t [H1 H2 H3] Ha. split; cbn; [|done|done]. intros b. rewrite fmap_app, elem_of_app. cbn.
    rewrite list_elem_of_singleton. intros [Hb| ->]; auto. }
  destruct (m_inst_map s !! inst) as [a|] eqn:E.
  - apply Hadd; [done|]. by destruct (ok_map _ Hok _ _ E).
  - destruct (create_instance s) as [a t] eqn:Ec. destruct (create_keeps_ok s Hok) as [Hok' Ha]. rewrite Ec in Hok', Ha.
    apply Hadd; eauto.
Qed.

Lemma deliver_keeps_ok k s : ok s -> is_Some (held s !! k) -> exists s', deliver k s = Ok s' /\ ok s'.
Proof.
  intros [H1 H2 H3] [[a msg] Hk]. destruct (H1 a) as (x & Hx & Ho).
  { apply list_elem_of_fmap. exists (a, msg). split; [done|]. by eapply list_elem_of_lookup_2. }
  unfold deliver. rewrite Hk. cbn. rewrite Hx. cbn. rewrite Ho. cbn. eexists. split; [done|].
  assert (forall b, (exists y, actors s !! b = Some y /\ a_open y = true) ->
    exists y, <[a := MkActor true (a_inbox x ++ [msg])]> (actors s) !! b = Some y /\ a_open y = true) as Hk'.
  { intros b (y & Ey & Hy). destruct (decide (b = a)) as [->|]; [rewrite lookup_insert_eq; eauto|].
    rewrite lookup_insert_ne by done. eauto. }
  split; cbn.
  - intros b (y & -> & Hy)%list_elem_of_fmap. apply Hk', H1. apply list_elem_of_fmap. exists y. split; [done|].
    rewrite (delete_Permutation _ _ _ Hk). by right.
  - intros i b Hi. destruct (H2 _ _ Hi) as (-> & Hy). auto.
  - intros b y [[<- <-]|[_ E]]%lookup_insert_Some; [|eauto]. split; [done|]. by destruct (H3 _ _ Hx).
Qed.

Lemma leave_ok a s : ok s -> is_Some (actors s !! a) -> a ∉ (held s).*1 -> exists s', exec (OLeave a) s = Ok s' /\ ok s'.
Proof.
  intros [H1 H2 H3] [x Hx] Hn. cbn. unfold close, destroy. rewrite Hx. cbn. rewrite lookup_insert_eq. cbn.
  eexists. split; [done|]. rewrite delete_insert_eq. split; cbn.
  - intros b Hb. destruct (H1 b Hb) as (y & Ey & Hy). exists y. split; [|done]. rewrite lookup_delete_ne; [done|]. congruence.
  - intros i b [Hne Hi]%lookup_delete_Some. by destruct (H2 _ _ Hi).
  - intros b y [_ E]%lookup_delete_Some. eauto.
Qed.

Lemma op_keeps_ok o s : ok s -> permitted o s -> exists s', exec o s = Ok s' /\ ok s'.
Proof.
  intros Hok. destruct o; cbn -[exec].
  - intros _. eexists. split; [done|by apply select_ok].
  - by apply deliver_keeps_ok.
  - intros [? ?]. by apply leave_ok.
Qed.

Lemma exit_reachable_ok s : rtc step empty s -> ok s.
Proof.
  intros Hr. remember empty as s0 eqn:E. assert (ok s0) as H0 by (subst; split; cbn; [by intros a ?%elem_of_nil|done..]).
  clear E. induction Hr as [|s0 s1 s2 (o & Hp & He) _ IH]; [done|]. apply IH.
  destruct (op_keeps_ok o s0 H0 Hp) as (s' & E & ?). congruence.
Qed.

(** The delivery of a message to an actor that exits.  As long as an actor exits only
    while no sender is between the look-up and the delivery, every delivery succeeds; a
    sender that has found an actor before it exits ends the process when the mailbox is
    closed already, and uses freed memory when the actor is deleted. *)
Theorem exit_during_dispatch s : rtc step empty s ->
  (forall k, is_Some (held s !! k) -> exists s', deliver k s = Ok s') /\
  (forall k a msg s1, held s !! k = Some (a, msg) -> close a s = Ok s1 ->
     deliver k s1 = Fault AssertFailed /\ exists s2, destroy a s1 = Ok s2 /\ deliver k s2 = Fault BadDeref).
Proof.
  intros Hok%exit_reachable_ok. split.
  - intros k Hk. destruct (deliver_keeps_ok k s Hok Hk) as (s' & E & _). eauto.
  - intros k a msg s1 Hk Hc. unfold close in Hc. inv_ok. unfold deliver, destroy. cbn. rewrite Hk. cbn.
    rewrite !lookup_insert_eq. cbn. split; [done|]. eexists. split; [done|]. cbn. rewrite Hk. cbn.
    by rewrite delete_insert_eq, lookup_delete_eq.
Qed.

(** The instance id of every actor is ANY: an actor takes the entry of another one with it
    when it leaves, and the other is not found any more although it is there. *)
Theorem exit_forgets_another s a b : m_inst_map s !! ANY = Some a -> is_Some (actors s !! b) -> b <> a ->
  exists s', exec (OLeave b) s = Ok s' /\ actors s' !! a = actors s !! a /\ m_inst_map s' !! ANY = None.
Proof.
  intros Ha [x Hx] Hne. cbn. unfold close, destroy. rewrite Hx. cbn. rewrite lookup_insert_eq. cbn.
  eexists. split; [done|]. cbn. rewrite delete_insert_eq, lookup_delete_ne, lookup_delete_eq by done. done.
Qed.

(** Example: a sender has found the actor that it made. *)
Lemma exit_during_dispatch_witness :
  exists s1, close 1 (select 5 7 empty) = Ok s1 /\ deliver 0 s1 = Fault AssertFailed.
Proof.
  assert (rtc step empty (select 5 7 empty)) as Hr by (apply rtc_once; by exists (OSelect 5 7)).
  eexists. split; [reflexivity|].
  eapply (exit_during_dispatch _ Hr) with (a := 1) (msg := 7); reflexivity.
Defined.
