(* ===== verification/LoadBalancer.v ===== *)
(** * Load balancing: the random strategy

    include/mola/load_balancer.hpp.  A group of messages is spread over the nodes
    that have the target module: in turn from a random start when there are fewer
    nodes than messages, at random otherwise. *)
From stdpp Require Import base list gmap numbers.
From S2P Require Import Prelude WorkSteal.

Section Strategy.
(** [task] is the callback of the dispatcher; it may use the thread's random
    generator too, whose seed is part of the state. *)
Context {Nd Msg St : Type} (task : Nd -> Msg -> Z * St -> outcome (Z * (Z * St))).

(** RandomStrategy::random *)
Definition random_below (max : Z) (s : Z * St) : outcome (Z * (Z * St)) :=
  _ ← mola_assert (0 <? max);
  let r := random s.1 in mret (r mod max, (r, s.2)).

Definition select_one_node (candidates : list Nd) (s : Z * St) : outcome (Nd * (Z * St)) :=
  '(i, s) ← random_below (Z.of_nat (length candidates)) s;
  n ← deref (candidates !! Z.to_nat i);
  mret (n, s).

Fixpoint round_robin (candidates : list Nd) (r rc : Z) (group : list Msg) (s : Z * St)
  : outcome (Z * (Z * St)) :=
  match group with
  | [] => mret (rc, s)
  | msg :: group =>
      n ← deref (candidates !! Z.to_nat (r mod Z.of_nat (length candidates)));
      '(ret, s) ← task n msg s;
      round_robin candidates (u32 (r + 1)) (if ret =? 0 then rc + 1 else rc) group s
  end.

Fixpoint select_each (candidates : list Nd) (rc : Z) (group : list Msg) (s : Z * St)
  : outcome (Z * (Z * St)) :=
  match group with
  | [] => mret (rc, s)
  | msg :: group =>
      '(n, s) ← select_one_node candidates s;
      '(ret, s) ← task n msg s;
      select_each candidates (if ret =? 0 then rc + 1 else rc) group s
  end.

Definition scatter_to_nodes (candidates : list Nd) (group : list Msg) (s : Z * St)
  : outcome (Z * (Z * St)) :=
  _ ← mola_assert (0 <? Z.of_nat (length candidates));
  if (length candidates <? length group)%nat then
    let r := random s.1 in round_robin candidates r 0 group (r, s.2)
  else select_each candidates 0 group s.
End Strategy.

(** ** Balance of the round robin *)

(** How often the index [k] of [size] is chosen by [n] turns from [r] on. *)
Fixpoint turns (size k r : Z) (n : nat) : Z :=
  match n with
  | O => 0
  | S n => (if r mod size =? k then 1 else 0) + turns size k (u32 (r + 1)) n
  end.

Lemma div_step size k n :
  0 < size -> 0 <= k < size ->
  (n + 1 + size - 1 - k) / size - (n + size - 1 - k) / size = if n mod size =? k then 1 else 0.
Proof.
  intros Hs Hk. pose proof (Z.div_mod n size ltac:(lia)) as Hn.
  pose proof (Z.mod_pos_bound n size Hs) as Hm. set (q := n / size) in *. set (m := n mod size) in *.
  replace (n + 1 + size - 1 - k) with ((m - k) + (q + 1) * size) by lia.
  replace (n + size - 1 - k) with ((m - k - 1) + (q + 1) * size) by lia.
  rewrite !Z.div_add by lia. destruct (Z.eqb_spec m k) as [->|Hne].
  - replace (k - k) with 0 by lia. rewrite Z.div_0_l by lia.
    rewrite <- (Z.div_unique (0 - 1) size (-1) (size - 1)) by lia. lia.
  - destruct (Z.lt_ge_cases m k).
    + rewrite <- (Z.div_unique (m - k) size (-1) (size + m - k)) by lia.
      rewrite <- (Z.div_unique (m - k - 1) size (-1) (size + m - k - 1)) by lia. lia.
    + rewrite !Z.div_small by lia. lia.
Qed.

Lemma turns_closed size k r n :
  0 < size -> 0 <= k < size -> 0 <= r -> r + Z.of_nat n <= 2 ^ 32 ->
  turns size k r n = (r + Z.of_nat n + size - 1 - k) / size - (r + size - 1 - k) / size.
Proof.
  intros Hs Hk. revert r; induction n as [|n IH]; intros r Hr Hn; cbn [turns].
  - rewrite Z.add_0_r. lia.
  - rewrite <- (div_step size k r Hs Hk).
    destruct n as [|n]; [cbn [turns]; change (Z.of_nat 1) with 1; lia|].
    rewrite wrap_small by width_lia. rewrite IH by lia.
    replace (r + 1 + Z.of_nat (S n)) with (r + Z.of_nat (S (S n))) by lia. lia.
Qed.

(** Each of [size] candidates is chosen by [n] turns between n / size times,
    rounded down, and rounded up. *)
Lemma turns_balanced size k r n :
  0 < size -> 0 <= k < size -> 0 <= r -> r + Z.of_nat n <= 2 ^ 32 ->
  Z.of_nat n / size <= turns size k r n <= (Z.of_nat n + size - 1) / size.
Proof.
  intros Hs Hk Hr Hn. rewrite turns_closed by done. set (a := r + size - 1 - k).
  replace (r + Z.of_nat n + size - 1 - k) with (a + Z.of_nat n) by lia.
  pose proof (Z.div_mod a size ltac:(lia)). pose proof (Z.mod_pos_bound a size Hs).
  pose proof (Z.div_mod (a + Z.of_nat n) size ltac:(lia)).
  pose proof (Z.mod_pos_bound (a + Z.of_nat n) size Hs).
  split.
  - enough (Z.of_nat n / size < (a + Z.of_nat n) / size - a / size + 1) by lia.
    apply Z.div_lt_upper_bound; [done|]. nia.
  - apply Z.div_le_lower_bound; [done|]. nia.
Qed.

(** ** What a scatter does *)
Section Counting.
Context {Nd Msg : Type} `{!EqDecision Nd}.

(** A task that always succeeds and records its calls. *)
Definition log_task (n : Nd) (m : Msg) (s : Z * list (Nd * Msg)) : outcome (Z * (Z * list (Nd * Msg))) :=
  Ok (0, (s.1, s.2 ++ [(n, m)])).

Lemma round_robin_log (cands : list Nd) (group : list Msg) r rc s :
  cands <> [] -> NoDup cands -> 0 <= r ->
  exists calls, round_robin log_task cands r rc group s =
      Ok (rc + Z.of_nat (length group), (s.1, s.2 ++ calls)) /\
    calls.*2 = group /\
    forall k n, cands !! k = Some n ->
      Z.of_nat (count_occ (fun a b : Nd => decide (a = b)) calls.*1 n) =
      turns (Z.of_nat (length cands)) (Z.of_nat k) r (length group).
Proof.
  intros Hne Hnd. revert r rc s. induction group as [|m group IH]; intros r rc s Hr; cbn [round_robin length turns].
  - exists []. change (Z.of_nat 0) with 0. rewrite Z.add_0_r, app_nil_r. by destruct s.
  - assert (0 < Z.of_nat (length cands)) as Hs by (destruct cands; simpl; [done|lia]).
    pose proof (Z.mod_pos_bound r _ Hs) as Hm.
    destruct (lookup_lt_is_Some_2 cands (Z.to_nat (r mod Z.of_nat (length cands)))) as [x Hx]; [lia|].
    rewrite Hx. cbn.
    destruct (IH (u32 (r + 1)) (rc + 1) (s.1, s.2 ++ [(x, m)])) as (calls & Hrr & H2 & Hc).
    { by apply wrap_range. }
    rewrite Hrr. exists ((x, m) :: calls).
    split; [cbn [fst snd]; rewrite <- app_assoc;
      by rewrite (Z.add_comm rc 1), Nat2Z.inj_succ, <- Z.add_1_l, Z.add_assoc, (Z.add_comm rc 1)|].
    split; [by rewrite fmap_cons, H2|]. intros k n Hk. rewrite <- (Hc k n Hk), fmap_cons. cbn [count_occ fst].
    destruct (Z.eqb_spec (r mod Z.of_nat (length cands)) (Z.of_nat k)) as [He|He].
    + rewrite He, Nat2Z.id in Hx. rewrite Hk in Hx. injection Hx as ->.
      destruct (decide (x = x)); [lia|done].
    + destruct (decide (x = n)) as [->|]; [|lia]. exfalso. apply He.
      rewrite (NoDup_lookup cands _ _ n Hnd Hk Hx). lia.
Qed.

(** A scatter to fewer nodes than messages is balanced: every message is sent
    exactly once and in order, and every node gets the average number of messages,
    rounded down or up (as long as the 32-bit turn counter does not wrap). *)
Theorem scatter_balanced (cands : list Nd) (group : list Msg) (seed : Z) :
  cands <> [] -> NoDup cands -> (length cands < length group)%nat ->
  0 <= random seed -> random seed + Z.of_nat (length group) <= 2 ^ 32 ->
  exists calls seed', scatter_to_nodes log_task cands group (seed, []) =
      Ok (Z.of_nat (length group), (seed', calls)) /\
    calls.*2 = group /\
    forall n, n ∈ cands ->
      Z.of_nat (length group) / Z.of_nat (length cands)
      <= Z.of_nat (count_occ (fun a b : Nd => decide (a = b)) calls.*1 n)
      <= (Z.of_nat (length group) + Z.of_nat (length cands) - 1) / Z.of_nat (length cands).
Proof.
  intros Hne Hnd Hlt Hr Hw. assert (0 < length cands)%nat by (destruct cands; simpl; [done|lia]).
  destruct (round_robin_log cands group (random seed) 0 (random seed, []) Hne Hnd Hr)
    as (calls & Hrr & H2 & Hc).
  exists calls, (random seed). unfold scatter_to_nodes.
  rewrite (proj2 (Z.ltb_lt _ _)), (proj2 (Nat.ltb_lt _ _)) by lia. cbn -[random].
  split; [exact Hrr|]. split; [done|]. intros n Hn. apply list_elem_of_lookup in Hn as [k Hk].
  rewrite (Hc k n Hk). apply lookup_lt_Some in Hk. apply turns_balanced; lia.
Qed.
End Counting.

Module LoadBalancerExamples.
Lemma scatter_balanced_witness :
  exists calls seed', scatter_to_nodes log_task [10; 20] [1; 2; 3; 4; 5] (1, []) =
    Ok (5, (seed', calls)) /\ calls.*2 = [1; 2; 3; 4; 5].
Proof.
  destruct (scatter_balanced [10; 20] [1; 2; 3; 4; 5] 1) as (calls & seed' & H1 & H2 & _);
    [discriminate|by repeat constructor; rewrite ?elem_of_cons, ?elem_of_nil; lia|simpl; lia
    |vm_compute; congruence..|].
  exists calls, seed'. split; [exact H1|exact H2].
Defined.
End LoadBalancerExamples.
