(* ===== verification/Dispatcher.v ===== *)
(** * The dispatcher: where a message goes

    src/dispatcher.cpp and include/mola/dispatcher.hpp, with Node::deliver_message
    of src/node_manager.cpp and ScatterGroup of src/message.cpp.

    The state is what the dispatcher sees of the process: the loaded modules, the
    nodes NodeManager::find_node answers with, whether it runs on a worker thread
    and for which actor, and a log of what became of each message. *)
From stdpp Require Import base list gmap numbers.
From S2P Require Import Prelude ActorId Message Mailbox Actor Module LoadBalancer.

#[local] Arguments wrap : simpl never.

(** ** The state *)
Definition node_invalid_id : Z := 2 ^ 32 - 1.

(** [nd_local]: it is the object local_node(); [nd_reachable]: get_client(true)
    finds or makes a connection. *)
Record node := MkNode {
  nd_id : Z;
  nd_local : bool;
  nd_reachable : bool;
  nd_modules : list Z
}.

Inductive effect :=
| ToModule (mid : Z) (msg : metadata)    (* Module::dispatch *)
| ToNode (nid : Z) (msg : metadata)      (* written to the connection of a node *)
| Unsent (nid : Z) (msg : metadata)      (* the connection could not be made *)
| Delayed (msg : metadata)               (* kept by the delay pool *)
| NodeGone (nid : Z) (msg : metadata).   (* an error message: the node is deleted *)

Record dstate := MkD {
  d_local : Z;
  d_modules : gmap Z module;
  d_nodes : gmap Z node;
  d_worker : bool;
  d_current : option ActorID;
  d_log : list effect
}.

Definition emit (e : effect) (d : dstate) : dstate :=
  MkD (d_local d) (d_modules d) (d_nodes d) (d_worker d) (d_current d) (d_log d ++ [e]).
Definition delete_node (nid : Z) (d : dstate) : dstate :=
  MkD (d_local d) (d_modules d) (delete nid (d_nodes d)) (d_worker d) (d_current d) (d_log d).

(** get_target().set_node_id, get_sender().set_node_id *)
Definition set_target_node (n : Z) (m : metadata) : metadata :=
  set_target (set_node_id n (target m)) m.
Definition set_sender_node (n : Z) (m : metadata) : metadata :=
  set_sender (set_node_id n (sender m)) m.

(** The caller's MessageSafePtr is passed by reference.  The result holds what it
    points to afterwards: [Some] of the message, or [None] when the message was
    taken out of it by pass().  What Module::dispatch then fills in, the instance
    of the target, is in Module.v. *)
Definition sent := (Z * option metadata * dstate)%type.

(** Node::deliver_message *)
Definition node_deliver (nd : node) (msg : metadata) (d : dstate) : outcome sent :=
  if nd_local nd then
    _ ← mola_assert (bool_decide (is_Some (d_modules d !! module_id (target msg))));
    mret (0, Some msg, emit (ToModule (module_id (target msg)) msg) d)
  else if nd_reachable nd then
    let msg := set_target_node (nd_id nd) (set_sender_node (d_local d) msg) in
    mret (0, None, emit (ToNode (nd_id nd) msg) d)
  else mret (-1, Some msg, emit (Unsent (nd_id nd) msg) d).

(** The second half of Dispatcher::dispatch: the target is another node. *)
Definition dispatch_remote (msg : metadata) (d : dstate) : outcome sent :=
  match d_nodes d !! node_id (target msg) with
  | None =>
      if d_worker d then mret (0, Some msg, emit (Delayed msg) d) else mret (-2, Some msg, d)
  | Some nd =>
      if nd_id nd =? node_invalid_id then mret (-1, Some msg, d)
      else
        _ ← mola_assert (match d_current d with
                         | None => true
                         | Some a => module_id a =? module_id (sender msg)
                         end);
        '(_, ptr, d) ← node_deliver nd msg d;
        mret (0, ptr, d)
  end.

(** The error message that answers a message for a module that is not loaded. *)
Definition bounce (msg : metadata) : metadata :=
  let msg := set_error msg in
  set_sender_node LOCAL (set_target_node (node_id (sender msg)) msg).

(** Dispatcher::dispatch(message) *)
Definition dispatch_msg (msg : metadata) (d : dstate) : outcome sent :=
  if is_local (d_local d) (target msg) then
    if is_error msg then
      _ ← mola_assert (bool_decide (is_Some (d_nodes d !! node_id (sender msg))));
      mret (0, Some msg, delete_node (node_id (sender msg)) (emit (NodeGone (node_id (sender msg)) msg) d))
    else match d_modules d !! module_id (target msg) with
         | Some _ => mret (0, Some msg, emit (ToModule (module_id (target msg)) msg) d)
         | None => dispatch_remote (bounce msg) d
         end
  else dispatch_remote msg d.

(** ** Requests *)

(** Dispatcher::dispatch(target, message, return_intf, ctx): [cur] and [cm] are the
    actor's current request context and message.  The request id is read from the
    message after it was dispatched. *)
Definition dispatch_request (tgt : ActorID) (msg : metadata) (return_intf : Z)
    (cur : option reqctx) (cm : option metadata) (a : reqs) (d : dstate)
  : outcome (Z * option metadata * reqs * dstate) :=
  self ← (match d_current d with Some i => mret i | None => Fault AssertFailed end);
  let msg := set_request (set_sender self (set_target tgt msg)) in
  let '(fresh, msg, a) :=
    if return_intf =? ANY then (false, msg, a)
    else
      let msg := set_sender (set_intf_id return_intf (sender msg)) msg in
      if reqid msg =? 0 then let '(r, a) := new_reqid a in (true, set_reqid r msg, a)
      else (false, msg, a) in
  '(ret, ptr, d) ← dispatch_msg msg d;
  if fresh then
    msg ← deref ptr;
    if ret =? 0 then a ← on_async_send_done cur cm (reqid msg) a; mret (ret, ptr, a, d)
    else mret (ret, ptr, release_reqid (reqid msg) a, d)
  else mret (ret, ptr, a, d).

(** SendMsgToIntf; [actor_node] is what the name service answers for the instance. *)
Definition SendMsgToIntf (mid intf inst : Z) (actor_node : option Z) (msg : metadata) (ret_intf : Z)
    (cur : option reqctx) (cm : option metadata) (a : reqs) (d : dstate)
  : outcome (Z * option metadata * reqs * dstate) :=
  let node := match actor_node with Some n => n | None => LOCAL end in
  dispatch_request (new_ActorID node mid inst intf) msg ret_intf cur cm a d.

(** ** Scatter *)

(** msg->set_target(node, module, intf, inst) *)
Definition set_target4 (n m i inst : Z) (msg : metadata) : metadata :=
  set_target (set_inst_id inst (set_intf_id i (set_module_id m (set_node_id n (target msg))))) msg.

(** The directional part: count the messages that dispatch accepts. *)
Fixpoint dispatch_each (msgs : list metadata) (ret : Z) (d : dstate) : outcome (Z * dstate) :=
  match msgs with
  | [] => mret (ret, d)
  | m :: msgs =>
      '(r, _, d) ← dispatch_msg m d;
      dispatch_each msgs (if r =? 0 then ret + 1 else ret) d
  end.

(** The task of the load balancer. *)
Definition node_task (nd : node) (msg : metadata) (s : Z * dstate) : outcome (Z * (Z * dstate)) :=
  '(r, _, d) ← dispatch_msg (set_target_node (nd_id nd) msg) s.2; mret (r, (s.1, d)).

Definition query_node_with_module (mid : Z) (d : dstate) : list node :=
  filter (fun nd => mid ∈ nd_modules nd) (map_to_list (d_nodes d)).*2.

(** The sender and type of the messages of a scatter. *)
Definition stamp (self : ActorID) (gather_intf reqid : Z) (local : bool) (msg : metadata) : metadata :=
  let msg := set_sender (set_intf_id gather_intf self) (set_reqid reqid (set_scatter msg)) in
  if local then set_target_node LOCAL msg else msg.

(** Dispatcher::dispatch(ScatterGroup&, gather_intf, directional) *)
Definition dispatch_scatter (group : list metadata) (rid gather_intf : Z) (directional : bool)
    (seed : Z) (d : dstate) : outcome (Z * Z * dstate) :=
  self ← (match d_current d with Some i => mret i | None => Fault AssertFailed end);
  first ← deref (group !! 0%nat);
  let mid := module_id (target first) in
  let local := negb directional &&
    match d_modules d !! mid with Some m => m_private m | None => false end in
  let group := stamp self gather_intf rid local <$> group in
  let n := Z.of_nat (length group) in
  if directional || local then
    '(ret, d) ← dispatch_each group 0 d;
    mret (if ret =? n then 0 else -4, seed, d)
  else
    match query_node_with_module mid d with
    | [] => mret (0, seed, foldl (fun d m => emit (Delayed m) d) d group)
    | candidates =>
        '(ret, (seed, d)) ← scatter_to_nodes node_task candidates group (seed, d);
        mret (if ret =? n then 0 else -4, seed, d)
    end.

(** ScatterGroup: its messages, m_reqid and m_current *)
Record ScatterGroup := MkScatter { sg_msgs : list metadata; sg_reqid : Z; sg_current : ActorID }.

(** Its constructor; [mg] has None for a null message, which is left out *)
Definition new_ScatterGroup (mg : list (option metadata)) (a : reqs) (d : dstate) : outcome (ScatterGroup * reqs) :=
  self ← (match d_current d with Some i => mret i | None => Fault AssertFailed end);
  let '(r, a) := new_reqid a in
  mret (MkScatter (omap id mg) r self, a).

(** ScatterGroup::failure: the request id is not used and, since replies to it may still
    come, not released either. *)
Definition failure (g : ScatterGroup) : ScatterGroup := MkScatter (sg_msgs g) INVALID_REQID (sg_current g).

(** Its destructor saves the gather context, unless the scatter failed. *)
Definition delete_ScatterGroup (cur : option reqctx) (cm : option metadata) (g : ScatterGroup) (a : reqs) (d : dstate)
  : outcome reqs :=
  _ ← mola_assert (bool_decide (d_current d = Some (sg_current g)));
  if negb (sg_reqid g =? INVALID_REQID) then
    on_scatter_done cur cm (sg_reqid g) (u32 (Z.of_nat (length (sg_msgs g)))) a
  else mret a.

(** The targets of the messages; [dest] the packed ids of the destinations *)
Fixpoint set_dests (mid intf : Z) (dest : list Z) (group : list metadata) : outcome (list metadata) :=
  match group with
  | [] => mret []
  | m :: group =>
      match dest with
      | [] => Fault BadDeref
      | i :: dest =>
          _ ← mola_assert (GET_REQ_ID i =? 0);
          ms ← set_dests mid intf dest group;
          mret (set_target4 (GET_NODE_ID i) mid intf (GET_INST_ID i) m :: ms)
      end
  end.

Definition ScatterToIntf (mid intf : Z) (dest : option (list Z)) (mg : list (option metadata))
    (gather_intf : Z) (cur : option reqctx) (cm : option metadata) (seed : Z) (a : reqs) (d : dstate)
  : outcome (Z * reqs * Z * dstate) :=
  if bool_decide (mg = []) then mret (-3, a, seed, d)
  else
    '(group, a) ← new_ScatterGroup mg a d;
    msgs ← (match dest with
            | Some l => set_dests mid intf l (sg_msgs group)
            | None => mret (set_target4 ANY mid intf ANY <$> sg_msgs group)
            end);
    let group := MkScatter msgs (sg_reqid group) (sg_current group) in
    '(ret, seed, d) ←
      (if negb (length mg =? length msgs)%nat then mret (-4, seed, d)
       else dispatch_scatter msgs (sg_reqid group) gather_intf (bool_decide (is_Some dest)) seed d);
    let '(ret, group) := if ret =? 0 then (0, group) else (-4, failure group) in
    a ← delete_ScatterGroup cur cm group a d;
    mret (ret, a, seed, d).

(** ** ReplyMsg: the answer to a saved return state *)
Definition save_return_state (cur : option reqctx) (cm : option metadata) : reqctx :=
  MkCtx (initiator_of cur cm) None.

(** [vtab_ok]: no message type was given, or the message has it. *)
Definition ReplyMsg (rid : option reqctx) (vtab_ok : bool) (response : metadata) (d : dstate)
  : outcome sent :=
  self ← (match d_current d with Some i => mret i | None => Fault AssertFailed end);
  match rid with
  | None => mret (-4, Some response, d)
  | Some rc =>
      if negb vtab_ok then mret (-5, Some response, d)
      else
        initiator ← deref (rc_initiator rc);
        let response := set_reqid (reqid initiator) response in
        response ←
          (if is_request initiator then mret (set_response response)
           else if is_scatter initiator then mret (set_gather response)
           else Fault AssertFailed);
        dispatch_msg (set_sender self (set_target (sender initiator) response)) d
  end.

(** ** One message *)
Definition effect_msg (e : effect) : metadata :=
  match e with
  | ToModule _ m | ToNode _ m | Unsent _ m | Delayed m | NodeGone _ m => m
  end.

Definition same_request (r : Z) (e : effect) : Prop := reqid (effect_msg e) = r.

Lemma node_deliver_effect nd msg d ret p d' :
  node_deliver nd msg d = Ok (ret, p, d') ->
  exists e, d_log d' = d_log d ++ [e] /\ same_request (reqid msg) e /\
    forall m, p = Some m -> reqid m = reqid msg.
Proof.
  unfold node_deliver, same_request. destruct (nd_local nd); [|destruct (nd_reachable nd)];
    intros H; inv_ok; simplify_eq; eexists; split_and!; try done; intros; by simplify_eq.
Qed.

Lemma dispatch_remote_effect msg d ret p d' :
  dispatch_remote msg d = Ok (ret, p, d') ->
  (forall m, p = Some m -> reqid m = reqid msg) /\
  ((ret = 0 /\ exists e, d_log d' = d_log d ++ [e] /\ same_request (reqid msg) e) \/
   (ret <> 0 /\ d' = d)).
Proof.
  unfold dispatch_remote. intros H. destruct (d_nodes d !! node_id (target msg)) as [nd|].
  - destruct (nd_id nd =? node_invalid_id).
    + inv_ok; simplify_eq. split; [by intros; simplify_eq|]. by right.
    + apply bind_inv in H as (_ & _ & H). apply bind_inv in H as (((r1, m1), d1) & E & H).
      inv_ok. simplify_eq. apply node_deliver_effect in E as (e & H1 & H2 & H3).
      split; [done|]. left. eauto.
  - destruct (d_worker d); inv_ok; simplify_eq; (split; [by intros; simplify_eq|]); [left|by right].
    split; [done|]. by eexists.
Qed.

(** What [dispatch_msg] does with a message: 0 means that exactly one thing
    happened to it, anything else that nothing did. *)
Lemma dispatch_msg_effect msg d ret p d' :
  dispatch_msg msg d = Ok (ret, p, d') ->
  (forall m, p = Some m -> reqid m = reqid msg) /\
  ((ret = 0 /\ exists e, d_log d' = d_log d ++ [e] /\ same_request (reqid msg) e) \/
   (ret <> 0 /\ d' = d)).
Proof.
  unfold dispatch_msg. destruct (is_local _ _); [|apply dispatch_remote_effect].
  destruct (is_error msg).
  - intros H; inv_ok; simplify_eq. split; [by intros; simplify_eq|]. left. split; [done|].
    eexists. by split.
  - destruct (d_modules d !! _); [|apply (dispatch_remote_effect (bounce msg))].
    intros H; inv_ok; simplify_eq. split; [by intros; simplify_eq|]. left. split; [done|]. by eexists.
Qed.

(** ** Requests *)

(** The message that goes to the dispatcher for a request with the id [r]. *)
Definition request_msg (tgt self : ActorID) (return_intf r : Z) (msg : metadata) : metadata :=
  let msg := set_request (set_sender self (set_target tgt msg)) in
  set_reqid r (set_sender (set_intf_id return_intf (sender msg)) msg).

Lemma dispatch_request_eq tgt self msg return_intf cur cm a d :
  d_current d = Some self -> return_intf <> ANY -> reqid msg = 0 ->
  dispatch_request tgt msg return_intf cur cm a d =
  ('(ret, ptr, d) ← dispatch_msg (request_msg tgt self return_intf (new_reqid a).1 msg) d;
   m ← deref ptr;
   if ret =? 0 then a ← on_async_send_done cur cm (reqid m) (new_reqid a).2; mret (ret, ptr, a, d)
   else mret (ret, ptr, release_reqid (reqid m) (new_reqid a).2, d)).
Proof.
  intros Hcur Hri Hr0. unfold dispatch_request. rewrite Hcur. cbn.
  rewrite (proj2 (Z.eqb_neq _ _)), Hr0 by done. cbn. by destruct (new_reqid a).
Qed.

(** C23: what a request with a return interface and no id of its own leaves behind.
    It is sent under a fresh request id.  If the dispatcher accepts it (exactly one
    effect, carrying that id) and leaves the message in place, the context with the
    right initiator is stored under the id; if it does not accept it, nothing
    happened to the message, no context was stored and the id is free again.  If
    the dispatcher has taken the message out of the caller's pointer, reading the
    id back dereferences a null pointer. *)
Theorem request_context_iff_accepted (tgt self : ActorID) (msg : metadata) (return_intf ret : Z)
    (cur : option reqctx) (cm : option metadata) (a : reqs) (d d' : dstate) (p : option metadata) :
  ractor_ok (MkRactor a []) -> m_reqid_generator a + 1 < 2 ^ 32 ->
  d_current d = Some self -> return_intf <> ANY -> reqid msg = 0 ->
  let r := (new_reqid a).1 in
  dispatch_msg (request_msg tgt self return_intf r msg) d = Ok (ret, p, d') ->
  find_req_ctx r a = None /\
  match p with
  | None => dispatch_request tgt msg return_intf cur cm a d = Fault BadDeref
  | Some m =>
      exists a', dispatch_request tgt msg return_intf cur cm a d = Ok (ret, Some m, a', d') /\
        reqid m = r /\ ractor_ok (MkRactor a' []) /\
        if ret =? 0 then
          find_req_ctx r a' = Some (MkCtx (initiator_of cur cm) None) /\
          exists e, d_log d' = d_log d ++ [e] /\ reqid (effect_msg e) = r
        else find_req_ctx r a' = None /\ r ∈ m_reqid_recycle a' /\ d' = d
  end.
Proof.
  intros Hok Hg Hcur Hri Hr0 r Hd. rewrite (dispatch_request_eq _ self) by done. fold r. rewrite Hd.
  pose proof (new_reqid_spec (MkRactor a []) Hok Hg) as Hnew. simpl in Hnew.
  subst r. destruct (new_reqid a) as [r a1]. destruct Hnew as (Hok1 & Hfr & Hctx & Hg1).
  cbn [fst snd] in *. pose proof Hfr as (Hni & Hnone & Hr).
  split; [unfold find_req_ctx; congruence|].
  apply dispatch_msg_effect in Hd as (Hm & Heff). cbn in Hm, Heff.
  rewrite (wrap_small 32 r) in Hm, Heff by width_lia.
  destruct p as [m|]; [|done]. cbn. rewrite (Hm m eq_refl).
  destruct Heff as [(-> & e & He & Hre)|(Hne & ->)]; cbn.
  - destruct (insert_req_ctx_ok r (MkCtx (initiator_of cur cm) None) a1 [] Hok1 Hfr)
      as (a2 & Ha2 & Hok2 & _).
    unfold on_async_send_done. rewrite Ha2. cbn. exists a2. do 3 (split; [done|]).
    split; [|eauto]. revert Ha2. unfold insert_req_ctx. intros; inv_ok. apply lookup_insert_eq.
  - rewrite (proj2 (Z.eqb_neq _ _)) by done. eexists. do 2 (split; [done|]). split.
    + unfold ractor_ok. simpl. eapply ids_perm; [|exact (ids_put _ _ _ _ Hok1 Hfr)]. simpl.
      rewrite <- app_assoc. apply Permutation_middle.
    + split; [done|]. split; [|done]. apply elem_of_app. right. constructor.
Qed.

(** A request with a return interface to another node never leads to a reply.
    If the node can be reached, the message is written to its connection, which
    takes it out of the caller's pointer, and the request id is then read through
    that null pointer; if it cannot be reached, the failure is not reported: the
    request is accepted with 0, nothing was sent and its context waits for a reply
    that cannot come. *)
Theorem remote_request_outcome (tgt self : ActorID) (msg : metadata) (return_intf : Z)
    (cur : option reqctx) (cm : option metadata) (a : reqs) (d : dstate) (nd : node) :
  ractor_ok (MkRactor a []) -> m_reqid_generator a + 1 < 2 ^ 32 ->
  d_current d = Some self -> return_intf <> ANY -> reqid msg = 0 ->
  is_local (d_local d) tgt = false -> d_nodes d !! node_id tgt = Some nd ->
  nd_id nd <> node_invalid_id -> nd_local nd = false ->
  if nd_reachable nd then dispatch_request tgt msg return_intf cur cm a d = Fault BadDeref
  else exists m a' d', dispatch_request tgt msg return_intf cur cm a d = Ok (0, Some m, a', d') /\
    d_log d' = d_log d ++ [Unsent (nd_id nd) m] /\
    find_req_ctx (reqid m) a' = Some (MkCtx (initiator_of cur cm) None).
Proof.
  intros Hok Hg Hcur Hri Hr0 Hl Hn Hinv Hnl. rewrite (dispatch_request_eq _ self) by done.
  pose proof (new_reqid_spec (MkRactor a []) Hok Hg) as Hnew. simpl in Hnew.
  destruct (new_reqid a) as [r a1]. destruct Hnew as (Hok1 & Hfr & _ & Hg1).
  pose proof Hfr as (_ & _ & Hr). cbn [fst snd].
  assert (u32 r = r) as Hw by (apply wrap_small; width_lia).
  unfold dispatch_msg, dispatch_remote. cbn [target request_msg set_target set_request set_sender
    set_reqid MOLA_SET_METATYPE]. rewrite Hl, Hn, Hcur, (proj2 (Z.eqb_neq (nd_id nd) _)) by done.
  cbn. rewrite Z.eqb_refl. cbn. unfold node_deliver. rewrite Hnl.
  destruct (nd_reachable nd); [done|]. cbn. rewrite Hw.
  destruct (insert_req_ctx_ok r (MkCtx (initiator_of cur cm) None) a1 [] Hok1 Hfr)
    as (a2 & Ha2 & _). unfold on_async_send_done. rewrite Ha2. cbn.
  eexists _, _, _. split; [reflexivity|]. split; [done|]. cbn.
  rewrite Hw. revert Ha2. unfold insert_req_ctx. intros; inv_ok. apply lookup_insert_eq.
Qed.

(** ** Scatters *)

(** What a message carries besides the nodes it goes between. *)
Definition content (m : metadata) : metadata := set_sender_node LOCAL (set_target_node LOCAL m).

(** [went d m e]: the effect [e] is what may become of the message [m]: it is delivered
    to its module, written to a node or kept by the delay pool, and lost only when a known node
    cannot be reached; if its module is not loaded, it may have come back as an error. *)
Definition went (d : dstate) (m : metadata) (e : effect) : Prop :=
  (content (effect_msg e) = content m /\
   match e with
   | ToModule mid _ => mid = module_id (target m) /\ is_Some (d_modules d !! mid)
   | ToNode nid _ => exists k nd, d_nodes d !! k = Some nd /\ nd_id nd = nid /\ nd_reachable nd = true
   | Unsent nid _ => exists k nd, d_nodes d !! k = Some nd /\ nd_id nd = nid /\ nd_reachable nd = false
   | Delayed _ => True
   | NodeGone _ _ => False
   end) \/
  (d_modules d !! module_id (target m) = None /\ content (effect_msg e) = content (bounce m)).

Definition on_its_way (e : effect) : bool :=
  match e with ToModule _ _ | ToNode _ _ | Delayed _ => true | Unsent _ _ | NodeGone _ _ => false end.

Definition logged (es : list effect) (d : dstate) : dstate :=
  MkD (d_local d) (d_modules d) (d_nodes d) (d_worker d) (d_current d) (d_log d ++ es).

Lemma logged_app es es' d : logged es' (logged es d) = logged (es ++ es') d.
Proof. unfold logged. cbn. by rewrite app_assoc. Qed.

Lemma logged_nil d : logged [] d = d.
Proof. unfold logged. rewrite app_nil_r. by destruct d. Qed.

(** [grown ms n d d']: from d to d' each of the messages [ms] was tried in order and [n] of
    them were accepted, with one effect each. *)
Definition grown (ms : list metadata) (n : Z) (d d' : dstate) : Prop :=
  exists oes : list (option effect), Forall2 (fun m oe => forall e, oe = Some e -> went d m e) ms oes /\
    Z.of_nat (length (omap id oes)) = n /\ d' = logged (omap id oes) d.

Lemma grown_nil d : grown [] 0 d d.
Proof. exists []. split; [constructor|]. split; [done|]. cbn. by rewrite logged_nil. Qed.

Lemma grown_app ms1 ms2 n1 n2 d1 d2 d3 :
  grown ms1 n1 d1 d2 -> grown ms2 n2 d2 d3 -> grown (ms1 ++ ms2) (n1 + n2) d1 d3.
Proof.
  intros (e1 & F1 & L1 & ->) (e2 & F2 & L2 & ->). exists (e1 ++ e2).
  split; [by apply Forall2_app|]. rewrite omap_app, length_app, logged_app. split; [lia|done].
Qed.

Lemma omap_id_full {A} (l : list (option A)) : length (omap id l) = length l -> l = Some <$> omap id l.
Proof.
  induction l as [|[x|] l IH]; cbn; [done| |]; intros H.
  - f_equal. apply IH. lia.
  - assert (length (omap id l) <= length l)%nat; [|lia]. clear.
    induction l as [|[]]; cbn; lia.
Qed.

(** All were accepted. *)
Lemma grown_full ms d d' :
  grown ms (Z.of_nat (length ms)) d d' -> exists es, d_log d' = d_log d ++ es /\ Forall2 (went d) ms es.
Proof.
  intros (oes & F & L & ->). exists (omap id oes). split; [done|].
  pose proof (Forall2_length F) as Hl. assert (oes = Some <$> omap id oes) as E by (apply omap_id_full; lia).
  rewrite E in F. apply Forall2_fmap_r in F. eapply list.Forall2_impl; [exact F|]. cbn. auto.
Qed.

Lemma node_deliver_went nd k msg d ret p d' :
  d_nodes d !! k = Some nd -> node_deliver nd msg d = Ok (ret, p, d') ->
  exists e, d' = logged [e] d /\ content (effect_msg e) = content msg /\ went d msg e.
Proof.
  intros Hk. unfold node_deliver, went. destruct (nd_local nd) eqn:El; [|destruct (nd_reachable nd) eqn:Er]; intros H.
  - apply bind_inv in H as (u & Ha & H). injection H as <- <- <-. eexists. split; [done|]. split; [done|].
    left. split; [done|]. split; [done|]. unfold mola_assert in Ha. by case_bool_decide.
  - injection H as <- <- <-. eexists. split; [done|]. split; [done|]. left. split; [done|]. eauto.
  - injection H as <- <- <-. eexists. split; [done|]. split; [done|]. left. split; [done|]. eauto.
Qed.

Lemma dispatch_remote_went msg d ret p d' :
  dispatch_remote msg d = Ok (ret, p, d') ->
  if ret =? 0 then exists e, d' = logged [e] d /\ content (effect_msg e) = content msg /\ went d msg e else d' = d.
Proof.
  unfold dispatch_remote. intros H. destruct (d_nodes d !! node_id (target msg)) as [nd|] eqn:Hk.
  - destruct (nd_id nd =? node_invalid_id); [by injection H as <- <- <-|].
    apply bind_inv in H as (_ & _ & H). apply bind_inv in H as (((r1, m1), d1) & E & H).
    injection H as <- <- <-. cbn. by eapply node_deliver_went.
  - destruct (d_worker d); injection H as <- <- <-; [|done]. cbn. eexists. split; [done|]. split; [done|]. by left.
Qed.

Lemma dispatch_msg_went msg d ret p d' :
  is_error msg = false -> dispatch_msg msg d = Ok (ret, p, d') ->
  if ret =? 0 then exists e, d' = logged [e] d /\ went d msg e else d' = d.
Proof.
  intros Herr. unfold dispatch_msg. rewrite Herr. destruct (is_local _ _).
  - destruct (d_modules d !! module_id (target msg)) as [m|] eqn:Hm.
    + intros H. injection H as <- <- <-. eexists. split; [done|]. left. split; [done|]. split; [done|]. by rewrite Hm.
    + intros H%dispatch_remote_went. destruct (ret =? 0); [|done]. destruct H as (e & -> & Hc & _).
      exists e. split; [done|]. right. done.
  - intros H%dispatch_remote_went. destruct (ret =? 0); [|done]. destruct H as (e & -> & _ & Hw). eauto.
Qed.

Lemma dispatch_msg_grown msg d ret p d' :
  is_error msg = false -> dispatch_msg msg d = Ok (ret, p, d') -> grown [msg] (if ret =? 0 then 1 else 0) d d'.
Proof.
  intros Herr H%dispatch_msg_went; [|done]. destruct (ret =? 0).
  - destruct H as (e & -> & Hw). exists [Some e]. split; [|done]. constructor; [|constructor]. by intros ? [= <-].
  - subst d'. exists [None]. split; [by constructor; [|constructor]|]. split; [done|]. cbn. by rewrite logged_nil.
Qed.

Lemma count_step (ret rc : Z) : (if ret =? 0 then rc + 1 else rc) = rc + (if ret =? 0 then 1 else 0).
Proof. destruct (ret =? 0); lia. Qed.

(** One message, then the rest of a loop that counts the accepted ones. *)
Lemma grown_loop m msgs ret rc rc' d1 d2 d3 :
  grown [m] (if ret =? 0 then 1 else 0) d1 d2 -> grown msgs (rc' - (if ret =? 0 then rc + 1 else rc)) d2 d3 ->
  grown (m :: msgs) (rc' - rc) d1 d3.
Proof.
  intros H1 H2. rewrite count_step in H2. replace (rc' - rc) with
    ((if ret =? 0 then 1 else 0) + (rc' - (rc + (if ret =? 0 then 1 else 0)))) by lia.
  by apply (grown_app [m] msgs _ _ d1 d2 d3).
Qed.

Lemma dispatch_each_grown msgs rc d rc' d' :
  Forall (fun m => is_error m = false) msgs -> dispatch_each msgs rc d = Ok (rc', d') -> grown msgs (rc' - rc) d d'.
Proof.
  intros Hall. revert rc d; induction Hall as [|m msgs Hm Hall IH]; intros rc d H; simpl in H.
  - injection H as <- <-. rewrite Z.sub_diag. apply grown_nil.
  - apply bind_inv in H as (((ret, m1), d1) & E & H). apply dispatch_msg_grown in E; [|done].
    apply IH in H. by eapply grown_loop.
Qed.

(** Only the node of a target that is not the module's is set by the load balancer. *)
Lemma went_target n d m e : went d (set_target_node n m) e -> went d m e.
Proof. done. Qed.

Lemma node_task_grown nd m s ret s' :
  is_error m = false -> node_task nd m s = Ok (ret, s') -> grown [m] (if ret =? 0 then 1 else 0) s.2 s'.2.
Proof.
  intros Hm. unfold node_task. intros (((ret1, m1), d1) & E & H)%bind_inv. injection H as <- <-.
  apply dispatch_msg_grown in E as (oes & F & H); [|done]. exists oes. split; [|done].
  inversion F as [|? oe ? ? Hw F']; subst. inversion F'; subst. constructor; [|done].
  intros e He. by apply (went_target (nd_id nd)), Hw.
Qed.

Lemma round_robin_grown cands k rc msgs s rc' s' :
  Forall (fun m => is_error m = false) msgs -> round_robin node_task cands k rc msgs s = Ok (rc', s') ->
  grown msgs (rc' - rc) s.2 s'.2.
Proof.
  intros Hall. revert k rc s; induction Hall as [|m msgs Hm Hall IH]; intros k rc s H; simpl in H.
  - injection H as <- <-. rewrite Z.sub_diag. apply grown_nil.
  - apply bind_inv in H as (nd & _ & H). apply bind_inv in H as ((ret, s1) & E & H).
    apply node_task_grown in E; [|done]. apply IH in H. by eapply grown_loop.
Qed.

Lemma select_each_grown cands rc msgs s rc' s' :
  Forall (fun m => is_error m = false) msgs -> select_each node_task cands rc msgs s = Ok (rc', s') ->
  grown msgs (rc' - rc) s.2 s'.2.
Proof.
  intros Hall. revert rc s; induction Hall as [|m msgs Hm Hall IH]; intros rc s H; simpl in H.
  - injection H as <- <-. rewrite Z.sub_diag. apply grown_nil.
  - apply bind_inv in H as ((nd, s0) & E0 & H). apply bind_inv in H as ((ret, s1) & E & H).
    assert (s0.2 = s.2) as Hs.
    { revert E0. unfold select_one_node, random_below. intros. inv_ok. by simplify_eq. }
    apply node_task_grown in E; [|done]. rewrite Hs in E. apply IH in H. by eapply grown_loop.
Qed.

Lemma scatter_to_nodes_grown cands msgs s rc s' :
  Forall (fun m => is_error m = false) msgs -> scatter_to_nodes node_task cands msgs s = Ok (rc, s') ->
  grown msgs rc s.2 s'.2.
Proof.
  intros Hall H. unfold scatter_to_nodes in H. apply bind_inv in H as (_ & _ & H).
  rewrite <- (Z.sub_0_r rc). destruct (length cands <? length msgs)%nat.
  - by apply round_robin_grown in H.
  - by eapply select_each_grown.
Qed.

Lemma delay_all_grown msgs d :
  grown msgs (Z.of_nat (length msgs)) d (foldl (fun d m => emit (Delayed m) d) d msgs).
Proof.
  revert d; induction msgs as [|m msgs IH]; intros d; cbn [foldl length]; [apply grown_nil|].
  rewrite Nat2Z.inj_succ, <- Z.add_1_l. apply (grown_app [m]) with (emit (Delayed m) d); [|apply IH].
  exists [Some (Delayed m)]. split; [|done]. constructor; [|constructor]. intros ? [= <-]. by left.
Qed.

Lemma went_stamp self g rid local d m e : went d (stamp self g rid local m) e -> went d (stamp self g rid false m) e.
Proof. by destruct local. Qed.

(** A scatter that returns 0 did something to each message. *)
Lemma dispatch_scatter_grown group rid g dir seed d seed' d' :
  dispatch_scatter group rid g dir seed d = Ok (0, seed', d') ->
  exists self es, d_current d = Some self /\ d_log d' = d_log d ++ es /\
    Forall2 (went d) (stamp self g rid false <$> group) es.
Proof.
  unfold dispatch_scatter. intros (self & Hself & H)%bind_inv.
  destruct (d_current d) as [me|]; [injection Hself as ->|done].
  apply bind_inv in H as (fst & _ & H). cbv zeta in H.
  set (local := negb dir && _) in H. set (gs := stamp self g rid local <$> group) in H.
  assert (Forall (fun m => is_error m = false) gs) as Hall.
  { apply Forall_fmap, Forall_true. intros m. unfold stamp. by destruct local. }
  assert (grown gs (Z.of_nat (length gs)) d d') as (es & Hlog & HF)%grown_full.
  { destruct (dir || local).
    - apply bind_inv in H as ((rc, d1) & E & H). destruct (Z.eqb_spec rc (Z.of_nat (length gs))) as [<-|]; [|done].
      injection H as <- <-. apply dispatch_each_grown in E; [|done]. by rewrite Z.sub_0_r in E.
    - destruct (query_node_with_module _ d) as [|nd nds].
      + injection H as <- <-. apply delay_all_grown.
      + apply bind_inv in H as ((rc, (s1, d1)) & E & H).
        destruct (Z.eqb_spec rc (Z.of_nat (length gs))) as [<-|]; [|done]. injection H as <- <-.
        by apply scatter_to_nodes_grown in E. }
  exists self, es. split; [done|]. split; [done|]. unfold gs in HF. rewrite list.Forall2_fmap_l in HF |- *.
  eapply list.Forall2_impl; [exact HF|]. intros m e. apply went_stamp.
Qed.

(** The messages of a scatter with their targets. *)
Definition targeted (mid intf : Z) (dest : option (list Z)) (ms : list metadata) : outcome (list metadata) :=
  match dest with Some l => set_dests mid intf l ms | None => mret (set_target4 ANY mid intf ANY <$> ms) end.

Lemma targeted_length mid intf dest ms ms' : targeted mid intf dest ms = Ok ms' -> length ms = length ms'.
Proof.
  destruct dest as [l|]; cbn; [|intros [= <-]; by rewrite length_fmap].
  revert l ms'; induction ms as [|m ms IH]; intros [|i l] ms' H; cbn in H; try (by injection H as <-); [done|].
  apply bind_inv in H as (_ & _ & H). apply bind_inv in H as (ms1 & H1 & H). injection H as <-. cbn.
  by rewrite (IH _ _ H1).
Qed.

Lemma went_on_its_way d ms es :
  (forall k nd, d_nodes d !! k = Some nd -> nd_reachable nd = true) ->
  Forall (fun m => is_Some (d_modules d !! module_id (target m))) ms -> Forall2 (went d) ms es ->
  Forall2 (fun m e => content (effect_msg e) = content m /\ on_its_way e = true) ms es.
Proof.
  intros Hreach Hmods HF. induction HF as [|m e ms es Hw HF IH]; [constructor|].
  apply Forall_cons_iff in Hmods as [[m' Hm] Hmods]. constructor; [|auto].
  destruct Hw as [[Hc He]|[Hn _]]; [|congruence]. split; [done|].
  destruct e as [| |nid m1| |]; try done. destruct He as (k & nd & Hk & _ & Hr). by rewrite (Hreach _ _ Hk) in Hr.
Qed.

(** C21: a successful scatter and its gather match: when ScatterToIntf returns 0, no message
    was null, and each of them, in order and once, was delivered to its module, written to a node or
    kept by the delay pool, with its own content, the sender and the fresh request id
    ([went]); one is lost only if a known node cannot be reached, and comes back as an error only if its
    module is not loaded here.  The gather context stored under that id waits for
    exactly as many replies as messages were given. *)
Theorem scatter_matches_gather (mid intf gather_intf seed seed' : Z) (dest : option (list Z))
    (mg : list (option metadata)) (cur : option reqctx) (cm : option metadata)
    (a a' : reqs) (d d' : dstate) :
  ractor_ok (MkRactor a []) -> m_reqid_generator a + 1 < 2 ^ 32 ->
  Z.of_nat (length mg) < 2 ^ 32 ->
  ScatterToIntf mid intf dest mg gather_intf cur cm seed a d = Ok (0, a', seed', d') ->
  let r := (new_reqid a).1 in
  find_req_ctx r a = None /\ ractor_ok (MkRactor a' []) /\
  find_req_ctx r a' =
    Some (MkCtx (initiator_of cur cm) (Some (MkGather (Z.of_nat (length mg)) [] false))) /\
  exists ms ms' self es, mg = Some <$> ms /\ targeted mid intf dest ms = Ok ms' /\ d_current d = Some self /\
    d_log d' = d_log d ++ es /\ Forall2 (went d) (stamp self gather_intf r false <$> ms') es /\
    ((forall k nd, d_nodes d !! k = Some nd -> nd_reachable nd = true) ->
     Forall (fun m => is_Some (d_modules d !! module_id (target m))) ms' ->
     Forall2 (fun m e => content (effect_msg e) = content m /\ on_its_way e = true)
       (stamp self gather_intf r false <$> ms') es).
Proof.
  intros Hok Hg Hlen H. cbv zeta. unfold ScatterToIntf, new_ScatterGroup in H. case_bool_decide; [done|].
  destruct (d_current d) as [self|] eqn:Hcur; [|done]. cbn in H.
  pose proof (new_reqid_spec (MkRactor a []) Hok Hg) as Hnew. simpl in Hnew.
  destruct (new_reqid a) as [r a1]. destruct Hnew as (Hok1 & Hfr & Hctx & Hg1).
  pose proof Hfr as (_ & Hnone & Hr). cbn in H |- *.
  apply bind_inv in H as (group & Hgr & H). apply bind_inv in H as (((ret, s1), d1) & E & H).
  destruct (Z.eqb_spec ret 0) as [->|]; [|by apply bind_inv in H as (? & _ & [=])].
  destruct (Nat.eqb_spec (length mg) (length group)) as [Hl|]; [cbn [negb] in E|done].
  unfold delete_ScatterGroup in H. cbn in H. apply bind_inv in H as (a2 & Ea & H). injection H as <- <- <-.
  apply bind_inv in Ea as (_ & _ & Ea). rewrite (proj2 (Z.eqb_neq r INVALID_REQID)) in Ea by (unfold INVALID_REQID; lia).
  cbn in Ea.
  apply dispatch_scatter_grown in E as (self' & es & Hself & He & HF). rewrite Hcur in Hself. injection Hself as <-.
  unfold on_scatter_done in Ea. rewrite wrap_small in Ea by width_lia. rewrite <- Hl in Ea.
  destruct (insert_req_ctx_ok r (MkCtx (initiator_of cur cm)
    (Some (MkGather (Z.of_nat (length mg)) [] false))) a1 [] Hok1 Hfr) as (a3 & Ha3 & Hok3 & _).
  rewrite Ha3 in Ea. injection Ea as <-. split; [unfold find_req_ctx; congruence|]. split; [done|].
  split; [revert Ha3; unfold insert_req_ctx; intros; inv_ok; apply lookup_insert_eq|].
  exists (omap id mg), group, self, es. rewrite <- (targeted_length _ _ _ _ _ Hgr) in Hl.
  split; [by apply omap_id_full|]. split; [done|]. split; [done|]. split; [done|]. split; [done|].
  intros Hreach Hmods. eapply went_on_its_way; [exact Hreach| |exact HF]. by apply Forall_fmap.
Qed.

(** A scatter that fails leaves no context: when ScatterToIntf returns an error, the
    saved contexts are those of before, and the request id that was drawn stays out of
    circulation, since some of the messages may be on their way with it. *)
Theorem failed_scatter_loses_id (mid intf gather_intf seed seed' ret : Z) (dest : option (list Z))
    (mg : list (option metadata)) (cur : option reqctx) (cm : option metadata)
    (a a' : reqs) (d d' : dstate) :
  ractor_ok (MkRactor a []) -> m_reqid_generator a + 1 < 2 ^ 32 -> mg <> [] ->
  ScatterToIntf mid intf dest mg gather_intf cur cm seed a d = Ok (ret, a', seed', d') -> ret <> 0 ->
  let r := (new_reqid a).1 in
  ret = -4 /\ m_req_ctx_map a' = m_req_ctx_map a /\ ractor_ok (MkRactor a' [r]).
Proof.
  intros Hok Hg Hne H Hret. cbv zeta. unfold ScatterToIntf, new_ScatterGroup in H. rewrite bool_decide_false in H by done.
  destruct (d_current d) as [self|]; [|done]. cbn in H.
  pose proof (new_reqid_spec (MkRactor a []) Hok Hg) as Hnew. simpl in Hnew.
  destruct (new_reqid a) as [r a1]. destruct Hnew as (Hok1 & Hfr & Hctx & Hg1). cbn in H |- *.
  apply bind_inv in H as (group & _ & H). apply bind_inv in H as (((ret1, s1), d1) & E & H).
  destruct (ret1 =? 0); [by apply bind_inv in H as (? & _ & [= <-])|].
  unfold delete_ScatterGroup, failure in H. cbn in H. apply bind_inv in H as (a2 & Ea & H). injection H as <- <- _ _.
  apply bind_inv in Ea as (_ & _ & [= <-]). split; [done|]. split; [done|]. by apply ractor_lose.
Qed.

(** ** A module that is not there *)

(** A message to a node that does not have the module comes back as an error
    message, exactly once, and makes the sender's node forget the whole node: the
    error is consumed there and never answered. *)
Theorem missing_module_round_trip (x y : Z) (msg : metadata) (dA dB : dstate) (nx ny : node) :
  in_width 32 x -> in_width 32 y -> x <> LOCAL -> y <> LOCAL -> x <> y ->
  d_local dA = x -> d_local dB = y ->
  d_nodes dA !! y = Some ny -> d_nodes dB !! x = Some nx ->
  nd_id ny = y -> nd_id nx = x -> x <> node_invalid_id -> y <> node_invalid_id ->
  nd_local ny = false -> nd_local nx = false -> nd_reachable ny = true -> nd_reachable nx = true ->
  d_current dA = None -> d_current dB = None ->
  node_id (target msg) = y -> is_error msg = false ->
  d_modules dB !! module_id (target msg) = None ->
  exists m1 dA1 m2 dB1 dA2,
    dispatch_msg msg dA = Ok (0, None, dA1) /\ d_log dA1 = d_log dA ++ [ToNode y m1] /\
    dispatch_msg m1 dB = Ok (0, None, dB1) /\ d_log dB1 = d_log dB ++ [ToNode x m2] /\
    is_error m2 = true /\
    dispatch_msg m2 dA1 = Ok (0, Some m2, dA2) /\ d_log dA2 = d_log dA1 ++ [NodeGone y m2] /\
    d_nodes dA2 = delete y (d_nodes dA).
Proof.
  intros Hx Hy Hx0 Hy0 Hxy HlA HlB HnA HnB HidA HidB Hix Hiy Hly Hlx Hry Hrx HcA HcB Ht He Hm.
  pose proof (wrap_small 32 x Hx) as Hwx. pose proof (wrap_small 32 y Hy) as Hwy.
  set (m1 := set_target_node y (set_sender_node x msg)).
  set (m2 := set_target_node x (set_sender_node y (bounce m1))).
  exists m1, (emit (ToNode y m1) dA), m2, (emit (ToNode x m2) dB).
  exists (delete_node y (emit (NodeGone y m2) (emit (ToNode y m1) dA))).
  assert (dispatch_msg msg dA = Ok (0, None, emit (ToNode y m1) dA)) as H1.
  { unfold dispatch_msg, is_local, dispatch_remote, node_deliver. rewrite Ht, HlA.
    rewrite (proj2 (Z.eqb_neq y LOCAL)), (proj2 (Z.eqb_neq y x)) by congruence.
    rewrite HnA, HidA, (proj2 (Z.eqb_neq y _)), HcA, Hly, Hry, ?HlA, ?HidA by done. done. }
  assert (dispatch_msg m1 dB = Ok (0, None, emit (ToNode x m2) dB)) as H2.
  { unfold dispatch_msg, is_local. change (node_id (target m1)) with (u32 y).
    change (is_error m1) with (is_error msg).
    change (module_id (target m1)) with (module_id (target msg)).
    rewrite Hwy, HlB, Z.eqb_refl, He, Hm, (proj2 (Z.eqb_neq y LOCAL)) by done.
    unfold dispatch_remote, node_deliver. change (node_id (target (bounce m1))) with (u32 (u32 x)).
    rewrite !Hwx, HnB, HidB, (proj2 (Z.eqb_neq x _)), HcB, Hlx, Hrx, ?HlB, ?HidB by done. done. }
  assert (dispatch_msg m2 (emit (ToNode y m1) dA) =
    Ok (0, Some m2, delete_node y (emit (NodeGone y m2) (emit (ToNode y m1) dA)))) as H3.
  { unfold dispatch_msg, is_local. change (node_id (target m2)) with (u32 x).
    change (node_id (sender m2)) with (u32 y). change (is_error m2) with true.
    change (d_local (emit (ToNode y m1) dA)) with (d_local dA).
    change (d_nodes (emit (ToNode y m1) dA)) with (d_nodes dA).
    rewrite Hwx, Hwy, HlA, Z.eqb_refl, (proj2 (Z.eqb_neq x LOCAL)), HnA by done. done. }
  done.
Qed.

(** ** Witnesses *)
Module DispatcherExamples.
Definition me : ActorID := new_ActorID 0 3 1 0.
Definition on_node (l : Z) (mods : gmap Z module) (nodes : gmap Z node) (cur : option ActorID) : dstate :=
  MkD l mods nodes true cur [].

Definition down : dstate := on_node 1 ∅ {[ 2 := MkNode 2 false false [] ]} (Some me).
Definition pair : dstate := on_node 1 ∅ {[ 2 := MkNode 2 false true [4] ]} (Some me).
Definition A : dstate := on_node 1 ∅ {[ 2 := MkNode 2 false true [4] ]} None.
Definition B : dstate := on_node 2 ∅ {[ 1 := MkNode 1 false true [] ]} None.

(** The module 4 is loaded here. *)
Definition here : dstate :=
  on_node 1 {[ 4 := ModuleExamples.demo_module ]} {[ 2 := MkNode 2 false true [4] ]} (Some me).

Lemma request_context_iff_accepted_witness :
  exists m a' d', dispatch_request (new_ActorID 1 4 1 0) zero_meta 5 None None new_reqs here
    = Ok (0, Some m, a', d') /\ reqid m = 1 /\ find_req_ctx 1 a' = Some (MkCtx None None).
Proof.
  pose proof (fun ret p d' H => request_context_iff_accepted (new_ActorID 1 4 1 0) me zero_meta
    5 ret None None new_reqs here d' p ids_ok_new ltac:(reflexivity) eq_refl
    ltac:(discriminate) eq_refl H) as Hall.
  specialize (Hall _ _ _ eq_refl). cbv beta iota in Hall. destruct Hall as (_ & a' & H1 & H2 & _ & H3 & _).
  eexists _, a', _. split; [exact H1|]. split; [exact H2|exact H3].
Defined.

Lemma remote_request_outcome_witness :
  dispatch_request (new_ActorID 2 4 1 0) zero_meta 5 None None new_reqs pair = Fault BadDeref /\
  exists m a' d', dispatch_request (new_ActorID 2 4 1 0) zero_meta 5 None None new_reqs down
      = Ok (0, Some m, a', d') /\
    d_log d' = [Unsent 2 m] /\ find_req_ctx (reqid m) a' = Some (MkCtx None None).
Proof.
  split.
  - apply (remote_request_outcome (new_ActorID 2 4 1 0) me zero_meta 5 None None new_reqs pair
      (MkNode 2 false true [4])); try reflexivity; try discriminate. apply ids_ok_new.
  - apply (remote_request_outcome (new_ActorID 2 4 1 0) me zero_meta 5 None None new_reqs down
      (MkNode 2 false false [])); try reflexivity; try discriminate. apply ids_ok_new.
Defined.

Definition demo_scatter : outcome (Z * reqs * Z * dstate) :=
  ScatterToIntf 4 0 None [Some zero_meta; Some (set_response zero_meta)] 6 None None 1 new_reqs pair.

Lemma scatter_matches_gather_witness :
  exists a' s' d', demo_scatter = Ok (0, a', s', d') /\
    find_req_ctx 1 a' = Some (MkCtx None (Some (MkGather 2 [] false))) /\
    exists ms' es, targeted 4 0 None [zero_meta; set_response zero_meta] = Ok ms' /\ d_log d' = es /\
      Forall2 (went pair) (stamp me 6 1 false <$> ms') es.
Proof.
  pose proof (fun s' a' d' H => scatter_matches_gather 4 0 6 1 s' None [Some zero_meta; Some (set_response zero_meta)]
    None None new_reqs a' pair d' ids_ok_new ltac:(reflexivity) ltac:(reflexivity) H) as Hall.
  specialize (Hall _ _ _ eq_refl). cbv zeta in Hall.
  destruct Hall as (_ & _ & H2 & ms & ms' & self & es & H3 & H4 & H5 & H6 & H7 & _).
  eexists _, _, _. split; [reflexivity|]. split; [exact H2|]. exists ms', es.
  destruct ms as [|m1 [|m2 [|m3 ms]]]; try discriminate. injection H3 as <- <-.
  injection H5 as <-. by split_and!.
Defined.

(** A null message among two: nothing is sent and id 1 is lost. *)
Lemma failed_scatter_loses_id_witness :
  exists a' s' d', ScatterToIntf 4 0 None [Some zero_meta; None] 6 None None 1 new_reqs pair = Ok (-4, a', s', d') /\
    m_req_ctx_map a' = m_req_ctx_map new_reqs /\ ractor_ok (MkRactor a' [1]).
Proof.
  eexists _, _, _. split; [reflexivity|].
  refine (proj2 (failed_scatter_loses_id 4 0 6 1 _ _ None [Some zero_meta; None] None None new_reqs _ pair _
    ids_ok_new eq_refl _ eq_refl _)); discriminate.
Defined.

Definition lost_msg : metadata := set_target (new_ActorID 2 9 1 0) (set_request zero_meta).

Lemma missing_module_round_trip_witness :
  exists m1 dA1 m2 dB1 dA2,
    dispatch_msg lost_msg A = Ok (0, None, dA1) /\ d_log dA1 = d_log A ++ [ToNode 2 m1] /\
    dispatch_msg m1 B = Ok (0, None, dB1) /\ d_log dB1 = d_log B ++ [ToNode 1 m2] /\
    is_error m2 = true /\
    dispatch_msg m2 dA1 = Ok (0, Some m2, dA2) /\ d_log dA2 = d_log dA1 ++ [NodeGone 2 m2] /\
    d_nodes dA2 = delete 2 (d_nodes A).
Proof.
  apply (missing_module_round_trip 1 2 lost_msg A B (MkNode 1 false true []) (MkNode 2 false true [4]));
    try reflexivity; try discriminate; split; vm_compute; congruence.
Defined.
End DispatcherExamples.
