(* ===== verification/NodeManager.v ===== *)
(** * The node manager: node records, caches, delayed tasks and module ids

    src/node_manager.cpp and include/mola/node_manager.hpp, the per-worker caches of
    include/mola/scheduler.hpp, include/mola/singleton.hpp and the parts of
    src/zookeeper.cpp that keep the node table and the module ids.

    What the cluster registry (zookeeper) holds is an argument of the operations
    that read it: it changes on its own between them. *)
From stdpp Require Import base list gmap numbers strings.
From S2P Require Import Prelude Text.

(** ** Node records *)
Module Node.

(** ModuleInfo: name, id, public *)
Record module_info := MkInfo { mi_name : text; mi_id : Z; mi_pub : bool }.

Record node := MkNode {
  n_id : Z;
  n_endian : Z;
  n_proto : Z;
  n_port : Z;
  n_ip : text;
  n_modules : list module_info
}.

(** Module::ID is a uint16_t. *)
Definition add_module (id : Z) (name : text) (pub : bool) (n : node) : node :=
  MkNode (n_id n) (n_endian n) (n_proto n) (n_port n) (n_ip n)
    (n_modules n ++ [MkInfo name (u16 id) pub]).

Definition has_module (id : Z) (n : node) : bool := existsb (fun i => mi_id i =? id) (n_modules n).

(** The field that encode writes for one module. *)
Definition encode_module (i : module_info) : text :=
  if mi_pub i then show_dec (mi_id i) ++ [space] else [].

Definition encode (n : node) : text :=
  show_dec (n_endian n) ++ [space] ++ show_dec (n_proto n) ++ [space] ++ n_ip n ++ [space] ++
  show_dec (n_port n) ++ [space] ++ concat (encode_module <$> n_modules n).

Section Decode.
(** [get_module_name]: NodeManager::get_module_name *)
Context (get_module_name : Z -> text).

(** [while (ss >> mid) node->add_module(mid)]; every turn reads at least a digit. *)
Fixpoint decode_modules (fuel : nat) (s : text) (n : node) : node :=
  match fuel with
  | O => n
  | S fuel =>
      match read_unsigned 32 s with
      | Some (mid, s) => decode_modules fuel s (add_module mid (get_module_name mid) true n)
      | None => n
      end
  end.

(** None: one of the first four extractions fails, and the fields after it are
    indeterminate. *)
Definition decode (id : Z) (info : text) : option node :=
  '(endian, s) ← read_unsigned 32 info;
  '(proto, s) ← read_unsigned 32 s;
  '(ip, s) ← read_word s;
  '(port, s) ← read_unsigned 16 s;
  Some (decode_modules (length s) s (MkNode id endian proto port ip [])).

Definition node_wf (n : node) : Prop :=
  in_width 32 (n_endian n) /\ in_width 32 (n_proto n) /\ in_width 16 (n_port n) /\
  n_ip n <> [] /\ Forall (fun c => is_space c = false) (n_ip n) /\
  Forall (fun i => in_width 16 (mi_id i)) (n_modules n).

(** What a node tells the others: its public modules. *)
Definition public_modules (l : list module_info) : list module_info :=
  (fun i => MkInfo (get_module_name (mi_id i)) (mi_id i) true) <$> filter (fun i => mi_pub i = true) l.

Lemma decode_modules_encode l fuel n :
  Forall (fun i => in_width 16 (mi_id i)) l -> (length (concat (encode_module <$> l)) <= fuel)%nat ->
  decode_modules fuel (space :: concat (encode_module <$> l)) n =
  MkNode (n_id n) (n_endian n) (n_proto n) (n_port n) (n_ip n) (n_modules n ++ public_modules l).
Proof.
  intros Hl. revert fuel n; induction Hl as [|[name id pub] l Hi Hl IH]; intros fuel n Hf.
  - simpl. rewrite app_nil_r. destruct fuel; by destruct n.
  - unfold public_modules. rewrite filter_cons. rewrite fmap_cons in *. simpl in *.
    unfold encode_module at 1. unfold encode_module at 1 in Hf. simpl in *. destruct pub; simpl in *.
    + rewrite <- app_assoc in *. destruct (show_dec_cons id ltac:(width_lia)) as (c & t & Hc & _).
      destruct fuel as [|fuel].
      { rewrite Hc in Hf. simpl in Hf. lia. }
      cbn [decode_modules]. rewrite read_unsigned_space, read_show by (done || width_lia).
      rewrite Hc in Hf. simpl in Hf. rewrite length_app in Hf. simpl in Hf.
      simpl ([space] ++ _). rewrite IH by lia. simpl. rewrite wrap_small by width_lia.
      by rewrite <- app_assoc.
    + by apply IH.
Qed.

(** A node record survives the cluster registry: decoding what encode wrote
    gives back the endianness, protocol, address and port, and exactly the public
    modules, in order, under the names the node manager knows them by. *)
Theorem node_roundtrip (id : Z) (n : node) :
  node_wf n ->
  decode id (encode n) =
    Some (MkNode id (n_endian n) (n_proto n) (n_port n) (n_ip n) (public_modules (n_modules n))).
Proof.
  intros (He & Hp & Ho & Hne & Hip & Hm). unfold decode, encode.
  rewrite read_show by (done || width_lia). cbn [mbind option_bind]. simpl ([space] ++ _).
  rewrite read_unsigned_space, read_show by (done || width_lia). cbn [mbind option_bind].
  rewrite read_word_space, read_word_app by done. cbn [mbind option_bind].
  rewrite read_unsigned_space, read_show by (done || width_lia). cbn [mbind option_bind].
  rewrite decode_modules_encode by (done || (simpl; lia)). done.
Qed.
End Decode.

Definition demo : node :=
  MkNode 7 0 0 8080 (txt "10.0.0.1") [MkInfo (txt "kv") 3 true; MkInfo (txt "log") 4 false].

Lemma node_roundtrip_witness :
  decode (fun _ => txt "m") 9 (encode demo) =
  Some (MkNode 9 0 0 8080 (txt "10.0.0.1") [MkInfo (txt "m") 3 true]).
Proof.
  apply (node_roundtrip (fun _ => txt "m") 9 demo).
  split_and!; try (split; vm_compute; congruence); [discriminate| |]; repeat constructor;
    vm_compute; congruence.
Defined.
End Node.

(** ** The node table and the workers' caches *)
Module Cache.

(** AbsolateWorker::Cache<NodePtr>; a null pointer is None. *)
Record cache (T : Type) := MkCache { entries : gmap Z T; valid : bool }.
Arguments MkCache {T}.
Arguments entries {T}.
Arguments valid {T}.

Section Ops.
Context {T : Type} (nil : T).

(** Cache::get; the default value is a miss. *)
Definition get (key : Z) (c : cache T) : T * cache T :=
  if valid c then (default nil (entries c !! key), c) else (nil, MkCache ∅ true).
Definition insert (key : Z) (v : T) (c : cache T) : cache T :=
  match entries c !! key with
  | Some _ => c
  | None => MkCache (<[key := v]> (entries c)) (valid c)
  end.
Definition invalid (c : cache T) : cache T := MkCache (entries c) false.
Definition remove (key : Z) (c : cache T) : cache T := MkCache (delete key (entries c)) (valid c).
End Ops.

Abbreviation node := Node.node.

(** A worker's caches: of nodes and of the node sets of modules. *)
Record worker := MkWorker { m_node_cache : cache (option node); m_ns_cache : cache (list node) }.

(** NodeManager *)
Record manager := MkManager {
  m_alive_nodes : gmap Z node;
  m_need_sync : bool;
  workers : gmap nat worker
}.

Definition invalid_thread_cache (s : manager) : manager :=
  MkManager (m_alive_nodes s) (m_need_sync s)
    ((fun w => MkWorker (invalid (m_node_cache w)) (invalid (m_ns_cache w))) <$> workers s).

Definition sync_all_nodes_later (s : manager) : manager :=
  invalid_thread_cache (MkManager (m_alive_nodes s) true (workers s)).

Definition find_cached_node (id : Z) (s : manager) : option node := m_alive_nodes s !! id.

Definition delete_cached_node (id : Z) (s : manager) : bool * manager :=
  match m_alive_nodes s !! id with
  | Some _ => (true, MkManager (delete id (m_alive_nodes s)) (m_need_sync s) (workers s))
  | None => (false, s)
  end.

(** Node::equals *)
Definition equals (a b : node) : bool :=
  (Node.n_id a =? Node.n_id b) && bool_decide (Node.n_ip a = Node.n_ip b) &&
  (Node.n_port a =? Node.n_port b) && (Node.n_proto a =? Node.n_proto b) &&
  (Node.n_endian a =? Node.n_endian b).

(** std::map::insert does not replace. *)
Definition update_cached_node (n : node) (s : manager) : bool * manager :=
  match find_cached_node (Node.n_id n) s with
  | None => (true, MkManager (<[Node.n_id n := n]> (m_alive_nodes s)) (m_need_sync s) (workers s))
  | Some o => (negb (equals o n), s)
  end.

(** ZookeeperEngine::sync_all_nodes: [reg] is the list of the records of the other
    nodes that the registry answers with. *)
Fixpoint update_all (reg : list node) (s : manager) : bool * manager :=
  match reg with
  | [] => (false, s)
  | n :: reg =>
      let '(c1, s) := update_cached_node n s in
      let '(c2, s) := update_all reg s in (c1 || c2, s)
  end.

Definition sync_all_nodes (reg : list node) (s : manager) : manager :=
  let '(notify, s) := update_all reg s in if notify then invalid_thread_cache s else s.

(** ZookeeperEngine::_find_node: [look] is the record the registry has under an id;
    the object is given that id. *)
Definition _find_node (id : Z) (look : Z -> option node) : option node :=
  (fun n => Node.MkNode id (Node.n_endian n) (Node.n_proto n) (Node.n_port n) (Node.n_ip n)
              (Node.n_modules n)) <$> look id.

Definition sync_if_needed (reg : list node) (s : manager) : manager :=
  if m_need_sync s then
    let s := sync_all_nodes reg s in MkManager (m_alive_nodes s) false (workers s)
  else s.

Definition set_worker (w : nat) (k : worker) (s : manager) : manager :=
  MkManager (m_alive_nodes s) (m_need_sync s) (<[w := k]> (workers s)).

(** NodeManager::find_node on worker [w] *)
Definition find_node (w : nat) (id : Z) (reg : list node) (look : Z -> option node) (s : manager)
  : outcome (option node * manager) :=
  k ← (match workers s !! w with Some k => mret k | None => Fault AssertFailed end);
  let '(hit, nc) := get None id (m_node_cache k) in
  let s := set_worker w (MkWorker nc (m_ns_cache k)) s in
  match hit with
  | Some n => mret (Some n, s)
  | None =>
      let s := sync_if_needed reg s in
      let '(n, s) :=
        match find_cached_node id s with
        | Some n => (Some n, s)
        | None =>
            match _find_node id look with
            | Some n => (Some n, (update_cached_node n s).2)
            | None => (None, s)
            end
        end in
      k ← deref (workers s !! w);
      mret (n, set_worker w (MkWorker (insert id n (m_node_cache k)) (m_ns_cache k)) s)
  end.

(** NodeManager::query_node_with_module on worker [w] *)
Definition query_node_with_module (w : nat) (mid : Z) (reg : list node) (s : manager)
  : outcome (list node * manager) :=
  k ← (match workers s !! w with Some k => mret k | None => Fault AssertFailed end);
  let '(hit, ns) := get [] mid (m_ns_cache k) in
  let s := set_worker w (MkWorker (m_node_cache k) ns) s in
  match hit with
  | _ :: _ => mret (hit, s)
  | [] =>
      let s := sync_if_needed reg s in
      let set := filter (fun n => Node.has_module mid n = true) (map_to_list (m_alive_nodes s)).*2 in
      k ← deref (workers s !! w);
      mret (set, set_worker w (MkWorker (m_node_cache k) (insert mid set (m_ns_cache k))) s)
  end.

(** ZookeeperEngine::delete_node *)
Definition delete_node (id : Z) (s : manager) : manager :=
  match delete_cached_node id s with
  | (true, s) => invalid_thread_cache s
  | (false, s) => s
  end.

(** ** Coherence *)

(** What a valid cache holds, the table holds too. *)
Definition coherent (s : manager) : Prop :=
  (forall w k, workers s !! w = Some k -> valid (m_node_cache k) = true ->
     forall id n, entries (m_node_cache k) !! id = Some (Some n) -> m_alive_nodes s !! id = Some n) /\
  (forall id n, m_alive_nodes s !! id = Some n -> Node.n_id n = id).

Lemma invalid_coherent s :
  (forall id n, m_alive_nodes s !! id = Some n -> Node.n_id n = id) -> coherent (invalid_thread_cache s).
Proof.
  intros Hid. split; [|done]. intros w k. simpl. rewrite lookup_fmap. intros Hk.
  apply fmap_Some in Hk as (k0 & _ & ->). done.
Qed.

(** The table only grows when a node is added. *)
Lemma update_alive n s :
  forall id x, m_alive_nodes s !! id = Some x -> m_alive_nodes (update_cached_node n s).2 !! id = Some x.
Proof.
  intros id x Hx. unfold update_cached_node, find_cached_node.
  destruct (m_alive_nodes s !! Node.n_id n) eqn:Hn; [done|]. simpl. rewrite lookup_insert_ne; [done|].
  intros <-. congruence.
Qed.

Lemma update_coherent n s : coherent s -> coherent (update_cached_node n s).2.
Proof.
  intros [Hc Hid]. split.
  - intros w k Hk Hv id x Hx. apply update_alive. eapply Hc; try done.
    revert Hk. unfold update_cached_node. by destruct (find_cached_node _ s).
  - intros id x. unfold update_cached_node. destruct (find_cached_node _ s); [apply Hid|]. simpl.
    rewrite lookup_insert_Some. intros [[<- <-]|[_ Hx]]; [done|by apply Hid].
Qed.

Lemma update_all_coherent reg s : coherent s -> coherent (update_all reg s).2.
Proof.
  revert s; induction reg as [|n reg IH]; intros s Hs; simpl; [done|].
  pose proof (update_coherent n s Hs) as Hu. destruct (update_cached_node n s) as [c1 s1].
  pose proof (IH s1 Hu) as H. by destruct (update_all reg s1).
Qed.

Lemma sync_coherent reg s : coherent s -> coherent (sync_if_needed reg s).
Proof.
  intros Hs. unfold sync_if_needed, sync_all_nodes. destruct (m_need_sync s); [|done].
  pose proof (update_all_coherent reg s Hs) as Hu. destruct (update_all reg s) as [[] s1]; [|done].
  apply (invalid_coherent s1), Hu.
Qed.

Lemma set_worker_coherent w k s :
  coherent s ->
  (valid (m_node_cache k) = true ->
   forall id n, entries (m_node_cache k) !! id = Some (Some n) -> m_alive_nodes s !! id = Some n) ->
  coherent (set_worker w k s).
Proof.
  intros [Hc Hid] Hk. split; [|done]. intros w' k'. simpl. rewrite lookup_insert_Some.
  intros [[_ <-]|[_ Hw]]; [done|by eapply Hc].
Qed.

Lemma update_workers n s : workers (update_cached_node n s).2 = workers s.
Proof. unfold update_cached_node. by destruct (find_cached_node _ s). Qed.

Lemma update_all_workers reg s : workers (update_all reg s).2 = workers s.
Proof.
  revert s; induction reg as [|n reg IH]; intros s; simpl; [done|].
  pose proof (update_workers n s) as Hw. destruct (update_cached_node n s) as [c1 s1].
  pose proof (IH s1) as H. destruct (update_all reg s1). simpl in *. congruence.
Qed.

(** A synchronisation keeps the workers, whose caches at most become invalid. *)
Lemma sync_worker reg s w k :
  workers s !! w = Some k ->
  exists k', workers (sync_if_needed reg s) !! w = Some k' /\ entries (m_node_cache k') = entries (m_node_cache k).
Proof.
  intros Hk. unfold sync_if_needed, sync_all_nodes. destruct (m_need_sync s); [|eauto].
  pose proof (update_all_workers reg s) as Hw. destruct (update_all reg s) as [[] s1]; simpl in *.
  - rewrite lookup_fmap, Hw, Hk. simpl. eauto.
  - rewrite Hw. eauto.
Qed.

(** Nodes enter the table from the registry only. *)
Lemma update_all_alive reg s id :
  m_alive_nodes (update_all reg s).2 !! id = None <->
  m_alive_nodes s !! id = None /\ Forall (fun n => Node.n_id n <> id) reg.
Proof.
  revert s; induction reg as [|n reg IH]; intros s; simpl; [by rewrite Forall_nil; tauto|].
  destruct (update_cached_node n s) as [c1 s1] eqn:Hu. specialize (IH s1).
  destruct (update_all reg s1) as [c2 s2]. simpl in *. rewrite IH, Forall_cons.
  assert (m_alive_nodes s1 !! id = None <-> m_alive_nodes s !! id = None /\ Node.n_id n <> id); [|tauto].
  unfold update_cached_node, find_cached_node in Hu.
  destruct (m_alive_nodes s !! Node.n_id n) eqn:Hn; injection Hu as <- <-.
  - split; [|tauto]. intros H. split; [done|]. intros <-. congruence.
  - simpl. rewrite lookup_insert_None. tauto.
Qed.

(** The look-up in the worker's own cache. *)
Lemma get_coherent w id s k :
  coherent s -> workers s !! w = Some k ->
  coherent (set_worker w (MkWorker (get None id (m_node_cache k)).2 (m_ns_cache k)) s) /\
  forall n, (get None id (m_node_cache k)).1 = Some n -> m_alive_nodes s !! id = Some n.
Proof.
  intros Hs Hk. pose proof Hs as [Hc _]. unfold get. destruct (valid (m_node_cache k)) eqn:Hv; simpl.
  - split; [apply set_worker_coherent; [done|]; intros _; apply (Hc w k Hk Hv)|].
    intros n Hn. apply (Hc w k Hk Hv). destruct (entries _ !! id); simpl in *; congruence.
  - split; [|done]. apply set_worker_coherent; [done|]. simpl. intros _ ? ?. by rewrite lookup_empty.
Qed.

(** The answer goes into the worker's cache. *)
Lemma cache_answer w id n s k :
  coherent s -> workers s !! w = Some k -> n = m_alive_nodes s !! id ->
  coherent (set_worker w (MkWorker (insert id n (m_node_cache k)) (m_ns_cache k)) s).
Proof.
  intros Hs Hk Hn. pose proof Hs as [Hc _]. apply set_worker_coherent; [done|]. simpl. unfold insert.
  destruct (entries (m_node_cache k) !! id); [apply (Hc w k Hk)|]. simpl. intros Hv id' x.
  rewrite lookup_insert_Some. intros [[<- <-]|[_ Hx]]; [done|]. by apply (Hc w k Hk Hv).
Qed.

(** The table's answer, after it has asked the registry if it has none itself. *)
Lemma table_answer id look s :
  coherent s ->
  let '(n, s') :=
    match find_cached_node id s with
    | Some n => (Some n, s)
    | None =>
        match _find_node id look with
        | Some n => (Some n, (update_cached_node n s).2)
        | None => (None, s)
        end
    end in
  coherent s' /\ workers s' = workers s /\ n = m_alive_nodes s' !! id /\ (n = None -> look id = None).
Proof.
  intros Hs. unfold find_cached_node, _find_node. destruct (m_alive_nodes s !! id) as [x|] eqn:Hx; [done|].
  destruct (look id) as [y|]; simpl; [|done]. split; [by apply update_coherent|].
  split; [apply update_workers|]. split; [|done]. unfold update_cached_node, find_cached_node. simpl.
  rewrite Hx. simpl. by rewrite lookup_insert_eq.
Qed.


(** Once a node is deleted no worker gets it from a cache any more: if the
    registry does not have it either, find_node answers none on every worker. *)
Theorem deleted_node_forgotten (w : nat) (id : Z) (reg : list node) (look : Z -> option node)
    (s : manager) (k : worker) :
  coherent s -> workers s !! w = Some k -> look id = None ->
  Forall (fun n => Node.n_id n <> id) reg ->
  exists s', find_node w id reg look (delete_node id s) = Ok (None, s') /\ m_alive_nodes s' !! id = None.
Proof.
  intros [Hc Hid] Hk Hl Hreg. unfold delete_node, delete_cached_node.
  assert (exists s1 k1, match m_alive_nodes s !! id with
    | Some _ => (true, MkManager (delete id (m_alive_nodes s)) (m_need_sync s) (workers s))
    | None => (false, s) end = s1 /\
    workers (match s1 with (true, s) => invalid_thread_cache s | (false, s) => s end) !! w = Some k1 /\
    m_alive_nodes (match s1 with (true, s) => invalid_thread_cache s | (false, s) => s end) !! id = None /\
    (get None id (m_node_cache k1)).1 = None) as (s1 & k1 & -> & Hk1 & Ha & Hg).
  { destruct (m_alive_nodes s !! id) eqn:Ha; eexists _, _; (split; [done|]); simpl.
    - rewrite lookup_fmap, Hk. split; [done|]. simpl. by rewrite lookup_delete_eq.
    - split; [done|]. split; [done|]. unfold get. destruct (valid (m_node_cache k)) eqn:Hv; [|done]. simpl.
      destruct (entries (m_node_cache k) !! id) as [[n|]|] eqn:He; [|done|done].
      pose proof (Hc w k Hk Hv id n He). congruence. }
  destruct s1 as [b s0]. set (s2 := if b then _ else _) in *. clearbody s2. clear s0 b s Hc Hid Hk k.
  unfold find_node. rewrite Hk1. cbn [mbind outcome_bind mret outcome_ret].
  destruct (get None id (m_node_cache k1)) as [hit nc]. simpl in Hg. subst hit.
  set (s3 := set_worker w (MkWorker nc (m_ns_cache k1)) s2).
  destruct (sync_worker reg s3 w (MkWorker nc (m_ns_cache k1))) as (k4 & Hk4 & _);
    [apply lookup_insert_eq|].
  assert (m_alive_nodes (sync_if_needed reg s3) !! id = None) as Ha4.
  { unfold sync_if_needed, sync_all_nodes. destruct (m_need_sync s3); [|done].
    assert (m_alive_nodes (update_all reg s3).2 !! id = None) by (by apply update_all_alive).
    by destruct (update_all reg s3) as [[] s4]. }
  unfold find_cached_node, _find_node. rewrite Ha4, Hl. simpl. rewrite Hk4. cbn. eauto.
Qed.

(** A changed record is reported but not stored: when the registry has another
    record under the id of a known node, update_cached_node answers that the table
    changed - so that every synchronisation invalidates all caches - and leaves
    the old record in place. *)
Theorem changed_node_ignored (n o : node) (s : manager) :
  m_alive_nodes s !! Node.n_id n = Some o -> equals o n = false ->
  update_cached_node n s = (true, s) /\
  find_cached_node (Node.n_id n) (sync_all_nodes [n] s) = Some o /\
  workers (sync_all_nodes [n] s) = workers (invalid_thread_cache s).
Proof.
  intros Ho He. assert (update_cached_node n s = (true, s)) as Hu.
  { unfold update_cached_node, find_cached_node. by rewrite Ho, He. }
  split; [done|]. unfold sync_all_nodes. simpl. rewrite Hu. by split.
Qed.

(** *** Witnesses *)
Definition n2 : node := Node.MkNode 2 0 0 80 (txt "a") [].
Definition n2' : node := Node.MkNode 2 0 0 81 (txt "a") [].
Definition fresh_worker : worker := MkWorker (MkCache ∅ true) (MkCache ∅ true).
Definition demo : manager := MkManager {[ 2 := n2 ]} true {[ 0%nat := fresh_worker ]}.

Lemma demo_coherent : coherent demo.
Proof.
  split; unfold demo; simpl.
  - intros w k [_ <-]%lookup_singleton_Some _ id n. simpl. by rewrite lookup_empty.
  - intros id n [<- <-]%lookup_singleton_Some. done.
Qed.


Lemma deleted_node_forgotten_witness :
  exists s', find_node 0 2 [] (fun _ => None) (delete_node 2 demo) = Ok (None, s') /\
    m_alive_nodes s' !! 2 = None.
Proof.
  apply (deleted_node_forgotten 0 2 [] (fun _ => None) demo fresh_worker demo_coherent eq_refl eq_refl).
  constructor.
Defined.

Lemma changed_node_ignored_witness : update_cached_node n2' demo = (true, demo).
Proof. apply (changed_node_ignored n2' n2 demo); reflexivity. Defined.
End Cache.

(** ** DelayMessagePool *)
Module DelayPool.
Section Pool.
(** A task returns 0 when it is done; [W] is the world it acts on. *)
Context {T W : Type} (run_task : T -> W -> Z * W).

Record pool := MkPool {
  m_tasks : gmap string (list T);
  m_event_que : list string;
  m_stop : bool
}.

Definition add (event : string) (task : T) (p : pool) : pool :=
  MkPool (<[event := default [] (m_tasks p !! event) ++ [task]]> (m_tasks p)) (m_event_que p) (m_stop p).

Definition notify (event : string) (p : pool) : pool :=
  match m_tasks p !! event with
  | Some (_ :: _) => MkPool (m_tasks p) (m_event_que p ++ [event]) (m_stop p)
  | _ => p
  end.

Definition kill (p : pool) : pool := MkPool (m_tasks p) (m_event_que p) true.

(** [while (q.size() > 0)]: a task that fails goes to the back. *)
Fixpoint drain (fuel : nat) (q : list T) (w : W) : outcome W :=
  match q with
  | [] => mret w
  | t :: q =>
      match fuel with
      | O => Fault OutOfFuel
      | S fuel => let '(r, w) := run_task t w in drain fuel (if r =? 0 then q else q ++ [t]) w
      end
  end.

(** [while (m_event_que.size() > 0)] *)
Fixpoint process_events (fuel : nat) (events : list string) (tasks : gmap string (list T)) (w : W)
  : outcome (gmap string (list T) * W) :=
  match events with
  | [] => mret (tasks, w)
  | ev :: events =>
      match tasks !! ev with
      | None => process_events fuel events tasks w
      | Some q => w ← drain fuel q w; process_events fuel events (delete ev tasks) w
      end
  end.

(** One turn of loop() that does not wait. *)
Definition loop_turn (fuel : nat) (p : pool) (w : W) : outcome (pool * W) :=
  if bool_decide (m_tasks p = ∅) then mret (MkPool ∅ [] (m_stop p), w)
  else
    '(tasks, w) ← process_events fuel (m_event_que p) (m_tasks p) w;
    mret (MkPool tasks [] (m_stop p), w).

(** What every task preserves, the loop preserves. *)
Lemma drain_keeps (I : W -> Prop) fuel q w w' :
  (forall t w, I w -> I (run_task t w).2) -> I w -> drain fuel q w = Ok w' -> I w'.
Proof.
  intros HI. revert q w; induction fuel as [|fuel IH]; intros [|t q] w Hw; cbn; try (by intros [= <-]); try done.
  specialize (HI t w Hw). destruct (run_task t w) as [r w1]. by apply IH.
Qed.

Lemma loop_turn_inv (I : W -> Prop) fuel p w p' w' :
  (forall t w, I w -> I (run_task t w).2) -> I w -> loop_turn fuel p w = Ok (p', w') -> I w'.
Proof.
  intros HI Hw. unfold loop_turn. case_bool_decide; [by intros [= _ <-]|].
  generalize (m_tasks p). clear H. induction (m_event_que p) as [|ev evs IH] in w, Hw |- *; intros tasks; cbn.
  { by intros [= _ <-]. }
  destruct (tasks !! ev) as [q|]; [|by apply IH].
  destruct (drain fuel q w) as [w1|] eqn:E; cbn; [|done]. apply IH. by eapply drain_keeps.
Qed.

(** A queue is drained when failures use something up: at most [m w] of them can
    happen, so that the tasks and the failures together bound the turns. *)
Lemma drain_total (m : W -> nat) fuel q w :
  (forall t w, (run_task t w).1 <> 0 -> (m (run_task t w).2 < m w)%nat) ->
  (forall t w, (m (run_task t w).2 <= m w)%nat) ->
  (length q + m w <= fuel)%nat -> exists w', drain fuel q w = Ok w' /\ (m w' <= m w)%nat.
Proof.
  intros Hf Hle. revert q w; induction fuel as [|fuel IH]; intros [|t q] w Hlen; simpl in *; eauto; [lia|].
  specialize (Hf t w). specialize (Hle t w). destruct (run_task t w) as [r w1]. simpl in *.
  destruct (Z.eqb_spec r 0) as [->|Hr].
  - destruct (IH q w1) as (w' & -> & Hw'); [lia|]. eexists. split; [done|lia].
  - specialize (Hf Hr). destruct (IH (q ++ [t]) w1) as (w' & -> & Hw').
    { rewrite length_app. simpl. lia. }
    eexists. split; [done|lia].
Qed.

(** The delay pool works off its tasks: if every failed attempt uses up some of
    a finite budget - retries that eventually succeed - then an event runs all the
    tasks subscribed to it until each has succeeded, and the event's queue is gone. *)
Theorem delayed_tasks_done (m : W -> nat) (ev : string) (q : list T) (p : pool) (w : W) :
  (forall t w, (run_task t w).1 <> 0 -> (m (run_task t w).2 < m w)%nat) ->
  (forall t w, (m (run_task t w).2 <= m w)%nat) ->
  m_tasks p !! ev = Some q -> q <> [] -> m_event_que p = [] ->
  exists w', loop_turn (length q + m w) (notify ev p) w =
    Ok (MkPool (delete ev (m_tasks p)) [] (m_stop p), w').
Proof.
  intros Hf Hle Hq Hne He. unfold notify. rewrite Hq, He.
  destruct q as [|t q]; [done|]. unfold loop_turn. simpl m_tasks. rewrite bool_decide_eq_false_2.
  - cbn [m_event_que process_events]. simpl app. cbn [process_events]. rewrite Hq.
    destruct (drain_total m (length (t :: q) + m w) (t :: q) w Hf Hle (le_n _)) as (w' & -> & _).
    by exists w'.
  - intros H0. by rewrite H0, lookup_empty in Hq.
Qed.

(** A task that cannot succeed blocks the pool for ever: once an event is
    notified whose queue holds such a task - a message for a node that is gone -
    the loop, which holds the pool's mutex, never ends, whatever the other tasks do. *)
Theorem hopeless_task_blocks (fuel : nat) (t : T) (ev : string) (q : list T) (p : pool) (w : W) :
  (forall w, (run_task t w).1 <> 0) -> t ∈ q -> m_tasks p !! ev = Some q -> m_event_que p = [] ->
  loop_turn fuel (notify ev p) w = Fault OutOfFuel.
Proof.
  intros Hf Hin Hq He.
  assert (forall fuel q w, t ∈ q -> drain fuel q w = Fault OutOfFuel) as Hd.
  { clear -Hf. induction fuel as [|fuel IH]; intros [|x q] w Hin; simpl; try done;
      [by apply not_elem_of_nil in Hin|by apply not_elem_of_nil in Hin|].
    destruct (run_task x w) as [r w1] eqn:Hr. apply IH. apply elem_of_cons in Hin as [<-|Hin].
    - specialize (Hf w). rewrite Hr in Hf. simpl in Hf. rewrite (proj2 (Z.eqb_neq _ _)) by done.
      apply elem_of_app. right. constructor.
    - destruct (r =? 0); [done|]. apply elem_of_app. by left. }
  unfold notify. rewrite Hq, He. destruct q as [|x q]; [by apply not_elem_of_nil in Hin|].
  unfold loop_turn. simpl m_tasks. rewrite bool_decide_eq_false_2.
  - simpl app. cbn [m_event_que process_events]. by rewrite Hq, Hd.
  - intros H0. by rewrite H0, lookup_empty in Hq.
Qed.
End Pool.

Definition demo_pool (q : list Z) : pool := MkPool {[ "NODE_CHANGE"%string := q ]} [] false.

(** A task that fails as long as there are retries left. *)
Definition retry (_ : Z) (w : nat) : Z * nat := (Z.of_nat w, Nat.pred w).

Lemma delayed_tasks_done_witness :
  exists w', loop_turn retry 5 (notify "NODE_CHANGE" (demo_pool [1; 2])) 3%nat =
    Ok (MkPool (delete "NODE_CHANGE"%string (m_tasks (demo_pool [1; 2]))) [] false, w').
Proof.
  apply (delayed_tasks_done retry (fun w => w) "NODE_CHANGE" [1; 2] (demo_pool [1; 2]) 3%nat);
    unfold retry; simpl; try reflexivity; try discriminate; lia.
Defined.

Lemma hopeless_task_blocks_witness :
  loop_turn (fun (t : Z) (w : nat) => (t, w)) 100 (notify "NODE_CHANGE" (demo_pool [0; -2])) 3%nat =
  Fault OutOfFuel.
Proof.
  apply (hopeless_task_blocks (fun (t : Z) (w : nat) => (t, w)) 100 (-2) "NODE_CHANGE" [0; -2]);
    try reflexivity; [discriminate|]. apply elem_of_cons. right. constructor.
Defined.
End DelayPool.

(** ** Module ids *)
Module ModuleIds.
Definition invalid_id : Z := 65535.

(** SingletonEngine: the names in the order of their registration.  Module::ID is a
    uint16_t. *)
Definition index_of (name : text) (names : list text) : option nat :=
  fst <$> list_find (fun n => n = name) names.

Definition get_module_id (name : text) (create : bool) (names : list text) : Z * list text :=
  match index_of name names with
  | Some i => (u16 (Z.of_nat i), names)
  | None =>
      if create then (u16 (Z.of_nat (length names)), names ++ [name]) else (invalid_id, names)
  end.

Definition get_module_name (id : Z) (names : list text) : text :=
  match names !! Z.to_nat id with Some n => n | None => [] end.

(** On a single node module ids and names are inverse: an id got by creating a
    name names it, asking again gives the same id, and the ids given before keep
    their names. *)
Theorem module_id_roundtrip (name : text) (names : list text) :
  Z.of_nat (length names) < 65535 ->
  let '(id, names') := get_module_id name true names in
  get_module_name id names' = name /\
  get_module_id name false names' = (id, names') /\
  (forall i, 0 <= i < Z.of_nat (length names) -> get_module_name i names' = get_module_name i names).
Proof.
  intros Hlen. unfold get_module_id, index_of.
  destruct (list_find (fun n => n = name) names) as [[i n]|] eqn:Hf; simpl.
  - pose proof Hf as (Hi & -> & _)%list_find_Some. pose proof (lookup_lt_Some _ _ _ Hi).
    rewrite wrap_small by width_lia. unfold get_module_name. rewrite Nat2Z.id, Hi. simpl.
    split; [done|]. rewrite Hf. simpl. by rewrite wrap_small by width_lia.
  - rewrite wrap_small by width_lia. unfold get_module_name.
    rewrite Nat2Z.id, lookup_app_r, Nat.sub_diag by lia. simpl. split; [done|].
    rewrite list_find_app_r by done. simpl. rewrite decide_True by done. simpl.
    rewrite ?Nat.add_0_r, wrap_small by width_lia. split; [done|].
    intros i Hi. rewrite lookup_app_l by lia. done.
Qed.

Lemma module_id_roundtrip_witness :
  get_module_name 1 [txt "kv"; txt "log"] = txt "log".
Proof. apply (module_id_roundtrip (txt "log") [txt "kv"]). reflexivity. Defined.

(** ZookeeperEngine::get_module_id for a name that is not registered, on two nodes at
    once: get_and_inc_seq_num reads the sequence number and writes the next one in
    two requests, then the name is created. *)
Inductive reg_pc :=
| RStart
| RGot (id : Z)
| RDone (id : Z).

Record registry := MkReg { seq : Z; ids : list (text * Z) }.

Definition reg_step (name : text) (p : reg_pc) (g : registry) : reg_pc * registry :=
  match p with
  | RStart => (RGot (seq g), g)
  | RGot id => (RDone id, MkReg (u32 (id + 1)) (ids g ++ [(name, u16 id)]))
  | RDone id => (RDone id, g)
  end.

(** Two nodes register the names [a] and [b]; a schedule says who is next. *)
Fixpoint race (sched : list bool) (a b : text) (pa pb : reg_pc) (g : registry) : reg_pc * reg_pc * registry :=
  match sched with
  | [] => (pa, pb, g)
  | true :: sched => let '(pa, g) := reg_step a pa g in race sched a b pa pb g
  | false :: sched => let '(pb, g) := reg_step b pb g in race sched a b pa pb g
  end.

(** In a cluster two modules can get the same id: when two nodes register
    different names at the same time, both read the same sequence number. *)
Theorem module_ids_collide (a b : text) (n : Z) :
  exists sched g, race sched a b RStart RStart (MkReg n []) = (RDone n, RDone n, g) /\
    ids g = [(a, u16 n); (b, u16 n)].
Proof. exists [true; false; true; false]. eexists. split; [reflexivity|done]. Qed.

(** One after the other they get different ones. *)
Lemma module_ids_sequential (a b : text) (n : Z) :
  in_width 32 (n + 1) ->
  race [true; true; false; false] a b RStart RStart (MkReg n []) =
  (RDone n, RDone (n + 1), MkReg (u32 (n + 2)) [(a, u16 n); (b, u16 (n + 1))]).
Proof.
  intros Hn. unfold race, reg_step. simpl. rewrite (wrap_small 32 (n + 1)) by done.
  by replace (n + 1 + 1) with (n + 2) by lia.
Qed.
End ModuleIds.
