(* ===== verification/Options.v ===== *)
(** * Options: the configuration of the loader

    src/options.cpp and include/mola/options.hpp.  Options come from a table of
    defaults, configuration files and the command line, in this order; an option is
    [name], [noname], [name=number] or [name=string].  A line of a file holds
    several options, separated by blanks, with quotes and comments. *)
From stdpp Require Import base list gmap numbers strings.
From S2P Require Import Prelude Text.

Definition OPTBUFSIZE : nat := 1024.

(** The types of options; 0 is no option. *)
Definition FLAG : Z := 1.
Definition NUM : Z := 2.
Definition STR : Z := 3.

Inductive OptionValue := VStr (s : text) | VFlag (b : bool) | VNum (n : Z).

(** The values, and what was written to the error stream. *)
Record options := MkOptions { m_table : gmap text OptionValue; unknown : list text }.

Section Options.
(** m_nametable: names and types *)
Context (m_nametable : list (text * Z)).

Fixpoint type_in (key : text) (l : list (text * Z)) : Z :=
  match l with
  | [] => 0
  | (name, ty) :: l => if bool_decide (key = name) then ty else type_in key l
  end.
Definition get_option_type (key : text) : Z := type_in key m_nametable.

(** The assertions of set_option hold where it is called. *)
Definition set_option (key : text) (v : OptionValue) (o : options) : outcome options :=
  _ ← mola_assert (get_option_type key =?
        match v with VStr _ => STR | VFlag _ => FLAG | VNum _ => NUM end);
  mret (MkOptions (<[key := v]> (m_table o)) (unknown o)).

Definition report (name : text) (o : options) : options :=
  MkOptions (m_table o) (unknown o ++ [name]).

(** optstruct, option *)
Definition option_value (name : text) (o : options) : outcome OptionValue :=
  match m_table o !! name with Some v => mret v | None => Fault AssertFailed end.

(** strprefix *)
Fixpoint strprefix (str pattern : text) : option text :=
  match pattern, str with
  | [], _ => Some str
  | p :: pattern, c :: str => if bool_decide (p = c) then strprefix str pattern else None
  | _ :: _, [] => None
  end.

(** strchr(copy, '=') *)
Fixpoint split_equals (s : text) : option (text * text) :=
  match s with
  | [] => None
  | c :: r =>
      if code c =? 61 then Some ([], r)
      else '(k, v) ← split_equals r; Some (c :: k, v)
  end.

Definition process_one_option (opt : text) (o : options) : outcome options :=
  match split_equals opt with
  | None =>
      let '(name, value) :=
        match strprefix opt (txt "no") with
        | Some trailer => (trailer, false)
        | None => (opt, true)
        end in
      if get_option_type name =? FLAG then set_option name (VFlag value) o
      else mret (report name o)
  | Some (key, v) =>
      let ty := get_option_type key in
      if ty =? STR then set_option key (VStr v) o
      else if ty =? NUM then
        _ ← mola_assert (negb (bool_decide (v = [])));
        n ← stoul v; set_option key (VNum (u32 n)) o
      else mret (report key o)
  end.

(** ** Lines *)
Definition is_quote (c : Ascii.ascii) : bool := code c =? 39.
Definition is_backslash (c : Ascii.ascii) : bool := code c =? 92.
Definition is_hash (c : Ascii.ascii) : bool := code c =? 35.

(** The loop of process_first_option on the rest of a line, whose end is the null
    character: the option, what is left of the line (None: the null character was
    read), and string_done. *)
Fixpoint lex (s : text) (quoting quotenext : bool) (copybuf : text) : text * option text * bool :=
  match s with
  | [] => (copybuf, None, true)
  | c :: out =>
      if quoting then
        if is_quote c then lex out false quotenext copybuf
        else lex out true quotenext (copybuf ++ [c])
      else if quotenext then lex out false false (copybuf ++ [c])
      else if is_quote c then lex out true false copybuf
      else if is_backslash c then lex out false true copybuf
      else if is_hash c then (copybuf, Some out, true)
      else if negb (is_space c) then lex out false false (copybuf ++ [c])
      else (copybuf, Some out, bool_decide (out = []))
  end.

(** process_first_option: the rest of the line and the return value. *)
Definition process_first_option (s : text) (o : options) : outcome (option text * Z * options) :=
  let '(copybuf, rest, string_done) := lex (drop_ws s) false false [] in
  o ← (if bool_decide (copybuf = []) then mret o else process_one_option copybuf o);
  mret (rest, if string_done then 0 else 1, o).

(** [do ... while (rc == 1)]; every call but the last reads a character. *)
Fixpoint process_line (fuel : nat) (s : text) (o : options) : outcome (option text * options) :=
  match fuel with
  | O => Fault OutOfFuel
  | S fuel =>
      '(rest, rc, o) ← process_first_option s o;
      if rc =? 1 then match rest with Some s => process_line fuel s o | None => mret (None, o) end
      else mret (rest, o)
  end.

(** process_options_from_file: [p] is how far the pointer into the buffer has moved.
    getline writes the line and a null character there. *)
Fixpoint process_lines (lines : list text) (p : nat) (o : options) : outcome options :=
  match lines with
  | [] => mret o
  | l :: lines =>
      _ ← (if decide (p + length l + 1 <= OPTBUFSIZE)%nat then mret tt else Fault BadDeref);
      '(rest, o) ← process_line (S (length l)) l o;
      let read := match rest with None => S (length l) | Some r => (length l - length r)%nat end in
      process_lines lines (p + read) o
  end.

Definition process_options_from_file (lines : list text) (o : options) : outcome options :=
  process_lines lines 0 o.

Fixpoint process_all (opts : list text) (o : options) : outcome options :=
  match opts with
  | [] => mret o
  | x :: opts => o ← process_one_option x o; process_all opts o
  end.

(** process_defaults: every option of the name table must have a value then. *)
Fixpoint check_defaults (l : list (text * Z)) (o : options) : outcome unit :=
  match l with
  | [] => mret tt
  | (name, _) :: l => _ ← option_value name o; check_defaults l o
  end.

Definition process_defaults (defaults : list text) (o : options) : outcome options :=
  o ← process_all defaults o; _ ← check_defaults m_nametable o; mret o.

(** The command line: an exit with a status, or whether to read the system's file,
    the user's file and the options given with -o. *)
Inductive cmdline :=
| Exit (rc : Z)
| Args (read_sys : bool) (user : option text) (opts : list text).

Fixpoint parse_argv (argv : list text) (read_sys : bool) (user : option text) (opts : list text) : cmdline :=
  match argv with
  | [] => if negb read_sys && negb (bool_decide (is_Some user)) then Exit (-1) else Args read_sys user opts
  | a :: argv =>
      if bool_decide (a = txt "--help") then Exit 0
      else if bool_decide (a = txt "-n") then parse_argv argv false user opts
      else if bool_decide (a = txt "-o") then
        match argv with [] => Exit (-1) | x :: argv => parse_argv argv read_sys user (opts ++ [x]) end
      else if bool_decide (a = txt "-F") then
        match argv with [] => Exit (-1) | f :: argv => parse_argv argv read_sys (Some f) opts end
      else if bool_decide (a = txt "--print-config") then Exit 0
      else Exit (-1)
  end.

(** A file that cannot be opened is reported and skipped. *)
Definition read_config (files : text -> option (list text)) (name : text) (o : options) : outcome options :=
  match files name with Some lines => process_options_from_file lines o | None => mret (report name o) end.

(** process_options: [inl] is the status the process exits with. *)
Definition process_options (defaults : list text) (sys_conf : option text) (files : text -> option (list text))
    (argv : list text) (o : options) : outcome (Z + options) :=
  o ← process_defaults defaults o;
  match parse_argv argv (bool_decide (is_Some sys_conf)) None [] with
  | Exit rc => mret (inl rc)
  | Args read_sys user opts =>
      o ← (match sys_conf with
           | Some f => if read_sys then read_config files f o else mret o
           | None => mret o
           end);
      o ← (match user with Some f => read_config files f o | None => mret o end);
      o ← process_all opts o;
      mret (inr o)
  end.

(** ** What an option assigns *)
Definition assigns (opt : text) : option (text * OptionValue) :=
  match split_equals opt with
  | None =>
      let '(name, value) :=
        match strprefix opt (txt "no") with
        | Some trailer => (trailer, false)
        | None => (opt, true)
        end in
      if get_option_type name =? FLAG then Some (name, VFlag value) else None
  | Some (key, v) =>
      if get_option_type key =? STR then Some (key, VStr v)
      else if get_option_type key =? NUM then
        match stoul v with Ok n => Some (key, VNum (u32 n)) | Fault _ => None end
      else None
  end.

Lemma process_one_assigns x o o' :
  process_one_option x o = Ok o' ->
  m_table o' = match assigns x with Some (k, v) => <[k := v]> (m_table o) | None => m_table o end.
Proof.
  unfold process_one_option, assigns, set_option. destruct (split_equals x) as [[key v]|].
  - destruct (Z.eqb_spec (get_option_type key) STR); [intros H; inv_ok; done|].
    destruct (Z.eqb_spec (get_option_type key) NUM); [|intros H; inv_ok; done].
    intros H. apply bind_inv in H as (_ & _ & H). apply bind_inv in H as (m & -> & H). inv_ok. done.
  - destruct (match strprefix x (txt "no") with Some t => (t, false) | None => (x, true) end) as [name b].
    destruct (get_option_type name =? FLAG); intros H; inv_ok; done.
Qed.

Lemma process_all_app l1 l2 o o' :
  process_all (l1 ++ l2) o = Ok o' -> exists o1, process_all l1 o = Ok o1 /\ process_all l2 o1 = Ok o'.
Proof.
  revert o; induction l1 as [|x l1 IH]; intros o H; simpl in *; [eauto|].
  apply bind_inv in H as (o1 & Hx & H). apply IH in H as (o2 & H1 & H2). exists o2. by rewrite Hx.
Qed.

Lemma process_all_keeps l o o' k :
  process_all l o = Ok o' -> (forall y, y ∈ l -> (fst <$> assigns y) <> Some k) ->
  m_table o' !! k = m_table o !! k.
Proof.
  revert o; induction l as [|x l IH]; intros o H Hl; simpl in H; [by inv_ok|].
  apply bind_inv in H as (o1 & Hx & H). rewrite (IH o1 H) by (intros y Hy; apply Hl; by constructor).
  rewrite (process_one_assigns x o o1 Hx). specialize (Hl x (list_elem_of_here x l)).
  destruct (assigns x) as [[k' v]|]; [|done]. apply lookup_insert_ne. intros ->. by apply Hl.
Qed.

(** The command line has the last word: an option given there decides the value,
    whatever the defaults and the configuration files say, unless a later one on
    the command line assigns the same name. *)
Theorem command_line_wins (defaults : list text) (sys_conf : option text)
    (files : text -> option (list text)) (argv : list text) (read_sys : bool) (user : option text)
    (l1 l2 : list text) (x k : text) (v : OptionValue) (o o' : options) :
  parse_argv argv (bool_decide (is_Some sys_conf)) None [] = Args read_sys user (l1 ++ x :: l2) ->
  process_options defaults sys_conf files argv o = Ok (inr o') ->
  assigns x = Some (k, v) -> (forall y, y ∈ l2 -> (fst <$> assigns y) <> Some k) ->
  option_value k o' = Ok v.
Proof.
  intros Ha H Hx Hl. unfold process_options in H. rewrite Ha in H.
  do 3 (apply bind_inv in H as (? & _ & H)). apply bind_inv in H as (o3 & H & Ho). injection Ho as ->.
  apply process_all_app in H as (o1 & _ & H). simpl in H.
  apply bind_inv in H as (o2 & H1 & H2). unfold option_value.
  rewrite (process_all_keeps l2 o2 o' k H2 Hl), (process_one_assigns x o1 o2 H1), Hx, lookup_insert_eq.
  done.
Qed.

Lemma strprefix_app p s : strprefix (p ++ s) p = Some s.
Proof.
  induction p as [|c p IH]; [by destruct s|]. cbn [strprefix app].
  by rewrite bool_decide_eq_true_2.
Qed.

Lemma split_equals_None s : Forall (fun c => code c <> 61) s -> split_equals s = None.
Proof.
  induction 1 as [|c s Hc Hs IH]; simpl; [done|]. rewrite (proj2 (Z.eqb_neq _ _)) by done. by rewrite IH.
Qed.

(** A flag whose name begins with no cannot be set: naming it is read as
    clearing the flag named by the rest. *)
Theorem no_flag_unreachable (s : text) (o o' : options) :
  Forall (fun c => code c <> 61) s -> process_one_option (txt "no" ++ s) o = Ok o' ->
  m_table o' !! (txt "no" ++ s) = m_table o !! (txt "no" ++ s).
Proof.
  intros Hs H. rewrite (process_one_assigns _ _ _ H). unfold assigns.
  rewrite split_equals_None, strprefix_app.
  - destruct (get_option_type s =? FLAG); [|done]. apply lookup_insert_ne.
    intros He. apply (f_equal length) in He. rewrite length_app in He. simpl in He. lia.
  - apply Forall_app. split; [|done]. by repeat constructor.
Qed.

(** ** Words of a line *)

(** A word with a backslash before each character. *)
Fixpoint escape (s : text) : text :=
  match s with
  | [] => []
  | c :: s => Ascii.ascii_of_nat 92 :: c :: escape s
  end.

Lemma lex_escape s rest acc : lex (escape s ++ rest) false false acc = lex rest false false (acc ++ s).
Proof.
  revert acc; induction s as [|c s IH]; intros acc; simpl; [by rewrite app_nil_r|].
  by rewrite IH, <- app_assoc.
Qed.

Lemma lex_quoted s rest acc :
  Forall (fun c => is_quote c = false) s ->
  lex (s ++ Ascii.ascii_of_nat 39 :: rest) true false acc = lex rest false false (acc ++ s).
Proof.
  intros Hs. revert acc; induction Hs as [|c s Hc Hs IH]; intros acc; simpl; [by rewrite app_nil_r|].
  by rewrite Hc, IH, <- app_assoc.
Qed.

(** Any option can be written in a configuration file: with a backslash before
    each of its characters, or, if it has no quote in it, between quotes, and
    followed by a blank and more text it is read back exactly, and the rest of the
    line is left for the next option. *)
Theorem option_quoting_roundtrip (opt rest : text) (c : Ascii.ascii) (o o' : options) :
  opt <> [] -> process_one_option opt o = Ok o' ->
  process_first_option (escape opt ++ space :: c :: rest) o = Ok (Some (c :: rest), 1, o') /\
  (Forall (fun c => is_quote c = false) opt ->
   process_first_option (Ascii.ascii_of_nat 39 :: opt ++ Ascii.ascii_of_nat 39 :: space :: c :: rest) o =
   Ok (Some (c :: rest), 1, o')).
Proof.
  intros Hne Hp. unfold process_first_option.
  assert (drop_ws (escape opt ++ space :: c :: rest) = escape opt ++ space :: c :: rest) as ->
    by (by destruct opt).
  split.
  - rewrite lex_escape. simpl. rewrite bool_decide_eq_false_2 by done. by rewrite Hp.
  - intros Hq. cbn [drop_ws]. change (is_space (Ascii.ascii_of_nat 39)) with false. cbn [lex].
    change (is_quote (Ascii.ascii_of_nat 39)) with true. cbv iota. rewrite lex_quoted by done. simpl.
    rewrite bool_decide_eq_false_2 by done. by rewrite Hp.
Qed.

(** ** Termination of a line *)
Lemma lex_shorter s q qn acc w r d : lex s q qn acc = (w, Some r, d) -> (length r < length s)%nat.
Proof.
  revert q qn acc; induction s as [|c s IH]; intros q qn acc H; simpl in *; [done|].
  repeat match type of H with context [if ?b then _ else _] => destruct b end; simplify_eq;
    first [apply IH in H; lia | lia].
Qed.

Lemma drop_ws_shorter s : (length (drop_ws s) <= length s)%nat.
Proof. induction s as [|c s IH]; simpl; [done|]. destruct (is_space c); simpl; lia. Qed.

Lemma process_one_fuel x o : process_one_option x o <> Fault OutOfFuel.
Proof.
  unfold process_one_option, set_option, stoul, mola_assert.
  repeat (case_match; cbn in *; try done).
Qed.

(** Reading a line ends: process_line with one call more than the line has
    characters never runs out of fuel, however its quotes are placed. *)
Theorem process_line_terminates (s : text) (o : options) :
  process_line (S (length s)) s o <> Fault OutOfFuel.
Proof.
  remember (length s) as n eqn:Hn. assert (length s <= n)%nat as Hle by lia. clear Hn.
  revert s o Hle; induction n as [|n IH]; intros s o Hle; cbn [process_line]; unfold process_first_option;
    destruct (lex (drop_ws s) false false []) as [[w r] d] eqn:Hl;
    (destruct (bool_decide (w = [])); [|pose proof (process_one_fuel w o);
      destruct (process_one_option w o) as [o1|f]; [|by destruct f]]); cbn;
    (destruct d; [done|]); cbn; (destruct r as [r|]; [|done]); apply lex_shorter in Hl;
    pose proof (drop_ws_shorter s); try lia; apply IH; lia.
Qed.

(** ** The line buffer *)
Definition plain (c : Ascii.ascii) : bool :=
  negb (is_quote c || is_backslash c || is_hash c || is_space c).

Lemma lex_plain s acc :
  Forall (fun c => plain c = true) s -> lex s false false acc = (acc ++ s, None, true).
Proof.
  intros Hs. revert acc; induction Hs as [|c s Hc Hs IH]; intros acc; simpl; [by rewrite app_nil_r|].
  unfold plain in Hc. destruct (is_quote c), (is_backslash c), (is_hash c), (is_space c); try done.
  simpl. by rewrite IH, <- app_assoc.
Qed.

Lemma process_line_plain fuel s o r o' :
  Forall (fun c => plain c = true) s -> process_line (S fuel) s o = Ok (r, o') -> r = None.
Proof.
  intros Hs. cbn [process_line]. unfold process_first_option.
  assert (drop_ws s = s) as ->.
  { destruct Hs as [|c s Hc Hs]; [done|]. simpl. unfold plain in Hc.
    destruct (is_space c); [by rewrite orb_true_r in Hc|done]. }
  rewrite lex_plain by done. intros H. apply bind_inv in H as ([[r1 rc] o1] & H1 & H2).
  apply bind_inv in H1 as (o2 & _ & H1). injection H1 as <- <- <-. by injection H2 as <- <-.
Qed.

(** The bytes of a file, with the ends of its lines. *)
Fixpoint config_size (lines : list text) : nat :=
  match lines with
  | [] => 0
  | l :: lines => length l + 1 + config_size lines
  end.

(** A configuration file overruns the line buffer: the pointer is not set back
    between the lines, so that a file of more than 1024 bytes - here of lines with
    one option each - cannot be read without a write behind the buffer. *)
Theorem long_config_overruns (lines : list text) (o o' : options) :
  Forall (Forall (fun c => plain c = true)) lines ->
  process_options_from_file lines o = Ok o' ->
  (config_size lines <= OPTBUFSIZE)%nat.
Proof.
  intros Hl. unfold process_options_from_file.
  enough (forall p o, (p <= OPTBUFSIZE)%nat -> process_lines lines p o = Ok o' ->
    (p + config_size lines <= OPTBUFSIZE)%nat) as H.
  { apply (H 0%nat). unfold OPTBUFSIZE. lia. }
  clear o. induction Hl as [|l lines Hp Hl IH]; intros p o Hle H; cbn [process_lines] in H; simpl.
  - lia.
  - destruct (decide _) as [Hd|]; [cbn in H|done]. apply bind_inv in H as ([r o1] & H1 & H2).
    apply process_line_plain in H1; [|done]. subst r. apply IH in H2; [|lia]. simpl in H2. lia.
Qed.
(** ** What every option keeps *)
Section Invariant.
Context (P : options -> Prop).
Context (P_one : forall x o o', P o -> process_one_option x o = Ok o' -> P o').
Context (P_report : forall n o, P o -> P (report n o)).

Lemma process_all_inv l o o' : P o -> process_all l o = Ok o' -> P o'.
Proof.
  revert o; induction l as [|x l IH]; intros o Ho; cbn; [by intros [= <-]|].
  intros H. apply bind_inv in H as (o1 & H1 & H). eauto.
Qed.

Lemma process_line_inv fuel s o r o' : P o -> process_line fuel s o = Ok (r, o') -> P o'.
Proof.
  revert s o; induction fuel as [|fuel IH]; intros s o Ho; cbn [process_line]; [done|].
  unfold process_first_option. destruct (lex _ _ _ _) as [[w rest] d].
  intros H. apply bind_inv in H as ([[r1 rc] o1] & H1 & H). apply bind_inv in H1 as (o2 & H2 & H1).
  injection H1 as <- <- <-.
  assert (P o2) as Ho2 by (case_bool_decide; [by injection H2 as <-|by eapply P_one]).
  destruct (_ =? 1); [|by injection H as _ <-].
  destruct rest; [by eapply IH|by injection H as _ <-].
Qed.

Lemma process_lines_inv lines p o o' : P o -> process_lines lines p o = Ok o' -> P o'.
Proof.
  revert p o; induction lines as [|l lines IH]; intros p o Ho; cbn [process_lines]; [by intros [= <-]|].
  intros H. apply bind_inv in H as (? & _ & H). apply bind_inv in H as ([r o1] & H1 & H).
  apply IH in H; [done|]. by eapply process_line_inv.
Qed.

Lemma read_config_inv files f o o' : P o -> read_config files f o = Ok o' -> P o'.
Proof.
  intros Ho. unfold read_config. destruct (files f); [by apply process_lines_inv|].
  intros [= <-]. by apply P_report.
Qed.

Lemma process_options_inv defaults sys_conf files argv o o1 o' :
  process_defaults defaults o = Ok o1 -> P o1 -> process_options defaults sys_conf files argv o = Ok (inr o') -> P o'.
Proof.
  intros Hd Ho H. unfold process_options in H. rewrite Hd in H. cbn [mbind outcome_bind] in H.
  destruct (parse_argv _ _ _ _) as [rc|rs user opts]; [done|].
  apply bind_inv in H as (o2 & H2 & H). apply bind_inv in H as (o3 & H3 & H). apply bind_inv in H as (o4 & H4 & H).
  injection H as ->.
  assert (P o2) by (destruct sys_conf; [destruct rs; [by eapply read_config_inv|]|]; by injection H2 as <-).
  assert (P o3) by (destruct user; [by eapply read_config_inv|by injection H3 as <-]).
  by eapply process_all_inv.
Qed.
End Invariant.

(** *** Types: an option has the type of the name table, and keeps having a value. *)
Definition value_type (v : OptionValue) : Z := match v with VStr _ => STR | VFlag _ => FLAG | VNum _ => NUM end.

Definition typed (o : options) : Prop := forall k v, m_table o !! k = Some v -> value_type v = get_option_type k.

Lemma set_option_typed k v o o' : typed o -> set_option k v o = Ok o' -> typed o' /\ m_table o' = <[k := v]> (m_table o).
Proof.
  intros Ho H. unfold set_option in H. inv_ok. split; [|done]. intros k' v'. cbn.
  destruct (decide (k = k')) as [<-|Hne]; [rewrite lookup_insert_eq; intros [= <-]|rewrite lookup_insert_ne by done; apply Ho].
  apply Z.eqb_eq in A. by destruct v.
Qed.

Lemma process_one_set x o o' : process_one_option x o = Ok o' ->
  (exists k v, set_option k v o = Ok o') \/ exists n, o' = report n o.
Proof.
  unfold process_one_option. destruct (split_equals x) as [[key v]|].
  - destruct (_ =? STR); [by eauto|]. destruct (_ =? NUM); [|intros H; inv_ok; eauto].
    intros H. apply bind_inv in H as (_ & _ & H). apply bind_inv in H as (n & _ & H). eauto.
  - destruct (match strprefix x (txt "no") with Some t => (t, false) | None => (x, true) end) as [name b].
    destruct (_ =? FLAG); [by eauto|]. intros H. inv_ok. eauto.
Qed.

(** Well-typed options with a value for each of [names]. *)
Definition complete (names : list text) (o : options) : Prop :=
  typed o /\ forall k, k ∈ names -> is_Some (m_table o !! k).

Lemma process_one_complete names x o o' : complete names o -> process_one_option x o = Ok o' -> complete names o'.
Proof.
  intros [Ht Hn] [(k & v & H)|[n ->]]%process_one_set; [|done].
  apply set_option_typed in H as [Ht' E]; [|done]. split; [done|]. intros k' Hk. rewrite E.
  destruct (decide (k = k')) as [<-|Hne]; [by rewrite lookup_insert_eq|rewrite lookup_insert_ne by done; auto].
Qed.
End Options.

(** ** Witnesses *)
Module OptionsExamples.
Definition names : list (text * Z) := [(txt "port", NUM); (txt "host", STR); (txt "debug", FLAG)].
Definition empty : options := MkOptions ∅ [].
Definition defaults : list text := [txt "port=80"; txt "host=*"; txt "nodebug"].

Definition files (f : text) : option (list text) :=
  if bool_decide (f = txt "my.conf") then Some [txt "port=81 'host=a b' # rest"; txt "debug"] else None.

Definition demo : outcome (Z + options) :=
  process_options names defaults (Some (txt "sys.conf")) files
    [txt "-n"; txt "-F"; txt "my.conf"; txt "-o"; txt "port=82"] empty.

Definition demo_options : options := match demo with Ok (inr o) => o | _ => empty end.

Example demo_values :
  (p ← option_value (txt "port") demo_options; h ← option_value (txt "host") demo_options;
   d ← option_value (txt "debug") demo_options; mret (p, h, d)) =
  Ok (VNum 82, VStr (txt "a b"), VFlag true).
Proof. vm_compute. reflexivity. Qed.

Lemma demo_ok : demo = Ok (inr demo_options).
Proof. vm_compute. reflexivity. Qed.

Lemma command_line_wins_witness : option_value (txt "port") demo_options = Ok (VNum 82).
Proof.
  apply (command_line_wins names defaults (Some (txt "sys.conf")) files
    [txt "-n"; txt "-F"; txt "my.conf"; txt "-o"; txt "port=82"] false (Some (txt "my.conf"))
    [] [] (txt "port=82") (txt "port") (VNum 82) empty demo_options); [vm_compute; reflexivity|apply demo_ok
    |vm_compute; reflexivity|].
  intros y Hy. apply not_elem_of_nil in Hy. contradiction.
Defined.

Lemma no_flag_unreachable_witness :
  m_table (report (txt "de") empty) !! txt "node" = m_table empty !! txt "node".
Proof.
  apply (no_flag_unreachable [(txt "node", FLAG)] (txt "de") empty); [|reflexivity].
  repeat constructor; vm_compute; congruence.
Defined.

Lemma option_quoting_roundtrip_witness :
  process_first_option names (escape (txt "host=a#b") ++ space :: txt "x") empty =
  Ok (Some (txt "x"), 1, MkOptions {[ txt "host" := VStr (txt "a#b") ]} []).
Proof.
  refine (proj1 (option_quoting_roundtrip names (txt "host=a#b") [] (Ascii.ascii_of_nat 120) empty _ _ _));
    [discriminate|reflexivity].
Defined.

Lemma long_config_overruns_witness :
  (config_size [txt "debug"; txt "port=8"] <= OPTBUFSIZE)%nat.
Proof.
  eapply (long_config_overruns names [txt "debug"; txt "port=8"] empty); [|vm_compute; reflexivity].
  repeat constructor.
Defined.
End OptionsExamples.
