(* ===== verification/Timer.v ===== *)
(** * Timer: tasks that run after a delay

    class Timer of include/mola/scheduler.hpp.  The tasks are kept in a
    std::priority_queue ordered by the class Compare, whose top is the element that
    compares largest.  Times are ticks of the steady clock. *)
From stdpp Require Import base list numbers.
From S2P Require Import Prelude.

Section Timer.
Context {T : Type}.

(** item_t: when, and what to do *)
Definition item : Type := Z * T.

(** Timer::Compare *)
Definition compare (i0 i1 : item) : bool := i0.1 <? i1.1.

(** top() and the queue after pop(), for a queue that has [x] and [q]. *)
Fixpoint pop_top (x : item) (q : list item) : item * list item :=
  match q with
  | [] => (x, [])
  | y :: q =>
      let '(top, rest) := if compare x y then pop_top y q else pop_top x q in
      (top, (if compare x y then x else y) :: rest)
  end.

(** add: a task without delay runs at once. *)
Definition add (now timeout : Z) (task : T) (q : list item) : option T * list item :=
  if timeout =? 0 then (Some task, q) else (None, (now + timeout, task) :: q).

(** run, from the time [now] on, when nothing is added: the top is fetched, waited
    for if it is not due, called and removed.  The result is what ran, and when. *)
Fixpoint run (fuel : nat) (now : Z) (q : list item) : list (T * Z) :=
  match fuel, q with
  | S fuel, x :: q =>
      let '(top, rest) := pop_top x q in
      let now := Z.max now top.1 in
      (top.2, now) :: run fuel now rest
  | _, _ => []
  end.

Definition due (q : list item) (now : Z) : Prop := Forall (fun i => i.1 <= now) q.

Lemma pop_top_spec x q :
  let '(top, rest) := pop_top x q in
  x :: q ≡ₚ top :: rest /\ Forall (fun i : item => i.1 <= top.1) (x :: q).
Proof.
  revert x; induction q as [|y q IH]; intros x; simpl; [repeat constructor; lia|].
  unfold compare. destruct (Z.ltb_spec x.1 y.1) as [Hlt|Hge].
  - specialize (IH y). destruct (pop_top y q) as [top rest]. destruct IH as [HP HF].
    split; [rewrite HP; constructor|]. constructor; [|done]. inversion HF; subst. lia.
  - specialize (IH x). destruct (pop_top x q) as [top rest]. destruct IH as [HP HF].
    inversion HF; subst. split; [|repeat constructor; done || lia].
    rewrite (Permutation_swap y x), HP. constructor.
Qed.

(** Once all tasks are due they all run at once. *)
Lemma run_due fuel now q :
  due q now -> (length q <= fuel)%nat ->
  (run fuel now q).*1 ≡ₚ q.*2 /\ Forall (fun r => r.2 = now) (run fuel now q).
Proof.
  revert now q; induction fuel as [|fuel IH]; intros now [|x q] Hd Hl; simpl in *; try lia; try done.
  pose proof (pop_top_spec x q) as Hp. destruct (pop_top x q) as [top rest]. destruct Hp as [HP HF].
  unfold due in Hd. rewrite HP in Hd. inversion Hd as [|? ? Ht Hr]; subst.
  rewrite Z.max_l by done. destruct (IH now rest Hr) as [H1 H2].
  { apply Permutation_length in HP. simpl in HP. lia. }
  split; [|by constructor]. etransitivity; [|symmetry; apply (fmap_Permutation snd _ _ HP)].
  simpl. by constructor.
Qed.

(** The timer serves the latest deadline first: its comparison makes the task
    with the largest time the top, so that every task - also one that was due long
    ago - runs only when the last of all deadlines has passed, and then all run at
    that time. *)
Theorem timer_latest_first (now last : Z) (q : list item) :
  now <= last -> (exists i, i ∈ q /\ i.1 = last) -> Forall (fun i => i.1 <= last) q ->
  (run (length q) now q).*1 ≡ₚ q.*2 /\ Forall (fun r => r.2 = last) (run (length q) now q).
Proof.
  intros Hn (i & Hi & Hil) Hall. destruct q as [|x q]; [by apply not_elem_of_nil in Hi|]. simpl.
  pose proof (pop_top_spec x q) as Hp. destruct (pop_top x q) as [top rest]. destruct Hp as [HP HF].
  assert (top.1 = last) as Ht.
  { rewrite HP in Hall. inversion Hall; subst.
    pose proof (proj1 (list.Forall_forall _ _) HF i Hi). simpl in *. lia. }
  rewrite HP in Hall. inversion Hall as [|? ? _ Hrest]; subst. rewrite Z.max_r by lia.
  destruct (run_due (length q) top.1 rest) as [H1 H2]; [by rewrite Ht| |].
  { apply Permutation_length in HP. simpl in HP. lia. }
  split; [|by constructor; [|rewrite <- Ht]].
  etransitivity; [|symmetry; apply (fmap_Permutation snd _ _ HP)]. simpl. by constructor.
Qed.
End Timer.

(** The task due at 5 runs at 1000. *)
Lemma timer_latest_first_witness :
  Forall (fun r => r.2 = 1000) (run 2 0 [(5, 1); (1000, 2)]).
Proof.
  apply (timer_latest_first 0 1000 [(5, 1); (1000, 2)]); [lia| |repeat constructor; simpl; lia].
  exists (1000, 2). split; [|reflexivity]. apply elem_of_cons. right. constructor.
Defined.
