(* ===== verification/KvHash.v ===== *)
(** * The hash of the key-value store

    jenkins_hash of KV-Store/app/Hash/Hash.c: Bob Jenkins' hash of a byte string, in
    three variants that read the key as 32-bit words, as 16-bit words or as bytes,
    chosen by the alignment of its address.  The memory from the key on is a
    function from offsets to bytes: the word variant reads whole words and masks off
    what lies behind the key. *)
From stdpp Require Import base list numbers.
From S2P Require Import Prelude Bytes.

#[local] Arguments wrap : simpl never.

(** ** The mixing macros *)
Definition rot (x k : Z) : Z := Z.lxor (u32 (Z.shiftl x k)) (Z.shiftr x (32 - k)).

Definition state := (Z * Z * Z)%type.

Definition mix (s : state) : state :=
  let '(a, b, c) := s in
  let a := u32 (a - c) in let a := Z.lxor a (rot c 4) in let c := u32 (c + b) in
  let b := u32 (b - a) in let b := Z.lxor b (rot a 6) in let a := u32 (a + c) in
  let c := u32 (c - b) in let c := Z.lxor c (rot b 8) in let b := u32 (b + a) in
  let a := u32 (a - c) in let a := Z.lxor a (rot c 16) in let c := u32 (c + b) in
  let b := u32 (b - a) in let b := Z.lxor b (rot a 19) in let a := u32 (a + c) in
  let c := u32 (c - b) in let c := Z.lxor c (rot b 4) in let b := u32 (b + a) in
  (a, b, c).

Definition final (s : state) : state :=
  let '(a, b, c) := s in
  let c := Z.lxor c b in let c := u32 (c - rot b 14) in
  let a := Z.lxor a c in let a := u32 (a - rot c 11) in
  let b := Z.lxor b a in let b := u32 (b - rot a 25) in
  let c := Z.lxor c b in let c := u32 (c - rot b 16) in
  let a := Z.lxor a c in let a := u32 (a - rot c 4) in
  let b := Z.lxor b a in let b := u32 (b - rot a 14) in
  let c := Z.lxor c b in let c := u32 (c - rot b 24) in
  (a, b, c).

(** ** Reading the key *)
Section Hash.
Context (m : nat -> Z).

Definition k8 (i : nat) : Z := m i.
Definition k16 (i : nat) : Z := of_le [m i; m (i + 1)%nat].
Definition k32 (i : nat) : Z := of_le [m i; m (i + 1)%nat; m (i + 2)%nat; m (i + 3)%nat].

(** One block of 12 bytes at offset [o], in the three variants. *)
Definition block_w (o : nat) (s : state) : state :=
  let '(a, b, c) := s in
  (u32 (a + k32 o), u32 (b + k32 (o + 4)), u32 (c + k32 (o + 8))).

Definition block_h (o : nat) (s : state) : state :=
  let '(a, b, c) := s in
  (u32 (a + u32 (k16 o + u32 (Z.shiftl (k16 (o + 2)) 16))),
   u32 (b + u32 (k16 (o + 4) + u32 (Z.shiftl (k16 (o + 6)) 16))),
   u32 (c + u32 (k16 (o + 8) + u32 (Z.shiftl (k16 (o + 10)) 16)))).

(** [a += k[i]; a += k[i+1] << 8; a += k[i+2] << 16; a += k[i+3] << 24] *)
Definition add4 (i : nat) (a : Z) : Z :=
  let a := u32 (a + k8 i) in
  let a := u32 (a + Z.shiftl (k8 (i + 1)) 8) in
  let a := u32 (a + Z.shiftl (k8 (i + 2)) 16) in
  u32 (a + Z.shiftl (k8 (i + 3)) 24).

Definition block_b (o : nat) (s : state) : state :=
  let '(a, b, c) := s in (add4 o a, add4 (o + 4) b, add4 (o + 8) c).

(** [while (length > 12)]: the result is the state, the offset and what is left. *)
Fixpoint blocks (block : nat -> state -> state) (fuel o len : nat) (s : state)
  : outcome (state * nat * nat) :=
  if (12 <? len)%nat then
    match fuel with
    | O => Fault OutOfFuel
    | S fuel => blocks block fuel (o + 12) (len - 12) (mix (block o s))
    end
  else mret (s, o, len).

(** The last block; None is [return c]. *)
Definition tail_w (o len : nat) (s : state) : option state :=
  let '(a, b, c) := s in
  let k0 := k32 o in let k1 := k32 (o + 4) in let k2 := k32 (o + 8) in
  match len with
  | 12%nat => Some (u32 (a + k0), u32 (b + k1), u32 (c + k2))
  | 11%nat => Some (u32 (a + k0), u32 (b + k1), u32 (c + Z.land k2 0xffffff))
  | 10%nat => Some (u32 (a + k0), u32 (b + k1), u32 (c + Z.land k2 0xffff))
  | 9%nat => Some (u32 (a + k0), u32 (b + k1), u32 (c + Z.land k2 0xff))
  | 8%nat => Some (u32 (a + k0), u32 (b + k1), c)
  | 7%nat => Some (u32 (a + k0), u32 (b + Z.land k1 0xffffff), c)
  | 6%nat => Some (u32 (a + k0), u32 (b + Z.land k1 0xffff), c)
  | 5%nat => Some (u32 (a + k0), u32 (b + Z.land k1 0xff), c)
  | 4%nat => Some (u32 (a + k0), b, c)
  | 3%nat => Some (u32 (a + Z.land k0 0xffffff), b, c)
  | 2%nat => Some (u32 (a + Z.land k0 0xffff), b, c)
  | 1%nat => Some (u32 (a + Z.land k0 0xff), b, c)
  | 0%nat => None
  | _ => Some s
  end.

Definition tail_h (o len : nat) (s : state) : option state :=
  let '(a, b, c) := s in
  let w i := u32 (k16 (o + i) + u32 (Z.shiftl (k16 (o + i + 2)) 16)) in
  match len with
  | 12%nat => Some (u32 (a + w 0%nat), u32 (b + w 4%nat), u32 (c + w 8%nat))
  | 11%nat => Some (u32 (a + w 0%nat), u32 (b + w 4%nat),
                    u32 (u32 (c + Z.shiftl (k8 (o + 10)) 16) + k16 (o + 8)))
  | 10%nat => Some (u32 (a + w 0%nat), u32 (b + w 4%nat), u32 (c + k16 (o + 8)))
  | 9%nat => Some (u32 (a + w 0%nat), u32 (b + w 4%nat), u32 (c + k8 (o + 8)))
  | 8%nat => Some (u32 (a + w 0%nat), u32 (b + w 4%nat), c)
  | 7%nat => Some (u32 (a + w 0%nat), u32 (u32 (b + Z.shiftl (k8 (o + 6)) 16) + k16 (o + 4)), c)
  | 6%nat => Some (u32 (a + w 0%nat), u32 (b + k16 (o + 4)), c)
  | 5%nat => Some (u32 (a + w 0%nat), u32 (b + k8 (o + 4)), c)
  | 4%nat => Some (u32 (a + w 0%nat), b, c)
  | 3%nat => Some (u32 (u32 (a + Z.shiftl (k8 (o + 2)) 16) + k16 o), b, c)
  | 2%nat => Some (u32 (a + k16 o), b, c)
  | 1%nat => Some (u32 (a + k8 o), b, c)
  | 0%nat => None
  | _ => Some s
  end.

(** The cases fall through: entering at [len] adds the bytes len-1, ..., 0, each
    shifted to its place in its word. *)
Fixpoint tail_bytes (o len : nat) (s : state) : state :=
  match len with
  | O => s
  | S i =>
      let '(a, b, c) := s in
      let v := Z.shiftl (k8 (o + i)) (8 * Z.of_nat (i mod 4)) in
      tail_bytes o i
        match (i / 4)%nat with
        | 0%nat => (u32 (a + v), b, c)
        | 1%nat => (a, u32 (b + v), c)
        | _ => (a, b, u32 (c + v))
        end
  end.

Definition tail_b (o len : nat) (s : state) : option state :=
  match len with O => None | _ => Some (tail_bytes o len s) end.

Definition hash_with (block : nat -> state -> state) (tail : nat -> nat -> state -> option state)
    (len : nat) : outcome Z :=
  let i := u32 (0xdeadbeef + u32 (Z.of_nat len)) in
  '(s, o, len) ← blocks block len 0 len (i, i, i);
  mret (match tail o len s with Some s => (final s).2 | None => s.2 end).

(** [u.i] is the address of the key. *)
Definition jenkins_hash (addr : Z) (len : nat) : outcome Z :=
  if Z.land addr 3 =? 0 then hash_with block_w tail_w len
  else if Z.land addr 1 =? 0 then hash_with block_h tail_h len
  else hash_with block_b tail_b len.
End Hash.

(** ** mix is reversible *)

(** One line of mix, [x -= y; x ^= rot(y, k); y += z], and its inverse. *)
Definition line (k x y z : Z) : Z * Z := (Z.lxor (u32 (x - y)) (rot y k), u32 (y + z)).
Definition unline (k x y z : Z) : Z * Z :=
  let y := u32 (y - z) in (u32 (Z.lxor x (rot y k) + y), y).

Definition unmix (s : state) : state :=
  let '(a, b, c) := s in
  let '(c, b) := unline 4 c b a in
  let '(b, a) := unline 19 b a c in
  let '(a, c) := unline 16 a c b in
  let '(c, b) := unline 8 c b a in
  let '(b, a) := unline 6 b a c in
  let '(a, c) := unline 4 a c b in
  (a, b, c).

Lemma lxor_width w a b : 0 <= w -> in_width w a -> in_width w b -> in_width w (Z.lxor a b).
Proof.
  intros Hw [Ha Ha'] [Hb Hb']. split; [by apply Z.lxor_nonneg|].
  destruct (Z.eq_dec (Z.lxor a b) 0) as [->|Hne]; [by apply Z.pow_pos_nonneg|].
  assert (0 <= Z.lxor a b) by by apply Z.lxor_nonneg.
  assert (forall x, 0 <= x -> x < 2 ^ w -> forall i, w <= i -> Z.testbit x i = false) as Hbit.
  { intros x H0 Hx i Hi. rewrite <- (Z.mod_small x (2 ^ w)) by done. by apply Z.mod_pow2_bits_high. }
  apply Z.log2_lt_pow2; [lia|]. apply Z.nle_gt. intros Hlog.
  pose proof (Z.bit_log2 (Z.lxor a b) ltac:(lia)) as Hbl.
  rewrite Z.lxor_spec, !Hbit in Hbl by done. done.
Qed.

Lemma rot_width x k : 0 <= k <= 32 -> in_width 32 x -> in_width 32 (rot x k).
Proof.
  intros Hk [H0 H1]. apply lxor_width; [done|by apply wrap_range|]. split; [by apply Z.shiftr_nonneg|].
  rewrite Z.shiftr_div_pow2 by lia. eapply Z.le_lt_trans; [|exact H1].
  apply Z.div_le_upper_bound; [apply Z.pow_pos_nonneg; lia|].
  assert (1 <= 2 ^ (32 - k)) by (apply (Z.pow_le_mono_r 2 0); lia). nia.
Qed.

Lemma unline_line k x y z : in_width 32 x -> in_width 32 y ->
  unline k (line k x y z).1 (line k x y z).2 z = (x, y).
Proof.
  intros Hx Hy. unfold line, unline. cbn [fst snd].
  assert (u32 (u32 (y + z) - z) = y) as ->.
  { rewrite wrap_sub_l. replace (y + z - z) with y by lia. by apply wrap_small. }
  rewrite Z.lxor_assoc, Z.lxor_nilpotent, Z.lxor_0_r. autorewrite with width.
  replace (x - y + y) with x by lia. by rewrite wrap_small.
Qed.

Lemma line_width k x y z : 0 <= k <= 32 -> in_width 32 y ->
  in_width 32 (line k x y z).1 /\ in_width 32 (line k x y z).2.
Proof.
  intros Hk Hy. split; [|by apply wrap_range].
  apply lxor_width; [done|by apply wrap_range|by apply rot_width].
Qed.

Definition state_ok (s : state) : Prop :=
  in_width 32 s.1.1 /\ in_width 32 s.1.2 /\ in_width 32 s.2.

Lemma mix_lines a b c :
  mix (a, b, c) =
  let '(a, c) := line 4 a c b in
  let '(b, a) := line 6 b a c in
  let '(c, b) := line 8 c b a in
  let '(a, c) := line 16 a c b in
  let '(b, a) := line 19 b a c in
  let '(c, b) := line 4 c b a in
  (a, b, c).
Proof. done. Qed.

(** A line is undone, and its result is in range. *)
Ltac run_line :=
  match goal with
  | |- context [line ?k ?x ?y ?z] =>
      let Hx := fresh "H" in let Hy := fresh "H" in let H := fresh "U" in
      destruct (line_width k x y z ltac:(lia) ltac:(done)) as [Hx Hy];
      pose proof (unline_line k x y z ltac:(done) ltac:(done)) as H;
      destruct (line k x y z); cbn [fst snd] in Hx, Hy, H
  end.

(** Mix loses nothing, as its comment claims: the three words before it can be
    computed from those after it. *)
Theorem mix_reversible (s : state) : state_ok s -> unmix (mix s) = s /\ state_ok (mix s).
Proof.
  destruct s as [[a b] c]. intros (Ha & Hb & Hc). cbn [fst snd] in *. rewrite mix_lines.
  do 6 run_line. unfold unmix.
  repeat match goal with U : unline ?k ?x ?y ?z = _ |- context [unline ?k ?x ?y ?z] => rewrite U end.
  done.
Qed.

(** ** The three variants agree *)

(** A sum with partial sums reduced, as one sum. *)
Ltac sum_norm := repeat (progress (rewrite <- ?Z.add_assoc, ?wrap_add_l, ?wrap_add_r)).

(** Shifts by constants as multiplications. *)
Ltac shift_norm :=
  rewrite ?Z.shiftl_mul_pow2 by lia;
  repeat match goal with
  | |- context [2 ^ ?e] => let v := eval vm_compute in (2 ^ e) in change (2 ^ e) with v
  end.

Section Agree.
Context (m : nat -> Z) (Hm : forall i, is_byte (m i)).

Lemma add4_word i a : add4 m i a = u32 (a + k32 m i).
Proof.
  unfold add4, k32, k8, of_le. sum_norm. shift_norm.
  f_equal. lia.
Qed.

Lemma half_word i : u32 (k16 m i + u32 (Z.shiftl (k16 m (i + 2)) 16)) = u32 (k32 m i).
Proof.
  rewrite wrap_add_r. unfold k32, k16, of_le. shift_norm.
  replace (i + 2 + 1)%nat with (i + 3)%nat by lia. f_equal. lia.
Qed.

(** What the masks leave of a word. *)
Lemma mask_word i :
  Z.land (k32 m i) 0xff = k8 m i /\
  Z.land (k32 m i) 0xffff = k16 m i /\
  Z.land (k32 m i) 0xffffff = of_le [m i; m (i + 1)%nat; m (i + 2)%nat].
Proof.
  pose proof (Hm i). pose proof (Hm (i + 1)%nat). pose proof (Hm (i + 2)%nat).
  pose proof (Hm (i + 3)%nat). unfold is_byte in *.
  change 0xff with (Z.ones 8). change 0xffff with (Z.ones 16). change 0xffffff with (Z.ones 24).
  rewrite !Z.land_ones by lia. unfold k32, k16, k8, of_le. change (2 ^ 8) with 256.
  change (2 ^ 16) with 65536. change (2 ^ 24) with 16777216.
  repeat split; symmetry.
  - apply (Z.mod_unique _ _ (m (i + 1)%nat + 256 * m (i + 2)%nat + 65536 * m (i + 3)%nat)); lia.
  - apply (Z.mod_unique _ _ (m (i + 2)%nat + 256 * m (i + 3)%nat)); lia.
  - apply (Z.mod_unique _ _ (m (i + 3)%nat)); lia.
Qed.

Lemma block_w_b o s : block_w m o s = block_b m o s.
Proof. destruct s as [[a b] c]. unfold block_w, block_b. by rewrite !add4_word. Qed.

Lemma block_h_b o s : block_h m o s = block_b m o s.
Proof.
  destruct s as [[a b] c]. unfold block_h, block_b. rewrite !add4_word.
  replace (o + 6)%nat with (o + 4 + 2)%nat by lia. replace (o + 10)%nat with (o + 8 + 2)%nat by lia.
  rewrite !half_word. sum_norm. done.
Qed.

(** Both sides of a case of the last block are sums of shifted bytes. *)
Ltac tail_case :=
  cbn [tail_bytes Nat.div Nat.modulo Nat.divmod fst snd Nat.sub]; sum_norm; unfold k32, k16, k8, of_le;
  rewrite ?Nat.add_0_r, ?Nat.add_assoc, <- ?Nat.add_assoc;
  cbn [Nat.add]; sum_norm; shift_norm;
  repeat (f_equal; try lia).

Lemma tail_w_b o len s : (len <= 12)%nat -> tail_w m o len s = tail_b m o len s.
Proof.
  intros Hl. destruct s as [[a b] c].
  destruct (mask_word o) as (M0 & M0' & M0''). destruct (mask_word (o + 4)) as (M1 & M1' & M1'').
  destruct (mask_word (o + 8)) as (M2 & M2' & M2'').
  unfold tail_w, tail_b. rewrite M0, M0', M0'', M1, M1', M1'', M2, M2', M2''.
  do 13 (destruct len as [|len]; [tail_case|]). lia.
Qed.

Lemma tail_h_b o len s : (len <= 12)%nat -> tail_h m o len s = tail_b m o len s.
Proof.
  intros Hl. destruct s as [[a b] c]. unfold tail_h, tail_b. rewrite !half_word.
  do 13 (destruct len as [|len]; [tail_case|]). lia.
Qed.

Lemma blocks_total (block : nat -> state -> state) fuel o len s :
  (forall o s, block o s = block_b m o s) -> (len <= fuel)%nat ->
  exists s' o' len', blocks block fuel o len s = Ok (s', o', len') /\
    blocks (block_b m) fuel o len s = Ok (s', o', len') /\ (len' <= 12)%nat.
Proof.
  intros Hb. revert o len s; induction fuel as [|fuel IH]; intros o len s Hl; simpl;
    destruct (Nat.ltb_spec 12 len); try lia; eauto 10.
  rewrite Hb. apply IH. lia.
Qed.

Lemma hash_with_b block tail len :
  (forall o s, block o s = block_b m o s) ->
  (forall o len s, (len <= 12)%nat -> tail o len s = tail_b m o len s) ->
  hash_with block tail len = hash_with (block_b m) (tail_b m) len.
Proof.
  intros Hb Ht. unfold hash_with.
  destruct (blocks_total block len 0 len (u32 (0xdeadbeef + u32 (Z.of_nat len)),
    u32 (0xdeadbeef + u32 (Z.of_nat len)), u32 (0xdeadbeef + u32 (Z.of_nat len))) Hb ltac:(lia))
    as (s & o & l & -> & -> & Hl).
  cbn. by rewrite Ht.
Qed.

Lemma jenkins_hash_b addr len : jenkins_hash m addr len = hash_with (block_b m) (tail_b m) len.
Proof.
  unfold jenkins_hash. destruct (Z.land addr 3 =? 0); [|destruct (Z.land addr 1 =? 0)]; [| |done];
    apply hash_with_b; auto using block_w_b, block_h_b, tail_w_b, tail_h_b.
Qed.
End Agree.

(** ** Only the bytes of the key matter *)
Section Extensional.
Context (m m' : nat -> Z) (n : nat) (Heq : forall i, (i < n)%nat -> m i = m' i).

Lemma blocks_ext fuel o len s :
  (o + len <= n)%nat -> blocks (block_b m) fuel o len s = blocks (block_b m') fuel o len s.
Proof.
  revert o len s; induction fuel as [|fuel IH]; intros o len s Hl; simpl; [done|].
  destruct (Nat.ltb_spec 12 len); [|done]. rewrite IH by lia. do 2 f_equal.
  destruct s as [[a b] c]. unfold block_b, add4, k8. by rewrite !Heq by lia.
Qed.

Lemma blocks_end fuel o len s s' o' len' :
  blocks (block_b m) fuel o len s = Ok (s', o', len') -> (o' + len' = o + len)%nat.
Proof.
  revert o len s; induction fuel as [|fuel IH]; intros o len s; simpl;
    destruct (Nat.ltb_spec 12 len); intros H'; try done; try (injection H' as <- <- <-; done).
  apply IH in H'. lia.
Qed.

Lemma tail_ext o len s : (o + len <= n)%nat -> tail_bytes m o len s = tail_bytes m' o len s.
Proof.
  revert s; induction len as [|len IH]; intros [[a b] c] Hl; cbn [tail_bytes]; [done|].
  unfold k8. rewrite Heq, IH by lia. done.
Qed.
End Extensional.

Lemma jenkins_hash_bytes (m m' : nat -> Z) (addr addr' : Z) (len : nat) :
  (forall i, is_byte (m i)) -> (forall i, is_byte (m' i)) ->
  (forall i, (i < len)%nat -> m i = m' i) ->
  exists h, jenkins_hash m addr len = Ok h /\ jenkins_hash m' addr' len = Ok h.
Proof.
  intros Hm Hm' Heq. rewrite (jenkins_hash_b m Hm), (jenkins_hash_b m' Hm'). unfold hash_with.
  set (s0 := (_, _, _)).
  destruct (blocks_total m (block_b m) len 0 len s0 (fun _ _ => eq_refl) ltac:(lia))
    as (s & o & l & Hb & _ & Hl).
  pose proof (blocks_ext m m' len Heq len 0 len s0 ltac:(lia)) as Hb'. rewrite Hb in Hb'.
  pose proof (blocks_end m len 0 len s0 s o l Hb) as He. rewrite Hb, <- Hb'. cbn.
  eexists. split; [reflexivity|]. do 2 f_equal. unfold tail_b. destruct l; [done|].
  by rewrite (tail_ext m m' len Heq) by lia.
Qed.

(** C35: the hash of a key is a function of its bytes: it does not depend on the
    alignment of the address, which chooses between three routines, nor on the
    memory behind the key, which the word routine reads; and the hash is always
    computed. *)
Theorem jenkins_hash_of_bytes (m m' : nat -> Z) (addr addr' : Z) (len : nat) :
  (forall i, is_byte (m i)) -> (forall i, is_byte (m' i)) ->
  (forall i, (i < len)%nat -> m i = m' i) ->
  exists h, jenkins_hash m addr len = Ok h /\ jenkins_hash m' addr' len = Ok h.
Proof. apply jenkins_hash_bytes. Qed.

(** ** Witnesses *)
Lemma mix_reversible_witness : unmix (mix (1, 2, 3)) = (1, 2, 3) /\ state_ok (mix (1, 2, 3)).
Proof. apply (mix_reversible (1, 2, 3)). by vm_compute. Defined.

(** The key abc at an address that is not aligned and at one that is. *)
Lemma jenkins_hash_of_bytes_witness : exists h,
  jenkins_hash (fun i => match i with 0%nat => 97 | 1%nat => 98 | 2%nat => 99 | _ => 0 end) 4097 3 = Ok h /\
  jenkins_hash (fun i => match i with 0%nat => 97 | 1%nat => 98 | 2%nat => 99 | _ => 255 end) 4096 3 = Ok h.
Proof.
  apply (jenkins_hash_of_bytes _ _ 4097 4096 3).
  - intros [|[|[|i]]]; unfold is_byte; lia.
  - intros [|[|[|i]]]; unfold is_byte; lia.
  - intros [|[|[|i]]]; lia.
Defined.
