(* ===== verification/KvStore.v ===== *)
(** * The key-value store: commands, buckets and replies

    KV-Store/app/Hash/Hash.c (the command parser), KV-Store/app/HashTable/HashTable.c
    (the buckets of one HashTable instance), KV-Store/include/common.h and the reply of
    KV-Store/app/Driver/Driver.c.

    Keys and values are buffers of the C heap; requests, buckets and replies hold
    their addresses.  Characters are bytes. *)
From stdpp Require Import base list gmap numbers strings.
From S2P Require Import Prelude Bytes Text KvHash.

#[local] Arguments wrap : simpl never.

(** ** The heap *)
Record heap := MkHeap { bufs : gmap Z (list Z); next : Z }.

Definition malloc (bytes : list Z) (h : heap) : Z * heap :=
  (next h, MkHeap (<[next h := bytes]> (bufs h)) (next h + 1)).

(** free(NULL) does nothing, a free of anything but a live buffer is an error. *)
Definition free (p : Z) (h : heap) : outcome heap :=
  if p =? 0 then mret h
  else _ ← deref (bufs h !! p); mret (MkHeap (delete p (bufs h)) (next h)).

(** memcmp(p, q, n) == 0 *)
Definition memcmp (p q : Z) (n : nat) (h : heap) : outcome bool :=
  a ← deref (bufs h !! p);
  b ← deref (bufs h !! q);
  if (length a <? n)%nat || (length b <? n)%nat then Fault BadDeref
  else mret (bool_decide (take n a = take n b)).

(** ** Data *)
Record bucket := MkBucket { b_key : Z; b_value : Z; b_ksize : nat; b_vsize : nat }.

(** [v_bk] is the array, as long as its capacity, or None for NULL; an element that
    was not written yet is None. *)
Record vector := MkVector { v_bk : option (list (option bucket)); v_cap : nat; v_size : nat }.

Definition VECTOR_CAP : nat := 4.
Definition N_ACTOR_POWER : Z := 16.
Definition N_INSTANCE_POWER : Z := 16.
Definition KEY_RANGE_MASK : Z := Z.shiftr 0xffffffff (32 - N_INSTANCE_POWER).
Definition ACTOR_MASK : Z := Z.shiftr 0xffffffff (32 - N_ACTOR_POWER).

Record SetReq := MkSetReq { s_key : Z; s_value : Z; s_ksize : nat; s_vsize : nat; s_hash_key : Z }.
Record GetReq := MkGetReq { g_key : Z; g_ksize : nat; g_hash_key : Z }.
(** The sizes are only set when there is a value. *)
Record Ret := MkRet { r_key : Z; r_value : Z; r_sizes : option (nat * nat) }.

(** HashTable_init; the capacity of a fresh vector is not initialised. *)
Definition HashTable_init (cap : nat) : list vector :=
  replicate (Z.to_nat (Z.shiftl 1 (N_ACTOR_POWER - N_INSTANCE_POWER))) (MkVector None cap 0).

(** ** HashTable *)
Definition actor_id (hash_key : Z) : nat :=
  Z.to_nat (Z.shiftr (Z.land hash_key ACTOR_MASK) N_INSTANCE_POWER).

(** [bk->bk[i]], a bucket that was written *)
Definition bucket_at (v : vector) (i : nat) : outcome bucket :=
  arr ← deref (v_bk v);
  e ← deref (arr !! i);
  deref e.

(** The search of both handlers: the index of the first bucket with the key, from
    index [i] on, with [n] buckets left. *)
Fixpoint search (n i : nat) (key : Z) (ksize : nat) (v : vector) (h : heap) : outcome (option nat) :=
  match n with
  | O => mret None
  | S n =>
      b ← bucket_at v i;
      if (b_ksize b =? ksize)%nat then
        eq ← memcmp (b_key b) key ksize h;
        if eq : bool then mret (Some i) else search n (S i) key ksize v h
      else search n (S i) key ksize v h
  end.

Definition OnGetReq (r : GetReq) (vec : list vector) (h : heap) : outcome Ret :=
  v ← deref (vec !! actor_id (g_hash_key r));
  found ← search (v_size v) 0 (g_key r) (g_ksize r) v h;
  match found with
  | Some i =>
      b ← bucket_at v i;
      mret (MkRet (b_key b) (b_value b) (Some (b_ksize b, b_vsize b)))
  | None => mret (MkRet 0 0 None)
  end.

(** malloc of the array, realloc to twice the capacity *)
Definition reserve (v : vector) : vector :=
  let v := match v_bk v with
           | None => MkVector (Some (replicate VECTOR_CAP None)) VECTOR_CAP 0
           | Some _ => v
           end in
  if (v_size v =? v_cap v)%nat then
    MkVector ((.++ replicate (v_cap v) None) <$> v_bk v) (v_cap v * 2) (v_size v)
  else v.

(** [bk->bk[i] = b] *)
Definition put_bucket (i : nat) (b : bucket) (v : vector) : outcome vector :=
  arr ← deref (v_bk v);
  if (i <? length arr)%nat then mret (MkVector (Some (<[i := Some b]> arr)) (v_cap v) (v_size v))
  else Fault BadDeref.

Definition OnSetReq (r : SetReq) (vec : list vector) (h : heap) : outcome (Ret * list vector * heap) :=
  let a := actor_id (s_hash_key r) in
  v ← deref (vec !! a);
  found ← search (v_size v) 0 (s_key r) (s_ksize r) v h;
  match found with
  | Some i =>
      b ← bucket_at v i;
      h ← free (b_value b) h;
      v ← put_bucket i (MkBucket (b_key b) (s_value r) (b_ksize b) (s_vsize r)) v;
      mret (MkRet 1 0 None, <[a := v]> vec, h)
  | None =>
      let v := reserve v in
      v ← put_bucket (v_size v) (MkBucket (s_key r) (s_value r) (s_ksize r) (s_vsize r)) v;
      mret (MkRet 1 0 None, <[a := MkVector (v_bk v) (v_cap v) (S (v_size v))]> vec, h)
  end.

(** ** What a vector represents *)

(** A bucket with the key and the value it stands for. *)
Abbreviation entry := (bucket * list Z * list Z)%type.

Definition buf_is (h : heap) (p : Z) (n : nat) (bytes : list Z) : Prop :=
  p <> 0 /\ length bytes = n /\ exists b, bufs h !! p = Some b /\ take n b = bytes.

(** A buffer with a zero behind the bytes, as the parser makes them for a set. *)
Definition str_is (h : heap) (p : Z) (n : nat) (bytes : list Z) : Prop :=
  p <> 0 /\ length bytes = n /\ bufs h !! p = Some (bytes ++ [0]).

Definition entry_ok (h : heap) (e : entry) : Prop :=
  let '(b, k, x) := e in str_is h (b_key b) (b_ksize b) k /\ str_is h (b_value b) (b_vsize b) x.

Lemma str_is_buf_is h p n bytes : str_is h p n bytes -> buf_is h p n bytes.
Proof.
  intros (H0 & Hl & Hb). split; [done|]. split; [done|]. eexists. split; [exact Hb|].
  by apply take_app_length'.
Qed.

Definition array_ok (v : vector) (bs : list bucket) : Prop :=
  v_size v = length bs /\
  match v_bk v with
  | None => bs = []
  | Some arr => (0 < v_cap v)%nat /\ length arr = v_cap v /\ (length bs <= v_cap v)%nat /\
                take (length bs) arr = Some <$> bs
  end.

Definition pointers (e : entry) : list Z := let '(b, _, _) := e in [b_key b; b_value b].
Definition binding (e : entry) : list Z * list Z := let '(_, k, x) := e in (k, x).
Definition bucket_of (e : entry) : bucket := e.1.1.
Definition key_of (e : entry) : list Z := e.1.2.

Record represents (h : heap) (v : vector) (l : list entry) : Prop := {
  rep_array : array_ok v (bucket_of <$> l);
  rep_entries : Forall (entry_ok h) l;
  rep_keys : NoDup (key_of <$> l);
  rep_pointers : NoDup (concat (pointers <$> l))
}.

Definition contents (l : list entry) : gmap (list Z) (list Z) := list_to_map (binding <$> l).

Lemma buf_is_memcmp h p q n k k' :
  buf_is h p n k -> buf_is h q n k' -> memcmp p q n h = Ok (bool_decide (k = k')).
Proof.
  intros (_ & Hk & a & Ha & <-) (_ & Hk' & b & Hb & <-). unfold memcmp. rewrite Ha, Hb. cbn -[Nat.ltb].
  rewrite length_take in Hk, Hk'.
  rewrite (proj2 (Nat.ltb_ge _ _)), (proj2 (Nat.ltb_ge _ _)) by lia. done.
Qed.

Lemma bucket_at_rep v bs i b :
  array_ok v bs -> bs !! i = Some b -> bucket_at v i = Ok b.
Proof.
  intros [Hs Hv] Hi. unfold bucket_at. destruct (v_bk v) as [arr|]; [|by subst].
  destruct Hv as (_ & _ & _ & Ht). pose proof (lookup_lt_Some _ _ _ Hi).
  assert (take (length bs) arr !! i = Some (Some b)) as Ha by (rewrite Ht, list_lookup_fmap, Hi; done).
  rewrite lookup_take_lt in Ha by done. cbn. by rewrite Ha.
Qed.

(** The search finds the entry with the key of the request, if there is one. *)
Lemma table_search_spec h v l pre suf q k :
  represents h v l -> l = pre ++ suf -> buf_is h q (length k) k -> k ∉ key_of <$> pre ->
  exists r, search (length suf) (length pre) q (length k) v h = Ok r /\
    match r with
    | Some i => exists e, l !! i = Some e /\ key_of e = k
    | None => k ∉ key_of <$> l
    end.
Proof.
  intros Hrep -> Hq. revert pre Hrep; induction suf as [|[[b kb] x] suf IH]; intros pre Hrep Hpre; simpl.
  { exists None. split; [done|]. by rewrite app_nil_r. }
  pose proof (rep_entries _ _ _ Hrep) as He. apply Forall_app in He as [_ He].
  apply Forall_cons_1 in He as [[Hkb%str_is_buf_is Hx] _].
  rewrite (bucket_at_rep v _ (length pre) b (rep_array _ _ _ Hrep))
    by (rewrite fmap_app, lookup_app_r, length_fmap, Nat.sub_diag by (rewrite length_fmap; lia); done).
  cbn. specialize (IH (pre ++ [(b, kb, x)])).
  rewrite <- app_assoc, length_app, Nat.add_1_r in IH. cbn [app] in IH.
  assert (kb <> k -> exists r, search (length suf) (S (length pre)) q (length k) v h = Ok r /\
    match r with
    | Some i => exists e, (pre ++ (b, kb, x) :: suf) !! i = Some e /\ key_of e = k
    | None => k ∉ key_of <$> pre ++ (b, kb, x) :: suf
    end) as Hnext.
  { intros Hne. apply IH; [done|]. rewrite fmap_app, not_elem_of_app. split; [done|].
    cbn. rewrite list_elem_of_singleton. done. }
  destruct (Nat.eqb_spec (b_ksize b) (length k)) as [Hlen|Hlen].
  - rewrite Hlen in Hkb. rewrite (buf_is_memcmp h _ _ _ _ _ Hkb Hq). cbn.
    case_bool_decide as Heq; [|by apply Hnext].
    exists (Some (length pre)). split; [done|]. exists (b, kb, x).
    by rewrite lookup_app_r, Nat.sub_diag by lia.
  - apply Hnext. intros <-. destruct Hkb as (_ & Hl & _). congruence.
Qed.

Lemma contents_lookup l e : NoDup (key_of <$> l) -> e ∈ l -> contents l !! key_of e = Some e.2.
Proof.
  intros Hn Hin. unfold contents. apply elem_of_list_to_map_1.
  - replace ((binding <$> l).*1) with (key_of <$> l); [done|].
    rewrite <- list_fmap_compose. by apply list_fmap_ext; intros ? [[? ?] ?].
  - apply list_elem_of_fmap. exists e. by destruct e as [[? ?] ?].
Qed.

Lemma contents_None l k : k ∉ key_of <$> l -> contents l !! k = None.
Proof.
  intros Hn. apply not_elem_of_list_to_map_1. intros Hin. apply Hn.
  replace (key_of <$> l) with ((binding <$> l).*1); [done|].
  rewrite <- list_fmap_compose. by apply list_fmap_ext; intros ? [[? ?] ?].
Qed.

Lemma binding_keys l : (binding <$> l).*1 = key_of <$> l.
Proof. rewrite <- list_fmap_compose. by apply list_fmap_ext; intros ? [[? ?] ?]. Qed.

Lemma contents_middle pre e suf :
  NoDup (key_of <$> pre ++ e :: suf) ->
  contents (pre ++ e :: suf) = <[key_of e := e.2]> (contents (pre ++ suf)).
Proof.
  intros Hn. unfold contents. rewrite <- binding_keys in Hn.
  rewrite (list_to_map_proper _ (binding <$> e :: pre ++ suf) Hn).
  - by destruct e as [[? ?] ?].
  - apply fmap_Permutation. symmetry. apply Permutation_middle.
Qed.

(** With as many actors as instances every key is in the one vector. *)
Lemma actor_id_0 hk : actor_id hk = 0%nat.
Proof.
  unfold actor_id. change ACTOR_MASK with (Z.ones 16). rewrite Z.land_ones by lia.
  rewrite Z.shiftr_div_pow2 by done. change (2 ^ N_INSTANCE_POWER) with (2 ^ 16).
  rewrite Z.div_small; [done|]. apply Z.mod_pos_bound. done.
Qed.

Lemma represents_size h v l : represents h v l -> v_size v = length l.
Proof. intros [[Hs _] _ _ _]. by rewrite Hs, length_fmap. Qed.

(** A get answers from the table: the value that the vector represents for the key,
    with both sizes, or the miss that the driver recognises by its null key. *)
Theorem get_refines (h : heap) (v : vector) (l : list entry) (r : GetReq) (k : list Z) :
  represents h v l -> buf_is h (g_key r) (g_ksize r) k ->
  match contents l !! k with
  | Some x => exists p q, OnGetReq r [v] h = Ok (MkRet p q (Some (length k, length x))) /\
      str_is h p (length k) k /\ str_is h q (length x) x
  | None => OnGetReq r [v] h = Ok (MkRet 0 0 None)
  end.
Proof.
  intros Hrep Hq. assert (g_ksize r = length k) as Hks by (by destruct Hq as (_ & -> & _)).
  rewrite Hks in Hq.
  destruct (table_search_spec h v l [] l (g_key r) k Hrep eq_refl Hq) as (i & Hi & Hcase);
    [by apply not_elem_of_nil|].
  cbn [length] in Hi.
  unfold OnGetReq. rewrite actor_id_0. cbn [lookup list_lookup deref mbind outcome_bind].
  rewrite Hks, (represents_size _ _ _ Hrep), Hi. destruct i as [i|]; cbn.
  - destruct Hcase as ([[b kb] x] & He & Hk). cbn in Hk. subst kb.
    rewrite (bucket_at_rep v _ i b (rep_array _ _ _ Hrep)) by (rewrite list_lookup_fmap, He; done).
    pose proof (contents_lookup l (b, k, x) (rep_keys _ _ _ Hrep) (list_elem_of_lookup_2 _ _ _ He)) as Hc.
    cbn in Hc. rewrite Hc.
    pose proof (rep_entries _ _ _ Hrep) as Hall. rewrite Forall_lookup in Hall.
    destruct (Hall i _ He) as [(Hp0 & Hp1 & Hp2) (Hq0 & Hq1 & Hq2)].
    exists (b_key b), (b_value b). rewrite Hp1, Hq1. cbn. done.
  - by rewrite contents_None.
Qed.

Lemma array_replace v pre b b' suf :
  array_ok v (pre ++ b :: suf) ->
  exists v', put_bucket (length pre) b' v = Ok v' /\ array_ok v' (pre ++ b' :: suf).
Proof.
  intros [Hs Hv]. unfold put_bucket. destruct (v_bk v) as [arr|]; [|by destruct pre].
  destruct Hv as (Hc & Ha & Hle & Ht). cbn -[Nat.ltb]. rewrite length_app in *. simpl in *.
  rewrite (proj2 (Nat.ltb_lt _ _)) by lia. eexists. split; [done|]. unfold array_ok. simpl.
  rewrite length_app, length_insert. simpl. split; [done|]. split; [done|]. split; [done|].
  split; [done|].
  rewrite take_insert_lt, Ht by lia. rewrite fmap_app. rewrite <- (length_fmap Some pre) at 1.
  rewrite fmap_app. simpl.
  replace (length (Some <$> pre)) with (length (Some <$> pre) + 0)%nat by lia.
  rewrite insert_app_r. done.
Qed.

Lemma array_append v bs b :
  array_ok v bs ->
  exists v', put_bucket (v_size (reserve v)) b (reserve v) = Ok v' /\
    array_ok (MkVector (v_bk v') (v_cap v') (S (v_size v'))) (bs ++ [b]).
Proof.
  intros [Hs Hv].
  assert (exists arr, v_bk (reserve v) = Some arr /\ v_size (reserve v) = length bs /\
    length arr = v_cap (reserve v) /\ (length bs < v_cap (reserve v))%nat /\
    take (length bs) arr = Some <$> bs) as (arr & Hr & Hs' & Hl & Hlt & Ht).
  { unfold reserve. destruct (v_bk v) as [arr|] eqn:Hb.
    - destruct Hv as (Hc & Ha & Hle & Ht). destruct (Nat.eqb_spec (v_size v) (v_cap v)) as [He|He]; simpl.
      + rewrite Hb. simpl. eexists. split; [done|]. rewrite length_app, length_replicate, take_app_le by lia.
        repeat split; (done || lia).
      + exists arr. repeat split; (done || lia).
    - subst bs. cbn. eexists. split; [done|]. repeat split; (done || unfold VECTOR_CAP; lia). }
  unfold put_bucket. rewrite Hr, Hs'. cbn -[Nat.ltb]. rewrite (proj2 (Nat.ltb_lt _ _)) by lia.
  eexists. split; [done|]. unfold array_ok. simpl. rewrite length_app, length_insert. simpl.
  split; [lia|]. split; [lia|]. split; [done|]. split; [lia|]. rewrite fmap_app, <- Ht. simpl.
  rewrite Nat.add_1_r. apply list_eq. intros j. destruct (Nat.lt_trichotomy j (length bs)) as [Hj|[->|Hj]].
  - rewrite lookup_take_lt, list_lookup_insert_ne by lia.
    rewrite lookup_app_l, lookup_take_lt by (rewrite ?length_take; lia). done.
  - rewrite lookup_take_lt, list_lookup_insert_eq by lia.
    rewrite lookup_app_r by (rewrite length_take; lia). rewrite length_take, Nat.min_l, Nat.sub_diag by lia.
    done.
  - rewrite lookup_take_ge by lia. symmetry. apply lookup_ge_None.
    rewrite length_app, length_take. simpl. lia.
Qed.

(** Freeing a buffer leaves the others. *)
Lemma str_is_free h p q n bytes :
  p <> q -> str_is h p n bytes -> str_is (MkHeap (delete q (bufs h)) (next h)) p n bytes.
Proof.
  intros Hne (H0 & Hl & Hb). split; [done|]. split; [done|]. simpl.
  by rewrite lookup_delete_ne by done.
Qed.

Lemma entry_ok_free h q e : q ∉ pointers e -> entry_ok h e ->
  entry_ok (MkHeap (delete q (bufs h)) (next h)) e.
Proof.
  destruct e as [[b k] x]. cbn. rewrite !not_elem_of_cons. intros (H1 & H2 & _) [Hk Hx].
  split; apply str_is_free; congruence || done.
Qed.

Lemma pointers_split pre e suf :
  NoDup (concat (pointers <$> pre ++ e :: suf)) ->
  NoDup (pointers e) /\ (forall p, p ∈ pointers e -> p ∉ concat (pointers <$> pre ++ suf)) /\
  NoDup (concat (pointers <$> pre ++ suf)).
Proof.
  rewrite !fmap_app, !concat_app. simpl. rewrite !list.NoDup_app. intros (Hpre & Hsep & He & Hd & Hsuf).
  split; [done|]. split.
  - intros p Hp. rewrite elem_of_app. intros [Hq|Hq]; [|by apply (Hd p)].
    apply (Hsep p Hq). rewrite elem_of_app. by left.
  - split; [done|]. split; [|done]. intros p Hp Hq. apply (Hsep p Hp). rewrite elem_of_app. by right.
Qed.

Lemma pointers_join pre e suf :
  NoDup (pointers e) -> (forall p, p ∈ pointers e -> p ∉ concat (pointers <$> pre ++ suf)) ->
  NoDup (concat (pointers <$> pre ++ suf)) -> NoDup (concat (pointers <$> pre ++ e :: suf)).
Proof.
  rewrite !fmap_app, !concat_app. simpl. rewrite !list.NoDup_app. intros He Hsep (Hpre & Hd & Hsuf).
  split; [done|]. split.
  - intros p Hp. rewrite elem_of_app. intros [Hq|Hq]; [|by apply (Hd p)].
    apply (Hsep p Hq). rewrite elem_of_app. by left.
  - split; [done|]. split; [|done]. intros p Hp Hq. apply (Hsep p Hp). rewrite elem_of_app. by right.
Qed.

Lemma elem_of_concat_2 {A} (x : A) (l : list A) (ls : list (list A)) :
  x ∈ l -> l ∈ ls -> x ∈ concat ls.
Proof.
  intros Hx Hl. induction Hl as [|l l' ls _ IH]; cbn; apply elem_of_app; auto.
Qed.

(** A request whose buffers are the table's from now on. *)
Definition fresh_request (h : heap) (l : list entry) (r : SetReq) (k x : list Z) : Prop :=
  str_is h (s_key r) (s_ksize r) k /\ str_is h (s_value r) (s_vsize r) x /\
  s_key r <> s_value r /\ (s_key r ∉ concat (pointers <$> l)) /\ s_value r ∉ concat (pointers <$> l).

(** The value of an entry is replaced and the old one freed. *)
Lemma represents_replace h v (pre : list entry) b k y (suf : list entry) r x :
  represents h v (pre ++ (b, k, y) :: suf) ->
  fresh_request h (pre ++ (b, k, y) :: suf) r k x ->
  let b' := MkBucket (b_key b) (s_value r) (b_ksize b) (s_vsize r) in
  exists v', put_bucket (length pre) b' v = Ok v' /\
    represents (MkHeap (delete (b_value b) (bufs h)) (next h)) v' (pre ++ (b', k, x) :: suf).
Proof.
  intros [Harr Hent Hkeys Hptr] (_ & Hx & _ & _ & Hfx) b'. rewrite fmap_app in Harr. rewrite fmap_app in Hkeys.
  change (bucket_of <$> (b, k, y) :: suf) with (b :: (bucket_of <$> suf)) in Harr.
  destruct (array_replace v (bucket_of <$> pre) b b' (bucket_of <$> suf) Harr) as (v' & Hput & Harr2).
  rewrite length_fmap in Hput. exists v'. split; [done|].
  destruct (pointers_split _ _ _ Hptr) as (Hp1 & Hp2 & Hp3). cbn in Hp1, Hp2.
  apply Forall_app in Hent as [Hpre Hsuf]. apply Forall_cons_1 in Hsuf as [[Hbk Hby] Hsuf].
  rewrite fmap_app, concat_app in Hfx. cbn in Hfx. rewrite not_elem_of_app, !not_elem_of_cons in Hfx.
  destruct Hfx as (Hf1 & Hf2 & Hf3 & Hf4). apply list.NoDup_cons in Hp1 as [Hp1 _].
  assert (forall es, es ⊆ pre ++ suf -> Forall (entry_ok h) es ->
    Forall (entry_ok (MkHeap (delete (b_value b) (bufs h)) (next h))) es) as Hkeep.
  { intros es Hsub Hall. rewrite list.Forall_forall in Hall |- *. intros e He.
    apply entry_ok_free; [|by apply Hall]. intros Hq. apply (Hp2 (b_value b)); [set_solver|].
    eapply elem_of_concat_2; [exact Hq|]. apply list_elem_of_fmap_2. exact (Hsub e He). }
  split.
  - by rewrite fmap_app.
  - apply Forall_app. split; [apply Hkeep; [set_solver|done]|]. constructor.
    + split; cbn; apply str_is_free; set_solver.
    + apply Hkeep; [set_solver|done].
  - by rewrite fmap_app.
  - apply pointers_join; [|intros p Hp|done].
    + cbn. repeat constructor; set_solver.
    + cbn in Hp. apply elem_of_cons in Hp as [->|Hp]; [apply Hp2; set_solver|].
      apply list_elem_of_singleton in Hp as ->. rewrite fmap_app, concat_app. by apply not_elem_of_app.
Qed.

(** A new entry is put behind the others. *)
Lemma represents_append h v l r k x :
  represents h v l -> fresh_request h l r k x -> k ∉ key_of <$> l ->
  let b := MkBucket (s_key r) (s_value r) (s_ksize r) (s_vsize r) in
  exists v', put_bucket (v_size (reserve v)) b (reserve v) = Ok v' /\
    represents h (MkVector (v_bk v') (v_cap v') (S (v_size v'))) (l ++ [(b, k, x)]).
Proof.
  intros [Harr Hent Hkeys Hptr] (Hk & Hx & Hne & Hfk & Hfx) Hnew b.
  destruct (array_append v (bucket_of <$> l) b Harr) as (v' & Hput & Harr2). exists v'.
  split; [done|]. split.
  - by rewrite fmap_app.
  - apply Forall_app. split; [done|]. by apply Forall_singleton.
  - rewrite fmap_app. apply list.NoDup_app. split; [done|]. split; [|by apply NoDup_singleton].
    intros k' Hin. cbn. rewrite list_elem_of_singleton. intros ->. done.
  - apply pointers_join; rewrite ?app_nil_r; [|intros p Hp|done].
    + cbn. repeat constructor; set_solver.
    + cbn in Hp. apply elem_of_cons in Hp as [->|Hp]; [done|].
      apply list_elem_of_singleton in Hp as ->. done.
Qed.

(** The buffer of the value that the table has for a key. *)
Fixpoint value_ptr (k : list Z) (l : list entry) : option Z :=
  match l with
  | [] => None
  | (b, k', _) :: l => if decide (k' = k) then Some (b_value b) else value_ptr k l
  end.

Lemma value_ptr_None k l : k ∉ key_of <$> l -> value_ptr k l = None.
Proof.
  induction l as [|[[b k'] x] l IH]; cbn; [done|]. rewrite not_elem_of_cons. intros [Hne Hl].
  destruct (decide (k' = k)); [congruence|auto].
Qed.

Lemma value_ptr_middle pre b k y suf :
  NoDup (key_of <$> pre ++ (b, k, y) :: suf) -> value_ptr k (pre ++ (b, k, y) :: suf) = Some (b_value b).
Proof.
  induction pre as [|[[b' k'] x] pre IH]; cbn; [by destruct (decide (k = k))|].
  intros [Hn Hnd]%list.NoDup_cons. destruct (decide (k' = k)) as [->|]; [|auto]. exfalso. apply Hn.
  rewrite fmap_app, elem_of_app. right. constructor.
Qed.

(** What a set does to the heap: the old value, if there is one, is freed. *)
Definition old_value_freed (k : list Z) (l : list entry) (h h' : heap) : Prop :=
  match value_ptr k l with
  | Some p => is_Some (bufs h !! p) /\ h' = MkHeap (delete p (bufs h)) (next h)
  | None => h' = h
  end.

Lemma set_spec (h : heap) (v : vector) (l : list entry) (r : SetReq) (k x : list Z) :
  represents h v l -> fresh_request h l r k x ->
  exists v' h' l', OnSetReq r [v] h = Ok (MkRet 1 0 None, [v'], h') /\
    represents h' v' l' /\ contents l' = <[k := x]> (contents l) /\ old_value_freed k l h h'.
Proof.
  unfold old_value_freed. intros Hrep Hreq. pose proof Hreq as (Hk & _).
  assert (s_ksize r = length k) as Hks by (by destruct Hk as (_ & -> & _)).
  destruct (table_search_spec h v l [] l (s_key r) k Hrep eq_refl) as (i & Hi & Hcase);
    [by rewrite Hks in Hk; apply str_is_buf_is|by apply not_elem_of_nil|].
  unfold OnSetReq. rewrite actor_id_0. cbn [lookup list_lookup deref mbind outcome_bind].
  cbn [length] in Hi. rewrite Hks, (represents_size _ _ _ Hrep), Hi.
  destruct i as [i|]; cbn -[put_bucket reserve].
  - destruct Hcase as ([[b kb] y] & He & Hkb). cbn in Hkb. subst kb.
    destruct (list_elem_of_split_length _ _ _ He) as (pre & suf & -> & ->).
    destruct (represents_replace h v pre b k y suf r x Hrep Hreq) as (v' & Hput & Hrep').
    rewrite (bucket_at_rep v _ (length pre) b (rep_array _ _ _ Hrep)) by (by rewrite list_lookup_fmap, He).
    pose proof (rep_entries _ _ _ Hrep) as Hall. rewrite Forall_lookup in Hall.
    destruct (Hall _ _ He) as [_ (Hb0 & _ & Hbuf)]. cbn -[put_bucket]. unfold free.
    rewrite (proj2 (Z.eqb_neq _ _)), Hbuf by done. cbn -[put_bucket]. rewrite Hput. cbn.
    eexists _, _, _. split; [done|]. split; [exact Hrep'|].
    rewrite !contents_middle by (eapply rep_keys, Hrep || eapply rep_keys, Hrep').
    rewrite insert_insert_eq. split; [done|]. rewrite (value_ptr_middle pre b k y suf) by eapply rep_keys, Hrep.
    split; [by eexists|done].
  - destruct (represents_append h v l r k x Hrep Hreq Hcase) as (v' & Hput & Hrep').
    rewrite <- Hks, Hput. cbn. eexists _, _, _. split; [done|]. split; [exact Hrep'|].
    rewrite contents_middle by eapply rep_keys, Hrep'. rewrite app_nil_r. split; [done|].
    by rewrite (value_ptr_None k l Hcase).
Qed.

(** C25: a set stores the value under the key: the table afterwards represents the map
    with that one binding changed, whether the key was there or not (the array grows when it is
    full); the buffer of the old value, if there was one, is live before and freed afterwards, all
    other buffers stay, and the handler touches only live memory. *)
Theorem set_refines (h : heap) (v : vector) (l : list entry) (r : SetReq) (k x : list Z) :
  represents h v l -> fresh_request h l r k x ->
  exists v' h' l', OnSetReq r [v] h = Ok (MkRet 1 0 None, [v'], h') /\
    represents h' v' l' /\ contents l' = <[k := x]> (contents l) /\
    match value_ptr k l with
    | Some p => is_Some (bufs h !! p) /\ h' = MkHeap (delete p (bufs h)) (next h)
    | None => h' = h
    end.
Proof. apply set_spec. Qed.

Lemma old_value_freed_sub k l h h' : old_value_freed k l h h' -> next h' = next h /\ bufs h' ⊆ bufs h.
Proof.
  unfold old_value_freed. destruct (value_ptr k l); [intros [_ ->]|by intros ->]. split; [done|]. apply delete_subseteq.
Qed.

(** ** Commands *)

(** strlen and strchr; None of the first and a fault of the second: no zero byte, the
    search leaves the buffer. *)
Fixpoint strlen (s : list Z) : option nat :=
  match s with
  | [] => None
  | c :: s => if c =? 0 then Some 0%nat else S <$> strlen s
  end.

Fixpoint strchr (c : Z) (s : list Z) : outcome (option nat) :=
  match s with
  | [] => Fault BadDeref
  | x :: s =>
      if x =? c then mret (Some 0%nat)
      else if x =? 0 then mret None
      else r ← strchr c s; Ok (option_map S r)
  end.

(** atoi: blanks, a sign, digits, up to a byte that is no digit *)
Fixpoint atoi_digits (acc : Z) (s : list Z) : outcome Z :=
  match s with
  | [] => Fault BadDeref
  | c :: s => if (48 <=? c) && (c <=? 57) then atoi_digits (10 * acc + (c - 48)) s else mret acc
  end.
Fixpoint atoi (s : list Z) : outcome Z :=
  match s with
  | [] => Fault BadDeref
  | c :: r =>
      if (c =? 32) || ((9 <=? c) && (c <=? 13)) then atoi r
      else if c =? 45 then v ← atoi_digits 0 r; mret (- v)
      else if c =? 43 then atoi_digits 0 r
      else atoi_digits 0 s
  end.

(** memcpy from a buffer: the bytes must be there *)
Definition copy (n : Z) (s : list Z) : outcome (list Z) :=
  if Z.of_nat (length s) <? n then Fault BadDeref else mret (take (Z.to_nat n) s).

Inductive command :=
| CmdNull                                 (* no buffer: returns -1 *)
| CmdSet (id : Z) (r : SetReq)            (* a message to an instance of HashTable *)
| CmdGet (id : Z) (r : GetReq)
| CmdExit                                 (* a get without '\r' ends the process *)
| CmdIgnored.                             (* anything else *)

Definition CR : Z := 13.
Definition str_set : list Z := [115; 101; 116].
Definition str_get : list Z := [103; 101; 116].

(** The memory from a buffer on; [junk] is what lies behind it. *)
Definition memory (junk : nat -> Z) (bytes : list Z) (i : nat) : Z :=
  match bytes !! i with Some b => b | None => junk i end.

(** The instance that is responsible for a key; the node is 0, the local one. *)
Definition instance_of (hv : Z) : Z := Z.lor (Z.shiftl 0 16) (Z.land hv KEY_RANGE_MASK).

(** parseAndProcRecvCmd *)
Definition parseAndProcRecvCmd (junk : nat -> Z) (recv_buf : option (list Z)) (h : heap)
  : outcome (command * heap) :=
  match recv_buf with
  | None => mret (CmdNull, h)
  | Some s =>
      if bool_decide (take 3 s = str_set) then
        let s := drop 4 s in
        ksize ← deref (strlen s);
        let '(key, h) := malloc (take ksize s ++ [0]) h in
        let s := drop (ksize + 5) s in
        n ← atoi s;
        let vsize := u64 n in
        bytes ← copy vsize (drop 3 s);
        let '(value, h) := malloc (bytes ++ [0]) h in
        hv ← jenkins_hash (memory junk (default [] (bufs h !! key))) key ksize;
        mret (CmdSet (instance_of hv) (MkSetReq key value ksize (Z.to_nat vsize) hv), h)
      else if bool_decide (take 3 s = str_get) then
        let s := drop 4 s in
        e ← strchr CR s;
        match e with
        | None => mret (CmdExit, h)
        | Some ksize =>
            let '(key, h) := malloc (take ksize s) h in
            hv ← jenkins_hash (memory junk (default [] (bufs h !! key))) key ksize;
            mret (CmdGet (instance_of hv) (MkGetReq key ksize hv), h)
        end
      else mret (CmdIgnored, h)
  end.

(** ** Replies *)

(** What %s prints: the bytes before the first zero. *)
Definition c_str (p : Z) (h : heap) : outcome (list Z) :=
  b ← deref (bufs h !! p); n ← deref (strlen b); mret (take n b).

Definition bytes_of (s : text) : list Z := code <$> s.

Definition reply_buf : Z := 512.

Definition str_VALUE : list Z := bytes_of (txt "VALUE "%string).
Definition str_crlf : list Z := [13; 10].
Definition str_END : list Z := bytes_of (txt "END"%string).

(** OnReqReturn: sprintf into a buffer of 512 bytes, with a zero behind the text. *)
Definition OnReqReturn (ret : Ret) (h : heap) : outcome (list Z) :=
  out ← (if r_key ret =? 0 then
           mret (str_VALUE ++ bytes_of (txt "miss 4 4"%string) ++ str_crlf ++ bytes_of (txt "miss"%string) ++ str_crlf
                 ++ str_END ++ str_crlf)
         else if r_key ret =? 1 then
           mret (str_VALUE ++ bytes_of (txt "aaa 3 3"%string) ++ str_crlf ++ bytes_of (txt "bbb"%string) ++ str_crlf
                 ++ str_END ++ str_crlf)
         else
           '(ks, vs) ← deref (r_sizes ret);
           key ← c_str (r_key ret) h;
           value ← c_str (r_value ret) h;
           mret (str_VALUE ++ key ++ [32] ++ bytes_of (show_dec (Z.of_nat ks)) ++ [32]
                 ++ bytes_of (show_dec (Z.of_nat vs)) ++ str_crlf ++ value ++ str_crlf
                 ++ str_END ++ str_crlf));
  if Z.of_nat (length out) <? reply_buf then mret out else Fault BadDeref.

(** ** From the command to the reply *)
Definition heap_ok (h : heap) : Prop := 1 < next h /\ forall p, is_Some (bufs h !! p) -> 1 < p < next h.

(** The commands of the test bench: the key of a set ends with a zero byte; four bytes
    follow, the size of the value in decimal, a line end and the value. *)
Definition set_cmd (key sep digits value : list Z) : list Z :=
  str_set ++ [32] ++ key ++ [0] ++ sep ++ digits ++ str_crlf ++ value ++ [0].
Definition get_cmd (key : list Z) : list Z := str_get ++ [32] ++ key ++ str_crlf ++ [0].

Definition key_ok (key : list Z) : Prop := Forall (fun c => is_byte c /\ c <> 0 /\ c <> CR) key.

Lemma strlen_key key rest : key_ok key -> strlen (key ++ 0 :: rest) = Some (length key).
Proof.
  induction 1 as [|c key (_ & Hc & _) _ IH]; simpl; [done|].
  rewrite (proj2 (Z.eqb_neq _ _)) by done. by rewrite IH.
Qed.

Lemma strchr_key key rest : key_ok key -> strchr CR (key ++ CR :: rest) = Ok (Some (length key)).
Proof.
  induction 1 as [|c key (_ & Hc & Hr) _ IH]; simpl; [done|].
  rewrite !(proj2 (Z.eqb_neq _ _)) by done. by rewrite IH.
Qed.

Lemma atoi_number ds rest v :
  (forall a, atoi_digits a (ds ++ CR :: rest) = Ok (10 ^ Z.of_nat (length ds) * a + v)) ->
  (exists d ds', ds = d :: ds' /\ 48 <= d <= 57) -> atoi (ds ++ CR :: rest) = Ok v.
Proof.
  intros Hd (d & ds' & -> & Hr). cbn -[atoi_digits].
  rewrite (proj2 (Z.eqb_neq d 32)), (proj2 (Z.leb_gt d 13)) by lia.
  rewrite andb_false_r, (proj2 (Z.eqb_neq d 45)), (proj2 (Z.eqb_neq d 43)) by lia. cbn -[atoi_digits].
  specialize (Hd 0). cbn -[atoi_digits] in Hd. rewrite Hd. f_equal. lia.
Qed.

Lemma atoi_digit d rest : 0 <= d <= 9 -> atoi ([48 + d] ++ CR :: rest) = Ok d.
Proof.
  intros Hd. apply atoi_number; [|eexists _, []; split; [done|lia]]. intros a. cbn.
  rewrite (proj2 (Z.leb_le 48 _)), (proj2 (Z.leb_le _ 57)) by lia. cbn. f_equal. lia.
Qed.

Lemma memory_byte junk bytes i :
  (forall i, is_byte (junk i)) -> Forall is_byte bytes -> is_byte (memory junk bytes i).
Proof.
  intros Hj Hb. unfold memory. destruct (bytes !! i) eqn:E; [|done].
  by apply (Forall_lookup_1 _ _ _ _ Hb E).
Qed.

(** Every copy of a key has the same hash. *)
Lemma hash_key key : Forall is_byte key ->
  exists hv, forall junk addr rest, (forall i, is_byte (junk i)) -> Forall is_byte rest ->
    jenkins_hash (memory junk (key ++ rest)) addr (length key) = Ok hv.
Proof.
  intros Hk. assert (forall i : nat, is_byte 0) as Hz by done.
  destruct (jenkins_hash_bytes (memory (fun _ => 0) key) (memory (fun _ => 0) key) 0 0 (length key))
    as (hv & H0 & _); try done; try (intros; by apply memory_byte).
  exists hv. intros junk addr rest Hj Hr.
  destruct (jenkins_hash_bytes (memory (fun _ => 0) key) (memory junk (key ++ rest)) 0 addr (length key))
    as (hv' & H1 & H2).
  - intros; by apply memory_byte.
  - intros; apply memory_byte; [done|]. by apply Forall_app.
  - intros i Hi. unfold memory. rewrite lookup_app_l by done.
    by destruct (lookup_lt_is_Some_2 key i Hi) as [b ->].
  - congruence.
Qed.

Lemma key_bytes key : key_ok key -> Forall is_byte key.
Proof. intros Hk. eapply list.Forall_impl; [exact Hk|]. by intros ? [? _]. Qed.

Lemma parse_set junk key sep digits value n hv h :
  key_ok key -> length sep = 4%nat -> (forall i, is_byte (junk i)) ->
  (forall addr rest, Forall is_byte rest -> jenkins_hash (memory junk (key ++ rest)) addr (length key) = Ok hv) ->
  let stored := take n (drop 3 (digits ++ str_crlf ++ value ++ [0])) in
  atoi (digits ++ str_crlf ++ value ++ [0]) = Ok (Z.of_nat n) -> Z.of_nat n < 2 ^ 64 ->
  (n + 3 <= length digits + 3 + length value)%nat ->
  exists h', parseAndProcRecvCmd junk (Some (set_cmd key sep digits value)) h =
    Ok (CmdSet (instance_of hv) (MkSetReq (next h) (next h + 1) (length key) n hv), h') /\
    h' = MkHeap (<[next h + 1 := stored ++ [0]]> (<[next h := key ++ [0]]> (bufs h))) (next h + 1 + 1).
Proof.
  intros Hk Hsep Hj Hhash stored Hatoi Hn Hlen. unfold parseAndProcRecvCmd, set_cmd.
  change (drop 4 (str_set ++ [32] ++ ?x)) with x.
  rewrite bool_decide_eq_true_2 by done. cbn [app]. rewrite strlen_key by done.
  cbn -[drop atoi copy jenkins_hash memory take].
  rewrite take_app_length, <- drop_drop, drop_app_length. cbn -[drop atoi copy jenkins_hash memory take].
  change (drop 5 (0 :: ?x)) with (drop 4 x). rewrite drop_app_length' by done.
  unfold str_crlf in Hatoi. cbn [app] in Hatoi. rewrite Hatoi. cbn -[drop atoi copy jenkins_hash memory take].
  rewrite wrap_small by width_lia. unfold copy.
  rewrite (proj2 (Z.ltb_ge _ _)) by (rewrite length_drop, length_app; cbn; rewrite length_app; cbn; lia).
  cbn -[drop jenkins_hash memory take]. rewrite Nat2Z.id, lookup_insert_ne, lookup_insert_eq by lia.
  cbn -[drop jenkins_hash memory take]. rewrite Hhash by (repeat constructor; done).
  cbn -[drop take]. rewrite ?Nat2Z.id. eexists. split; reflexivity.
Qed.

Lemma parse_get junk key hv h :
  key_ok key -> (forall addr, jenkins_hash (memory junk key) addr (length key) = Ok hv) ->
  parseAndProcRecvCmd junk (Some (get_cmd key)) h =
  Ok (CmdGet (instance_of hv) (MkGetReq (next h) (length key) hv),
      MkHeap (<[next h := key]> (bufs h)) (next h + 1)).
Proof.
  intros Hk Hhash. unfold parseAndProcRecvCmd, get_cmd.
  change (drop 4 (str_get ++ [32] ++ ?x)) with x.
  rewrite bool_decide_eq_false_2, bool_decide_eq_true_2 by done.
  unfold str_crlf. cbn [app]. change 13 with CR. rewrite strchr_key by done.
  cbn -[jenkins_hash memory take]. rewrite take_app_length, lookup_insert_eq. cbn -[jenkins_hash memory].
  by rewrite Hhash.
Qed.

Lemma represents_weaken h h' v l : bufs h ⊆ bufs h' -> represents h v l -> represents h' v l.
Proof.
  intros Hsub [Ha He Hk Hp]. split; try done. eapply list.Forall_impl; [exact He|].
  assert (forall p n s, str_is h p n s -> str_is h' p n s) as Hw.
  { intros p n s (H0 & Hl & Hb). split; [done|]. split; [done|]. by eapply lookup_weaken. }
  intros [[b k] x] [Hbk Hbx]. split; by apply Hw.
Qed.

Lemma malloc_sub h p bytes : heap_ok h -> next h <= p -> bufs h ⊆ <[p := bytes]> (bufs h).
Proof.
  intros [_ Hh] Hp. apply insert_subseteq. destruct (bufs h !! p) eqn:E; [|done].
  specialize (Hh p ltac:(eauto)). lia.
Qed.

(** A pointer that was never handed out is not the table's. *)
Lemma represents_fresh h v l p : heap_ok h -> represents h v l -> next h <= p -> p ∉ concat (pointers <$> l).
Proof.
  intros [_ Hh] [_ He _ _] Hp Hin. induction He as [|[[b k] x] l [Hk Hx] _ IH]; cbn in Hin.
  - by apply not_elem_of_nil in Hin.
  - rewrite !elem_of_cons in Hin. destruct Hin as [->|[->|Hin]]; [| |by apply IH].
    + destruct Hk as (_ & _ & Hb). specialize (Hh (b_key b) ltac:(eauto)). lia.
    + destruct Hx as (_ & _ & Hb). specialize (Hh (b_value b) ltac:(eauto)). lia.
Qed.

Lemma c_str_is h p n s : str_is h p n s -> Forall (fun c => c <> 0) s -> c_str p h = Ok s.
Proof.
  intros (_ & _ & Hb) Hs. unfold c_str. rewrite Hb. cbn.
  assert (strlen (s ++ [0]) = Some (length s)) as ->.
  { clear Hb. induction Hs as [|c s Hc _ IH]; cbn; [done|]. rewrite (proj2 (Z.eqb_neq _ _)) by done.
    by rewrite IH. }
  cbn. by rewrite take_app_length.
Qed.

Definition value_reply (key value : list Z) : list Z :=
  str_VALUE ++ key ++ [32] ++ bytes_of (show_dec (Z.of_nat (length key))) ++ [32]
  ++ bytes_of (show_dec (Z.of_nat (length value))) ++ str_crlf ++ value ++ str_crlf ++ str_END ++ str_crlf.

Lemma reply_text h p q key value :
  str_is h p (length key) key -> str_is h q (length value) value -> p <> 1 ->
  Forall (fun c => c <> 0) key -> Forall (fun c => c <> 0) value ->
  Z.of_nat (length (value_reply key value)) < reply_buf ->
  OnReqReturn (MkRet p q (Some (length key, length value))) h = Ok (value_reply key value).
Proof.
  intros Hp Hq Hp1 Hk Hv Hl. pose proof Hp as (Hp0 & _). unfold OnReqReturn. cbn [r_key r_value r_sizes].
  rewrite (proj2 (Z.eqb_neq p 0)), (proj2 (Z.eqb_neq p 1)) by done. cbn -[c_str bytes_of show_dec].
  rewrite (c_str_is h p _ key Hp Hk). cbn -[c_str bytes_of show_dec].
  rewrite (c_str_is h q _ value Hq Hv). cbn -[bytes_of show_dec Z.of_nat length].
  rewrite (proj2 (Z.ltb_lt _ _)) by exact Hl. done.
Qed.

(** What a set stores for a key that a get then finds. *)
Lemma set_then_table junk key sep value h v l hv :
  heap_ok h -> represents h v l -> key_ok key -> length sep = 4%nat -> (forall i, is_byte (junk i)) ->
  (forall addr rest, Forall is_byte rest -> jenkins_hash (memory junk (key ++ rest)) addr (length key) = Ok hv) ->
  (length value <= 9)%nat ->
  exists r h1 v' h2 l',
    parseAndProcRecvCmd junk (Some (set_cmd key sep [48 + Z.of_nat (length value)] value)) h =
      Ok (CmdSet (instance_of hv) r, h1) /\
    OnSetReq r [v] h1 = Ok (MkRet 1 0 None, [v'], h2) /\
    represents h2 v' l' /\ contents l' = <[key := value]> (contents l) /\ heap_ok h2.
Proof.
  intros Hh Hrep Hk Hsep Hj Hhash Hv. pose proof Hh as [Hn Hlive].
  destruct (parse_set junk key sep [48 + Z.of_nat (length value)] value (length value) hv h Hk Hsep Hj Hhash)
    as (h1 & Hparse & Hh1); [apply atoi_digit; lia|lia|cbn; lia|].
  cbn in Hh1. rewrite drop_0, take_app_length in Hh1.
  assert (fresh_request h1 l (MkSetReq (next h) (next h + 1) (length key) (length value) hv) key value) as Hreq.
  { subst h1. unfold fresh_request, str_is. cbn. rewrite lookup_insert_ne, !lookup_insert_eq by lia.
    repeat split; try lia; apply (represents_fresh h v l); done || lia. }
  assert (represents h1 v l) as Hrep1.
  { eapply represents_weaken; [|exact Hrep]. subst h1. cbn.
    transitivity (<[next h := key ++ [0]]> (bufs h)); [by apply malloc_sub|].
    apply insert_subseteq. rewrite lookup_insert_ne by lia.
    destruct (bufs h !! (next h + 1)) eqn:E; [|done]. specialize (Hlive _ ltac:(eauto)). lia. }
  destruct (set_spec h1 v l _ key value Hrep1 Hreq) as (v' & h2 & l' & Hset & Hrep2 & Hc & [Hnx Hsub]%old_value_freed_sub).
  eexists _, h1, v', h2, l'. do 4 (split; [done|]).
  assert (bufs h2 ⊆ <[next h + 1 := value ++ [0]]> (<[next h := key ++ [0]]> (bufs h))) as Hs2
    by (by subst h1). rewrite Hh1 in Hnx. cbn in Hnx.
  split; [lia|]. intros p [b Hb]. rewrite Hnx. pose proof (lookup_weaken _ _ _ _ Hb Hs2) as Hp.
  rewrite !lookup_insert_Some in Hp. destruct Hp as [[<- _]|[_ [[<- _]|[_ Hp]]]]; try lia.
  specialize (Hlive p ltac:(eauto)). lia.
Qed.


(** ** Where it does not hold *)

(** The parser skips one digit for the size of a value: for a size of two digits
    the bytes that are stored begin with the line feed of the command and miss the
    last byte of the value. *)
Theorem long_value_shifted (junk : nat -> Z) (key sep value : list Z) (h : heap) (t u : Z) :
  key_ok key -> length sep = 4%nat -> (forall i, is_byte (junk i)) ->
  1 <= t <= 9 -> 0 <= u <= 9 -> Z.of_nat (length value) = 10 * t + u ->
  exists id r h', parseAndProcRecvCmd junk (Some (set_cmd key sep [48 + t; 48 + u] value)) h =
      Ok (CmdSet id r, h') /\
    s_vsize r = length value /\
    bufs h' !! s_value r = Some (10 :: take (length value - 1) value ++ [0]).
Proof.
  intros Hk Hsep Hj Ht Hu Hlen. destruct (hash_key key (key_bytes key Hk)) as [hv Hhash].
  assert (atoi ([48 + t; 48 + u] ++ str_crlf ++ value ++ [0]) = Ok (Z.of_nat (length value))) as Hatoi.
  { rewrite Hlen. apply atoi_number; [|eexists _, _; split; [done|lia]]. intros a. cbn.
    rewrite !(proj2 (Z.leb_le 48 _)), !(proj2 (Z.leb_le _ 57)) by lia. cbn. f_equal. lia. }
  destruct (parse_set junk key sep [48 + t; 48 + u] value (length value) hv h Hk Hsep Hj
    ltac:(intros; by apply Hhash) Hatoi ltac:(lia) ltac:(cbn; lia)) as (h' & Hp & Hh').
  eexists _, _, h'. split; [exact Hp|]. split; [done|]. rewrite Hh'. cbn. rewrite lookup_insert_eq.
  destruct (length value) as [|n] eqn:Hn; [lia|]. cbn. rewrite Nat.sub_0_r.
  rewrite take_app_le by lia. done.
Qed.

(** A key of the table is found at the place of its entry. *)
Lemma search_found h v l k y :
  represents h v l -> contents l !! k = Some y ->
  exists pre b suf, l = pre ++ (b, k, y) :: suf /\ bucket_at v (length pre) = Ok b /\
    forall q n, buf_is h q n k -> search (v_size v) 0 q n v h = Ok (Some (length pre)).
Proof.
  intros Hrep Hy. apply elem_of_list_to_map_2, list_elem_of_fmap in Hy as ([[b k'] y'] & Heq & Hin).
  injection Heq as <- <-. apply list_elem_of_split in Hin as (pre & suf & ->).
  assert ((pre ++ (b, k, y) :: suf) !! length pre = Some (b, k, y)) as He
    by (by apply list_lookup_middle).
  exists pre, b, suf. split; [done|]. split.
  { apply (bucket_at_rep v _ _ _ (rep_array _ _ _ Hrep)). by rewrite list_lookup_fmap, He. }
  intros q n Hq. assert (n = length k) as -> by (by destruct Hq as (_ & <- & _)).
  destruct (table_search_spec h v _ [] _ q k Hrep eq_refl Hq) as ([i|] & Hi & Hcase);
    [by apply not_elem_of_nil| |].
  - cbn [length] in Hi. rewrite (represents_size _ _ _ Hrep), Hi. destruct Hcase as (e & Hie & Hk).
    do 2 f_equal. eapply (NoDup_lookup (key_of <$> _)); [apply (rep_keys _ _ _ Hrep)| |].
    + rewrite list_lookup_fmap, Hie. cbn. by rewrite Hk.
    + by rewrite list_lookup_fmap, He.
  - exfalso. apply Hcase. rewrite fmap_app. apply elem_of_app. right. constructor.
Qed.

(** A reply points into the table: when a set of the same key is handled between a
    get and the formatting of its reply, the value that the reply points to was
    freed. *)
Theorem reply_dangles (h : heap) (v : vector) (l : list entry) (g : GetReq) (r : SetReq) (k x y : list Z) :
  represents h v l -> contents l !! k = Some y -> buf_is h (g_key g) (g_ksize g) k ->
  (forall p, is_Some (bufs h !! p) -> p <> 1) -> fresh_request h l r k x ->
  exists ret v' h', OnGetReq g [v] h = Ok ret /\
    OnSetReq r [v] h = Ok (MkRet 1 0 None, [v'], h') /\ OnReqReturn ret h' = Fault BadDeref.
Proof.
  intros Hrep Hy Hg H1 Hreq. destruct (search_found h v l k y Hrep Hy) as (pre & b & suf & -> & Hba & Hs).
  pose proof Hreq as (Hrk%str_is_buf_is & _).
  destruct (represents_replace h v pre b k y suf r x Hrep Hreq) as (v' & Hput & _).
  pose proof (rep_entries _ _ _ Hrep) as Hall.
  apply Forall_app in Hall as [_ [[(Hk0 & _ & Hkb) (Hb0 & _ & Hbuf)] _]%Forall_cons_1].
  exists (MkRet (b_key b) (b_value b) (Some (b_ksize b, b_vsize b))), v',
    (MkHeap (delete (b_value b) (bufs h)) (next h)).
  unfold OnGetReq, OnSetReq. rewrite !actor_id_0. cbn [lookup list_lookup deref mbind outcome_bind].
  rewrite !Hs by done. cbn -[put_bucket free]. rewrite Hba. cbn -[put_bucket free]. unfold free.
  rewrite (proj2 (Z.eqb_neq (b_value b) 0)), Hbuf by done. cbn -[put_bucket]. rewrite Hput.
  do 2 (split; [done|]). unfold OnReqReturn. cbn -[c_str].
  rewrite (proj2 (Z.eqb_neq (b_key b) 0)), (proj2 (Z.eqb_neq (b_key b) 1)) by (done || apply H1; eauto).
  cbn -[c_str]. unfold c_str. cbn. rewrite lookup_delete_eq.
  destruct (delete (b_value b) (bufs h) !! b_key b) as [s|] eqn:E; [|done]. cbn.
  rewrite lookup_delete_ne, Hkb in E.
  - injection E as <-. assert (is_Some (strlen (k ++ [0]))) as [n ->]; [|done].
    clear. induction k as [|c k [n IH]]; cbn; [eauto|]. destruct (c =? 0); [eauto|]. rewrite IH. cbn. eauto.
  - intros Heq. destruct (pointers_split _ _ _ (rep_pointers _ _ _ Hrep)) as (Hnd & _).
    cbn in Hnd. apply list.NoDup_cons in Hnd as [Hnd _]. apply Hnd. rewrite Heq. constructor.
Qed.

(** ** Witnesses *)

(** A table with the key k and the value v. *)
Definition heap1 : heap := MkHeap {[ 2 := [107; 0]; 3 := [118; 0]; 4 := [107; 0]; 5 := [120; 0] ]} 6.
Definition bucket1 : bucket := MkBucket 2 3 1 1.
Definition vector1 : vector := MkVector (Some [Some bucket1; None; None; None]) 4 1.
Definition entries1 : list entry := [(bucket1, [107], [118])].

Lemma represents1 : represents heap1 vector1 entries1.
Proof.
  split.
  - split; [done|]. cbn. repeat split; lia.
  - by repeat constructor.
  - apply list.NoDup_singleton.
  - apply (bool_decide_unpack _). by vm_compute.
Qed.

Lemma represents0 : represents (MkHeap ∅ 2) (MkVector None 0 0) [].
Proof. split; by repeat constructor. Qed.

Lemma get_refines_witness : exists p q,
  OnGetReq (MkGetReq 4 1 0) [vector1] heap1 = Ok (MkRet p q (Some (1%nat, 1%nat))) /\
  str_is heap1 p 1 [107] /\ str_is heap1 q 1 [118].
Proof.
  apply (get_refines heap1 vector1 entries1 (MkGetReq 4 1 0) [107] represents1).
  split; [done|]. split; [done|]. by exists [107; 0].
Defined.

Lemma fresh_request1 : fresh_request heap1 entries1 (MkSetReq 4 5 1 1 0) [107] [120].
Proof.
  repeat split; try done; apply (bool_decide_unpack _); by vm_compute.
Qed.

Lemma set_refines_witness : exists v' h' l',
  OnSetReq (MkSetReq 4 5 1 1 0) [vector1] heap1 = Ok (MkRet 1 0 None, [v'], h') /\
  represents h' v' l' /\ contents l' = <[[107] := [120]]> (contents entries1) /\
  is_Some (bufs heap1 !! 3) /\ h' = MkHeap (delete 3 (bufs heap1)) (next heap1).
Proof. apply (set_refines _ _ _ _ _ _ represents1 fresh_request1). Defined.

Lemma reply_dangles_witness : exists ret v' h',
  OnGetReq (MkGetReq 4 1 0) [vector1] heap1 = Ok ret /\
  OnSetReq (MkSetReq 4 5 1 1 0) [vector1] heap1 = Ok (MkRet 1 0 None, [v'], h') /\
  OnReqReturn ret h' = Fault BadDeref.
Proof.
  apply (reply_dangles heap1 vector1 entries1 (MkGetReq 4 1 0) (MkSetReq 4 5 1 1 0) [107] [120] [118]).
  - apply represents1.
  - by vm_compute.
  - split; [done|]. split; [done|]. by exists [107; 0].
  - by intros p [x Hx] ->.
  - apply fresh_request1.
Defined.


(** A value of ten bytes. *)
Lemma long_value_shifted_witness : exists id r h',
  parseAndProcRecvCmd (fun _ => 0) (Some (set_cmd [107] [32; 48; 48; 32] [49; 48] (repeat 118 10))) (MkHeap ∅ 2) =
    Ok (CmdSet id r, h') /\
  s_vsize r = 10%nat /\ bufs h' !! s_value r = Some (10 :: repeat 118 9 ++ [0]).
Proof.
  apply (long_value_shifted (fun _ => 0) [107] [32; 48; 48; 32] (repeat 118 10) (MkHeap ∅ 2) 1 0);
    try done; try lia.
  repeat constructor; unfold is_byte, CR; lia.
Defined.
