(* ===== verification/KvQueue.v ===== *)
(** * The event queue of the key-value store

    KV-Store/include/queue.h: a linked queue with a front, a rear and a size, on a heap of nodes that malloc and
    free manage.  [hseg] says that a chain of nodes holds a list of items; the theorem is that
    the operations implement a queue of items, touch no freed node and leave none behind. *)
From stdpp Require Import base list gmap numbers.
From S2P Require Import Prelude.

#[local] Open Scope Z_scope.
#[local] Arguments wrap : simpl never.
#[local] Abbreviation last := list.last.

(** ** The heap *)

(** A node; addresses are numbers, NULL is [None]. *)
Record qnode := MkNode { q_data : Z; q_next : option Z }.

Record Queue := MkQueue { front : option Z; rear : option Z; q_size : Z }.

(** [h_next]: where malloc allocates; [q_ptr]: the queue itself, [None] when it was freed. *)
Record heap := MkHeap { nodes : gmap Z qnode; h_next : Z; q_ptr : option Queue }.

Definition load (a : option Z) (h : heap) : outcome qnode := p ← deref a; deref (nodes h !! p).

Definition set_queue (q : Queue) (h : heap) : heap := MkHeap (nodes h) (h_next h) (Some q).

(** ** Operations; [ok] says whether malloc succeeds *)
Definition InitQueue (ok : bool) (h : heap) : heap :=
  if ok then set_queue (MkQueue None None 0) h else h.

Definition IsEmpty (q : Queue) : bool :=
  bool_decide (front q = None) && bool_decide (rear q = None) && (q_size q =? 0).

Definition GetSize (h : heap) : outcome Z := q ← deref (q_ptr h); Ok (q_size q).

Definition EnQueue (ok : bool) (item : Z) (h : heap) : outcome (option Z * heap) :=
  if negb ok then Ok (None, h)
  else
    q ← deref (q_ptr h);
    let p := h_next h in
    let h := MkHeap (<[p := MkNode item None]> (nodes h)) (p + 1) (q_ptr h) in
    '(q, h) ← (if IsEmpty q then Ok (MkQueue (Some p) (rear q) (q_size q), h)
               else
                 r ← deref (rear q); n ← deref (nodes h !! r);
                 Ok (q, MkHeap (<[r := MkNode (q_data n) (Some p)]> (nodes h)) (h_next h) (q_ptr h)));
    Ok (Some p, set_queue (MkQueue (front q) (Some p) (q_size q + 1)) h).

(** The new front, the item that was read, and the heap *)
Definition DeQueue (h : heap) : outcome (option Z * option Z * heap) :=
  q ← deref (q_ptr h);
  match IsEmpty q, front q with
  | false, Some p =>
      n ← deref (nodes h !! p);
      let size := q_size q - 1 in
      Ok (q_next n, Some (q_data n),
          MkHeap (delete p (nodes h)) (h_next h)
            (Some (MkQueue (q_next n) (if size =? 0 then None else rear q) size)))
  | _, _ => Ok (front q, None, h)
  end.

Definition GetFront (h : heap) : outcome (option Z) :=
  q ← deref (q_ptr h);
  if IsEmpty q then Ok None else n ← load (front q) h; Ok (Some (q_data n)).
Definition GetRear (h : heap) : outcome (option Z) :=
  q ← deref (q_ptr h);
  if IsEmpty q then Ok None else n ← load (rear q) h; Ok (Some (q_data n)).

Fixpoint ClearQueue (fuel : nat) (h : heap) : outcome heap :=
  match fuel with
  | O => Fault OutOfFuel
  | S fuel =>
      q ← deref (q_ptr h);
      if IsEmpty q then Ok h else '(_, _, h) ← DeQueue h; ClearQueue fuel h
  end.

(** The loop runs once for each node. *)
Definition DestroyQueue (h : heap) : outcome heap :=
  q ← deref (q_ptr h);
  h ← (if IsEmpty q then Ok h else ClearQueue (S (Z.to_nat (q_size q))) h);
  Ok (MkHeap (nodes h) (h_next h) None).

(** The items QueueTraverse visits. *)
Fixpoint traverse (i : nat) (p : option Z) (h : heap) : outcome (list Z) :=
  match i with
  | O => Ok []
  | S i => n ← load p h; l ← traverse i (q_next n) h; Ok (q_data n :: l)
  end.
Definition QueueTraverse (h : heap) : outcome (list Z) :=
  q ← deref (q_ptr h); traverse (Z.to_nat (q_size q)) (front q) h.

(** ** A chain of nodes *)

(** [hseg m l p ps]: from [p] a chain goes through the addresses [ps], holds [l] and ends in NULL. *)
Inductive hseg (m : gmap Z qnode) : list Z -> option Z -> list Z -> Prop :=
| hseg_nil : hseg m [] None []
| hseg_cons p x nx l ps : m !! p = Some (MkNode x nx) -> hseg m l nx ps -> hseg m (x :: l) (Some p) (p :: ps).

(** The heap holds a queue of the items [l] and nothing else but [frame]. *)
Record queue_repr (frame : gmap Z qnode) (l : list Z) (h : heap) : Prop := {
  r_chain : exists q ps, q_ptr h = Some q /\ hseg (nodes h) l (front q) ps /\ NoDup ps /\
    rear q = last ps /\ q_size q = Z.of_nat (length l) /\
    (forall a, a ∈ ps -> frame !! a = None) /\
    (forall a, a ∉ ps -> nodes h !! a = frame !! a);
  r_fresh : forall a n, nodes h !! a = Some n -> a < h_next h
}.

Lemma hseg_length m l p ps : hseg m l p ps -> length ps = length l.
Proof. induction 1; cbn; lia. Qed.

Lemma hseg_lookup m l p ps a : hseg m l p ps -> a ∈ ps -> is_Some (m !! a).
Proof.
  induction 1 as [|q x nx l ps Hq Hs IH]; [by intros ?%not_elem_of_nil|].
  intros [->|?]%elem_of_cons; [by rewrite Hq|auto].
Qed.

(** A chain does not notice changes elsewhere. *)
Lemma hseg_frame m m' l p ps : hseg m l p ps -> (forall a, a ∈ ps -> m' !! a = m !! a) -> hseg m' l p ps.
Proof.
  induction 1 as [|q x nx l ps Hq Hs IH]; intros Hf; [constructor|].
  econstructor; [by rewrite Hf by constructor|]. apply IH. intros a Ha. apply Hf. by constructor.
Qed.

Lemma hseg_front m l p ps : hseg m l p ps -> p = hd_error ps.
Proof. by destruct 1. Qed.

(** Linking a node at the rear *)
Lemma hseg_snoc m l p ps r n x a : hseg m l p ps -> NoDup ps -> last ps = Some r -> m !! r = Some n -> a ∉ ps ->
  hseg (<[r := MkNode (q_data n) (Some a)]> (<[a := MkNode x None]> m)) (l ++ [x]) p (ps ++ [a]).
Proof.
  intros Hs. revert r n. induction Hs as [|q y nx l ps Hq Hs IH]; intros r n Hn Hl Hr Ha; [done|].
  apply list.NoDup_cons in Hn as [Hqn Hn]. apply not_elem_of_cons in Ha as [Haq Ha].
  destruct ps as [|q' ps].
  - inversion Hs; subst. cbn in Hl. injection Hl as <-. cbn. rewrite Hq in Hr. injection Hr as <-.
    econstructor; [by rewrite lookup_insert_eq|]. econstructor; [by rewrite lookup_insert_ne, lookup_insert_eq|constructor].
  - assert (last (q' :: ps) = Some r) as Hl' by done. cbn [app]. econstructor.
    + rewrite lookup_insert_ne.
      * rewrite lookup_insert_ne by done. exact Hq.
      * intros <-. apply Hqn. by apply last_Some_elem_of.
    + by apply IH.
Qed.

Lemma repr_empty frame l h : queue_repr frame l h -> exists q, q_ptr h = Some q /\ IsEmpty q = bool_decide (l = []).
Proof.
  intros [(q & ps & Hq & Hs & _ & Hr & Hz & _) _]. exists q. split; [done|]. unfold IsEmpty. rewrite Hz.
  destruct Hs as [|p x nx l ps Hp Hs]; cbn; [by rewrite Hr|]. done.
Qed.

Lemma kv_enqueue_ok frame l h x : queue_repr frame l h ->
  exists p h', EnQueue true x h = Ok (Some p, h') /\ queue_repr frame (l ++ [x]) h'.
Proof.
  intros Hrep. destruct (repr_empty _ _ _ Hrep) as (q & Hq & He).
  destruct Hrep as [(q' & ps & Hq' & Hs & Hn & Hr & Hz & Hf1 & Hf2) Hfr].
  rewrite Hq in Hq'. injection Hq' as <-. set (p := h_next h) in *.
  assert (Hnew : nodes h !! p = None) by (apply eq_None_not_Some; intros [n Hp%Hfr]; unfold p in Hp; lia).
  assert (Hpp : p ∉ ps).
  { intros Hin. destruct (hseg_lookup _ _ _ _ _ Hs Hin) as [n Hp]. congruence. }
  unfold EnQueue. cbn [negb]. rewrite Hq. cbn [deref mbind outcome_bind]. fold p. rewrite He.
  destruct l as [|y l].
  - inversion Hs as [Hfront|]; subst. cbn. eexists _, _. split; [reflexivity|]. split.
    + eexists _, [p]. split; [reflexivity|]. cbn. split_and!.
      * econstructor; [by rewrite lookup_insert_eq|constructor].
      * apply NoDup_singleton.
      * done.
      * rewrite Hz. cbn. lia.
      * intros a ->%list_elem_of_singleton. rewrite <- Hf2 by apply not_elem_of_nil. done.
      * intros a Ha. rewrite lookup_insert_ne by set_solver. apply Hf2, not_elem_of_nil.
    + cbn. intros a n. destruct (decide (p = a)) as [<-|Hne]; [unfold p; lia|].
      rewrite lookup_insert_ne by done. intros Ha%Hfr. unfold p. lia.
  - rewrite bool_decide_eq_false_2 by done.
    assert (exists r, last ps = Some r) as [r Hlast].
    { destruct (last ps) as [r|] eqn:El; [eauto|]. apply last_None in El as ->. inversion Hs. }
    assert (Hin : r ∈ ps) by by apply last_Some_elem_of.
    destruct (hseg_lookup _ _ _ _ _ Hs Hin) as [n Hn'].
    assert (Hrp : r <> p) by congruence.
    rewrite Hr, Hlast. cbn [deref mbind outcome_bind nodes]. rewrite lookup_insert_ne, Hn' by done. cbn.
    eexists _, _. split; [reflexivity|]. split.
    + eexists _, (ps ++ [p]). split; [reflexivity|]. cbn. split_and!.
      * by apply (hseg_snoc _ (y :: l)).
      * apply list.NoDup_app. split; [done|]. split; [|apply NoDup_singleton]. by intros a Ha ->%list_elem_of_singleton.
      * by rewrite last_snoc.
      * rewrite Hz, length_app. cbn. lia.
      * intros a [Ha| ->%list_elem_of_singleton]%elem_of_app; [by apply Hf1|]. by rewrite <- Hf2.
      * intros a Ha. rewrite not_elem_of_app, not_elem_of_cons in Ha. destruct Ha as (Ha & Hap & _).
        rewrite !lookup_insert_ne by (done || by intros ->). by apply Hf2.
    + cbn. intros a m. destruct (decide (r = a)) as [<-|Hne]; [intros _; apply Hfr in Hn'; lia|].
      rewrite lookup_insert_ne by done. destruct (decide (p = a)) as [<-|Hne']; [unfold p; lia|].
      rewrite lookup_insert_ne by done. intros Ha%Hfr. unfold p. lia.
Qed.

Lemma kv_dequeue_ok frame l h : queue_repr frame l h ->
  match l with
  | [] => DeQueue h = Ok (None, None, h)
  | x :: l' => exists p h', DeQueue h = Ok (p, Some x, h') /\ queue_repr frame l' h'
  end.
Proof.
  intros Hrep. destruct (repr_empty _ _ _ Hrep) as (q & Hq & He).
  destruct Hrep as [(q' & ps & Hq' & Hs & Hn & Hr & Hz & Hf1 & Hf2) Hfr].
  rewrite Hq in Hq'. injection Hq' as <-. unfold DeQueue. rewrite Hq. cbn. rewrite He.
  destruct l as [|x l]; cbn; [by inversion Hs|].
  inversion Hs as [|p y nx l' ps' Hp Hs' E1 E2]; subst. rewrite Hp. cbn.
  apply list.NoDup_cons in Hn as [Hpn Hn]. eexists _, _. split; [reflexivity|]. split.
  - eexists _, ps'. split; [reflexivity|]. cbn. split_and!.
    + eapply hseg_frame; [done|]. intros a Ha. apply lookup_delete_ne. by intros ->.
    + done.
    + pose proof (hseg_length _ _ _ _ Hs') as Hlen. rewrite Hz, Hr. cbn [length] in *.
      destruct ps' as [|a ps']; cbn [length] in *.
      * by rewrite (proj2 (Z.eqb_eq _ _)) by lia.
      * by rewrite (proj2 (Z.eqb_neq _ _)) by lia.
    + rewrite Hz. cbn. lia.
    + intros a Ha. apply Hf1. by constructor.
    + intros a Ha. destruct (decide (p = a)) as [<-|Hne].
      * rewrite lookup_delete_eq. symmetry. apply Hf1. constructor.
      * rewrite lookup_delete_ne by done. apply Hf2. by rewrite not_elem_of_cons.
  - cbn. intros a n. destruct (decide (p = a)) as [<-|Hne]; [by rewrite lookup_delete_eq|].
    rewrite lookup_delete_ne by done. apply Hfr.
Qed.

Lemma clear_ok frame l h fuel : queue_repr frame l h -> (length l < fuel)%nat ->
  exists h', ClearQueue fuel h = Ok h' /\ queue_repr frame [] h'.
Proof.
  revert l h; induction fuel as [|fuel IH]; intros l h Hrep Hf; [lia|]. cbn [ClearQueue].
  destruct (repr_empty _ _ _ Hrep) as (q & Hq & He). rewrite Hq. cbn [deref mbind outcome_bind]. rewrite He.
  pose proof (kv_dequeue_ok _ _ _ Hrep) as Hd. destruct l as [|x l].
  - cbn. eauto.
  - destruct Hd as (p & h1 & -> & H1). rewrite bool_decide_eq_false_2 by done. cbn [mbind outcome_bind].
    apply (IH l); [done|]. cbn in Hf. lia.
Qed.

Lemma destroy_ok frame l h : queue_repr frame l h ->
  exists h', DestroyQueue h = Ok h' /\ nodes h' = frame /\ q_ptr h' = None.
Proof.
  intros Hrep. unfold DestroyQueue. destruct (repr_empty _ _ _ Hrep) as (q & Hq & He). rewrite Hq. cbn [deref mbind outcome_bind]. rewrite He.
  assert (exists h1, (if bool_decide (l = []) then Ok h else ClearQueue (S (Z.to_nat (q_size q))) h) = Ok h1 /\
    queue_repr frame [] h1) as (h1 & -> & H1).
  { case_bool_decide as E; [subst; eauto|]. eapply clear_ok; [done|].
    destruct Hrep as [(q' & ps & Hq' & _ & _ & _ & Hz & _) _]. rewrite Hq in Hq'. injection Hq' as <-. lia. }
  cbn. eexists. split; [reflexivity|]. split; [|done]. cbn.
  destruct H1 as [(q1 & ps & _ & Hs & _ & _ & _ & _ & Hf) _]. inversion Hs; subst.
  apply map_eq. intros a. apply Hf, not_elem_of_nil.
Qed.

Lemma traverse_ok m nx pt l p ps : hseg m l p ps ->
  traverse (length l) p (MkHeap m nx pt) = Ok l.
Proof.
  induction 1 as [|q x n l ps Hq Hs IH]; cbn; [done|]. unfold load. cbn. rewrite Hq. cbn. by rewrite IH.
Qed.

(** ** The queue as a program sees it *)
Inductive op := OEnq (x : Z) | ODeq | OFront | ORear | OSize | OTraverse.
Inductive res := RItem (x : option Z) | RSize (n : Z) | RAll (l : list Z) | RDone.

Definition exec (o : op) (h : heap) : outcome (res * heap) :=
  match o with
  | OEnq x => '(_, h) ← EnQueue true x h; Ok (RDone, h)
  | ODeq => '(_, x, h) ← DeQueue h; Ok (RItem x, h)
  | OFront => x ← GetFront h; Ok (RItem x, h)
  | ORear => x ← GetRear h; Ok (RItem x, h)
  | OSize => n ← GetSize h; Ok (RSize n, h)
  | OTraverse => l ← QueueTraverse h; Ok (RAll l, h)
  end.

Definition spec (o : op) (l : list Z) : res * list Z :=
  match o with
  | OEnq x => (RDone, l ++ [x])
  | ODeq => (RItem (hd_error l), tl l)
  | OFront => (RItem (hd_error l), l)
  | ORear => (RItem (last l), l)
  | OSize => (RSize (Z.of_nat (length l)), l)
  | OTraverse => (RAll l, l)
  end.

Fixpoint run (os : list op) (h : heap) : outcome (list res * heap) :=
  match os with [] => Ok ([], h) | o :: os => '(r, h) ← exec o h; '(rs, h) ← run os h; Ok (r :: rs, h) end.
Fixpoint run_spec (os : list op) (l : list Z) : list res * list Z :=
  match os with
  | [] => ([], l)
  | o :: os => let '(r, l) := spec o l in let '(rs, l) := run_spec os l in (r :: rs, l)
  end.

Lemma hseg_last m l p ps r n : hseg m l p ps -> last ps = Some r -> m !! r = Some n -> last l = Some (q_data n).
Proof.
  induction 1 as [|q x nx l ps Hq Hs IH]; intros Hl Hr; [done|]. destruct ps as [|q' ps].
  - inversion Hs; subst. cbn in Hl. injection Hl as <-. rewrite Hq in Hr. by injection Hr as <-.
  - inversion Hs; subst. by apply IH.
Qed.

Lemma exec_refines frame o l h : queue_repr frame l h ->
  exists h', exec o h = Ok ((spec o l).1, h') /\ queue_repr frame (spec o l).2 h'.
Proof.
  intros Hrep. destruct (repr_empty _ _ _ Hrep) as (q & Hq & He). destruct o; cbn [exec spec fst snd].
  - destruct (kv_enqueue_ok _ _ _ x Hrep) as (p & h' & -> & H'). cbn. eauto.
  - pose proof (kv_dequeue_ok _ _ _ Hrep) as Hd. destruct l as [|y l]; [rewrite Hd; cbn; eauto|].
    destruct Hd as (p & h' & -> & H'). cbn. eauto.
  - exists h. split; [|done]. unfold GetFront. rewrite Hq. cbn [deref mbind outcome_bind]. rewrite He.
    destruct Hrep as [(q' & ps & Hq' & Hs & _) _]. rewrite Hq in Hq'. injection Hq' as <-.
    destruct Hs as [|p x nx l ps Hp Hs]; cbn; [done|]. by rewrite Hp.
  - exists h. split; [|done]. unfold GetRear. rewrite Hq. cbn [deref mbind outcome_bind]. rewrite He.
    destruct Hrep as [(q' & ps & Hq' & Hs & _ & Hr & _) _]. rewrite Hq in Hq'. injection Hq' as <-.
    destruct (last ps) as [r|] eqn:El.
    + assert (Hin : r ∈ ps) by by apply last_Some_elem_of.
      destruct (hseg_lookup _ _ _ _ _ Hs Hin) as [n Hn]. rewrite (hseg_last _ _ _ _ _ _ Hs El Hn).
      rewrite bool_decide_eq_false_2 by (intros ->; inversion Hs; subst; done).
      unfold load. rewrite Hr. cbn. by rewrite Hn.
    + apply last_None in El as ->. by inversion Hs; subst.
  - exists h. split; [|done]. unfold GetSize. rewrite Hq. cbn.
    destruct Hrep as [(q' & ps & Hq' & _ & _ & _ & Hz & _) _]. rewrite Hq in Hq'. injection Hq' as <-. by rewrite Hz.
  - exists h. split; [|done]. unfold QueueTraverse. rewrite Hq. cbn.
    destruct Hrep as [(q' & ps & Hq' & Hs & _ & _ & Hz & _) _]. rewrite Hq in Hq'. injection Hq' as <-.
    destruct h as [m nx pt]. cbn in *. by rewrite Hz, Nat2Z.id, (traverse_ok _ _ _ _ _ _ Hs).
Qed.

(** The linked queue of the key-value store is a queue: from InitQueue, any operations give the answers
    of a list, none touches memory that is not allocated, and DestroyQueue afterwards frees
    the nodes of this queue, all of them and no others, and ends. *)
Theorem kv_queue_refines (os : list op) (m : gmap Z qnode) (next : Z) :
  (forall a n, m !! a = Some n -> a < next) ->
  exists h h', run os (InitQueue true (MkHeap m next None)) = Ok ((run_spec os []).1, h) /\
    DestroyQueue h = Ok h' /\ nodes h' = m /\ q_ptr h' = None.
Proof.
  intros Hfr.
  assert (H0 : queue_repr m [] (InitQueue true (MkHeap m next None))).
  { split; [|done]. eexists _, []. split; [reflexivity|]. cbn. split_and!; try done; [constructor|constructor|].
    by intros a ?%not_elem_of_nil. }
  assert (exists h, run os (InitQueue true (MkHeap m next None)) = Ok ((run_spec os []).1, h) /\
    queue_repr m (run_spec os []).2 h) as (h & E & Hrep).
  { generalize dependent (InitQueue true (MkHeap m next None)). generalize (@nil Z) as l.
    induction os as [|o os IH]; intros l h H0; cbn [run run_spec]; [by exists h|].
    destruct (exec_refines _ o _ _ H0) as (h1 & -> & H1). cbn [mbind outcome_bind].
    destruct (spec o l) as [r l1]. cbn [fst snd] in *. destruct (IH l1 h1 H1) as (h2 & -> & H2). cbn.
    destruct (run_spec os l1) as [rs l2]. cbn in *. by exists h2. }
  destruct (destroy_ok _ _ _ Hrep) as (h' & E' & H'). eauto.
Qed.

Lemma kv_queue_refines_witness : exists h h',
  run [OEnq 5; OEnq 6; ODeq; ORear; OTraverse] (InitQueue true (MkHeap {[ 3 := MkNode 1 None ]} 4 None)) =
  Ok ([RDone; RDone; RItem (Some 5); RItem (Some 6); RAll [6]], h) /\ DestroyQueue h = Ok h' /\
  nodes h' = {[ 3 := MkNode 1 None ]}.
Proof.
  destruct (kv_queue_refines [OEnq 5; OEnq 6; ODeq; ORear; OTraverse] {[ 3 := MkNode 1 None ]} 4)
    as (h & h' & E & E' & En & _).
  - intros a n Ha. apply lookup_singleton_Some in Ha as [<- _]. lia.
  - exists h, h'. split; [exact E|]. split; [exact E'|exact En].
Defined.
