(* ===== verification/KvDriver.v ===== *)
(** * The driver of the key-value store

    KV-Store/app/Driver/Driver.c and what it needs of KV-Store/include/common.h: the
    protocol of the test bench on top of the built-in receiver of Gateway.v, the packages
    that become requests for Hash (KV-Store/app/Hash/Hash.c, OnReq), whose parser is in
    KvStore.v, and the section that only the first and the last instance of a module run. *)
From stdpp Require Import base list gmap numbers.
From S2P Require Import Prelude Bytes Stream Gateway KvHash KvStore.

(** ** The sections for the first and the last instance *)
Module Single.

(** __g_init_counter; [started], [finished]: how often the sections of init and of exit were
    entered *)
Record section := MkSection { counter : Z; started : nat; finished : nat }.
Definition none : section := MkSection 0 0 0.

(** __SINGLE_INIT_BEGIN__: __sync_fetch_and_add(&counter, 1) == 0 *)
Definition init (s : section) : bool * section :=
  let first := counter s =? 0 in
  (first, MkSection (counter s + 1) (if first then S (started s) else started s) (finished s)).

(** __SINGLE_FINI_BEGIN__: __sync_sub_and_fetch(&counter, 1) == 0 *)
Definition fini (s : section) : bool * section :=
  let last := counter s - 1 =? 0 in
  (last, MkSection (counter s - 1) (started s) (if last then S (finished s) else finished s)).

(** The instances of a module in any order; an instance exits after its init.  The state
    has the instances that are there. *)
Inductive step : nat * section -> nat * section -> Prop :=
| s_init n s : step (n, s) (S n, (init s).2)
| s_exit n s : step (S n, s) (n, (fini s).2).

(** However the instances of a module come and go, the section of init is entered by the
    first to come and that of exit by the last to go: they take turns, and the counter
    is the number of instances. *)
Theorem single_section n s : rtc step (0%nat, none) (n, s) ->
  counter s = Z.of_nat n /\ started s = (finished s + (if decide (n = 0) then 0 else 1))%nat.
Proof.
  intros H. remember (0%nat, none) as x eqn:Ex. remember (n, s) as y eqn:Ey.
  set (P := fun p : nat * section => counter p.2 = Z.of_nat p.1 /\
    started p.2 = (finished p.2 + (if decide (p.1 = 0) then 0 else 1))%nat).
  enough (P x -> P y) as HP by (subst; by apply HP). clear Ex Ey.
  induction H as [|x y z Hs _ IH]; [done|]. intros Hx. apply IH. clear IH. unfold P in *.
  destruct Hs as [m t|m t]; cbn in *; destruct Hx as [Hc Hst].
  - split; [lia|]. destruct (Z.eqb_spec (counter t) 0); repeat case_decide; lia.
  - split; [lia|]. destruct (Z.eqb_spec (counter t - 1) 0); repeat case_decide; lia.
Qed.

Lemma single_section_witness : counter (init (init none).2).2 = 2.
Proof.
  assert (rtc step (0%nat, none) (2%nat, (init (init none).2).2)) as H.
  { eapply rtc_l; [apply s_init|]. apply rtc_once, s_init. }
  apply (single_section 2 _ H).
Defined.
End Single.

(** ** The protocol *)
Definition HW_TESTBENCH_HDSZ : Z := 6.

(** get_body_size: atoi of the header, behind which get_buffer has a zero byte; the int
    becomes a size_t *)
Definition get_body_size (header : list Z) : Z :=
  match atoi (header ++ [0]) with Ok v => u64 v | Fault _ => 0 end.

(** The frames of the test bench: six decimal digits and the body *)
Definition digits6 (n : Z) : list Z :=
  (fun k => 48 + n / 10 ^ k mod 10) <$> [5; 4; 3; 2; 1; 0].
Definition frame (body : list Z) : list Z := digits6 (Z.of_nat (length body)) ++ body.

Definition driver_proto : proto := MkProto HW_TESTBENCH_HDSZ get_body_size frame.

Lemma digits6_value n : 0 <= n < 10 ^ 6 -> atoi (digits6 n ++ [0]) = Ok n.
Proof.
  intros Hn. assert (forall d r, 48 <= 48 + d mod 10 <= 57 ->
    forall a, atoi_digits a ((48 + d mod 10) :: r) = atoi_digits (10 * a + d mod 10) r) as Hd.
  { intros d r Hr a. cbn. rewrite (proj2 (Z.leb_le _ _)), (proj2 (Z.leb_le _ _)) by lia. cbn. f_equal. lia. }
  assert (forall d, 48 <= 48 + d mod 10 <= 57) as Hr by (intros d; pose proof (Z.mod_pos_bound d 10); lia).
  unfold digits6. cbn [fmap list_fmap app]. unfold atoi. fold atoi.
  pose proof (Hr (n / 10 ^ 5)) as H5.
  rewrite (proj2 (Z.eqb_neq _ 32)), (proj2 (Z.leb_gt _ 13)), (proj2 (Z.eqb_neq _ 45)), (proj2 (Z.eqb_neq _ 43)) by lia.
  rewrite andb_false_r. cbn [orb]. rewrite !Hd by apply Hr. cbn [atoi_digits]. 
  change ((48 <=? 0) && (0 <=? 57)) with false. cbn [mret outcome_ret]. unfold mret, outcome_ret. f_equal.
  assert (forall k, 0 <= k -> n / 10 ^ (Z.succ k) = n / 10 ^ k / 10) as Hs.
  { intros k Hk. rewrite Z.pow_succ_r, Z.mul_comm, Z.div_div by lia. done. }
  pose proof (Z.div_small n (10 ^ 6) Hn) as H6.
  pose proof (Hs 5 ltac:(lia)) as E5. pose proof (Hs 4 ltac:(lia)) as E4. pose proof (Hs 3 ltac:(lia)) as E3.
  pose proof (Hs 2 ltac:(lia)) as E2. pose proof (Hs 1 ltac:(lia)) as E1. pose proof (Hs 0 ltac:(lia)) as E0.
  change (Z.succ 5) with 6 in *. change (Z.succ 4) with 5 in *. change (Z.succ 3) with 4 in *.
  change (Z.succ 2) with 3 in *. change (Z.succ 1) with 2 in *. change (Z.succ 0) with 1 in *. change (n / 10 ^ 0) with (n / 1) in *. rewrite Z.div_1_r in *.
  repeat match goal with |- context [?a mod 10] => pose proof (Z.div_mod a 10 ltac:(lia)); generalize dependent (a mod 10); intros end.
  rewrite ?(proj2 (Z.eqb_neq _ 45)), ?(proj2 (Z.eqb_neq _ 43)) by lia. f_equal. lia.
Qed.

#[global] Instance driver_proto_laws : ProtoLaws driver_proto (fun body => Z.of_nat (length body) < 10 ^ 6).
Proof.
  split; [done|]. intros body Hb. exists (digits6 (Z.of_nat (length body))). split; [done|]. split; [done|].
  unfold driver_proto, get_body_size. cbn [body_size]. rewrite digits6_value by lia. apply wrap_small.
  change (10 ^ 6) with 1000000 in Hb. width_lia.
Qed.

(** ** Packages *)

(** OnNewPackage: the empty package of a new connection is ignored; otherwise a zero byte is
    written behind the body, where get_buffer has room for it, and the request carries a
    copy of both *)
Definition OnNewPackage (body : list Z) : option (list Z) :=
  match body with [] => None | _ => Some (body ++ [0]) end.

(** Hash's OnReq *)
Definition OnReq (junk : nat -> Z) (req : list Z) (h : heap) : outcome (command * heap) :=
  parseAndProcRecvCmd junk (Some req) h.

(** What Hash makes of the packages, one after the other *)
Fixpoint requests (junk : nat -> Z) (bodies : list (list Z)) (h : heap) : outcome (list command * heap) :=
  match bodies with
  | [] => mret ([], h)
  | b :: bodies =>
      match OnNewPackage b with
      | None => requests junk bodies h
      | Some req => '(c, h) ← OnReq junk req h; '(cs, h) ← requests junk bodies h; mret (c :: cs, h)
      end
  end.

(** A set command as the test bench sends it, without the zero byte of the end. *)
Definition set_body (key sep digits value : list Z) : list Z :=
  str_set ++ [32] ++ key ++ [0] ++ sep ++ digits ++ str_crlf ++ value.

Lemma OnNewPackage_set key sep digits value :
  OnNewPackage (set_body key sep digits value) = Some (set_cmd key sep digits value).
Proof. unfold OnNewPackage, set_body, set_cmd. cbn. do 5 f_equal. rewrite <- app_assoc. cbn. by rewrite <- !app_assoc. Qed.

#[local] Instance driver_manager : StreamManager BuiltinReceiver (list Z) := builtin_manager driver_proto.

(** C32: a set command with a value of at most nine bytes that the test bench frames and sends
    becomes, in whatever pieces its bytes arrive, one message to the instance of the hash table
    that the hash of the key selects, with copies of the key and of the value: the
    receiver finds the end of the body, the driver terminates it, and the parser takes it
    apart.  The hash is the one that any memory with the bytes of the key gives.  (Longer
    values are stored shifted: KvStore.long_value_shifted.) *)
Theorem set_frame_processed junk key sep value n h rs :
  key_ok key -> length sep = 4%nat -> (forall i, is_byte (junk i)) ->
  (n <= 9)%nat -> length value = n -> Z.of_nat (length (set_body key sep [48 + Z.of_nat n] value)) < 10 ^ 6 ->
  fits rs (at_len driver_proto false) -> io_bytes rs = frame (set_body key sep [48 + Z.of_nat n] value) ->
  exists hv h', run_reads rs (at_len driver_proto false)
      = Ok (at_len driver_proto false, [set_body key sep [48 + Z.of_nat n] value]) /\
    requests junk [set_body key sep [48 + Z.of_nat n] value] h
      = Ok ([CmdSet (instance_of hv) (MkSetReq (next h) (next h + 1) (length key) n hv)], h') /\
    (forall junk' addr rest, (forall i, is_byte (junk' i)) -> Forall is_byte rest ->
       jenkins_hash (memory junk' (key ++ rest)) addr (length key) = Ok hv) /\
    bufs h' !! next h = Some (key ++ [0]) /\ bufs h' !! (next h + 1) = Some (value ++ [0]).
Proof.
  intros Hk Hsep Hj Hn Hv Hlen Hfits Hbytes. set (body := set_body _ _ _ _) in *.
  destruct (hash_key key (key_bytes _ Hk)) as [hv Hhash].
  pose proof (builtin_roundtrip driver_proto (P := fun b => Z.of_nat (length b) < 10 ^ 6) false [body]
    ltac:(by repeat constructor)) as Hrt.
  cbn [map concat] in Hrt. rewrite app_nil_r in Hrt.
  assert (nonempty [body] = [body]) as Hne by done. rewrite Hne in Hrt.
  destruct (parse_set junk key sep [48 + Z.of_nat n] value n hv h Hk Hsep Hj ltac:(eauto)
    (atoi_digit (Z.of_nat n) _ ltac:(lia)) ltac:(lia) ltac:(cbn; lia)) as (h' & Hp & Hh').
  exists hv, h'. split; [rewrite reads_feed, Hbytes by done; exact Hrt|]. unfold body. cbn [requests]. rewrite OnNewPackage_set.
  unfold OnReq. rewrite Hp. cbn [mbind outcome_bind]. split; [done|]. split; [done|].
  rewrite Hh'. cbn [bufs]. rewrite lookup_insert_ne, !lookup_insert_eq by lia. split; [done|].
  cbn. by rewrite drop_0, <- Hv, take_app_length.
Qed.

(** A header is not checked: a negative number becomes a size of 2^64 - 1, for which
    get_buffer allocates no byte at all (the size and one, modulo 2^64) and into which the
    reader then reads without bound. *)
Theorem negative_header_overruns :
  exists b, b_consume driver_proto (MkBuiltin STATE_GET_LEN 6 false) [45; 48; 48; 48; 48; 49] = Ok (b, []) /\
    bst b = STATE_GET_BUF /\ u64 (m_len b + 1) = 0 /\
    exists n b', b_get_buffer driver_proto b = Ok (n, b') /\ Z.of_nat n = 2 ^ 64 - 1.
Proof.
  eexists. split; [reflexivity|]. split; [reflexivity|]. split; [reflexivity|].
  assert (get_body_size [45; 48; 48; 48; 48; 49] = 2 ^ 64 - 1) as E by reflexivity.
  unfold b_get_buffer. cbn [bst m_len]. change (body_size driver_proto) with get_body_size. rewrite E.
  change (mola_assert (0 <? 2 ^ 64 - 1)) with (Ok tt). do 2 eexists. split; [reflexivity|]. change (0 <? 2 ^ 64 - 1) with true. cbn iota. lia.
Qed.

(** The frame in three pieces. *)
Definition demo_body : list Z := set_body [97] [32; 48; 32; 48] [48 + 2] [98; 99].
Definition demo_reads : list io :=
  [IoDone (take 2 (frame demo_body)); IoAgain; IoDone (take 4 (drop 2 (frame demo_body))); IoDone (drop 6 (frame demo_body))].

Lemma kv_demo_reads_fit : fits demo_reads (at_len driver_proto false).
Proof.
  eapply fits_done; [by vm_compute|vm_compute; lia|vm_compute; reflexivity|]. apply fits_again.
  eapply fits_done; [by vm_compute|vm_compute; lia|vm_compute; reflexivity|].
  eapply fits_done; [by vm_compute|vm_compute; lia|vm_compute; reflexivity|]. apply fits_nil.
Qed.

Lemma set_frame_processed_witness :
  exists hv h', run_reads demo_reads (at_len driver_proto false) = Ok (at_len driver_proto false, [demo_body]) /\
    requests (fun _ => 0) [demo_body] (MkHeap ∅ 2)
      = Ok ([CmdSet (instance_of hv) (MkSetReq 2 3 1 2 hv)], h') /\ bufs h' !! 3 = Some [98; 99; 0].
Proof.
  destruct (set_frame_processed (fun _ => 0) [97] [32; 48; 32; 48] [98; 99] 2 (MkHeap ∅ 2) demo_reads)
    as (hv & h' & H0 & H & _ & _ & Hv);
    [by apply (bool_decide_unpack _)|done|done|lia|done|reflexivity|apply kv_demo_reads_fit|by vm_compute|]. eauto.
Defined.
