(* ===== verification/StrongActor.v ===== *)
(** * Strong actors: synchronous calls on fibers

    include/mola/strong_actor.hpp, with the synchronous calls of src/dispatcher.cpp
    (SendMsgToIntfAndRecv, CreateEvent, WaitForNotify, NotifyEvent) and the turn of
    Actor::execute and Module::invoke_message that runs an interface on a fiber.

    A synchronous interface runs on a stack of its own.  When it waits for a reply
    the context is saved and the worker goes on behind call_intf_on_fiber; the reply
    finds the fiber through the request context and resumes it.  User code is a
    tree of its blocking calls ([script]).  A saved context is what is left to do: the
    entry of the callback, or the continuation of a wait.  Jumping to a context whose
    stack frame is gone is a fault.

    The second part proves that this implements suspended activities: a table from
    request ids to continuations. *)
From stdpp Require Import base list gmap numbers.
From S2P Require Import Prelude ActorId Message Actor Module Dispatcher.

#[local] Arguments wrap : simpl never.

(** A message as an interface gets it: its metadata and, for a stream, the data. *)
Abbreviation message := (metadata * option Z)%type.

(** ** User code *)
Inductive script : Type :=
| Return (ret : option metadata)
| SendMsgToIntfAndRecv (mid intf inst : Z) (req : metadata) (k : Z -> option message -> script)
| WaitForNotify (k : option Z -> script)
| CreateEvent (k : metadata -> script)
| NotifyEvent (event : metadata) (data : option Z) (k : Z -> script)
| InstanceExit (rc : Z).

Inductive FiberState := INIT | RUNNING | SUSPEND | DEAD | FEXIT.

(** The saved context of a fiber; [Stale]: its stack frame was left. *)
Inductive context :=
| Spawn (sc : script)
| InWait (k : option message -> script)
| Stale.

(** What m_retval points to. *)
Inductive retval :=
| RNull
| RInput (m : message)
| RResult (ret : option metadata)
| RExitCode (rc : Z).

Record fiber := MkFiber {
  f_id : Z;
  f_context : context;
  f_retval : retval;
  f_status : FiberState
}.

(** The address of a fiber goes to Fiber::spawn in two arguments of type int, since
    makecontext passes nothing else. *)
Definition HIGH (p : Z) : Z := u32 (Z.shiftr p 32).
Definition LOW (p : Z) : Z := u32 (Z.land p 0xffffffff).
Definition MERGE (low high : Z) : Z := Z.lor (u64 (Z.shiftl high 32)) low.
Definition to_int (z : Z) : Z := if z <? 2 ^ 31 then z else z - 2 ^ 32.

(** The fiber that spawn(low, high) runs, from the call of makecontext in init *)
Definition spawned (p : Z) : Z := MERGE (u32 (to_int (LOW p))) (u32 (to_int (HIGH p))).

(** The part of a FiberReqCtx that a RequestContext does not have, with the saved
    user context. *)
Record fiber_ctx := MkFiberCtx { fc_ctx : option Z; fc_fiber : Z }.

(** [s_fiber_ctx]: the request contexts that are FiberReqCtx; the initiators are
    in [s_reqs].  [s_cur_ctx] is m_current_ctx, by its id.  [s_thread] is
    m_thread_state: the fiber that the frame of call_intf_on_fiber serves which
    saved it, None when that frame has returned. *)
Record strong := MkStrong {
  s_reqs : reqs;
  s_fiber_ctx : gmap Z fiber_ctx;
  s_fibers : gmap Z fiber;
  s_next : Z;
  s_current_fiber : option Z;
  s_cur_msg : option metadata;
  s_cur_ctx : option Z;
  s_thread : option Z;
  s_disp : dstate
}.

Definition set_fiber (a : Z) (f : fiber) (s : strong) : strong :=
  MkStrong (s_reqs s) (s_fiber_ctx s) (<[a := f]> (s_fibers s)) (s_next s) (s_current_fiber s)
    (s_cur_msg s) (s_cur_ctx s) (s_thread s) (s_disp s).
Definition set_current_fiber (c : option Z) (s : strong) : strong :=
  MkStrong (s_reqs s) (s_fiber_ctx s) (s_fibers s) (s_next s) c (s_cur_msg s) (s_cur_ctx s)
    (s_thread s) (s_disp s).
Definition set_thread (t : option Z) (s : strong) : strong :=
  MkStrong (s_reqs s) (s_fiber_ctx s) (s_fibers s) (s_next s) (s_current_fiber s) (s_cur_msg s)
    (s_cur_ctx s) t (s_disp s).
Definition set_disp (a : reqs) (d : dstate) (s : strong) : strong :=
  MkStrong a (s_fiber_ctx s) (s_fibers s) (s_next s) (s_current_fiber s) (s_cur_msg s)
    (s_cur_ctx s) (s_thread s) d.
Definition set_current (m : option metadata) (c : option Z) (s : strong) : strong :=
  MkStrong (s_reqs s) (s_fiber_ctx s) (s_fibers s) (s_next s) (s_current_fiber s) m c
    (s_thread s) (s_disp s).

Definition set_state (st : FiberState) (f : fiber) : fiber :=
  MkFiber (f_id f) (f_context f) (f_retval f) st.
Definition set_retval (r : retval) (f : fiber) : fiber :=
  MkFiber (f_id f) (f_context f) r (f_status f).
Definition set_context (c : context) (f : fiber) : fiber :=
  MkFiber (f_id f) c (f_retval f) (f_status f).

Definition is_suspend (f : fiber) : bool := match f_status f with SUSPEND => true | _ => false end.
Definition is_init (f : fiber) : bool := match f_status f with INIT => true | _ => false end.
Definition is_dead (f : fiber) : bool := match f_status f with DEAD => true | _ => false end.
Definition is_exit (f : fiber) : bool := match f_status f with FEXIT => true | _ => false end.

(** get_current_ctx *)
Definition current_ctx (s : strong) : option reqctx := s_cur_ctx s ≫= fun r => find_req_ctx r (s_reqs s).

(** get_fiber_reqid *)
Definition get_fiber_reqid (s : strong) : outcome Z :=
  match s_current_fiber s with
  | None => mret 0
  | Some a => f ← deref (s_fibers s !! a); mret (f_id f)
  end.

(** MOLA_SET_UCTX(m_thread_state): the frame that saved the context must exist. *)
Definition switch_to_thread (s : strong) : outcome strong := _ ← deref (s_thread s); mret s.

(** The part of wait_response behind MOLA_GET_UCTX, which runs again when the context is
    resumed: None when it switched to the worker, otherwise the response. *)
Definition wait_resumed (s : strong) : outcome (option (option message) * strong) :=
  a ← deref (s_current_fiber s);
  f ← deref (s_fibers s !! a);
  if is_suspend f then
    let s := set_fiber a (set_retval RNull (set_state RUNNING f)) s in
    match f_retval f with
    | RNull => mret (Some None, s)
    | RInput m => mret (Some (Some m), s)
    | _ => Fault BadDeref
    end
  else
    s ← switch_to_thread (set_current_fiber None s); mret (None, s).

(** wait_response, for a caller that goes on with [k]. *)
Definition wait_response (k : option message -> script) (s : strong)
  : outcome (option (option message) * strong) :=
  _ ← mola_assert (bool_decide (is_Some (s_current_fiber s)));
  a ← deref (s_current_fiber s);
  f ← deref (s_fibers s !! a);
  wait_resumed (set_fiber a (set_context (InWait k) f) s).

(** The send of SendMsgToIntfAndRecv *)
Definition send_and_recv (mid intf inst : Z) (req : metadata) (s : strong) : outcome (Z * strong) :=
  _ ← mola_assert (GET_REQ_ID inst =? 0);
  r ← get_fiber_reqid s;
  m ← deref (s_cur_msg s);
  '(ret, _, a, d) ← dispatch_request (new_ActorID (GET_NODE_ID inst) mid intf (GET_INST_ID inst))
    (set_reqid r req) (intf_id (target m)) (current_ctx s) (s_cur_msg s) (s_reqs s) (s_disp s);
  mret (ret, set_disp a d s).

(** What SendMsgToIntfAndRecv returns with the response of the wait. *)
Definition recv_result (k : Z -> option message -> script) (res : option message) : script :=
  match res with None => k (-1) None | Some m => k 0 (Some m) end.

(** What WaitForNotify returns: the data inside the wrapper, if that is a stream. *)
Definition notify_result (k : option Z -> script) (res : option message) : script :=
  k (res ≫= fun m => if data_type m.1 =? TYPE_STREAM then m.2 else None).

(** CreateEvent: a stream without data, addressed to the current interface. *)
Definition create_event (s : strong) : outcome metadata :=
  self ← deref (d_current (s_disp s));
  m ← deref (s_cur_msg s);
  r ← get_fiber_reqid s;
  mret (set_response (set_reqid r
    (set_target (set_intf_id (intf_id (target m)) self)
      (set_size 0 (set_data_type TYPE_STREAM zero_meta))))).

(** NotifyEvent; the data travels with the message. *)
Definition notify_event (event : metadata) (s : strong) : outcome (Z * strong) :=
  self ← deref (d_current (s_disp s));
  '(ret, _, d) ← dispatch_msg (set_sender self (set_data_type TYPE_STREAM event)) (s_disp s);
  mret (ret, set_disp (s_reqs s) d s).

(** How user code gives up the stack it runs on. *)
Inductive stop :=
| Returned (ret : option metadata)
| Switched
| Threw (rc : Z).

(** User code until it stops.  [self] is the fiber it runs on, None for an interface
    that is called on the stack of the worker.  A callback that returns on a fiber
    returns to spawn. *)
Fixpoint run (self : option Z) (sc : script) (s : strong) : outcome (stop * strong) :=
  match sc with
  | Return ret =>
      match self with
      | None => mret (Returned ret, s)
      | Some a =>
          f ← deref (s_fibers s !! a);
          s ← switch_to_thread (set_fiber a (set_state DEAD (set_retval (RResult ret) f)) s);
          mret (Switched, s)
      end
  | SendMsgToIntfAndRecv mid intf inst req k =>
      '(ret, s) ← send_and_recv mid intf inst req s;
      if ret =? 0 then
        '(res, s) ← wait_response (recv_result k) s;
        match res with
        | None => mret (Switched, s)
        | Some None => run self (k (-1) None) s
        | Some (Some m) => run self (k 0 (Some m)) s
        end
      else run self (k ret None) s
  | WaitForNotify k =>
      '(res, s) ← wait_response (notify_result k) s;
      match res with
      | None => mret (Switched, s)
      | Some res => run self (k (res ≫= fun m => if data_type m.1 =? TYPE_STREAM then m.2 else None)) s
      end
  | CreateEvent k => ev ← create_event s; run self (k ev) s
  | NotifyEvent ev _ k => '(ret, s) ← notify_event ev s; run self (k ret) s
  | InstanceExit rc =>
      match s_current_fiber s with
      | Some a =>
          f ← deref (s_fibers s !! a);
          s ← switch_to_thread (set_current_fiber None (set_fiber a (set_retval (RExitCode rc) f) s));
          mret (Switched, s)
      | None => mret (Threw rc, s)
      end
  end.

(** MOLA_SET_UCTX of the context of the fiber [a]: a new fiber enters spawn, a waiting one is behind
    MOLA_GET_UCTX.  Nothing catches an exception on the stack of a fiber. *)
Definition resume (a : Z) (s : strong) : outcome strong :=
  f ← deref (s_fibers s !! a);
  '(e, s) ←
    match f_context f with
    | Spawn sc => run (Some a) sc (set_fiber a (set_state RUNNING f) s)
    | InWait k =>
        '(res, s) ← wait_resumed (set_fiber a (set_context Stale f) s);
        match res with
        | None => mret (Switched, s)
        | Some m => run (Some a) (k m) s
        end
    | Stale => Fault BadDeref
    end;
  match e with Threw _ => Fault Uncaught | _ => mret s end.

(** ** The runtime's side *)
Section Runtime.

(** get_or_create_fiber *)
Definition get_or_create_fiber (entry : message -> option Z -> script) (input : message) (ctx : option Z)
    (s : strong) : outcome (Z * strong) :=
  match s_cur_ctx s ≫= fun r => s_fiber_ctx s !! r with
  | None =>
      let '(r, a) := new_reqid (s_reqs s) in
      let initiator := initiator_of (current_ctx s) (s_cur_msg s) in
      a ← insert_req_ctx r (MkCtx initiator None) a;
      let p := s_next s in
      mret (p, MkStrong a (<[r := MkFiberCtx ctx p]> (s_fiber_ctx s))
                 (<[p := MkFiber r (Spawn (entry input ctx)) RNull INIT]> (s_fibers s)) (p + 1)
                 (s_current_fiber s) (s_cur_msg s) (s_cur_ctx s) (s_thread s) (s_disp s))
  | Some fc =>
      f ← deref (s_fibers s !! fc_fiber fc);
      mret (fc_fiber fc, set_fiber (fc_fiber fc) (set_retval (RInput input) f) s)
  end.

(** delete_req_ctx: a FiberReqCtx is done when its fiber is dead, and owns the
    fiber. *)
Definition delete_ctx (r : Z) (s : strong) : outcome strong :=
  match find_req_ctx r (s_reqs s) with
  | None => mret s
  | Some c =>
      match s_fiber_ctx s !! r with
      | None => mret (set_disp (delete_req_ctx r c (s_reqs s)) (s_disp s) s)
      | Some fc =>
          f ← deref (s_fibers s !! fc_fiber fc);
          if is_dead f then
            mret (MkStrong (delete_req_ctx r c (s_reqs s)) (delete r (s_fiber_ctx s))
                    (delete (fc_fiber fc) (s_fibers s)) (s_next s) (s_current_fiber s) (s_cur_msg s)
                    (s_cur_ctx s) (s_thread s) (s_disp s))
          else mret s
      end
  end.

(** The test behind MOLA_GET_UCTX of call_intf_on_fiber: it runs again each time the
    worker's context is resumed. *)
Fixpoint enter (fuel : nat) (p : Z) (s : strong) : outcome strong :=
  f ← deref (s_fibers s !! p);
  if is_init f || is_suspend f then
    match fuel with
    | O => Fault OutOfFuel
    | S fuel => s ← resume p (set_current_fiber (Some p) s); enter fuel p s
    end
  else mret s.

(** call_intf_on_fiber: what it returns to invoke_message, or the exception. *)
Definition call_intf_on_fiber (entry : message -> option Z -> script) (input : message) (ctx : option Z)
    (s : strong) : outcome (stop * strong) :=
  '(p, s) ← get_or_create_fiber entry input ctx s;
  s ← enter 1 p (set_thread (Some p) s);
  f ← deref (s_fibers s !! p);
  if is_dead f then
    ret ← match f_retval f with RResult ret => mret ret | _ => Fault BadDeref end;
    s ← (if f_id f =? default 0 (s_cur_ctx s) then mret s else delete_ctx (f_id f) s);
    mret (Returned ret, set_thread None s)
  else if is_exit f then
    match f_retval f with
    | RExitCode rc => mret (Threw rc, set_thread None s)
    | _ => Fault BadDeref
    end
  else mret (Returned None, set_thread None (set_fiber p (set_state SUSPEND f) s)).

(** [code]: the callbacks of the module, by their address, given the message and
    the gather group. *)
Context (m : module) (self : ActorID) (code : Z -> message -> option Z -> script).

(** The callback and the type of the interface a message is for. *)
Definition lookup_intf (msg : metadata) : outcome (Z * Z) :=
  let i := intf_id (target msg) in
  _ ← mola_assert (i <? Z.of_nat (length (intf_tbl (m_spec m))));
  e ← deref (intf_tbl (m_spec m) !! Z.to_nat i);
  _ ← mola_assert (bool_decide (is_Some (intf_callback e)) &&
                    negb (intf_type e =? MOLA_INTF_TYPE_INVALID));
  cb ← deref (intf_callback e);
  mret (cb, intf_type e).

(** Module::invoke_message for a strong actor; the result is what was dispatched, or the
    exception. *)
Definition strong_invoke (msg : message) (s : strong) : outcome (option Z * option metadata * strong) :=
  '(cb, ty) ← lookup_intf msg.1;
  let ctx := current_ctx s in
  let group := ctx ≫= fun c => match rc_gather c with Some _ => s_cur_ctx s | None => None end in
  msg1 ← check_message ctx msg.1;
  let s := set_current (Some msg1) (s_cur_ctx s) s in
  '(r, s) ← (if ty =? MOLA_INTF_TYPE_SYNC
             then call_intf_on_fiber (code cb) (msg1, msg.2) group s
             else run None (code cb (msg1, msg.2) group) s);
  match r with
  | Threw rc => mret (Some rc, None, s)
  | Switched => Fault BadDeref
  | Returned None => mret (None, None, s)
  | Returned (Some response) =>
      out ← route_response self ctx msg1 response;
      '(_, _, d) ← dispatch_msg out (s_disp s);
      mret (None, Some out, set_disp (s_reqs s) d s)
  end.

(** One turn of the loop of Actor::execute. *)
Definition turn (msg : message) (s : strong) : outcome (option Z * option metadata * strong) :=
  let r := reqid msg.1 in
  let cur := if is_reply msg.1 && negb (r =? 0) then (fun _ => r) <$> find_req_ctx r (s_reqs s) else None in
  '(thrown, out, s) ← strong_invoke msg (set_current (Some msg.1) cur s);
  match thrown with
  | Some rc => mret (Some rc, out, s)
  | None =>
      s ← match s_cur_ctx s with None => mret s | Some r => delete_ctx r s end;
      mret (None, out, set_current None (s_cur_ctx s) s)
  end.
End Runtime.

(** ** The specification: suspended activities

    An activity is what is left of a callback that waits for the reply to its
    request id. *)
Inductive pstop :=
| PReturn (ret : option metadata)
| PWait (k : option message -> script)
| PExit (rc : Z).

Section Play.
(** [r] is the id of the activity and [cm] the message it processes. *)
Context (r : Z) (cm : metadata).

Definition event_meta (self : ActorID) : metadata :=
  set_response (set_reqid r (set_target (set_intf_id (intf_id (target cm)) self)
    (set_size 0 (set_data_type TYPE_STREAM zero_meta)))).

(** User code up to the point where it waits or ends; all it does to the rest of the
    system is to dispatch messages. *)
Fixpoint play (sc : script) (d : dstate) : outcome (pstop * dstate) :=
  match sc with
  | Return ret => mret (PReturn ret, d)
  | SendMsgToIntfAndRecv mid intf inst req k =>
      _ ← mola_assert (GET_REQ_ID inst =? 0);
      '(ret, _, _, d) ← dispatch_request (new_ActorID (GET_NODE_ID inst) mid intf (GET_INST_ID inst))
        (set_reqid r req) (intf_id (target cm)) None None new_reqs d;
      if ret =? 0 then mret (PWait (recv_result k), d) else play (k ret None) d
  | WaitForNotify k => mret (PWait (notify_result k), d)
  | CreateEvent k => self ← deref (d_current d); play (k (event_meta self)) d
  | NotifyEvent ev _ k =>
      self ← deref (d_current d);
      '(ret, _, d) ← dispatch_msg (set_sender self (set_data_type TYPE_STREAM ev)) d;
      play (k ret) d
  | InstanceExit rc => mret (PExit rc, d)
  end.
End Play.

Record aspec := MkSpecState {
  a_reqs : reqs;
  a_acts : gmap Z (option message -> script);
  a_disp : dstate
}.

Section Spec.
Context (m : module) (self : ActorID) (code : Z -> message -> option Z -> script).

Definition respond (ctx : option reqctx) (msg : metadata) (ret : option metadata) (d : dstate)
  : outcome (option metadata * dstate) :=
  match ret with
  | None => mret (None, d)
  | Some response =>
      out ← route_response self ctx msg response;
      '(_, _, d) ← dispatch_msg out d;
      mret (Some out, d)
  end.

(** A reply to an activity continues it; every other message starts one under a fresh
    id, which is free again when the callback returns at once.  The context that a
    reply was sent under ends with its processing. *)
Definition spec_turn (msg : message) (A : aspec) : outcome (option metadata * aspec) :=
  let r := reqid msg.1 in
  let cur := if is_reply msg.1 && negb (r =? 0) then (fun _ => r) <$> find_req_ctx r (a_reqs A) else None in
  let ctx := cur ≫= fun r => find_req_ctx r (a_reqs A) in
  let group := ctx ≫= fun c => match rc_gather c with Some _ => cur | None => None end in
  '(cb, _) ← lookup_intf m msg.1;
  msg1 ← check_message ctx msg.1;
  match cur ≫= fun r => a_acts A !! r with
  | Some k =>
      '(p, d) ← play r msg1 (k (Some (msg1, msg.2))) (a_disp A);
      match p with
      | PReturn ret =>
          '(out, d) ← respond ctx msg1 ret d;
          c ← deref ctx;
          mret (out, MkSpecState (delete_req_ctx r c (a_reqs A)) (delete r (a_acts A)) d)
      | PWait k => mret (None, MkSpecState (a_reqs A) (<[r := k]> (a_acts A)) d)
      | PExit _ => Fault Uncaught
      end
  | None =>
      let '(q, a) := new_reqid (a_reqs A) in
      let c := MkCtx (initiator_of ctx (Some msg1)) None in
      a ← insert_req_ctx q c a;
      '(p, d) ← play q msg1 (code cb (msg1, msg.2) group) (a_disp A);
      '(out, a, acts, d) ←
        match p with
        | PReturn ret =>
            '(out, d) ← respond ctx msg1 ret d;
            mret (out, delete_req_ctx q c a, a_acts A, d)
        | PWait k => mret (None, a, <[q := k]> (a_acts A), d)
        | PExit _ => Fault Uncaught
        end;
      mret (out, MkSpecState (match cur, ctx with Some r, Some c => delete_req_ctx r c a | _, _ => a end) acts d)
  end.

Fixpoint turns (ms : list message) (s : strong) : outcome (list (option metadata) * strong) :=
  match ms with
  | [] => mret ([], s)
  | msg :: ms =>
      '(thrown, out, s) ← turn m self code msg s;
      match thrown with
      | Some _ => mret ([out], s)
      | None => '(outs, s) ← turns ms s; mret (out :: outs, s)
      end
  end.

Fixpoint spec_turns (ms : list message) (A : aspec) : outcome (list (option metadata) * aspec) :=
  match ms with
  | [] => mret ([], A)
  | msg :: ms =>
      '(out, A) ← spec_turn msg A;
      '(outs, A) ← spec_turns ms A;
      mret (out :: outs, A)
  end.
End Spec.

(** ** Fibers implement activities *)

(** Each activity is a suspended fiber that its FiberReqCtx owns, and there are no other
    fibers. *)
Record fibers_ok (fcs : gmap Z fiber_ctx) (fibers : gmap Z fiber) (next : Z)
    (acts : gmap Z (option message -> script)) : Prop := {
  fo_acts : forall r k, acts !! r = Some k -> exists fc f, fcs !! r = Some fc /\
    fibers !! fc_fiber fc = Some f /\ f_id f = r /\ f_context f = InWait k /\ f_status f = SUSPEND;
  fo_none : forall r, acts !! r = None -> fcs !! r = None;
  fo_fresh : forall p, is_Some (fibers !! p) -> p < next;
  fo_owned : forall p f, fibers !! p = Some f ->
    exists fc, fcs !! f_id f = Some fc /\ fc_fiber fc = p
}.

Record sim (s : strong) (A : aspec) : Prop := {
  sim_reqs : s_reqs s = a_reqs A;
  sim_disp : s_disp s = a_disp A;
  sim_thread : s_thread s = None;
  sim_ids : ractor_ok (MkRactor (a_reqs A) []);
  sim_ctx : forall r, is_Some (a_acts A !! r) ->
    exists i, find_req_ctx r (a_reqs A) = Some (MkCtx i None);
  sim_fibers : fibers_ok (s_fiber_ctx s) (s_fibers s) (s_next s) (a_acts A)
}.

(** A request that carries an id leaves the actor's request table alone. *)
Lemma dispatch_request_id tgt msg intf cur cm cur' cm' a a' d :
  reqid msg <> 0 ->
  dispatch_request tgt msg intf cur cm a d =
  ('(ret, ptr, _, d) ← dispatch_request tgt msg intf cur' cm' a' d; mret (ret, ptr, a, d)).
Proof.
  intros Hr. unfold dispatch_request. destruct (d_current d) as [self|]; [|done]. cbn.
  rewrite (proj2 (Z.eqb_neq (reqid msg) 0)) by done.
  destruct (intf =? ANY); cbn; destruct (dispatch_msg _ d) as [[[ret ptr] d']|]; done.
Qed.

(** The state in which user code runs on the fiber [p] with the id [r]. *)
Definition on_fiber (s : strong) (p r : Z) (f : fiber) (cm : metadata) : Prop :=
  s_current_fiber s = Some p /\ s_fibers s !! p = Some f /\ f_id f = r /\ f_status f = RUNNING /\
  is_Some (s_thread s) /\ s_cur_msg s = Some cm.

(** What the switch to the worker leaves of the fiber. *)
Definition stopped (p : Z) (f : fiber) (e : pstop) (d : dstate) (s : strong) : strong :=
  let s := set_disp (s_reqs s) d s in
  match e with
  | PReturn ret => set_fiber p (set_state DEAD (set_retval (RResult ret) f)) s
  | PWait k => set_current_fiber None (set_fiber p (set_context (InWait k) f) s)
  | PExit rc => set_current_fiber None (set_fiber p (set_retval (RExitCode rc) f) s)
  end.

Lemma wait_switches k p r f cm s :
  on_fiber s p r f cm ->
  wait_response k s = Ok (None, set_current_fiber None (set_fiber p (set_context (InWait k) f) s)).
Proof.
  intros (Hc & Hf & _ & Hst & [t Ht] & _). unfold wait_response. rewrite Hc. cbn. rewrite Hf. cbn.
  unfold wait_resumed. cbn. rewrite Hc. cbn. rewrite lookup_insert_eq. cbn. unfold is_suspend. cbn.
  rewrite Hst. unfold switch_to_thread. cbn. by rewrite Ht.
Qed.

Lemma set_disp_same s : set_disp (s_reqs s) (s_disp s) s = s.
Proof. by destruct s. Qed.

(** On a fiber, user code does what its script says and switches back. *)
Lemma run_play p r f cm sc : 0 < r < 2 ^ 32 -> forall s, on_fiber s p r f cm ->
  run (Some p) sc s =
  ('(e, d) ← play r cm sc (s_disp s); mret (Switched, stopped p f e d s)).
Proof.
  intros Hr. induction sc as [ret|mid intf inst req k IH|k IH|k IH|ev data k IH|rc];
    intros s Hon; pose proof Hon as (Hc & Hf & Hid & Hst & [t Ht] & Hm); cbn [run play].
  - rewrite Hf. cbn. unfold switch_to_thread. cbn. rewrite Ht. cbn. by destruct s.
  - unfold send_and_recv, get_fiber_reqid. destruct (mola_assert _) as [[]|]; [|done]. cbn.
    rewrite Hc. cbn. rewrite Hf. cbn. rewrite Hm. cbn.
    erewrite (dispatch_request_id _ _ _ _ _ None None _ new_reqs)
      by (cbn; rewrite Hid, wrap_small by width_lia; lia). rewrite Hid.
    destruct (dispatch_request _ _ _ None None new_reqs (s_disp s)) as [[[[ret ptr] a] d]|]; [|done]. cbn.
    destruct (ret =? 0).
    + by erewrite wait_switches by done.
    + rewrite IH by done. by destruct s.
  - erewrite wait_switches by done. by destruct s.
  - unfold create_event. destruct (d_current (s_disp s)) as [self|]; [|done]. cbn.
    rewrite Hm. cbn. unfold get_fiber_reqid. rewrite Hc. cbn. rewrite Hf. cbn. rewrite Hid.
    by rewrite IH.
  - unfold notify_event. destruct (d_current (s_disp s)) as [self|]; [|done]. cbn.
    destruct (dispatch_msg _ (s_disp s)) as [[[ret ptr] d]|]; [|done]. cbn.
    rewrite IH by done. by destruct s.
  - rewrite Hc. cbn. rewrite Hf. cbn. unfold switch_to_thread. cbn. rewrite Ht. cbn. by destruct s.
Qed.

(** The fiber that [resume] runs, and what it runs. *)
Definition resumed (f : fiber) (input : message) : option (fiber * script) :=
  match f_context f, f_status f with
  | Spawn sc, INIT => Some (set_state RUNNING f, sc)
  | InWait k, SUSPEND =>
      Some (set_retval RNull (set_state RUNNING (set_context Stale f)), k (Some input))
  | _, _ => None
  end.

Lemma stopped_status p f e d s : s_fibers (stopped p f e d s) !! p =
  Some match e with
       | PReturn ret => set_state DEAD (set_retval (RResult ret) f)
       | PWait k => set_context (InWait k) f
       | PExit rc => set_retval (RExitCode rc) f
       end.
Proof. destruct e; apply lookup_insert_eq. Qed.

(** Entering a new or a suspended fiber runs it up to its next stop. *)
Lemma enter_play p f g sc input cm s :
  s_fibers s !! p = Some f -> resumed f input = Some (g, sc) ->
  (is_suspend f = true -> f_retval f = RInput input) ->
  0 < f_id f < 2 ^ 32 -> is_Some (s_thread s) -> s_cur_msg s = Some cm ->
  enter 1 p s =
  ('(e, d) ← play (f_id f) cm sc (s_disp s);
   mret (stopped p g e d (set_fiber p g (set_current_fiber (Some p) s)))).
Proof.
  intros Hf Hres Hin Hid Ht Hm.
  assert (on_fiber (set_fiber p g (set_current_fiber (Some p) s)) p (f_id f) g cm) as Hon.
  { unfold on_fiber. cbn. rewrite lookup_insert_eq.
    unfold resumed in Hres. destruct (f_context f), (f_status f); try done; injection Hres as <- _; done. }
  assert (resume p (set_current_fiber (Some p) s) =
    ('(e, d) ← play (f_id f) cm sc (s_disp s);
     mret (stopped p g e d (set_fiber p g (set_current_fiber (Some p) s))))) as Hresume.
  { unfold resume. cbn. rewrite Hf. cbn. unfold resumed in Hres.
    destruct (f_context f) as [sc'|k|] eqn:Hctx; [| |done]; destruct (f_status f) eqn:Hst; try done.
    - injection Hres as <- <-. erewrite run_play by done. cbn.
      by destruct (play _ _ _ _) as [[e d]|].
    - injection Hres as <- <-. unfold wait_resumed. cbn. rewrite lookup_insert_eq. cbn.
      unfold is_suspend in *. cbn. rewrite Hst in *. rewrite Hin by done. cbn.
      replace (set_fiber p _ (set_fiber p _ _)) with
        (set_fiber p (set_retval RNull (set_state RUNNING (set_context Stale f))) (set_current_fiber (Some p) s))
        by (unfold set_fiber; cbn; by rewrite insert_insert_eq).
      erewrite run_play by done. cbn. by destruct (play _ _ _ _) as [[e d]|]. }
  assert (f_status g = RUNNING) as Hg
    by (unfold resumed in Hres; destruct (f_context f), (f_status f); try done; by injection Hres as <- _).
  cbn [enter]. rewrite Hf. cbn [deref mbind outcome_bind].
  replace (is_init f || is_suspend f) with true
    by (unfold resumed, is_init, is_suspend in *; by destruct (f_context f), (f_status f)).
  rewrite Hresume. destruct (play _ _ _ _) as [[e d]|]; [|done]. cbn.
  rewrite stopped_status. cbn. unfold is_init, is_suspend. by destruct e; cbn; rewrite ?Hg.
Qed.

Lemma fibers_start fcs fb n acts q fc f k :
  fibers_ok fcs fb n acts -> acts !! q = None -> fc_fiber fc = n ->
  f_id f = q -> f_context f = InWait k -> f_status f = SUSPEND ->
  fibers_ok (<[q := fc]> fcs) (<[n := f]> fb) (n + 1) (<[q := k]> acts).
Proof.
  intros [Ha Hn Hf Ho] Hq Hfc Hid Hctx Hst. split.
  - intros r k' [[<- <-]|[Hne Hr]]%lookup_insert_Some.
    + exists fc, f. by rewrite Hfc, !lookup_insert_eq.
    + destruct (Ha r k' Hr) as (fc' & f' & Hr' & Hp & Hrest). exists fc', f'.
      assert (fc_fiber fc' < n) by eauto. by rewrite !lookup_insert_ne by (done || lia).
  - intros r. rewrite !lookup_insert_None. intros [Hr Hne]. auto.
  - intros p. rewrite lookup_insert_is_Some'. intros [<-|Hp%Hf]; lia.
  - intros p f' [[<- <-]|[Hne Hp]]%lookup_insert_Some.
    + exists fc. by rewrite Hid, lookup_insert_eq.
    + destruct (Ho p f' Hp) as (fc' & Hr & Hp'). exists fc'. split; [|done].
      rewrite lookup_insert_ne; [done|]. intros Heq. rewrite <- Heq, (Hn _ Hq) in Hr. done.
Qed.

Lemma fibers_again fcs fb n acts r fc f k :
  fibers_ok fcs fb n acts -> is_Some (acts !! r) -> fcs !! r = Some fc ->
  f_id f = r -> f_context f = InWait k -> f_status f = SUSPEND ->
  fibers_ok fcs (<[fc_fiber fc := f]> fb) n (<[r := k]> acts).
Proof.
  intros [Ha Hn Hf Ho] [k0 Hr] Hfc Hid Hctx Hst.
  assert (is_Some (fb !! fc_fiber fc)) as Hs.
  { destruct (Ha r k0 Hr) as (fc' & f' & Hfc' & Hp & _). rewrite Hfc in Hfc'. injection Hfc' as <-. eauto. }
  split.
  - intros r' k' [[<- <-]|[Hne Hr']]%lookup_insert_Some.
    + exists fc, f. by rewrite lookup_insert_eq.
    + destruct (Ha r' k' Hr') as (fc' & f' & Hfc' & Hp & Hid' & Hrest). exists fc', f'.
      rewrite lookup_insert_ne; [done|]. intros Heq. rewrite <- Heq in Hp.
      destruct (Ha r k0 Hr) as (fc2 & f2 & Hfc2 & Hp2 & Hid2 & _). rewrite Hfc in Hfc2.
      injection Hfc2 as <-. congruence.
  - intros r'. rewrite lookup_insert_None. intros [Hr' _]. auto.
  - intros p. rewrite lookup_insert_is_Some'. intros [<-|Hp]; auto.
  - intros p f' [[<- <-]|[Hne Hp]]%lookup_insert_Some; [|by apply Ho]. exists fc. by rewrite Hid.
Qed.

Lemma fibers_end fcs fb n acts r fc :
  fibers_ok fcs fb n acts -> is_Some (acts !! r) -> fcs !! r = Some fc ->
  fibers_ok (delete r fcs) (delete (fc_fiber fc) fb) n (delete r acts).
Proof.
  intros [Ha Hn Hf Ho] [k0 Hr] Hfc.
  destruct (Ha r k0 Hr) as (fc2 & f2 & Hfc2 & Hp2 & Hid2 & _). rewrite Hfc in Hfc2. injection Hfc2 as <-.
  split.
  - intros r' k' [Hne Hr']%lookup_delete_Some.
    destruct (Ha r' k' Hr') as (fc' & f' & Hfc' & Hp & Hid' & Hrest). exists fc', f'.
    rewrite !lookup_delete_ne; [done| |done]. intros Heq. rewrite <- Heq in Hp. congruence.
  - intros r'. rewrite !lookup_delete_None. intros [->|Hr']; auto.
  - intros p. rewrite lookup_delete_is_Some. intros [_ Hp]. auto.
  - intros p f' [Hne Hp]%lookup_delete_Some. destruct (Ho p f' Hp) as (fc' & Hr' & Hp').
    exists fc'. split; [|done]. rewrite lookup_delete_ne; [done|]. intros Heq.
    rewrite Heq in Hfc. congruence.
Qed.

Definition result_of (e : pstop) : option metadata :=
  match e with PReturn ret => ret | _ => None end.

(** What is left of a fiber with the id [r] that stopped with [e]. *)
Definition left_as (e : pstop) (r : Z) (f : fiber) : Prop :=
  f_id f = r /\
  match e with
  | PReturn ret => f_status f = DEAD
  | PWait k => f_status f = SUSPEND /\ f_context f = InWait k
  | PExit _ => f_status f = SUSPEND
  end.

(** m_current_fiber is set back by a wait but not by the end of a fiber. *)
Definition fiber_left (e : pstop) (p : Z) : option Z :=
  match e with PReturn _ => Some p | _ => None end.

(** call_intf_on_fiber on a fiber that stopped: the last part of the function. *)
Lemma call_tail p g e d s0 cur :
  f_status g = RUNNING -> s_cur_ctx s0 = cur -> s_current_fiber s0 = Some p -> exists f,
  let s := stopped p g e d s0 in
  let s' := MkStrong (s_reqs s0) (s_fiber_ctx s0) (<[p := f]> (s_fibers s0)) (s_next s0) (fiber_left e p)
              (s_cur_msg s0) cur (s_thread s0) d in
  left_as e (f_id g) f /\
  (f' ← deref (s_fibers s !! p);
   if is_dead f' then
     ret ← match f_retval f' with RResult ret => mret ret | _ => Fault BadDeref end;
     s ← (if f_id f' =? default 0 (s_cur_ctx s) then mret s else delete_ctx (f_id f') s);
     mret (Returned ret, set_thread None s)
   else if is_exit f' then
     match f_retval f' with
     | RExitCode rc => mret (Threw rc, set_thread None s)
     | _ => Fault BadDeref
     end
   else mret (Returned None, set_thread None (set_fiber p (set_state SUSPEND f') s))) =
  (s2 ← match e with
        | PReturn _ => if f_id g =? default 0 cur then mret s' else delete_ctx (f_id g) s'
        | _ => mret s'
        end;
   mret (Returned (result_of e), set_thread None s2)).
Proof.
  intros Hst <- Hcf. destruct e as [ret|k|rc].
  - exists (set_state DEAD (set_retval (RResult ret) g)). cbn zeta.
    rewrite stopped_status. cbn. split; [done|]. rewrite <- Hcf. by destruct s0.
  - exists (set_state SUSPEND (set_context (InWait k) g)). cbn zeta. rewrite stopped_status. cbn.
    unfold is_dead, is_exit. cbn. rewrite Hst. split; [done|].
    unfold set_fiber, set_thread. cbn. by rewrite insert_insert_eq.
  - exists (set_state SUSPEND (set_retval (RExitCode rc) g)). cbn zeta. rewrite stopped_status. cbn.
    unfold is_dead, is_exit. cbn. rewrite Hst. split; [done|].
    unfold set_fiber, set_thread. cbn. by rewrite insert_insert_eq.
Qed.

Lemma call_existing entry input ctx s r fc f k cm e d :
  s_cur_ctx s = Some r -> s_fiber_ctx s !! r = Some fc -> s_fibers s !! fc_fiber fc = Some f ->
  f_id f = r -> f_context f = InWait k -> f_status f = SUSPEND -> 0 < r < 2 ^ 32 ->
  s_cur_msg s = Some cm -> play r cm (k (Some input)) (s_disp s) = Ok (e, d) ->
  exists f', left_as e r f' /\
    call_intf_on_fiber entry input ctx s = Ok (Returned (result_of e),
      MkStrong (s_reqs s) (s_fiber_ctx s) (<[fc_fiber fc := f']> (s_fibers s)) (s_next s)
        (fiber_left e (fc_fiber fc))
        (s_cur_msg s) (s_cur_ctx s) None d).
Proof.
  intros Hcur Hfc Hf Hid Hctx Hst Hr Hm Hplay. unfold call_intf_on_fiber, get_or_create_fiber.
  rewrite Hcur. cbn [mbind option_bind]. rewrite Hfc, Hf. cbn [deref mbind outcome_bind mret outcome_ret].
  set (f1 := set_retval (RInput input) f).
  set (g := set_retval RNull (set_state RUNNING (set_context Stale f1))).
  erewrite (enter_play _ f1 g (k (Some input)) input cm); cbn; try done.
  2: by rewrite lookup_insert_eq.
  2: by unfold resumed; cbn; rewrite Hctx, Hst.
  2: by rewrite Hid.
  rewrite Hid, Hplay. cbn [mbind outcome_bind mret outcome_ret].
  edestruct (call_tail (fc_fiber fc) g e d) as (f' & Hleft & ->); [done|reflexivity|done|]. cbn in Hleft.
  exists f'. rewrite Hid in Hleft. split; [done|]. cbn. rewrite Hcur, Hid. cbn. rewrite Z.eqb_refl.
  destruct e; cbn; unfold set_thread; cbn; by rewrite !insert_insert_eq.
Qed.

Lemma call_fresh entry input ctx s q a a' cm e d :
  s_cur_ctx s ≫= (fun r => s_fiber_ctx s !! r) = None -> s_fibers s !! s_next s = None ->
  s_fiber_ctx s !! q = None -> default 0 (s_cur_ctx s) <> q ->
  new_reqid (s_reqs s) = (q, a) -> 0 < q < 2 ^ 32 ->
  let c := MkCtx (initiator_of (current_ctx s) (s_cur_msg s)) None in
  insert_req_ctx q c a = Ok a' -> s_cur_msg s = Some cm ->
  play q cm (entry input ctx) (s_disp s) = Ok (e, d) ->
  exists f', left_as e q f' /\
    call_intf_on_fiber entry input ctx s = Ok (Returned (result_of e),
      match e with
      | PReturn _ => MkStrong (delete_req_ctx q c a') (s_fiber_ctx s) (s_fibers s) (s_next s + 1)
          (fiber_left e (s_next s)) (s_cur_msg s) (s_cur_ctx s) None d
      | _ => MkStrong a' (<[q := MkFiberCtx ctx (s_next s)]> (s_fiber_ctx s))
          (<[s_next s := f']> (s_fibers s)) (s_next s + 1) (fiber_left e (s_next s)) (s_cur_msg s) (s_cur_ctx s) None d
      end).
Proof.
  intros Hnone Hfree Hfcq Hneq Hnew Hq c Hins Hm Hplay. unfold call_intf_on_fiber, get_or_create_fiber.
  rewrite Hnone, Hnew. fold c. rewrite Hins. cbn [deref mbind outcome_bind mret outcome_ret].
  set (f1 := MkFiber q (Spawn (entry input ctx)) RNull INIT).
  erewrite (enter_play _ f1 (set_state RUNNING f1) (entry input ctx) input cm); cbn; try done.
  2: by rewrite lookup_insert_eq.
  rewrite Hplay. cbn [mbind outcome_bind mret outcome_ret].
  edestruct (call_tail (s_next s) (set_state RUNNING f1) e d) as (f' & Hleft & ->); [done|reflexivity|done|].
  exists f'. split; [done|]. destruct Hleft as [_ Hleft]. cbn.
  rewrite !insert_insert_eq. destruct e as [ret|k|rc]; cbn; [|done..].
  rewrite (proj2 (Z.eqb_neq _ _)) by done. unfold delete_ctx. cbn.
  unfold insert_req_ctx in Hins. destruct (mola_assert _); [|done]. cbn in Hins. injection Hins as <-.
  unfold find_req_ctx. cbn. rewrite !lookup_insert_eq. cbn.
  unfold is_dead. rewrite Hleft. cbn. unfold set_thread. cbn.
  by rewrite (delete_insert_id (s_fiber_ctx s)), (delete_insert_id (s_fibers s)) by done.
Qed.

Lemma find_delete r r' c a : r' <> r -> find_req_ctx r' (delete_req_ctx r c a) = find_req_ctx r' a.
Proof.
  intros Hne. unfold find_req_ctx, delete_req_ctx. destruct (ctx_done c); [|done]. cbn.
  by rewrite lookup_delete_ne.
Qed.

Lemma find_insert r r' c a a' : insert_req_ctx r c a = Ok a' ->
  find_req_ctx r' a' = if bool_decide (r' = r) then Some c else find_req_ctx r' a.
Proof.
  unfold insert_req_ctx. destruct (mola_assert _); [|done]. cbn. intros [= <-]. unfold find_req_ctx. cbn.
  case_bool_decide as Hr; [subst; apply lookup_insert_eq|by rewrite lookup_insert_ne].
Qed.

Section Refines.
Context (m : module) (self : ActorID) (code : Z -> message -> option Z -> script).
Hypothesis sync_only : Forall (fun e => intf_type e = MOLA_INTF_TYPE_SYNC) (intf_tbl (m_spec m)).

Lemma lookup_intf_sync msg cb ty : lookup_intf m msg = Ok (cb, ty) -> ty = MOLA_INTF_TYPE_SYNC.
Proof.
  unfold lookup_intf. destruct (mola_assert _); [|done]. cbn.
  destruct (intf_tbl (m_spec m) !! _) as [e|] eqn:He; [|done]. cbn.
  destruct (mola_assert _); [|done]. cbn. destruct (intf_callback e); [|done]. cbn. intros [= _ <-].
  rewrite Forall_lookup in sync_only. eauto.
Qed.

Lemma invoke_sync msg s cb msg1 ret s2 :
  let group := current_ctx s ≫= fun c => match rc_gather c with Some _ => s_cur_ctx s | None => None end in
  lookup_intf m msg.1 = Ok (cb, MOLA_INTF_TYPE_SYNC) -> check_message (current_ctx s) msg.1 = Ok msg1 ->
  call_intf_on_fiber (code cb) (msg1, msg.2) group (set_current (Some msg1) (s_cur_ctx s) s)
    = Ok (Returned ret, s2) ->
  strong_invoke m self code msg s =
  ('(out, d) ← respond self (current_ctx s) msg1 ret (s_disp s2);
   mret (None, out, set_disp (s_reqs s2) d s2)).
Proof.
  intros group Hl Hc Hcall. unfold strong_invoke. rewrite Hl. cbn [mbind outcome_bind].
  rewrite Hc. cbn [mbind outcome_bind]. fold group. cbn -[call_intf_on_fiber group]. cbn in Hcall.
  rewrite Hcall. cbn. destruct ret as [resp|]; cbn; [|by destruct s2].
  destruct (route_response _ _ _ _); [|done]. cbn. by destruct (dispatch_msg _ _) as [[[? ?] ?]|].
Qed.

(** A reply to a suspended activity. *)
Lemma turn_existing msg s A out A' r k :
  sim s A -> r = reqid msg.1 -> is_reply msg.1 && negb (r =? 0) = true -> m_reqid_generator (a_reqs A) < 2 ^ 32 ->
  a_acts A !! r = Some k -> spec_turn m self code msg A = Ok (out, A') ->
  exists s', turn m self code msg s = Ok (None, out, s') /\ sim s' A' /\
    m_reqid_generator (a_reqs A') = m_reqid_generator (a_reqs A).
Proof.
  intros [Hreqs Hdisp Hth Hids Hctx Hfo] -> Hrep Hg Hk. set (r := reqid msg.1) in *.
  destruct (Hctx r ltac:(eauto)) as [i Hi]. pose proof (id_used _ _ _ Hids r ltac:(unfold find_req_ctx in Hi; eauto)) as Hr.
  cbn in Hr. destruct (fo_acts _ _ _ _ Hfo r k Hk) as (fc & f & Hfc & Hf & Hid & Hcon & Hst).
  unfold spec_turn, turn. fold r. rewrite Hrep, Hreqs, Hi. cbn [mbind option_bind fmap option_fmap option_map].
  rewrite Hi, Hk. destruct (lookup_intf m msg.1) as [[cb ty]|] eqn:Hl; [|done]. cbn [mbind outcome_bind].
  pose proof (lookup_intf_sync _ _ _ Hl) as ->.
  destruct (check_message _ _) as [msg1|] eqn:Hc; [|done]. cbn [mbind outcome_bind].
  destruct (play r msg1 _ _) as [[e d]|] eqn:Hplay; [|done]. cbn [mbind outcome_bind]. intros Hspec.
  set (s1 := set_current (Some msg.1) (Some r) s).
  assert (current_ctx s1 = Some (MkCtx i None)) as Hcc by (unfold current_ctx; cbn; by rewrite Hreqs).
  destruct (call_existing (code cb) (msg1, msg.2) None (set_current (Some msg1) (Some r) s1) r fc f k msg1 e d)
    as (f' & [Hid' Hleft] & Hcall); try done; [lia|cbn; by rewrite Hdisp|].
  erewrite (invoke_sync msg s1) by (rewrite ?Hcc; done). rewrite Hcc. cbn.
  destruct e as [ret|k'|rc]; cbn in Hspec |- *; [| |done].
  - destruct (respond _ _ _ _ _) as [[out' d']|]; [|done]. cbn in Hspec |- *. injection Hspec as <- <-.
    unfold delete_ctx. cbn. rewrite Hreqs, Hi, Hfc. cbn. rewrite lookup_insert_eq. cbn.
    unfold is_dead. rewrite Hleft. cbn. eexists. split; [reflexivity|].
    destruct (delete_req_ctx_ok r (MkCtx i None) _ _ Hids) as [Hids' Hgen]; [cbn; unfold find_req_ctx in Hi; eauto|].
    split; [|done]. split; cbn -[delete_req_ctx find_req_ctx]; try done.
    + intros r' [k' [Hne Hr']%lookup_delete_Some]. destruct (Hctx r' ltac:(eauto)) as [i' Hi'].
      exists i'. rewrite <- Hi'. by apply (find_delete r r' (MkCtx i None)).
    + rewrite delete_insert_eq. apply fibers_end; eauto.
  - injection Hspec as <- <-. destruct Hleft as [Hst' Hcon'].
    unfold delete_ctx. cbn. rewrite Hreqs, Hi, Hfc. cbn. rewrite lookup_insert_eq. cbn.
    unfold is_dead. rewrite Hst'. cbn. eexists. split; [reflexivity|]. split; [|done].
    split; cbn; try done.
    + intros r'. rewrite lookup_insert_is_Some'. intros [<-|Hr']; eauto.
    + apply fibers_again; eauto.
Qed.

Lemma turn_cases (msg : message) A :
  (exists k, is_reply msg.1 && negb (reqid msg.1 =? 0) = true /\ a_acts A !! reqid msg.1 = Some k) \/
  (if is_reply msg.1 && negb (reqid msg.1 =? 0)
   then (fun _ => reqid msg.1) <$> find_req_ctx (reqid msg.1) (a_reqs A) else None)
    ≫= (fun r => a_acts A !! r) = None.
Proof.
  destruct (is_reply msg.1 && _); [|by right].
  destruct (find_req_ctx _ _); [|by right]. cbn.
  destruct (a_acts A !! reqid msg.1) eqn:Hk; [left; eauto|by right].
Qed.

(** The end of a turn under a context that is not a fiber's. *)
Lemma end_turn s A cur a0 (out : option metadata) :
  sim s A -> s_cur_ctx s = cur -> cur ≫= (fun r => a_acts A !! r) = None ->
  (forall r, cur = Some r -> is_Some (find_req_ctx r a0) /\ find_req_ctx r (a_reqs A) = find_req_ctx r a0) ->
  exists s', (s ← match s_cur_ctx s with None => mret s | Some r => delete_ctx r s end;
              mret (None, out, set_current None (s_cur_ctx s) s)) = Ok (@None Z, out, s') /\
    sim s' (MkSpecState match cur, cur ≫= fun r => find_req_ctx r a0 with
                        | Some r, Some c => delete_req_ctx r c (a_reqs A)
                        | _, _ => a_reqs A
                        end (a_acts A) (a_disp A)) /\
    m_reqid_generator match cur, cur ≫= fun r => find_req_ctx r a0 with
                      | Some r, Some c => delete_req_ctx r c (a_reqs A)
                      | _, _ => a_reqs A
                      end = m_reqid_generator (a_reqs A).
Proof.
  intros [Hreqs Hdisp Hth Hids Hctx Hfo] Hcur Hacts Hsome. rewrite Hcur. destruct cur as [r|]; cbn.
  - destruct (Hsome r eq_refl) as [[c Hc0] Hc]. rewrite Hc0 in Hc |- *. cbn in Hacts.
    unfold delete_ctx. rewrite Hreqs, Hc.
    rewrite (fo_none _ _ _ _ Hfo r Hacts). eexists. split; [reflexivity|].
    destruct (delete_req_ctx_ok r c _ _ Hids) as [Hids' Hgen]; [cbn; unfold find_req_ctx in Hc; eauto|].
    split; [|done]. split; cbn; try done.
    intros r' Hr'. rewrite find_delete; [by apply Hctx|]. intros ->. rewrite Hacts in Hr'. by destruct Hr'.
  - eexists. split; [reflexivity|]. split; [by split|done].
Qed.

(** Any other message: a new activity. *)
Lemma turn_fresh msg s A out A' :
  sim s A -> m_reqid_generator (a_reqs A) + 1 < 2 ^ 32 ->
  let cur := if is_reply msg.1 && negb (reqid msg.1 =? 0)
             then (fun _ => reqid msg.1) <$> find_req_ctx (reqid msg.1) (a_reqs A) else None in
  cur ≫= (fun r => a_acts A !! r) = None -> spec_turn m self code msg A = Ok (out, A') ->
  exists s', turn m self code msg s = Ok (None, out, s') /\ sim s' A' /\
    m_reqid_generator (a_reqs A') <= m_reqid_generator (a_reqs A) + 1.
Proof.
  intros Hsim Hg cur Hacts. pose proof Hsim as [Hreqs Hdisp Hth Hids Hctx Hfo].
  assert (forall r, cur = Some r -> is_Some (find_req_ctx r (a_reqs A))) as Hcur.
  { intros r. unfold cur. destruct (is_reply _ && _); [|done]. intros [c [Hc ->]]%fmap_Some. eauto. }
  pose proof (new_reqid_spec (MkRactor (a_reqs A) []) Hids Hg) as Hnew.
  unfold spec_turn, turn. rewrite Hreqs. fold cur. rewrite Hacts.
  destruct (lookup_intf m msg.1) as [[cb ty]|] eqn:Hl; [|done]. cbn [mbind outcome_bind].
  pose proof (lookup_intf_sync _ _ _ Hl) as ->. set (ctx := cur ≫= _).
  destruct (check_message ctx msg.1) as [msg1|] eqn:Hc; [|done]. cbn [mbind outcome_bind]. cbn [ra lost] in Hnew.
  destruct (new_reqid (a_reqs A)) as [q a] eqn:Hq. destruct Hnew as (Hids1 & Hfresh & Hmap & Hgen).
  destruct (insert_req_ctx_ok q (MkCtx (initiator_of ctx (Some msg1)) None) a [] Hids1 Hfresh)
    as (a' & Hins & Hids2 & Hgen2). rewrite Hins. cbn [mbind outcome_bind]. cbn in Hgen, Hfresh.
  destruct Hfresh as (_ & Hqnone & Hqr). rewrite Hmap in Hqnone.
  set (group := ctx ≫= _). destruct (play q msg1 _ _) as [[e d]|] eqn:Hplay; [|done]. cbn [mbind outcome_bind].
  set (s1 := set_current (Some msg.1) cur s).
  assert (current_ctx s1 = ctx) as Hcc by (unfold current_ctx, ctx; cbn; by rewrite Hreqs).
  assert (a_acts A !! q = None) as Hqa.
  { apply eq_None_not_Some. intros Hs. destruct (Hctx q Hs) as [i Hi]. unfold find_req_ctx in Hi. congruence. }
  destruct (call_fresh (code cb) (msg1, msg.2) group (set_current (Some msg1) cur s1) q a a' msg1 e d)
    as (f' & [Hid' Hleft] & Hcall); try done.
  { cbn. destruct cur as [r|]; [|done]. cbn in Hacts |- *. by apply (fo_none _ _ _ _ Hfo). }
  { cbn. apply eq_None_not_Some. intros Hs. pose proof (fo_fresh _ _ _ _ Hfo _ Hs). lia. }
  { cbn. by apply (fo_none _ _ _ _ Hfo). }
  { cbn. destruct cur as [r|]; cbn; [|lia]. intros ->. destruct (Hcur q eq_refl) as [c Hcq].
    unfold find_req_ctx in Hcq. congruence. }
  { cbn. by rewrite Hreqs. }
  { lia. }
  { change (current_ctx (set_current (Some msg1) cur s1)) with (current_ctx s1). by rewrite Hcc. }
  { cbn. by rewrite Hdisp. }
  erewrite (invoke_sync msg s1) by (rewrite ?Hcc; done). rewrite Hcc.
  change (current_ctx (set_current (Some msg1) cur s1)) with (current_ctx s1) in Hcall |- *. rewrite Hcc.
  assert (forall r, cur = Some r -> r <> q) as Hcq.
  { intros r Hr ->. destruct (Hcur q Hr) as [c Hcq]. unfold find_req_ctx in Hcq. congruence. }
  set (c := MkCtx _ None) in *.
  assert (forall r, r <> q -> find_req_ctx r a' = find_req_ctx r (a_reqs A)) as Hfind.
  { intros r Hr. rewrite (find_insert _ r _ _ _ Hins), bool_decide_eq_false_2 by done.
    unfold find_req_ctx. by rewrite Hmap. }
  assert (forall r, is_Some (a_acts A !! r) -> r <> q) as Haq.
  { intros r [k Hk] ->. congruence. }
  destruct e as [ret|k|rc]; cbn [mbind outcome_bind s_disp s_reqs result_of]; [| |done].
  - destruct (respond _ _ _ _ _) as [[out' d']|]; [|done]. cbn [mbind outcome_bind mret outcome_ret].
    intros [= <- <-].
    destruct (delete_req_ctx_ok q c a' [] Hids2) as [Hids3 Hgen3].
    { unfold find_req_ctx in *. pose proof (find_insert _ q _ _ _ Hins) as Hi.
      rewrite bool_decide_eq_true_2 in Hi by done. unfold find_req_ctx in Hi. eauto. }
    set (s2 := set_disp _ d' _).
    destruct (end_turn s2 (MkSpecState (delete_req_ctx q c a') (a_acts A) d') cur (a_reqs A) out')
      as (s' & Hs' & Hsim' & Hgen'); try done.
    + split; cbn -[delete_req_ctx]; try done.
      * intros r Hr. rewrite find_delete, Hfind; auto.
      * destruct Hfo as [Ha Hn Hf Ho]. split; try done. intros p Hp. specialize (Hf p Hp). lia.
    + intros r Hr. split; [by apply Hcur|]. cbn -[delete_req_ctx]. rewrite find_delete, Hfind; auto.
    + exists s'. split; [exact Hs'|]. split; [exact Hsim'|]. cbn in Hgen' |- *. lia.
  - cbn [respond mbind outcome_bind mret outcome_ret]. intros [= <- <-]. destruct Hleft as [Hst Hcon].
    set (s2 := set_disp _ d _).
    destruct (end_turn s2 (MkSpecState a' (<[q := k]> (a_acts A)) d) cur (a_reqs A) None)
      as (s' & Hs' & Hsim' & Hgen'); try done.
    + split; cbn; try done.
      * intros r. rewrite lookup_insert_is_Some'. intros [<-|Hr].
        -- rewrite (find_insert _ q _ _ _ Hins), bool_decide_eq_true_2 by done. unfold c. eauto.
        -- rewrite Hfind; auto.
      * by apply fibers_start.
    + destruct cur as [r|]; [|done]. cbn in Hacts |- *.
      rewrite lookup_insert_ne; [done|]. intros ->. by apply (Hcq r).
    + intros r Hr. split; [by apply Hcur|]. cbn. rewrite Hfind; auto.
    + exists s'. split; [exact Hs'|]. split; [exact Hsim'|]. cbn in Hgen' |- *. lia.
Qed.

(** C16: fibers implement activities: for a module all of whose interfaces are synchronous
    (for the others see [current_fiber_dangles]), over any sequence of messages, new requests
    interleaved with the replies that the waiting callbacks get in any order, on which the
    specification does not fail and that uses fewer than 2^32 request ids, a strong
    actor sends the responses of the specification.  Each callback goes on where it
    waited, with the reply to its own request id, its result is routed to the
    initiator of the message it was called for, and afterwards its fiber and
    its id are free. *)
Theorem strong_refines (ms : list message) (s : strong) (A A' : aspec) (outs : list (option metadata)) :
  sim s A -> m_reqid_generator (a_reqs A) + Z.of_nat (length ms) < 2 ^ 32 ->
  spec_turns m self code ms A = Ok (outs, A') ->
  exists s', turns m self code ms s = Ok (outs, s') /\ sim s' A'.
Proof.
  revert s A outs. induction ms as [|msg ms IH]; intros s A outs Hsim Hg; cbn [spec_turns turns length] in *.
  { intros [= <- <-]. by exists s. }
  destruct (spec_turn _ _ _ msg A) as [[out A1]|] eqn:Hspec; [|done]. cbn [mbind outcome_bind].
  assert (exists s1, turn m self code msg s = Ok (None, out, s1) /\ sim s1 A1 /\
    m_reqid_generator (a_reqs A1) <= m_reqid_generator (a_reqs A) + 1) as (s1 & -> & Hsim1 & Hg1).
  { destruct (turn_cases msg A) as [(k & Hrep & Hk)|Hnone].
    - destruct (turn_existing msg s A out A1 _ k Hsim eq_refl Hrep ltac:(lia) Hk Hspec) as (s1 & H1 & H2 & H3).
      exists s1. split; [done|]. split; [done|lia].
    - eapply turn_fresh; eauto. lia. }
  destruct (spec_turns _ _ _ ms A1) as [[outs' A2]|] eqn:Hspecs; [|done]. cbn.
  intros [= <- <-]. destruct (IH s1 A1 outs' Hsim1 ltac:(lia) Hspecs) as (s' & -> & Hsim'). by exists s'.
Qed.
End Refines.

(** ** The address of a fiber *)
Lemma to_int_wraps z : in_width 32 z -> u32 (to_int z) = z.
Proof.
  intros Hz. unfold to_int. case_match; [by apply wrap_small|]. unfold wrap.
  replace (z - 2 ^ 32) with (z + (-1) * 2 ^ 32) by lia. rewrite Z_mod_plus_full. by apply wrap_small.
Qed.

(** Fiber::spawn runs the fiber that init was called on, wherever it lies in the 64-bit
    address space and although both halves of its address go through a signed int. *)
Theorem spawned_self (p : Z) : in_width 64 p -> spawned p = p.
Proof.
  intros Hp. unfold spawned, MERGE, LOW, HIGH. rewrite !to_int_wraps by (apply wrap_range; done).
  apply Z.bits_inj'. intros n Hn. rewrite Z.lor_spec. unfold wrap. rewrite <- !Z.land_ones by lia.
  rewrite !Z.land_spec, Z.shiftl_spec by lia. change 0xffffffff with (Z.ones 32).
  destruct (decide (n < 32)).
  - rewrite !(Z.ones_spec_low 32 n), (Z.testbit_neg_r _ (n - 32)) by lia. by rewrite !andb_true_r.
  - rewrite !(Z.ones_spec_high 32 n) by lia. rewrite andb_false_r, orb_false_r.
    destruct (decide (n < 64)).
    + rewrite Z.land_spec, Z.shiftr_spec, !Z.ones_spec_low by lia. rewrite !andb_true_r. f_equal. lia.
    + rewrite (Z.ones_spec_high 64 n), andb_false_r by lia. symmetry.
      rewrite <- (wrap_small 64 p Hp). unfold wrap. rewrite <- Z.land_ones, Z.land_spec, Z.ones_spec_high by lia. apply andb_false_r.
Qed.

Lemma spawned_self_witness : spawned 0x7ffeb0bacafe = 0x7ffeb0bacafe.
Proof. apply (spawned_self 0x7ffeb0bacafe). width_lia. Defined.

(** ** Where fibers go wrong *)
Section Wrong.
Context (m : module) (self : ActorID) (code : Z -> message -> option Z -> script).

(** A request on a synchronous interface, up to its first stop. *)
Lemma request_turn msg s A cb q a e d :
  sim s A -> m_reqid_generator (a_reqs A) + 1 < 2 ^ 32 -> is_reply msg.1 = false ->
  lookup_intf m msg.1 = Ok (cb, MOLA_INTF_TYPE_SYNC) -> new_reqid (a_reqs A) = (q, a) ->
  play q msg.1 (code cb msg None) (a_disp A) = Ok (e, d) -> result_of e = None ->
  exists a' f', insert_req_ctx q (MkCtx (Some msg.1) None) a = Ok a' /\ left_as e q f' /\
    s_fibers s !! s_next s = None /\
    turn m self code msg s = Ok (None, None,
      match e with
      | PReturn _ => MkStrong (delete_req_ctx q (MkCtx (Some msg.1) None) a') (s_fiber_ctx s) (s_fibers s)
          (s_next s + 1) (Some (s_next s)) None None None d
      | _ => MkStrong a' (<[q := MkFiberCtx None (s_next s)]> (s_fiber_ctx s))
          (<[s_next s := f']> (s_fibers s)) (s_next s + 1) None None None None d
      end).
Proof.
  intros [Hreqs Hdisp Hth Hids Hctx Hfo] Hg Hrep Hl Hq Hplay Hres.
  pose proof (new_reqid_spec (MkRactor (a_reqs A) []) Hids Hg) as Hnew. cbn [ra lost] in Hnew.
  rewrite Hq in Hnew. destruct Hnew as (Hids1 & Hfresh & Hmap & Hgen).
  destruct (insert_req_ctx_ok q (MkCtx (Some msg.1) None) a [] Hids1 Hfresh) as (a' & Hins & _).
  destruct Hfresh as (_ & Hqnone & Hqr). rewrite Hmap in Hqnone. cbn in Hgen.
  assert (s_fibers s !! s_next s = None) as Hfree.
  { apply eq_None_not_Some. intros Hs. pose proof (fo_fresh _ _ _ _ Hfo _ Hs). lia. }
  assert (a_acts A !! q = None) as Hqa.
  { apply eq_None_not_Some. intros Hs. destruct (Hctx q Hs) as [i Hi]. unfold find_req_ctx in Hi. congruence. }
  destruct (call_fresh (code cb) msg None (set_current (Some msg.1) None s) q a a' msg.1 e d)
    as (f' & Hleft & Hcall); try done.
  { cbn. by apply (fo_none _ _ _ _ Hfo). }
  { cbn. lia. }
  { cbn. by rewrite Hreqs. }
  { lia. }
  { cbn. by rewrite Hdisp. }
  exists a', f'. split; [done|]. split; [done|]. split; [done|].
  assert (is_gather msg.1 = false) as Hgat by (unfold is_reply in Hrep; by apply orb_false_iff in Hrep as [_ ?]).
  unfold turn. rewrite Hrep. cbn [andb]. destruct msg as [meta data]. cbn [fst snd] in *.
  erewrite (invoke_sync m self code (meta, data)) with (msg1 := meta); [..|exact Hcall]; [|done|].
  - rewrite Hres. cbn. by destruct e.
  - cbn. by rewrite Hgat.
Qed.

(** InstanceExit on a fiber does not end the actor: exit never sets the state
    that call_intf_on_fiber tests, so that the turn ends as if the callback waited.
    The fiber stays suspended and its request id in use, although nothing was
    asked for under it. *)
Theorem fiber_exit_ignored (msg : message) (s : strong) (A : aspec) (cb q rc : Z) (a : reqs) (d : dstate) :
  sim s A -> m_reqid_generator (a_reqs A) + 1 < 2 ^ 32 -> is_reply msg.1 = false ->
  lookup_intf m msg.1 = Ok (cb, MOLA_INTF_TYPE_SYNC) -> new_reqid (a_reqs A) = (q, a) ->
  play q msg.1 (code cb msg None) (a_disp A) = Ok (PExit rc, d) ->
  exists s' fc f, turn m self code msg s = Ok (None, None, s') /\
    is_Some (find_req_ctx q (s_reqs s')) /\ s_fiber_ctx s' !! q = Some fc /\
    s_fibers s' !! fc_fiber fc = Some f /\ f_status f = SUSPEND.
Proof.
  intros Hsim Hg Hrep Hl Hq Hplay.
  destruct (request_turn msg s A cb q a _ d Hsim Hg Hrep Hl Hq Hplay eq_refl)
    as (a' & f' & Hins & [_ Hst] & _ & Hturn).
  eexists _, _, f'. split; [exact Hturn|]. cbn. rewrite !lookup_insert_eq.
  rewrite (find_insert _ q _ _ _ Hins), bool_decide_eq_true_2 by done. split; [eauto|].
  split; [done|]. by rewrite lookup_insert_eq.
Qed.

(** Once a callback has returned on a fiber, m_current_fiber still points to that
    fiber, which is deleted: InstanceExit in an interface that runs on the worker's
    stack then writes through the dangling pointer instead of ending the actor. *)
Theorem current_fiber_dangles (msg msg2 : message) (s : strong) (A : aspec) (cb cb2 ty q rc : Z) (a : reqs)
    (d : dstate) :
  sim s A -> m_reqid_generator (a_reqs A) + 1 < 2 ^ 32 ->
  is_reply msg.1 = false -> is_reply msg2.1 = false ->
  lookup_intf m msg.1 = Ok (cb, MOLA_INTF_TYPE_SYNC) -> new_reqid (a_reqs A) = (q, a) ->
  play q msg.1 (code cb msg None) (a_disp A) = Ok (PReturn None, d) ->
  lookup_intf m msg2.1 = Ok (cb2, ty) -> ty <> MOLA_INTF_TYPE_SYNC -> code cb2 msg2 None = InstanceExit rc ->
  exists s', turn m self code msg s = Ok (None, None, s') /\ turn m self code msg2 s' = Fault BadDeref.
Proof.
  intros Hsim Hg Hrep Hrep2 Hl Hq Hplay Hl2 Hty Hcode.
  destruct (request_turn msg s A cb q a _ d Hsim Hg Hrep Hl Hq Hplay eq_refl)
    as (a' & f' & Hins & _ & Hfree & Hturn).
  eexists. split; [exact Hturn|]. unfold turn. rewrite Hrep2. cbn [andb].
  unfold strong_invoke. destruct msg2 as [meta data]. cbn [fst snd] in *. rewrite Hl2. cbn [mbind outcome_bind].
  unfold is_reply in Hrep2. apply orb_false_iff in Hrep2 as [_ Hgat]. cbn. rewrite Hgat. cbn.
  rewrite (proj2 (Z.eqb_neq _ _)), Hcode by done. cbn. by rewrite Hfree.
Qed.
End Wrong.

(** ** Witnesses *)
Module StrongExamples.
Definition me : ActorID := new_ActorID 0 3 1 0.
Definition sync_module : module :=
  new_Module 3 1 (MkSpec MOLA_MODULE_TYPE_STRONG 16 4 [MkIntf MOLA_INTF_TYPE_SYNC (Some 0)]).
Definition mixed_module : module :=
  new_Module 3 1 (MkSpec MOLA_MODULE_TYPE_STRONG 16 4 [MkIntf MOLA_INTF_TYPE_SYNC (Some 0); MkIntf 0 (Some 1)]).
Definition d0 : dstate :=
  MkD 1 {[ 3 := sync_module; 4 := sync_module ]} {[ 2 := MkNode 2 false true [] ]} true (Some me) [].
Definition A0 : aspec := MkSpecState new_reqs ∅ d0.
Definition s0 : strong := MkStrong new_reqs ∅ ∅ 0 None None None None d0.

Lemma sim0 : sim s0 A0.
Proof.
  split; try done; [apply ids_ok_new|by intros r [? ?]|]. split; try done. by intros p [? ?].
Qed.

(** The callback asks module 4 and answers with a message when the reply has come. *)
Definition ask (_ : Z) (_ : message) (_ : option Z) : script :=
  SendMsgToIntfAndRecv 4 0 0 zero_meta (fun ret _ => Return (if ret =? 0 then Some zero_meta else None)).

Definition request (intf : Z) : message :=
  (set_target (new_ActorID 0 3 1 intf)
     (set_sender (new_ActorID 2 7 1 5) (set_reqid 9 (set_request zero_meta))), None).
Definition reply (r : Z) : message :=
  (set_target (new_ActorID 0 3 1 0) (set_reqid r (set_response zero_meta)), None).

(** Two callbacks wait at the same time; their replies come in the other order. *)
Lemma strong_refines_witness : exists out out' s',
  turns sync_module me ask [request 0; request 0; reply 2; reply 1] s0 =
    Ok ([None; None; Some out; Some out'], s') /\
  target out = new_ActorID 2 7 1 5 /\ reqid out = 9 /\ s_fibers s' = ∅.
Proof.
  destruct (spec_turns sync_module me ask [request 0; request 0; reply 2; reply 1] A0)
    as [[outs A']|] eqn:E; [|vm_compute in E; discriminate E].
  destruct (strong_refines sync_module me ask ltac:(repeat constructor)
    [request 0; request 0; reply 2; reply 1] s0 A0 A' outs sim0 ltac:(cbn; lia) E) as (s' & Hs' & [_ _ _ _ _ Hfo]).
  vm_compute in E. injection E as <- <-. do 2 eexists. exists s'. split; [exact Hs'|].
  split; [reflexivity|]. split; [reflexivity|]. cbn in Hfo. apply map_eq. intros p. rewrite lookup_empty.
  destruct (s_fibers s' !! p) as [f|] eqn:Hf; [|done].
  destruct (fo_owned _ _ _ _ Hfo p f Hf) as (fc & Hfc & _).
  rewrite (fo_none _ _ _ _ Hfo _ eq_refl) in Hfc. discriminate Hfc.
Defined.

Definition quit (cb : Z) (_ : message) (_ : option Z) : script :=
  if cb =? 0 then InstanceExit 7 else Return None.

Lemma fiber_exit_ignored_witness : exists s' fc f,
  turn sync_module me quit (request 0) s0 = Ok (None, None, s') /\
  is_Some (find_req_ctx 1 (s_reqs s')) /\ s_fiber_ctx s' !! 1 = Some fc /\
  s_fibers s' !! fc_fiber fc = Some f /\ f_status f = SUSPEND.
Proof.
  apply (fiber_exit_ignored sync_module me quit (request 0) s0 A0 0 1 7 (new_reqid new_reqs).2 d0);
    try reflexivity. apply sim0.
Defined.

Definition quit_async (cb : Z) (_ : message) (_ : option Z) : script :=
  if cb =? 0 then Return None else InstanceExit 7.

Lemma current_fiber_dangles_witness : exists s',
  turn mixed_module me quit_async (request 0) s0 = Ok (None, None, s') /\
  turn mixed_module me quit_async (request 1) s' = Fault BadDeref.
Proof.
  apply (current_fiber_dangles mixed_module me quit_async (request 0) (request 1) s0 A0 0 1 0 1 7
    (new_reqid new_reqs).2 d0); try reflexivity; [apply sim0|discriminate].
Defined.
End StrongExamples.
