(* ===== verification/ZkLock.v ===== *)
(** * The distributed lock

    ZookeeperEngine::lock, zk_lock, get_least_seq, unlock and wakeup_internal of
    src/zookeeper.cpp with the struct Lock of include/mola/zookeeper.hpp and the
    AsyncLock of include/mola/spinlock.hpp that it extends.

    Every process has one Lock object for a zone and an id.  Its first caller
    creates a numbered node in the directory of the lock, lists the directory,
    watches the least node, and has the lock when that is its own; otherwise it waits
    in the object's queue, where the callers of the same process wait too.  An
    unlock deletes the node, and the deletion wakes the processes that watch it.

    The directory is the service's: [ZkDir] has the operations that the code calls,
    [ZkDirLaws] what the documentation of zookeeper says of them.  A step of a
    process is one call to the service or one critical section of the object's spin
    lock.  No session expires in this model: nodes go only by unlock. *)
From stdpp Require Import base list gmap numbers.
From S2P Require Import Prelude.

(** ** The service *)

(** [zk_children]: the numbers of the nodes in the directory.  [zk_pending]: the
    deletions that processes watched and have not been told of. *)
Class ZkDir (S : Type) := {
  zk_children : S -> list Z;
  zk_pending : S -> list (Z * Z);
  zk_create : S -> Z * S;
  zk_delete : Z -> S -> bool * S;
  zk_exists : Z -> Z -> S -> bool * S;
  zk_deliver : Z * Z -> S -> S
}.

Definition INT_MAX : Z := 2 ^ 31 - 1.

Class ZkDirLaws (S : Type) `{ZkDir S} := {
  (* sequence numbers grow *)
  create_grows (s : S) n : n ∈ zk_children s -> n < (zk_create s).1;
  create_children (s : S) n :
    n ∈ zk_children (zk_create s).2 <-> n = (zk_create s).1 \/ n ∈ zk_children s;
  create_pending (s : S) : zk_pending (zk_create s).2 = zk_pending s;
  delete_children (s : S) m n :
    n ∈ zk_children (zk_delete m s).2 <-> n ∈ zk_children s /\ n <> m;
  delete_ok (s : S) m : m ∈ zk_children s -> (zk_delete m s).1 = true;
  exists_children (s : S) p m : zk_children (zk_exists p m s).2 = zk_children s;
  (* setting a watch tells nobody anything *)
  exists_pending (s : S) p m : zk_pending (zk_exists p m s).2 = zk_pending s;
  deliver_children (s : S) e : zk_children (zk_deliver e s) = zk_children s
}.

(** ** The Lock object of a process *)

(** What waits in m_wait_que: an acquire, or the zk_lock of the caller that has the
    object and not the node. *)
Inductive item := Acquire (r : Z) | ZkLock (r : Z).

(** Where a thread is that works on the object for the request [r].  [b]: it holds the
    object's spin lock, as the zk_lock that acquire calls does. *)
Inductive act :=
| AAcquire (r : Z)                  (* popped from the queue, before acquire *)
| AEnter (r : Z) (b : bool)         (* at the beginning of zk_lock *)
| AList (r : Z) (b : bool)          (* before zoo_get_children *)
| AWatch (r : Z) (b : bool) (least : Z)  (* before zoo_exists *)
| AHold (r : Z)                     (* the callback was called *)
| ARelease.                         (* the node is deleted, before release *)

#[global] Instance act_eq_dec : EqDecision act.
Proof. solve_decision. Defined.

Record lockobj := MkLock {
  m_acquired : bool;
  m_wait_que : list item;
  m_path : option Z;
  acts : list act
}.

Definition new_lock : lockobj := MkLock false [] None [].

Definition spinning (a : act) : bool :=
  match a with AEnter _ b | AList _ b | AWatch _ b _ => b | _ => false end.
(** Nobody holds the spin lock of the object. *)
Definition spin_free (o : lockobj) : Prop := forall a, a ∈ acts o -> spinning a = false.

(** AsyncLock::acquire *)
Definition acquire (r : Z) (o : lockobj) : lockobj :=
  if m_acquired o then MkLock true (m_wait_que o ++ [Acquire r]) (m_path o) (acts o)
  else MkLock true (m_wait_que o) (m_path o) (acts o ++ [AEnter r true]).

(** The callback that was at the front of the queue is called. *)
Definition call (i : item) : act :=
  match i with Acquire r => AAcquire r | ZkLock r => AEnter r false end.

(** Lock::notify *)
Definition notify (o : lockobj) : lockobj :=
  match m_wait_que o with
  | [] => o
  | i :: q => MkLock (m_acquired o) q (m_path o) (acts o ++ [call i])
  end.

(** AsyncLock::release *)
Definition release (o : lockobj) : lockobj :=
  notify (MkLock false (m_wait_que o) (m_path o) (acts o)).

(** Lock::wait *)
Definition wait (i : item) (o : lockobj) : lockobj :=
  MkLock (m_acquired o) (i :: m_wait_que o) (m_path o) (acts o).

Definition set_acts (l : list act) (o : lockobj) : lockobj :=
  MkLock (m_acquired o) (m_wait_que o) (m_path o) l.
Definition set_path (n : option Z) (o : lockobj) : lockobj :=
  MkLock (m_acquired o) (m_wait_que o) n (acts o).

(** The loop of get_least_seq *)
Definition get_least_seq (children : list Z) : Z :=
  foldl (fun least n => if n <? least then n else least) INT_MAX children.

Section Steps.
Context {S : Type} `{ZkDir S}.

(** The parts of zk_lock between two calls to the service, for a thread that is [a] and
    leaves the other threads of the object as they are: the first creates the
    node unless there is one. *)
Definition zk_enter (r : Z) (b : bool) (l1 l2 : list act) (o : lockobj) (s : S) : lockobj * S :=
  match m_path o with
  | None =>
      let '(n, s) := zk_create s in
      (set_acts (l1 ++ AList r b :: l2) (set_path (Some n) o), s)
  | Some _ => (set_acts (l1 ++ AList r b :: l2) o, s)
  end.

Definition zk_list (r : Z) (b : bool) (l1 l2 : list act) (o : lockobj) (s : S) : lockobj :=
  set_acts (l1 ++ AWatch r b (get_least_seq (zk_children s)) :: l2) o.

Definition zk_watch (p r least : Z) (l1 l2 : list act) (o : lockobj) (s : S) : lockobj * S :=
  let s := (zk_exists p least s).2 in
  if bool_decide (m_path o = Some least) then (set_acts (l1 ++ AHold r :: l2) o, s)
  else (wait (ZkLock r) (set_acts (l1 ++ l2) o), s).

(** ZookeeperEngine::unlock up to release; the assertion is that the deletion
    succeeds. *)
Definition zk_unlock (l1 l2 : list act) (o : lockobj) (s : S) : outcome (lockobj * S) :=
  n ← deref (m_path o);
  let '(ok, s) := zk_delete n s in
  _ ← mola_assert ok;
  mret (set_acts (l1 ++ ARelease :: l2) (set_path None o), s).

(** The processes, and the service; None: an assertion failed. *)
Record world := MkWorld { procs : gmap Z lockobj; srv : S }.

Definition obj (w : world) (p : Z) : lockobj := default new_lock (procs w !! p).
Definition upd (p : Z) (o : lockobj) (s : S) (w : world) : world := MkWorld (<[p := o]> (procs w)) s.

Inductive step (w : world) : outcome world -> Prop :=
| step_lock p r :
    spin_free (obj w p) -> step w (Ok (upd p (acquire r (obj w p)) (srv w) w))
| step_acquire p r l1 l2 :
    acts (obj w p) = l1 ++ AAcquire r :: l2 -> spin_free (obj w p) ->
    step w (Ok (upd p (acquire r (set_acts (l1 ++ l2) (obj w p))) (srv w) w))
| step_enter p r b l1 l2 :
    acts (obj w p) = l1 ++ AEnter r b :: l2 ->
    step w (let '(o, s) := zk_enter r b l1 l2 (obj w p) (srv w) in Ok (upd p o s w))
| step_list p r b l1 l2 :
    acts (obj w p) = l1 ++ AList r b :: l2 ->
    step w (Ok (upd p (zk_list r b l1 l2 (obj w p) (srv w)) (srv w) w))
| step_watch p r b least l1 l2 :
    acts (obj w p) = l1 ++ AWatch r b least :: l2 ->
    step w (let '(o, s) := zk_watch p r least l1 l2 (obj w p) (srv w) in Ok (upd p o s w))
| step_unlock p r l1 l2 :
    acts (obj w p) = l1 ++ AHold r :: l2 ->
    step w ('(o, s) ← zk_unlock l1 l2 (obj w p) (srv w); Ok (upd p o s w))
| step_release p l1 l2 :
    acts (obj w p) = l1 ++ ARelease :: l2 -> spin_free (obj w p) ->
    step w (Ok (upd p (release (set_acts (l1 ++ l2) (obj w p))) (srv w) w))
| step_event p n :
    (p, n) ∈ zk_pending (srv w) -> spin_free (obj w p) ->
    step w (Ok (upd p (notify (obj w p)) (zk_deliver (p, n) (srv w)) w)).

Definition step_ok (w w' : world) : Prop := step w (Ok w').

(** ** The invariant *)

(** The thread or waiter that has the object: at most one. *)
Definition owns (a : act) : nat := match a with AAcquire _ => 0 | _ => 1 end.
Definition owns_item (i : item) : nat := match i with Acquire _ => 0 | ZkLock _ => 1 end.
Definition owners (o : lockobj) : nat :=
  sum_list_with owns (acts o) + sum_list_with owns_item (m_wait_que o).

(** The node is there from the listing of the directory to the unlock. *)
Definition has_node (a : act) : bool :=
  match a with AList _ _ | AWatch _ _ _ | AHold _ => true | _ => false end.

Record obj_ok (o : lockobj) : Prop := {
  ok_owners : owners o = if m_acquired o then 1%nat else 0%nat;
  ok_free : m_acquired o = false -> m_path o = None;
  ok_released : ARelease ∈ acts o -> m_path o = None;
  ok_node : (exists a, a ∈ acts o /\ has_node a = true) \/ (exists r, ZkLock r ∈ m_wait_que o) ->
    is_Some (m_path o)
}.

(** [l] is the least node. *)
Definition least_node (l : Z) (s : S) : Prop := forall m, m ∈ zk_children s -> l <= m.

Record inv (w : world) : Prop := {
  i_obj : forall p, obj_ok (obj w p);
  i_live : forall p n, m_path (obj w p) = Some n -> n ∈ zk_children (srv w);
  i_inj : forall p q n, m_path (obj w p) = Some n -> m_path (obj w q) = Some n -> p = q;
  i_hold : forall p r n, AHold r ∈ acts (obj w p) -> m_path (obj w p) = Some n -> least_node n (srv w);
  i_watch : forall p r b l, AWatch r b l ∈ acts (obj w p) -> m_path (obj w p) = Some l ->
    least_node l (srv w)
}.

(** ** Every step keeps the invariant *)
Lemma least_aux l acc : foldl (fun least n => if n <? least then n else least) acc l <= acc /\
  forall m, m ∈ l -> foldl (fun least n => if n <? least then n else least) acc l <= m.
Proof.
  revert acc; induction l as [|x l IH]; intros acc; cbn.
  - split; [lia|]. by intros m ?%not_elem_of_nil.
  - destruct (IH (if x <? acc then x else acc)) as [H1 H2].
    destruct (Z.ltb_spec x acc); split; try lia; intros m [->|Hm]%elem_of_cons; auto; lia.
Qed.

Lemma least_seq_node (s : S) : least_node (get_least_seq (zk_children s)) s.
Proof. exact (proj2 (least_aux (zk_children s) INT_MAX)). Qed.

Lemma obj_upd w p o s q : obj (upd p o s w) q = if bool_decide (q = p) then o else obj w q.
Proof.
  unfold obj, upd. cbn. case_bool_decide as Hq; [subst; by rewrite lookup_insert_eq|].
  by rewrite lookup_insert_ne.
Qed.

(** A step that leaves the directory and the path alone. *)
Lemma inv_same w p o s :
  inv w -> zk_children s = zk_children (srv w) -> m_path o = m_path (obj w p) -> obj_ok o ->
  (forall r n, AHold r ∈ acts o -> m_path o = Some n -> least_node n (srv w)) ->
  (forall r b l, AWatch r b l ∈ acts o -> m_path o = Some l -> least_node l (srv w)) ->
  inv (upd p o s w).
Proof.
  intros [Ho Hl Hi Hh Hw] Hs Hp Hok Hhold Hwatch.
  assert (forall n, least_node n (srv w) -> least_node n s) as Hleast
    by (unfold least_node; by rewrite Hs).
  assert (forall q, m_path (obj (upd p o s w) q) = m_path (obj w q)) as Hpath.
  { intros q. rewrite obj_upd. case_bool_decide; by subst. }
  split; cbn.
  - intros q. rewrite obj_upd. case_bool_decide; auto.
  - intros q n. rewrite Hpath, Hs. apply Hl.
  - intros q q' n. rewrite !Hpath. apply Hi.
  - intros q r n Hr. rewrite Hpath. intros Hn. apply Hleast. rewrite obj_upd in Hr. case_bool_decide.
    + subst. apply (Hhold r); congruence.
    + by apply (Hh q r).
  - intros q r b l Hr. rewrite Hpath. intros Hn. apply Hleast. rewrite obj_upd in Hr. case_bool_decide.
    + subst. apply (Hwatch r b); congruence.
    + by apply (Hw q r b).
Qed.

Ltac owners_lia :=
  unfold owners in *; cbn in *;
  repeat match goal with
  | H : acts _ = _ |- _ => rewrite H in *
  | H : m_wait_que _ = _ |- _ => rewrite H in *
  end;
  rewrite ?sum_list_with_app in *; cbn in *; lia.

Lemma acquire_ok r l o :
  obj_ok o -> acts o = l \/ (exists l1 r' l2, acts o = l1 ++ AAcquire r' :: l2 /\ l = l1 ++ l2) ->
  obj_ok (acquire r (set_acts l o)) /\
  (forall a, a ∈ acts (acquire r (set_acts l o)) -> a ∈ acts o \/ a = AEnter r true) /\
  m_path (acquire r (set_acts l o)) = m_path o.
Proof.
  intros [Hown Hfree Hrel Hnode] Hl.
  assert (sum_list_with owns l = sum_list_with owns (acts o)) as Hsum.
  { destruct Hl as [->|(l1 & r' & l2 & -> & ->)]; [done|]. rewrite !sum_list_with_app. cbn. lia. }
  assert (forall a, a ∈ l -> a ∈ acts o) as Hsub.
  { destruct Hl as [->|(l1 & r' & l2 & -> & ->)]; [done|].
    intros a. rewrite !elem_of_app, elem_of_cons. tauto. }
  unfold acquire. cbn. destruct (m_acquired o) eqn:E; cbn.
  - split; [split; cbn|split; [by auto|done]]; try done.
    + unfold owners in *. cbn. rewrite sum_list_with_app. cbn. lia.
    + by auto.
    + intros [[a [Ha Hn]]|[r' Hr]]; apply Hnode; [eauto|]. apply elem_of_app in Hr as [?|Hr]; [eauto|].
      apply list_elem_of_singleton in Hr. discriminate Hr.
  - split; [split; cbn|split; [|done]]; try done.
    + unfold owners in *. cbn. rewrite sum_list_with_app. cbn. lia.
    + intros _. by apply Hfree.
    + intros [[a [Ha Hn]]|[r' Hr]]; apply Hnode; [|eauto]. apply elem_of_app in Ha as [?|Ha]; [eauto|].
      apply list_elem_of_singleton in Ha. by subst.
    + intros a [?|Ha%list_elem_of_singleton]%elem_of_app; auto.
Qed.

Lemma notify_ok o : obj_ok o -> obj_ok (notify o) /\ m_path (notify o) = m_path o /\
  (forall a, a ∈ acts (notify o) -> a ∈ acts o \/ exists i, i ∈ m_wait_que o /\ a = call i).
Proof.
  intros Hok. pose proof Hok as [Hown Hfree Hrel Hnode]. unfold notify.
  destruct (m_wait_que o) as [|i q] eqn:Hq; [by auto|].
  split; [split; cbn|split; [done|]]; try done.
  - clear Hnode. unfold owners in *. cbn. rewrite Hq in Hown. rewrite sum_list_with_app. cbn in *. destruct i; cbn in *; lia.
  - intros [Ha|Ha%list_elem_of_singleton]%elem_of_app; [auto|]. by destruct i.
  - intros [[a [Ha Hn]]|[r' Hr]]; apply Hnode.
    + apply elem_of_app in Ha as [?|Ha%list_elem_of_singleton]; [eauto|]. subst. by destruct i.
    + right. exists r'. by constructor.
  - intros a [?|Ha%list_elem_of_singleton]%elem_of_app; [auto|]. right. exists i. split; [constructor|done].
Qed.

Lemma elem_here {A} (l1 l2 : list A) x : x ∈ l1 ++ x :: l2.
Proof. apply elem_of_app. right. constructor. Qed.

Lemma elem_more {A} (l1 l2 : list A) x y : x ∈ l1 ++ l2 -> x ∈ l1 ++ y :: l2.
Proof. rewrite !elem_of_app, elem_of_cons. tauto. Qed.

Lemma elem_less {A} (l1 l2 : list A) x y : x ∈ l1 ++ y :: l2 -> x <> y -> x ∈ l1 ++ l2.
Proof. rewrite !elem_of_app, elem_of_cons. tauto. Qed.

(** Membership in the list of threads. *)
Ltac in_acts :=
  repeat match goal with H : acts _ = _ |- _ => rewrite H end;
  first [apply elem_here | apply elem_more; assumption | eapply elem_less; eassumption
        | rewrite ?elem_of_app, ?elem_of_cons in *; tauto].

Lemma sum_zero {A} (f : A -> nat) l x : sum_list_with f l = 0%nat -> x ∈ l -> f x = 0%nat.
Proof. induction l as [|y l IH]; cbn; [by intros _ ?%not_elem_of_nil|]. intros Hs [->|Hx]%elem_of_cons; [lia|]. apply IH; [lia|done]. Qed.

(** The thread that has the object is the only one that has. *)
Lemma sole_owner o l1 a l2 : obj_ok o -> acts o = l1 ++ a :: l2 -> owns a = 1%nat ->
  m_acquired o = true /\ (forall x, x ∈ l1 ++ l2 -> owns x = 0%nat) /\ forall r, ZkLock r ∉ m_wait_que o.
Proof.
  intros [Hown _ _ _] Ha H1. unfold owners in Hown. rewrite Ha, sum_list_with_app in Hown. cbn in Hown.
  destruct (m_acquired o); [|lia]. split; [done|]. split.
  - intros x [Hx|Hx]%elem_of_app; eapply sum_zero; try exact Hx; lia.
  - intros r Hr. enough (owns_item (ZkLock r) = 0%nat) by done. eapply sum_zero; [|exact Hr]. lia.
Qed.

Lemma swap_ok o l1 a a' l2 : obj_ok o -> acts o = l1 ++ a :: l2 -> owns a = owns a' ->
  (a' = ARelease -> m_path o = None) -> (has_node a' = true -> is_Some (m_path o)) ->
  obj_ok (set_acts (l1 ++ a' :: l2) o).
Proof.
  intros [Hown Hfree Hrel Hnode] Ha Ho Hr Hn. split; cbn; [|done| |].
  - unfold owners in *. cbn. rewrite Ha, sum_list_with_app in Hown. rewrite sum_list_with_app. cbn in *. lia.
  - rewrite elem_of_app, elem_of_cons. intros [Hx|[Hx|Hx]]; [apply Hrel; in_acts|auto|].
    apply Hrel. in_acts.
  - intros [[x [Hx Hnx]]|[r Hx]]; [|apply Hnode; eauto].
    rewrite elem_of_app, elem_of_cons in Hx. destruct Hx as [Hx|[->|Hx]]; [|by auto|];
      apply Hnode; left; exists x; in_acts.
Qed.

(** Where a thread of the object is afterwards. *)
Lemma swapped l1 (a : act) l2 x : x ∈ l1 ++ a :: l2 -> x = a \/ forall b, x ∈ l1 ++ b :: l2.
Proof. rewrite elem_of_app, elem_of_cons. intros [?|[?|?]]; [right|by left|right]; intros; in_acts. Qed.

Context `{!ZkDirLaws S}.

(** The creation of the node: it comes behind all others. *)
Lemma create_inv w p r b l1 l2 :
  inv w -> acts (obj w p) = l1 ++ AEnter r b :: l2 -> m_path (obj w p) = None ->
  inv (upd p (set_acts (l1 ++ AList r b :: l2) (set_path (Some (zk_create (srv w)).1) (obj w p)))
         (zk_create (srv w)).2 w).
Proof.
  intros [Ho Hl Hi Hh Hw] Ha Hp. set (n := (zk_create (srv w)).1).
  destruct (sole_owner _ _ _ _ (Ho p) Ha eq_refl) as (Hacq & Hothers & Hque).
  assert (forall q m, q <> p -> m_path (obj w q) = Some m -> m < n) as Hlt.
  { intros q m _ Hq. apply create_grows, (Hl q m Hq). }
  assert (forall m, least_node m (srv w) -> m ∈ zk_children (srv w) -> least_node m (zk_create (srv w)).2) as Hleast.
  { intros m Hm Hin x [->|Hx]%create_children; [|by apply Hm]. apply create_grows in Hin. lia. }
  assert (forall x, x ∈ l1 ++ AList r b :: l2 -> x = AList r b \/ exists r', x = AAcquire r') as Hacts.
  { intros x Hx. destruct (decide (x = AList r b)); [by left|right].
    assert (owns x = 0%nat) by (apply Hothers; in_acts). destruct x; try done. eauto. }
  split; cbn.
  - intros q. rewrite obj_upd. case_bool_decide; [|done]. destruct (Ho p) as [Hown _ _ _]. split; cbn.
    + unfold owners in *. cbn. rewrite Ha, sum_list_with_app in Hown. rewrite sum_list_with_app. cbn in *. lia.
    + by rewrite Hacq.
    + intros Hx%Hacts. by destruct Hx as [?|[? ?]].
    + intros _. eauto.
  - intros q m. rewrite obj_upd, create_children. case_bool_decide; cbn; [intros [= <-]; by left|].
    intros Hq. right. by apply (Hl q).
  - intros q q' m. rewrite !obj_upd. repeat case_bool_decide; subst; cbn; try done.
    + intros [= <-] Hq'. specialize (Hlt q' _ ltac:(done) Hq'). lia.
    + intros Hq [= <-]. specialize (Hlt q _ ltac:(done) Hq). lia.
    + apply Hi.
  - intros q r' m. rewrite obj_upd. case_bool_decide; cbn.
    + intros Hx%Hacts. by destruct Hx as [?|[? ?]].
    + intros Hx Hm. apply Hleast; [by apply (Hh q r')|by apply (Hl q)].
  - intros q r' b' m. rewrite obj_upd. case_bool_decide; cbn.
    + intros Hx%Hacts. by destruct Hx as [?|[? ?]].
    + intros Hx Hm. apply Hleast; [by apply (Hw q r' b')|by apply (Hl q)].
Qed.

(** An unlock succeeds, and deletes a node of the process alone. *)
Lemma unlock_inv w p r l1 l2 :
  inv w -> acts (obj w p) = l1 ++ AHold r :: l2 ->
  exists o s, zk_unlock l1 l2 (obj w p) (srv w) = Ok (o, s) /\ inv (upd p o s w).
Proof.
  intros [Ho Hl Hi Hh Hw] Ha. destruct (sole_owner _ _ _ _ (Ho p) Ha eq_refl) as (Hacq & Hothers & Hque).
  destruct (ok_node _ (Ho p)) as [n Hn]; [left; exists (AHold r); in_acts|].
  unfold zk_unlock. rewrite Hn. cbn.
  pose proof (delete_ok (srv w) n (Hl p n Hn)) as Hok.
  destruct (zk_delete n (srv w)) as [ok s] eqn:Hd. cbn in Hok. subst ok. cbn. eexists _, s. split; [done|].
  assert (forall m, m ∈ zk_children s <-> m ∈ zk_children (srv w) /\ m <> n) as Hch
    by (intros m; rewrite <- delete_children, Hd; done).
  assert (forall m, least_node m (srv w) -> least_node m s) as Hleast.
  { intros m Hm x [Hx _]%Hch. by apply Hm. }
  assert (forall x, x ∈ l1 ++ ARelease :: l2 -> x = ARelease \/ exists r', x = AAcquire r') as Hacts.
  { intros x Hx. destruct (decide (x = ARelease)); [by left|right].
    assert (owns x = 0%nat) by (apply Hothers; in_acts). destruct x; try done. eauto. }
  split; cbn.
  - intros q. rewrite obj_upd. case_bool_decide; [|done]. destruct (Ho p) as [Hown _ _ _]. split; cbn; try done.
    + unfold owners in *. cbn. rewrite Ha, sum_list_with_app in Hown. rewrite sum_list_with_app. cbn in *. lia.
    + intros [[x [Hx Hnx]]|[r' Hr]]; [|by apply Hque in Hr].
      apply Hacts in Hx as [->|[? ->]]; done.
  - intros q m. rewrite obj_upd, Hch. case_bool_decide as Hq; cbn; [done|]. intros Hm.
    split; [by apply (Hl q)|]. intros ->. by apply Hq, (Hi q p n).
  - intros q q' m. rewrite !obj_upd. repeat case_bool_decide; subst; cbn; try done. apply Hi.
  - intros q r' m. rewrite obj_upd. case_bool_decide; cbn; [done|]. intros Hx Hm. by apply Hleast, (Hh q r').
  - intros q r' b' m. rewrite obj_upd. case_bool_decide; cbn; [done|]. intros Hx Hm. by apply Hleast, (Hw q r' b').
Qed.

Lemma zk_acquire_inv w p r l :
  inv w -> acts (obj w p) = l \/ (exists l1 r' l2, acts (obj w p) = l1 ++ AAcquire r' :: l2 /\ l = l1 ++ l2) ->
  inv (upd p (acquire r (set_acts l (obj w p))) (srv w) w).
Proof.
  intros Hinv Hl. destruct (acquire_ok r l _ (i_obj _ Hinv p) Hl) as (Hok & Hacts & Hpath).
  apply inv_same; try done.
  - intros r' n Ha Hp. rewrite Hpath in Hp. destruct (Hacts _ Ha) as [Ha'|?]; [|done]. by eapply (i_hold _ Hinv).
  - intros r' b n Ha Hp. rewrite Hpath in Hp. destruct (Hacts _ Ha) as [Ha'|?]; [|done]. by eapply (i_watch _ Hinv).
Qed.

Lemma notify_inv w p o s :
  inv w -> zk_children s = zk_children (srv w) -> obj_ok o -> m_path o = m_path (obj w p) ->
  (forall a, a ∈ acts o -> a ∈ acts (obj w p)) -> inv (upd p (notify o) s w).
Proof.
  intros Hinv Hs Ho Hpath Hsub. destruct (notify_ok o Ho) as (Hok & Hp & Hacts).
  apply inv_same; try done; [congruence|..].
  - intros r' n Ha Hn. destruct (Hacts _ Ha) as [Ha'|(i & _ & ?)]; [|by destruct i].
    eapply (i_hold _ Hinv); [by apply Hsub|congruence].
  - intros r' b n Ha Hn. destruct (Hacts _ Ha) as [Ha'|(i & _ & ?)]; [|by destruct i].
    eapply (i_watch _ Hinv); [by apply Hsub|congruence].
Qed.

(** The node of a thread that waits is there; its place in the queue is its own. *)
Lemma watch_inv w p r b least l1 l2 :
  inv w -> acts (obj w p) = l1 ++ AWatch r b least :: l2 ->
  let '(o, s) := zk_watch p r least l1 l2 (obj w p) (srv w) in inv (upd p o s w).
Proof.
  intros Hinv Ha. pose proof (i_obj _ Hinv p) as Hok.
  destruct (ok_node _ Hok) as [n Hn]; [left; exists (AWatch r b least); in_acts|].
  unfold zk_watch. case_bool_decide as Hc.
  - apply inv_same; cbn; try done; [apply exists_children|by eapply swap_ok; eauto| |].
    + intros r' n' Hx Hn'. destruct (swapped _ _ _ _ Hx) as [Heq|Hx'].
      * assert (n' = least) as -> by congruence. apply (i_watch _ Hinv p r b); [in_acts|done].
      * eapply (i_hold _ Hinv p); [rewrite Ha; apply Hx'|done].
    + intros r' b' n' Hx Hn'. destruct (swapped _ _ _ _ Hx) as [?|Hx']; [done|].
      eapply (i_watch _ Hinv p); [rewrite Ha; apply Hx'|done].
  - apply inv_same; cbn; try done; [apply exists_children| | |].
    + destruct Hok as [Hown Hfree Hrel Hnode]. split; cbn; try done;
        [|intros Hx; apply Hrel; in_acts].
      unfold owners in *. cbn. rewrite Ha, sum_list_with_app in Hown. rewrite sum_list_with_app. cbn in *. lia.
    + intros r' n' Hx. eapply (i_hold _ Hinv p r'). in_acts.
    + intros r' b' n' Hx. eapply (i_watch _ Hinv p r' b'). in_acts.
Qed.

Lemma zk_step_inv w x : inv w -> step w x -> exists w', x = Ok w' /\ inv w'.
Proof.
  intros Hinv Hstep. pose proof (i_obj _ Hinv) as Hok.
  destruct Hstep as [p r Hf|p r l1 l2 Ha Hf|p r b l1 l2 Ha|p r b l1 l2 Ha|p r b least l1 l2 Ha|p r l1 l2 Ha|p l1 l2 Ha Hf|p n He Hf].
  - eexists. split; [done|]. replace (obj w p) with (set_acts (acts (obj w p)) (obj w p)) by by destruct (obj w p).
    apply zk_acquire_inv; [done|by left].
  - eexists. split; [done|]. apply zk_acquire_inv; [done|right; eauto].
  - unfold zk_enter. destruct (m_path (obj w p)) as [n|] eqn:Hp.
    + eexists. split; [done|]. apply inv_same; cbn; try done.
      * by eapply swap_ok; eauto.
      * intros r' n' Hx. destruct (swapped _ _ _ _ Hx) as [?|Hx']; [done|]. eapply (i_hold _ Hinv). rewrite Ha. apply Hx'.
      * intros r' b' n' Hx. destruct (swapped _ _ _ _ Hx) as [?|Hx']; [done|]. eapply (i_watch _ Hinv). rewrite Ha. apply Hx'.
    + destruct (zk_create (srv w)) as [n s] eqn:Hc. eexists. split; [done|].
      pose proof (create_inv w p r b l1 l2 Hinv Ha Hp) as Hi. by rewrite Hc in Hi.
  - eexists. split; [done|]. destruct (ok_node _ (Hok p)) as [n Hn]; [left; exists (AList r b); in_acts|].
    apply inv_same; cbn; try done.
    + by eapply swap_ok; eauto.
    + intros r' n' Hx. destruct (swapped _ _ _ _ Hx) as [?|Hx']; [done|]. eapply (i_hold _ Hinv). rewrite Ha. apply Hx'.
    + intros r' b' n' Hx Hn'. destruct (swapped _ _ _ _ Hx) as [[= -> -> ->]|Hx']; [apply least_seq_node|].
      eapply (i_watch _ Hinv); [rewrite Ha; apply Hx'|done].
  - pose proof (watch_inv w p r b least l1 l2 Hinv Ha) as Hi. destruct (zk_watch _ _ _ _ _ _ _). eauto.
  - destruct (unlock_inv w p r l1 l2 Hinv Ha) as (o & s & -> & Hi). cbn. eauto.
  - eexists. split; [done|]. unfold release. cbn.
    destruct (sole_owner _ _ _ _ (Hok p) Ha eq_refl) as (Hacq & Hothers & Hque).
    pose proof (ok_released _ (Hok p)) as Hrel. rewrite Ha in Hrel. specialize (Hrel ltac:(in_acts)).
    apply notify_inv; try done; cbn; [|intros a Hx; in_acts].
    destruct (Hok p) as [Hown Hfree Hr Hnode]. split; cbn; try done.
    + unfold owners in *. cbn. rewrite Ha, sum_list_with_app, Hacq in Hown. rewrite sum_list_with_app. cbn in *. lia.
    + intros [[x [Hx Hnx]]|[r' Hx]]; [|by apply Hque in Hx]. specialize (Hothers x Hx). by destruct x.
  - eexists. split; [done|]. apply notify_inv; try done. apply deliver_children.
Qed.

Definition start (s : S) : world := MkWorld ∅ s.

Lemma start_inv s : inv (start s).
Proof.
  assert (forall p, obj (start s) p = new_lock) as Hobj by (intros p; unfold obj; cbn; by rewrite lookup_empty).
  split; intros p; rewrite !Hobj; try done.
  split; try done. intros [[a [Ha%not_elem_of_nil _]]|[r Hr%not_elem_of_nil]]; done.
Qed.

(** C17: the distributed lock is exclusive: over any interleaving of the callers, the
    unlocks and the watch events of any number of processes, with any service that
    keeps the laws of zookeeper, no assertion fails and at most one caller in all
    processes has the lock. *)
Theorem zk_lock_exclusive (s : S) (w : world) :
  rtc step_ok (start s) w ->
  (forall x, step w x -> exists w', x = Ok w') /\
  forall p q l1 l2 k1 k2 r r', acts (obj w p) = l1 ++ AHold r :: l2 -> acts (obj w q) = k1 ++ AHold r' :: k2 ->
    p = q /\ l1 = k1 /\ r = r' /\ l2 = k2.
Proof.
  intros Hr. assert (inv w) as Hinv.
  { revert w Hr. apply rtc_ind_r; [apply start_inv|]. intros w1 w2 _ Hs IH.
    destruct (zk_step_inv _ _ IH Hs) as (w' & [= <-] & ?). done. }
  split; [intros x Hx; destruct (zk_step_inv _ _ Hinv Hx) as (w' & -> & _); eauto|].
  intros p q l1 l2 k1 k2 r r' Hp Hq. pose proof (i_obj _ Hinv) as Hok.
  destruct (ok_node _ (Hok p)) as [n Hn]; [left; exists (AHold r); in_acts|].
  destruct (ok_node _ (Hok q)) as [m Hm]; [left; exists (AHold r'); in_acts|].
  assert (n = m) as ->.
  { assert (n <= m) by (eapply (i_hold _ Hinv p r n); [in_acts|done|by apply (i_live _ Hinv q)]).
    assert (m <= n) by (eapply (i_hold _ Hinv q r' m); [in_acts|done|by apply (i_live _ Hinv p)]). lia. }
  assert (p = q) as <- by (by eapply (i_inj _ Hinv)). split; [done|].
  destruct (sole_owner _ _ _ _ (Hok p) Hp eq_refl) as (_ & Hothers & _).
  rewrite Hp in Hq. clear -Hq Hothers. revert k1 Hq Hothers.
  induction l1 as [|x l1 IH]; intros [|y k1]; cbn; intros Hq Hothers; injection Hq as Hx Hq; subst.
  - done.
  - enough (owns (AHold r') = 0%nat) by done. apply Hothers. in_acts.
  - enough (owns (AHold r') = 0%nat) by done. apply Hothers. constructor.
  - destruct (IH k1 Hq) as (-> & -> & ->); [|done]. intros x Hx. apply Hothers. by constructor.
Qed.

(** ** A wake-up that is lost *)

(** A thread that will not get the lock while [n] is the least node. *)
Definition calm (n : Z) (path : option Z) (a : act) : Prop :=
  match a with
  | AAcquire _ => True
  | AEnter _ _ | AList _ _ => path <> Some n
  | AWatch _ _ l => path <> Some n /\ l = n
  | AHold _ | ARelease => False
  end.

(** The least node [n] belongs to a caller that waits and that nobody will wake. *)
Record stuck (p0 r0 n : Z) (w : world) : Prop := {
  st_inv : inv w;
  st_quiet : zk_pending (srv w) = [];
  st_least : n ∈ zk_children (srv w) /\ least_node n (srv w) /\ n < INT_MAX;
  st_wait : m_path (obj w p0) = Some n /\ ZkLock r0 ∈ m_wait_que (obj w p0);
  st_acts : forall p a, a ∈ acts (obj w p) ->
    calm n (m_path (obj w p)) a
}.

Lemma least_exact (s : S) n : n ∈ zk_children s -> least_node n s -> n < INT_MAX ->
  get_least_seq (zk_children s) = n.
Proof.
  intros Hin Hle Hmax. pose proof (least_seq_node s n Hin) as H1.
  enough (n <= get_least_seq (zk_children s)) by lia. unfold get_least_seq. unfold least_node in Hle.
  clear Hin H1. revert Hle. generalize (zk_children s). intros l. assert (n <= INT_MAX) as Hacc by lia.
  revert Hacc. clear Hmax. generalize INT_MAX. induction l as [|x l IH]; intros acc Hacc Hle; cbn; [done|].
  assert (n <= x) by (apply Hle; constructor).
  apply IH; [destruct (x <? acc); done|]. intros m Hm. apply Hle. by constructor.
Qed.

(** A step of another process, or one that only adds to the queue. *)
Lemma stuck_step p0 r0 n w p o s :
  stuck p0 r0 n w -> inv (upd p o s w) -> zk_pending s = [] ->
  n ∈ zk_children s /\ least_node n s ->
  (p = p0 -> m_path o = Some n /\ ZkLock r0 ∈ m_wait_que o) ->
  (forall a, a ∈ acts o -> calm n (m_path o) a) ->
  stuck p0 r0 n (upd p o s w).
Proof.
  intros [Hi Hq (Hin & Hle & Hmax) Hw Ha] Hi' Hq' [Hin' Hle'] Hwait Hacts. split; try done.
  - rewrite obj_upd. case_bool_decide; auto.
  - intros q a. rewrite obj_upd. case_bool_decide; [apply Hacts|apply Ha].
Qed.

Lemma stuck_acquire p0 r0 n w p r l :
  stuck p0 r0 n w -> (forall a, a ∈ l -> a ∈ acts (obj w p)) ->
  inv (upd p (acquire r (set_acts l (obj w p))) (srv w) w) ->
  stuck p0 r0 n (upd p (acquire r (set_acts l (obj w p))) (srv w) w).
Proof.
  intros Hst Hsub Hinv'. pose proof Hst as [Hinv Hq (Hin & Hle & _) [Hp0 Hw0] Hacts].
  assert (m_acquired (obj w p) = false -> m_path (obj w p) = None) as Hfree by apply (i_obj _ Hinv p).
  apply stuck_step; try done; unfold acquire; cbn; destruct (m_acquired (obj w p)) eqn:E; cbn.
  - intros ->. split; [done|]. apply elem_of_app. by left.
  - intros ->. by rewrite Hfree in Hp0.
  - intros a Hx. by apply Hacts, Hsub.
  - intros a [Ha%Hsub|Ha%list_elem_of_singleton]%elem_of_app; [by apply Hacts|]. subst a. cbn. by rewrite Hfree.
Qed.

Lemma stuck_enter p0 r0 n w p r b l1 l2 o s :
  stuck p0 r0 n w -> acts (obj w p) = l1 ++ AEnter r b :: l2 ->
  zk_enter r b l1 l2 (obj w p) (srv w) = (o, s) -> inv (upd p o s w) -> stuck p0 r0 n (upd p o s w).
Proof.
  intros Hst Ha Heq Hinv'. pose proof Hst as [Hinv Hq (Hin & Hle & _) [Hp0 Hw0] Hacts].
  pose proof (Hacts p (AEnter r b) ltac:(in_acts)) as Hne. cbn in Hne.
  assert (p <> p0) as Hpp by (by intros ->).
  assert (forall path a, path <> Some n -> a ∈ l1 ++ AList r b :: l2 -> calm n path a) as Hcalm.
  { intros path a Hpath Hx. destruct (swapped _ _ _ _ Hx) as [->|Hx']; [done|].
    assert (a ∈ acts (obj w p)) as Hold by (rewrite Ha; apply Hx').
    specialize (Hacts p a Hold). destruct a; try done. by destruct Hacts. }
  unfold zk_enter in Heq. destruct (m_path (obj w p)) as [m|] eqn:Hp.
  - injection Heq as <- <-. apply stuck_step; try done. cbn. rewrite Hp. intros a. by apply Hcalm.
  - pose proof (create_pending (srv w)) as Hcp. pose proof (create_grows (srv w) n Hin) as Hcg.
    pose proof (create_children (srv w)) as Hcc. destruct (zk_create (srv w)) as [m s']. cbn in *.
    injection Heq as <- <-. apply stuck_step; try done; [by rewrite Hcp| |].
    + split; [apply Hcc; by right|]. intros x [->|Hx]%Hcc; [lia|by apply Hle].
    + cbn. intros a. apply Hcalm. intros [= ->]. lia.
Qed.

Lemma stuck_preserved p0 r0 n w w' : stuck p0 r0 n w -> step_ok w w' -> stuck p0 r0 n w'.
Proof.
  intros Hst Hstep. pose proof Hst as [Hinv Hq (Hin & Hle & Hmax) [Hp0 Hw0] Hacts].
  destruct (zk_step_inv w _ Hinv Hstep) as (w2 & [= <-] & Hinv'). unfold step_ok in Hstep.
  inversion Hstep as [p r Hf Heq|p r l1 l2 Ha Hf Heq|p r b l1 l2 Ha Heq|p r b l1 l2 Ha Heq
    |p r b least l1 l2 Ha Heq|p r l1 l2 Ha Heq|p l1 l2 Ha Hf Heq|p m He Hf Heq]; subst.
  - replace (obj w p) with (set_acts (acts (obj w p)) (obj w p)) in * by by destruct (obj w p).
    by apply stuck_acquire.
  - apply stuck_acquire; try done. intros a Hx. in_acts.
  - destruct (zk_enter r b l1 l2 (obj w p) (srv w)) as [o s] eqn:He. injection Heq as <-.
    by eapply stuck_enter.
  - pose proof (Hacts p (AList r b) ltac:(in_acts)) as Hne. cbn in Hne.
    apply stuck_step; try done; [by intros ->|]. cbn. intros a Hx.
    destruct (swapped _ _ _ _ Hx) as [->|Hx']; [|apply Hacts; rewrite Ha; apply Hx'].
    split; [done|]. by apply least_exact.
  - destruct (Hacts p (AWatch r b least) ltac:(in_acts)) as [Hne ->].
    unfold zk_watch in Heq. rewrite bool_decide_eq_false_2 in Heq by done. injection Heq as <-.
    apply stuck_step; try done.
    + by rewrite exists_pending.
    + unfold least_node. by rewrite exists_children.
    + by intros ->.
    + cbn. intros a Hx. apply Hacts. in_acts.
  - by destruct (Hacts p (AHold r) ltac:(in_acts)).
  - by destruct (Hacts p ARelease ltac:(in_acts)).
  - rewrite Hq in He. by apply not_elem_of_nil in He.
Qed.

Lemma stuck_forever p0 r0 n w w' p r :
  stuck p0 r0 n w -> rtc step_ok w w' -> (AHold r ∉ acts (obj w' p)) /\ ZkLock r0 ∈ m_wait_que (obj w' p0).
Proof.
  intros Hst Hr. assert (stuck p0 r0 n w') as [_ _ _ [_ Hw] Ha].
  { revert w' Hr. apply rtc_ind_r; [done|]. intros w1 w2 _ Hs IH. by eapply stuck_preserved. }
  split; [|done]. intros Hx. by apply (Ha p _ Hx).
Qed.
End Steps.

(** ** A service that keeps the laws *)
Record dir := MkDir { d_nodes : list Z; d_next : Z; d_watches : list (Z * Z); d_events : list (Z * Z) }.

#[global] Instance dir_ops : ZkDir dir := {
  zk_children := d_nodes;
  zk_pending := d_events;
  zk_create d :=
    let n := foldr Z.max (d_next d) (Z.succ <$> d_nodes d) in
    (n, MkDir (d_nodes d ++ [n]) (n + 1) (d_watches d) (d_events d));
  zk_delete m d :=
    (bool_decide (m ∈ d_nodes d),
     MkDir (filter (fun n => n <> m) (d_nodes d)) (d_next d) (filter (fun e => e.2 <> m) (d_watches d))
       (d_events d ++ filter (fun e => e.2 = m) (d_watches d)));
  zk_exists p m d :=
    (bool_decide (m ∈ d_nodes d),
     if bool_decide (m ∈ d_nodes d)
     then MkDir (d_nodes d) (d_next d) (d_watches d ++ [(p, m)]) (d_events d) else d);
  zk_deliver e d := MkDir (d_nodes d) (d_next d) (d_watches d) (filter (fun x => x <> e) (d_events d))
}.

#[global] Instance dir_laws : ZkDirLaws dir.
Proof.
  split; cbn.
  - intros d n Hn. induction (d_nodes d) as [|x l IH]; cbn; [by apply not_elem_of_nil in Hn|].
    apply elem_of_cons in Hn as [->|Hn]; [lia|]. specialize (IH Hn). lia.
  - intros d n. rewrite elem_of_app, list_elem_of_singleton. tauto.
  - done.
  - intros d m n. rewrite list_elem_of_filter. tauto.
  - intros d m Hm. by apply bool_decide_eq_true_2.
  - intros d p m. by case_bool_decide.
  - intros d p m. by case_bool_decide.
  - done.
Qed.

(** ** A lock that nobody gets any more

    Process 1 has the lock.  Process 2 creates its node and lists the directory;
    before it sets the watch on the node of process 1, that node is deleted. *)
Module Lost.
Definition o1 (a : list act) : lockobj := MkLock true [] (Some 0) a.
Definition o2 (a : list act) : lockobj := MkLock true [] (Some 1) a.
Definition two : lockobj := o2 [AWatch 2 true 0].
Definition w0 : world := start (MkDir [] 0 [] []).
Definition w4 : world :=
  MkWorld (<[1 := o1 [AHold 1]]> ∅) (MkDir [0] 1 [(1, 0)] []).
Definition w7 : world :=
  MkWorld (<[2 := two]> (<[1 := o1 [AHold 1]]> ∅)) (MkDir [0; 1] 2 [(1, 0)] []).
Definition w10 : world :=
  MkWorld (<[2 := two]> (<[1 := new_lock]> ∅)) (MkDir [1] 2 [] []).
Definition w11 : world :=
  MkWorld (<[2 := MkLock true [ZkLock 2] (Some 1) []]> (<[1 := new_lock]> ∅)) (MkDir [1] 2 [] []).

Lemma free_nil q n : spin_free (MkLock q [] n []).
Proof. by intros a ?%not_elem_of_nil. Qed.

Ltac go s := eapply rtc_l; [exact s|].
Ltac stop := match goal with |- rtc _ ?a ?b => replace a with b by (vm_compute; reflexivity); apply rtc_refl end.

Lemma run1 : rtc step_ok w0 w4.
Proof.
  go (step_lock w0 1 1 (free_nil _ _)).
  go (step_enter (upd 1 (MkLock true [] None [AEnter 1 true]) (srv w0) w0) 1 1 true [] [] eq_refl).
  go (step_list (upd 1 (o1 [AList 1 true]) (MkDir [0] 1 [] []) w0) 1 1 true [] [] eq_refl).
  go (step_watch (upd 1 (o1 [AWatch 1 true 0]) (MkDir [0] 1 [] []) w0) 1 1 true 0 [] [] eq_refl).
  stop.
Qed.

Lemma run2 : rtc step_ok w4 w7.
Proof.
  go (step_lock w4 2 2 (free_nil _ _)).
  go (step_enter (upd 2 (MkLock true [] None [AEnter 2 true]) (srv w4) w4) 2 2 true [] [] eq_refl).
  go (step_list (upd 2 (o2 [AList 2 true]) (MkDir [0; 1] 2 [(1, 0)] []) w4) 2 2 true [] [] eq_refl).
  stop.
Qed.

Lemma run3 : rtc step_ok w7 w11.
Proof.
  go (step_unlock w7 1 1 [] [] eq_refl).
  go (step_release (upd 1 (MkLock true [] None [ARelease]) (MkDir [1] 2 [] [(1, 0)]) w7) 1 [] [] eq_refl
        ltac:(intros a Ha%list_elem_of_singleton; by subst)).
  go (step_event (upd 1 new_lock (MkDir [1] 2 [] [(1, 0)]) w7) 1 0 (list_elem_of_here _ _)
        (free_nil _ _)).
  go (step_watch w10 2 2 true 0 [] [] eq_refl).
  stop.
Qed.

Lemma reached : rtc step_ok w0 w11.
Proof. etransitivity; [apply run1|]. etransitivity; [apply run2|apply run3]. Qed.

Lemma w11_stuck : stuck 2 2 1 w11.
Proof.
  assert (forall p a, a ∉ acts (obj w11 p)) as Hnone.
  { intros p a. unfold obj, w11. cbn. destruct (decide (p = 2)) as [->|H2]; [apply not_elem_of_nil|].
    rewrite lookup_insert_ne by done. destruct (decide (p = 1)) as [->|H1]; [apply not_elem_of_nil|].
    rewrite lookup_insert_ne, lookup_empty by done. apply not_elem_of_nil. }
  split.
  - generalize reached. generalize w11. apply rtc_ind_r; [apply start_inv|]. intros w1 w2 _ Hs IH.
    destruct (zk_step_inv _ _ IH Hs) as (w' & [= <-] & ?). done.
  - done.
  - split; [constructor|]. split; [|done]. intros m ->%list_elem_of_singleton. done.
  - split; [done|constructor].
  - intros p a Ha. by apply Hnone in Ha.
Qed.
End Lost.

(** C40: a wake-up of the distributed lock can be lost for good: get_least_seq sets its
    watch after it has listed the directory and zk_lock ignores that the node
    is gone.  From the world that is reached here on, whatever any process does,
    nobody ever gets the lock, although nobody has it. *)
Theorem zk_lock_lost_wakeup :
  exists w : world (S := dir), rtc step_ok (start (MkDir [] 0 [] [])) w /\
    forall w', rtc step_ok w w' ->
      ZkLock 2 ∈ m_wait_que (obj w' 2) /\ forall p r, AHold r ∉ acts (obj w' p).
Proof.
  exists Lost.w11. split; [apply Lost.reached|]. intros w' Hr. split.
  - by apply (stuck_forever 2 2 1 Lost.w11 w' 0 0 Lost.w11_stuck).
  - intros p r. by apply (stuck_forever 2 2 1 Lost.w11 w' p r Lost.w11_stuck).
Qed.

Lemma zk_lock_exclusive_witness :
  acts (obj Lost.w4 1) = [AHold 1] /\
  forall p q l1 l2 k1 k2 r r', acts (obj Lost.w4 p) = l1 ++ AHold r :: l2 ->
    acts (obj Lost.w4 q) = k1 ++ AHold r' :: k2 -> p = q /\ l1 = k1 /\ r = r' /\ l2 = k2.
Proof. split; [reflexivity|]. apply (zk_lock_exclusive (MkDir [] 0 [] []) Lost.w4 Lost.run1). Defined.
