(* ===== verification/ZkEngine.v ===== *)
(** * The names of the zookeeper engine

    src/zookeeper.cpp and include/mola/zookeeper.hpp: the names of the directories,
    the node and client ids in them, and zk_watcher, which turns the name of a
    deleted node into the lock to wake or the node to forget.

    What the service answers is an argument: the name it gives to a sequential
    node. *)
From Stdlib Require Import Ascii String.
From stdpp Require Import base list numbers.
From S2P Require Import Prelude Text.

#[local] Open Scope list_scope.

Definition slash : ascii := "/"%char.
Definition nul : ascii := ascii_of_N 0.
#[local] Arguments wrap : simpl never.

(** ** The name space *)

(** The constructor of ZookeeperEngine *)
Definition NM_ZNODE (ns : option text) : text :=
  match ns with
  | None | Some [] => txt "/MOLA"
  | Some ns => slash :: ns
  end.
Definition NODE_ZNODE (ns : option text) : text := NM_ZNODE ns ++ txt "/NODES".
Definition MODULE_ZNODE (ns : option text) : text := NM_ZNODE ns ++ txt "/MODULES".
Definition LOCK_ZNODE (ns : option text) : text := NM_ZNODE ns ++ txt "/LOCKS".
Definition CLIENT_ZNODE (ns : option text) : text := NM_ZNODE ns ++ txt "/CLIENTS".
Definition EVENT_ZNODE (ns : option text) : text := NM_ZNODE ns ++ txt "/EVENTS".

(** ** Ids *)
Definition ZKID_TO_CLIENTID (id : Z) : Z := u32 (id + 65536).
Definition CLIENTID_TO_ZKID (id : Z) : Z := u32 (id - 65536).
Definition ZKID_TO_NODEID (id : Z) : Z := u32 (id + 1).
Definition NODEID_TO_ZKID (id : Z) : Z := u32 (id - 1).
Definition IS_CLIENT_ID (id : Z) : bool := 65536 <=? id.

(** ** Formats *)

(** %010d of a number that is not negative *)
Definition pad10 (n : Z) : text :=
  let s := show_dec n in repeat "0"%char (10 - length s) ++ s.

(** %010d of sscanf: blanks, then at most ten characters of a signed number *)
Definition scan_int10 (s : text) : option Z :=
  let s := take 10 (drop_ws s) in
  match span_digits (drop_sign s) with
  | ([], _) => None
  | (ds, _) => Some (u32 (if is_minus s then - dec_value ds else dec_value ds))
  end.

Definition strip (pre s : text) : option text :=
  if bool_decide (take (length pre) s = pre) then Some (drop (length pre) s) else None.

(** "/%010d" *)
Definition scan_id (s : text) : option Z :=
  match s with
  | c :: s => if bool_decide (c = slash) then scan_int10 s else None
  | [] => None
  end.

(** "/%lu/%s": None unless both conversions succeed *)
Definition scan_lock (s : text) : option Z :=
  match s with
  | c :: s =>
      if bool_decide (c = slash) then
        '(id, s) ← read_unsigned 64 s;
        match s with
        | c :: s => if bool_decide (c = slash) then _ ← read_word s; Some id else None
        | [] => None
        end
      else None
  | [] => None
  end.

(** The C string in a buffer. *)
Fixpoint c_string (buf : text) : text :=
  match buf with
  | [] => []
  | c :: buf => if bool_decide (c = nul) then [] else c :: c_string buf
  end.

(** strncpy(buf, s, n) for a source that has at least n characters: no zero is
    written behind them. *)
Definition strncpy (buf s : text) (n : nat) : text := take n s ++ drop n buf.

Fixpoint index_of_slash (s : text) : option nat :=
  match s with
  | [] => None
  | c :: s => if bool_decide (c = slash) then Some O else S <$> index_of_slash s
  end.

(** ** zk_watcher on ZOO_DELETED_EVENT *)
Inductive deleted :=
| Wakeup (zone : text) (id : Z)
| NodeOffline (id : Z).

Section Engine.
Context (ns : option text).

(** The part for locks; [buf] is what the stack buffer [zone] holds. *)
Definition watch_lock (buf path : text) : option deleted :=
  match strip (LOCK_ZNODE ns) path with
  | Some (c :: p) =>
      if bool_decide (c = slash) then
        k ← index_of_slash p;
        id ← scan_lock (drop k p);
        Some (Wakeup (c_string (strncpy buf p k)) id)
      else None
  | _ => None
  end.

Definition watch_deleted (buf path : text) : outcome deleted :=
  match watch_lock buf path with
  | Some d => mret d
  | None =>
      match strip (NODE_ZNODE ns) path ≫= scan_id with
      | Some id => mret (NodeOffline (ZKID_TO_NODEID id))
      | None =>
          match strip (CLIENT_ZNODE ns) path ≫= scan_id with
          | Some id => mret (NodeOffline (ZKID_TO_CLIENTID id))
          | None => Fault AssertFailed
          end
      end
  end.

(** join: the id of this node, from the name that zoo_create made. *)
Definition join (client : bool) (my_path : text) : outcome Z :=
  let path := (if client then CLIENT_ZNODE ns else NODE_ZNODE ns) ++ [slash] in
  match strip path my_path ≫= scan_int10 with
  | Some id => mret (if client then ZKID_TO_CLIENTID id else ZKID_TO_NODEID id)
  | None => Fault AssertFailed
  end.

(** leave: the node that is deleted. *)
Definition leave_path (client : bool) (id : Z) : text :=
  if client then CLIENT_ZNODE ns ++ slash :: pad10 (CLIENTID_TO_ZKID id)
  else NODE_ZNODE ns ++ slash :: pad10 (NODEID_TO_ZKID id).

(** _find_node: the node whose record is read. *)
Definition find_path (nid : Z) : text :=
  if IS_CLIENT_ID nid then CLIENT_ZNODE ns ++ slash :: pad10 (CLIENTID_TO_ZKID nid)
  else NODE_ZNODE ns ++ slash :: pad10 (NODEID_TO_ZKID nid).

(** unlock: the node of a lock, with the number that zookeeper gave it. *)
Definition lock_path (zone : text) (id seq : Z) : text :=
  LOCK_ZNODE ns ++ slash :: zone ++ slash :: show_dec id ++ slash :: pad10 seq.

(** ** Facts about the formats *)
Lemma strip_app pre s : strip pre (pre ++ s) = Some s.
Proof. unfold strip. by rewrite take_app_length, drop_app_length, bool_decide_eq_true_2. Qed.

Lemma strip_other (pre a t : text) : take (length a) t <> a -> strip (pre ++ a) (pre ++ t) = None.
Proof.
  intros Hne. unfold strip. rewrite bool_decide_eq_false_2; [done|]. intros H. apply Hne.
  rewrite length_app, firstn_app_2 in H. by apply app_inv_head in H.
Qed.

Lemma dec_digits_length fuel k n :
  0 <= n < 10 ^ Z.of_nat (S k) -> (length (dec_digits fuel n) <= S k)%nat.
Proof.
  revert k n; induction fuel as [|fuel IH]; intros k n Hn; cbn [dec_digits]; [cbn; lia|].
  destruct (Z.ltb_spec n 10); [cbn; lia|]. rewrite length_app. cbn [length].
  rewrite Nat2Z.inj_succ, Z.pow_succ_r in Hn by lia.
  destruct k as [|k]; [cbn in Hn; lia|]. rewrite Nat2Z.inj_succ in Hn.
  assert (0 <= n / 10 < 10 ^ Z.of_nat (S k)) as Hd.
  { split; [apply Z.div_pos; lia|]. rewrite Nat2Z.inj_succ. apply Z.div_lt_upper_bound; lia. }
  specialize (IH _ _ Hd). lia.
Qed.

Lemma pad10_digits n : 0 <= n -> Forall (fun c => is_digit c = true) (pad10 n).
Proof.
  intros Hn. unfold pad10. apply Forall_app. split; [|by apply dec_digits_digits].
  apply Forall_forall. by intros c ->%repeat_spec.
Qed.

Lemma pad10_length n : 0 <= n < 10 ^ 10 -> length (pad10 n) = 10%nat.
Proof.
  intros Hn. unfold pad10, show_dec. pose proof (dec_digits_length 20 9 n Hn).
  rewrite length_app, repeat_length. lia.
Qed.

Lemma dec_value_app a b : dec_value (a ++ b) = foldl (fun a c => 10 * a + (code c - 48)) (dec_value a) b.
Proof. unfold dec_value. by rewrite foldl_app. Qed.

Lemma pad10_value n : 0 <= n < 10 ^ 10 -> dec_value (pad10 n) = n.
Proof.
  intros Hn. unfold pad10. rewrite dec_value_app.
  assert (forall k, dec_value (repeat "0"%char k) = 0) as ->.
  { unfold dec_value. induction k as [|k IH]; cbn; [done|exact IH]. }
  unfold show_dec. apply (dec_digits_value 20 n). cbn. lia.
Qed.

(** A number in the ten digits of zookeeper is read back. *)
Lemma scan_pad10 n : 0 <= n < 10 ^ 10 -> n < 2 ^ 32 -> scan_int10 (pad10 n) = Some n.
Proof.
  intros Hn H32. unfold scan_int10. pose proof (pad10_digits n ltac:(lia)) as Hd.
  pose proof (pad10_length n Hn) as Hl. pose proof (pad10_value n Hn) as Hv.
  destruct (pad10 n) as [|c s] eqn:He; [done|]. apply Forall_cons_1 in Hd as [Hc Hs].
  assert (drop_ws (c :: s) = c :: s) as -> by (cbn; by rewrite (digit_not_space c Hc)).
  rewrite firstn_all2 by lia. pose proof Hc as Hc'. unfold is_digit in Hc'.
  assert (drop_sign (c :: s) = c :: s) as -> by (cbn; by rewrite (proj2 (orb_false_iff _ _)) by lia).
  assert (is_minus (c :: s) = false) as -> by (cbn; lia).
  rewrite <- (app_nil_r (c :: s)), span_digits_app by (by constructor || done).
  rewrite Hv. by rewrite wrap_small by width_lia.
Qed.

(** A node finds itself again by the name that zookeeper gave it: the id that join
    computes from the name of a node or a client leads leave back to that name, and the watcher of another
    process that sees the name deleted forgets that id. *)
Theorem node_name_roundtrip (client : bool) (n : Z) (buf : text) :
  0 <= n < 2 ^ 31 ->
  let my_path := (if client then CLIENT_ZNODE ns else NODE_ZNODE ns) ++ slash :: pad10 n in
  exists id, join client my_path = Ok id /\ leave_path client id = my_path /\
    watch_deleted buf my_path = Ok (NodeOffline id).
Proof.
  intros Hn my_path. assert (scan_int10 (pad10 n) = Some n) as Hscan by (apply scan_pad10; lia).
  exists (if client then ZKID_TO_CLIENTID n else ZKID_TO_NODEID n). split; [|split].
  - unfold join, my_path. destruct client; rewrite (app_assoc _ [slash] (pad10 n)), strip_app;
      cbn [mbind option_bind]; by rewrite Hscan.
  - unfold leave_path, my_path, CLIENTID_TO_ZKID, ZKID_TO_CLIENTID, NODEID_TO_ZKID, ZKID_TO_NODEID.
    destruct client; do 3 f_equal; rewrite wrap_sub_l, wrap_small by width_lia; lia.
  - unfold watch_deleted, watch_lock, my_path, CLIENT_ZNODE, NODE_ZNODE, LOCK_ZNODE.
    destruct client; rewrite <- !app_assoc, strip_other by done; rewrite app_assoc.
    + rewrite <- app_assoc, strip_other by done. rewrite app_assoc, strip_app. cbn [mbind option_bind scan_id].
      by rewrite bool_decide_eq_true_2, Hscan.
    + rewrite strip_app. cbn [mbind option_bind scan_id]. by rewrite bool_decide_eq_true_2, Hscan.
Qed.

(** The id of a node leads other nodes to its record exactly as long as it is below
    65536: the numbers of the nodes grow with every join, and from the 65536th
    on _find_node takes the id for a client's. *)
Theorem node_found_iff_small (n : Z) :
  0 <= n < 2 ^ 31 ->
  find_path (ZKID_TO_NODEID n) = NODE_ZNODE ns ++ slash :: pad10 n <-> n < 65535.
Proof.
  intros Hn. unfold find_path, IS_CLIENT_ID, ZKID_TO_NODEID, NODEID_TO_ZKID. rewrite wrap_sub_l.
  rewrite (wrap_small 32 (n + 1)) by width_lia. destruct (Z.leb_spec 65536 (n + 1)); split; try lia.
  - unfold CLIENT_ZNODE, NODE_ZNODE. rewrite <- !app_assoc. intros Heq%app_inv_head. discriminate Heq.
  - intros _. do 3 f_equal. rewrite wrap_small by width_lia. lia.
Qed.

(** ** The zone of a lock *)
Lemma index_of_slash_app zone rest :
  Forall (fun c => c <> slash) zone -> index_of_slash (zone ++ slash :: rest) = Some (length zone).
Proof.
  induction 1 as [|c zone Hc Hz IH]; cbn; [done|]. rewrite bool_decide_eq_false_2 by done. by rewrite IH.
Qed.

Lemma c_string_app a b : Forall (fun c => c <> nul) a -> c_string (a ++ b) = a ++ c_string b.
Proof. induction 1 as [|c a Hc Ha IH]; cbn; [done|]. rewrite bool_decide_eq_false_2 by done. by rewrite IH. Qed.

Lemma read_word_some s : s <> [] -> Forall (fun c => is_digit c = true) s -> is_Some (read_word s).
Proof.
  intros Hne Hs. destruct Hs as [|c s Hc Hs]; [done|]. unfold read_word. cbn. rewrite (digit_not_space c Hc). cbn.
  rewrite (digit_not_space c Hc). destruct (span_word s). eauto.
Qed.

(** The watcher wakes the waiters of a lock under a zone to which the old contents of a
    stack buffer are appended: strncpy writes no zero behind the name.  The right
    lock is woken only if a zero happens to be there. *)
Theorem unlock_event_zone (zone buf : text) (id seq : Z) :
  Forall (fun c => c <> slash) zone -> Forall (fun c => c <> nul) zone ->
  0 <= id < 2 ^ 64 -> 0 <= seq < 2 ^ 31 ->
  watch_deleted buf (lock_path zone id seq) = Ok (Wakeup (zone ++ c_string (drop (length zone) buf)) id).
Proof.
  intros Hs Hz Hid Hseq. unfold watch_deleted, watch_lock, lock_path. rewrite strip_app.
  rewrite bool_decide_eq_true_2, index_of_slash_app by done. cbn [mbind option_bind].
  rewrite drop_app_length. unfold scan_lock. rewrite bool_decide_eq_true_2 by done.
  rewrite read_show by (cbn; lia || done). cbn [mbind option_bind].
  rewrite bool_decide_eq_true_2 by done.
  destruct (read_word_some (pad10 seq)) as [w ->].
  { intros He. pose proof (pad10_length seq ltac:(lia)) as Hl. by rewrite He in Hl. }
  { apply pad10_digits. lia. }
  cbn. unfold strncpy. by rewrite take_app_length, c_string_app.
Qed.
End Engine.

(** ** Witnesses *)
Lemma node_name_roundtrip_witness : exists id,
  join None false (NODE_ZNODE None ++ slash :: pad10 7) = Ok id /\
  leave_path None false id = NODE_ZNODE None ++ slash :: pad10 7 /\
  watch_deleted None [] (NODE_ZNODE None ++ slash :: pad10 7) = Ok (NodeOffline id).
Proof. apply (node_name_roundtrip None false 7 []). lia. Defined.

Lemma node_found_iff_small_witness :
  find_path None (ZKID_TO_NODEID 65535) <> NODE_ZNODE None ++ slash :: pad10 65535.
Proof. intros H. apply (node_found_iff_small None 65535) in H; lia. Defined.

Lemma unlock_event_zone_witness :
  watch_deleted None (txt "xxxx") (lock_path None (txt "z") 5 3) = Ok (Wakeup (txt "zxxx") 5).
Proof.
  apply (unlock_event_zone None (txt "z") (txt "xxxx") 5 3); try lia; repeat constructor; discriminate.
Defined.
