(* ===== verification/ZkRegistry.v ===== *)
(** * Connecting to zookeeper, and the module ids there

    ZookeeperEngine::connect, get_and_inc_seq_num, get_module_id and get_module_name of
    src/zookeeper.cpp.  The tree of nodes is the service's: [ZkTree] has the operations the code
    calls, [ZkTreeLaws] what the documentation of zookeeper says of them; a path is a text.

    A module id is registered while its process holds the distributed lock
    (DynamicLoader::load_all), so that the calls of the processes come one after
    the other; what happens without the lock is in NodeManager.v. *)
From Stdlib Require Import Ascii String.
From stdpp Require Import base list gmap numbers strings.
From S2P Require Import Prelude Text NodeManager ZkEngine.

#[local] Open Scope list_scope.
#[local] Open Scope Z_scope.
#[local] Abbreviation length := List.length.
#[local] Arguments wrap : simpl never.
#[local] Arguments show_dec : simpl never.

Definition MAX_NODE_STR_LEN : nat := 1024.

(** ** Paths *)
Definition child (dir c : text) : text := dir ++ slash :: c.

(** strrchr(path, '/'): the directory and what follows the last slash *)
Fixpoint strrchr_slash (s : text) : option (text * text) :=
  match s with
  | [] => None
  | c :: r =>
      match strrchr_slash r with
      | Some (d, b) => Some (c :: d, b)
      | None => if bool_decide (c = slash) then Some ([], r) else None
      end
  end.

(** A name that a node can have. *)
Definition good_name (c : text) : Prop := c <> [] /\ slash ∉ c.

#[global] Instance good_name_dec c : Decision (good_name c).
Proof. unfold good_name. apply _. Defined.

Lemma strrchr_none c : slash ∉ c -> strrchr_slash c = None.
Proof.
  induction c as [|a c IH]; cbn; [done|]. intros H. rewrite IH by set_solver.
  rewrite bool_decide_eq_false_2; [done|]. set_solver.
Qed.

Lemma strrchr_child dir c : slash ∉ c -> strrchr_slash (child dir c) = Some (dir, c).
Proof.
  intros H. unfold child. induction dir as [|a dir IH]; cbn.
  - by rewrite strrchr_none.
  - by rewrite IH.
Qed.

Lemma strrchr_some p d b : strrchr_slash p = Some (d, b) -> p = child d b /\ slash ∉ b.
Proof.
  revert d b; induction p as [|a p IH]; intros d b; cbn; [done|].
  destruct (strrchr_slash p) as [[d' b']|] eqn:E.
  - intros [= <- <-]. destruct (IH _ _ eq_refl) as [-> H]. done.
  - case_bool_decide; intros [= <- <-]; subst. split; [done|]. clear IH.
    induction p as [|x p IHp]; [apply not_elem_of_nil|]. cbn in E.
    destruct (strrchr_slash p) as [[]|]; [done|]. case_bool_decide; [done|].
    apply not_elem_of_cons. auto.
Qed.

Lemma child_inj dir c c' : child dir c = child dir c' -> c = c'.
Proof. unfold child. intros H. by apply app_inv_head in H as [=]. Qed.

Lemma child_not_dir dir c : child dir c <> dir.
Proof. intros H. apply (f_equal length) in H. unfold child in H. rewrite length_app in H. cbn in H. lia. Qed.

(** ** The service *)
Inductive zrc := ZOK | ZNODEEXISTS | ZNONODE.
#[global] Instance zrc_eq : EqDecision zrc.
Proof. solve_decision. Defined.

Class ZkTree (S : Type) := {
  zoo_get : text -> S -> option text;
  zoo_set : text -> text -> S -> zrc * S;
  zoo_create : text -> text -> S -> zrc * S;
  zoo_delete : text -> S -> zrc * S;
  zoo_get_children : text -> S -> option (list text)
}.

(** A node is created below a node that exists, or below the root; what was set is got; the children of
    a node are the nodes one level below it; a node without children can be deleted. *)
Class ZkTreeLaws (S : Type) `{ZkTree S} := {
  set_get (s : S) p d : is_Some (zoo_get p s) ->
    (zoo_set p d s).1 = ZOK /\
    forall q, zoo_get q (zoo_set p d s).2 = if decide (q = p) then Some d else zoo_get q s;
  create_new (s : S) dir c d : (dir = []) \/ is_Some (zoo_get dir s) -> good_name c ->
    zoo_get (child dir c) s = None ->
    (zoo_create (child dir c) d s).1 = ZOK /\
    forall q, zoo_get q (zoo_create (child dir c) d s).2 = if decide (q = child dir c) then Some d else zoo_get q s;
  create_old (s : S) p d : is_Some (zoo_get p s) -> zoo_create p d s = (ZNODEEXISTS, s);
  children_of (s : S) dir : is_Some (zoo_get dir s) ->
    exists l, zoo_get_children dir s = Some l /\ NoDup l /\
      forall c, c ∈ l <-> (slash ∉ c) /\ is_Some (zoo_get (child dir c) s);
  no_children (s : S) dir : zoo_get dir s = None -> zoo_get_children dir s = None;
  delete_leaf (s : S) p : is_Some (zoo_get p s) -> (forall c, slash ∉ c -> zoo_get (child p c) s = None) ->
    (zoo_delete p s).1 = ZOK /\
    forall q, zoo_get q (zoo_delete p s).2 = if decide (q = p) then None else zoo_get q s
}.

(** *** A service that keeps the laws *)
Abbreviation tree := (gmap text text).

Definition tree_children (dir : text) (t : tree) : list text :=
  omap (fun p => '(d, b) ← strrchr_slash p; if decide (d = dir) then Some b else None) (elements (dom t)).

#[global] Instance tree_ops : ZkTree tree := {
  zoo_get p t := t !! p;
  zoo_set p d t := match t !! p with Some _ => (ZOK, <[p := d]> t) | None => (ZNONODE, t) end;
  zoo_create p d t :=
    match t !! p, strrchr_slash p with
    | Some _, _ => (ZNODEEXISTS, t)
    | None, Some (dir, c) =>
        if decide ((dir = []) \/ is_Some (t !! dir)) then (ZOK, <[p := d]> t) else (ZNONODE, t)
    | None, None => (ZNONODE, t)
    end;
  zoo_delete p t := match t !! p with Some _ => (ZOK, delete p t) | None => (ZNONODE, t) end;
  zoo_get_children dir t := match t !! dir with Some _ => Some (tree_children dir t) | None => None end
}.

Lemma tree_children_spec (t : tree) dir c :
  c ∈ tree_children dir t <-> (slash ∉ c) /\ is_Some (t !! child dir c).
Proof.
  unfold tree_children. rewrite list_elem_of_omap. split.
  - intros (p & Hp & E). apply elem_of_elements, elem_of_dom in Hp.
    apply bind_Some in E as ([d b] & Es & E). case_decide; simplify_eq.
    by apply strrchr_some in Es as [-> ?].
  - intros [Hc Hs]. exists (child dir c). split; [by apply elem_of_elements, elem_of_dom|].
    rewrite strrchr_child by done. cbn. by rewrite decide_True.
Qed.

Lemma NoDup_omap_inj {A B} (f : A -> option B) (l : list A) :
  (forall x y z, f x = Some z -> f y = Some z -> x = y) -> NoDup l -> NoDup (omap f l).
Proof.
  intros Hf. induction 1 as [|x l Hx Hl IH]; cbn; [constructor|].
  destruct (f x) as [z|] eqn:E; [|done]. apply list.NoDup_cons. split; [|done].
  intros (y & Hy & Ey)%list_elem_of_omap. by rewrite (Hf _ _ _ E Ey) in Hx.
Qed.

#[global] Instance tree_laws : ZkTreeLaws tree.
Proof.
  split; cbn.
  - intros t p d [v E]. rewrite E. split; [done|]. intros q. cbn.
    case_decide; subst; [by rewrite lookup_insert_eq|by rewrite lookup_insert_ne].
  - intros t dir c d Hd [_ Hc] E. rewrite E, strrchr_child, decide_True by done. split; [done|].
    intros q. cbn. case_decide; subst; [by rewrite lookup_insert_eq|by rewrite lookup_insert_ne].
  - intros t p d [v E]. by rewrite E.
  - intros t dir [v E]. rewrite E. eexists. split; [done|]. split; [|intros; apply tree_children_spec].
    apply NoDup_omap_inj; [|apply NoDup_elements].
    intros p q z Hp Hq. apply bind_Some in Hp as ([d b] & Ep & Hp). apply bind_Some in Hq as ([d' b'] & Eq & Hq).
    repeat case_decide; simplify_eq. apply strrchr_some in Ep as [-> _]. by apply strrchr_some in Eq as [-> _].
  - intros t dir E. by rewrite E.
  - intros t p [v E] _. rewrite E. split; [done|]. intros q. cbn.
    case_decide; subst; [by rewrite lookup_delete_eq|by rewrite lookup_delete_ne].
Qed.

(** ** Buffers *)

(** sprintf into a buffer of MAX_NODE_STR_LEN characters *)
Definition sprintf (s : text) : outcome text :=
  if decide (length s < MAX_NODE_STR_LEN)%nat then Ok s else Fault BadDeref.

(** snprintf writes what fits. *)
Definition snprintf (s : text) : text := take (MAX_NODE_STR_LEN - 1) s.

(** ** The engine *)
Section Registry.
Context {S : Type} `{ZkTreeLaws S}.
Context (ns : option text).

Abbreviation dirM := (MODULE_ZNODE ns).

(** zoo_get into a buffer; the assertion wants data, and a zero is put behind them. *)
Definition get_value (path : text) (s : S) : outcome text :=
  match zoo_get path s with
  | None => Fault AssertFailed
  | Some d =>
      let v := take MAX_NODE_STR_LEN d in
      _ ← mola_assert (0 <? Z.of_nat (length v));
      if decide (length v < MAX_NODE_STR_LEN)%nat then Ok v else Fault BadDeref
  end.

Definition get_and_inc_seq_num (path : text) (s : S) : outcome (Z * S) :=
  seq ← get_value path s;
  n ← stoul seq;
  let id := u32 n in
  let '(rc, s) := zoo_set path (show_dec (u32 (id + 1))) s in
  _ ← mola_assert (bool_decide (rc = ZOK));
  Ok (id, s).

(** m_module_cache, a std::map: sorted by name *)
Fixpoint text_ltb (a b : text) : bool :=
  match a, b with
  | [], _ :: _ => true
  | _, [] => false
  | x :: a, y :: b => (code x <? code y) || ((code x =? code y) && text_ltb a b)
  end.

Abbreviation cache := (list (text * Z)).

Definition cache_find (name : text) (c : cache) : option Z :=
  snd <$> (snd <$> list_find (fun e => e.1 = name) c).

Fixpoint cache_insert (name : text) (id : Z) (c : cache) : cache :=
  match c with
  | [] => [(name, id)]
  | (n, i) :: c' => if text_ltb name n then (name, id) :: c else (n, i) :: cache_insert name id c'
  end.

(** The children, from the last to the first (FOR_EACH_ZNODE). *)
Fixpoint find_id (name : text) (l : list text) (id : Z) (s : S) : outcome Z :=
  match l with
  | [] => Ok id
  | c :: l =>
      let path := snprintf (child dirM c) in
      match strrchr_slash path with
      | None => Fault BadDeref
      | Some (_, p) =>
          if bool_decide (name = p) then
            mid ← get_value path s; n ← stoul mid; find_id name l (u16 n) s
          else find_id name l id s
      end
  end.

Definition get_module_id (name : text) (create : bool) (c : cache) (s : S) : outcome (Z * cache * S) :=
  match cache_find name c with
  | Some id => Ok (id, c, s)
  | None =>
      match zoo_get_children dirM s with
      | None => Fault BadDeref      (* the vector of children was not written *)
      | Some l =>
          id ← find_id name (reverse l) ModuleIds.invalid_id s;
          if (id =? ModuleIds.invalid_id) && create then
            '(seq, s) ← get_and_inc_seq_num dirM s;
            let id := u16 seq in
            path ← sprintf (child dirM name);
            let '(rc, s) := zoo_create path (show_dec id) s in
            _ ← mola_assert (bool_decide (rc = ZOK));
            Ok (id, cache_insert name id c, s)
          else Ok (id, c, s)
      end
  end.

Fixpoint find_name (id : Z) (l : list text) (name : text) (s : S) : outcome text :=
  match l with
  | [] => Ok name
  | c :: l =>
      let path := snprintf (child dirM c) in
      match strrchr_slash path with
      | None => Fault BadDeref
      | Some (_, p) =>
          mid ← get_value path s; n ← stoul mid;
          find_name id l (if id =? u16 n then p else name) s
      end
  end.

Definition get_module_name (id : Z) (c : cache) (s : S) : outcome text :=
  match list_find (fun e => e.2 = id) c with
  | Some (_, (n, _)) => Ok n
  | None =>
      match zoo_get_children dirM s with
      | None => Fault BadDeref
      | Some l => find_name id (reverse l) [] s
      end
  end.

(** ** The registry as a list of names

    The abstract registry is that of a single node, NodeManager.ModuleIds: the names
    in the order of their ids. *)
Definition short (name : text) : Prop := (length (child dirM name) < MAX_NODE_STR_LEN)%nat.

Record registry_ok (names : list text) (s : S) : Prop := {
  g_seq : zoo_get dirM s = Some (show_dec (Z.of_nat (length names)));
  g_names : forall c d, slash ∉ c -> zoo_get (child dirM c) s = Some d <->
    exists i, names !! i = Some c /\ d = show_dec (Z.of_nat i);
  g_nodup : NoDup names;
  g_short : Forall (fun n => good_name n /\ short n) names;
  g_bound : Z.of_nat (length names) <= 65535
}.

Definition cache_ok (names : list text) (c : cache) : Prop :=
  forall n id, (n, id) ∈ c -> 0 <= id /\ names !! Z.to_nat id = Some n.

Lemma get_value_ok p s n : zoo_get p s = Some (show_dec n) -> 0 <= n < 2 ^ 64 -> get_value p s = Ok (show_dec n).
Proof.
  intros E Hn. unfold get_value. rewrite E.
  assert (length (show_dec n) <= 20)%nat as HL.
  { apply (dec_digits_length 20 19). change (10 ^ Z.of_nat 20) with (10 ^ 20). lia. }
  unfold MAX_NODE_STR_LEN. rewrite take_ge by lia. rewrite decide_True by lia.
  destruct (show_dec_cons n) as (c & r & -> & _); [lia|]. done.
Qed.

Lemma path_ok n : good_name n -> short n ->
  snprintf (child dirM n) = child dirM n /\ strrchr_slash (child dirM n) = Some (dirM, n).
Proof.
  intros [_ Hn] Hs. unfold short, snprintf, MAX_NODE_STR_LEN in *. split.
  - apply take_ge. lia.
  - by apply strrchr_child.
Qed.

Lemma registry_child names s i c : registry_ok names s -> names !! i = Some c ->
  get_value (child dirM c) s = Ok (show_dec (Z.of_nat i)) /\ stoul (show_dec (Z.of_nat i)) = Ok (Z.of_nat i) /\
  u16 (Z.of_nat i) = Z.of_nat i /\ snprintf (child dirM c) = child dirM c /\
  strrchr_slash (child dirM c) = Some (dirM, c).
Proof.
  intros G Ei. pose proof (lookup_lt_Some _ _ _ Ei) as Hi. pose proof (g_bound _ _ G).
  pose proof (Forall_lookup_1 _ _ _ _ (g_short _ _ G) Ei) as [Hg Hs].
  destruct (path_ok c Hg Hs). split_and!; auto.
  - apply get_value_ok; [|lia]. apply (g_names _ _ G); [apply Hg|eauto].
  - apply stoul_show. lia.
  - apply wrap_small. width_lia.
Qed.

(** The children are the registered names. *)
Lemma registry_children names s : registry_ok names s ->
  exists l, zoo_get_children dirM s = Some l /\ NoDup (reverse l) /\ forall c, c ∈ reverse l <-> c ∈ names.
Proof.
  intros G. destruct (children_of s dirM) as (l & El & Hn & Hl); [by rewrite (g_seq _ _ G)|].
  exists l. split; [done|]. split; [by rewrite reverse_Permutation|]. intros c. rewrite elem_of_reverse, Hl. split.
  - intros [Hc [d Hd]]. apply (g_names _ _ G) in Hd as (i & Hi & _); [|done]. by apply list_elem_of_lookup_2 with i.
  - intros Hc. pose proof (proj1 (list.Forall_forall _ _) (g_short _ _ G) c Hc) as [[_ Hg] _]. split; [done|].
    apply list_elem_of_lookup_1 in Hc as [i Hi]. exists (show_dec (Z.of_nat i)). apply (g_names _ _ G); eauto.
Qed.

Lemma index_of_elem name names : match ModuleIds.index_of name names with
  | Some i => names !! i = Some name | None => name ∉ names end.
Proof.
  unfold ModuleIds.index_of. destruct (list_find (fun n => n = name) names) as [[j y]|] eqn:Ef; cbn.
  - apply list_find_Some in Ef as (Hj & -> & _). done.
  - apply list_find_None in Ef. intros Hin. by apply (proj1 (list.Forall_forall _ _) Ef name).
Qed.

Lemma index_of_lookup name names i : NoDup names -> names !! i = Some name -> ModuleIds.index_of name names = Some i.
Proof.
  intros Hn Hi. pose proof (index_of_elem name names) as H1. destruct (ModuleIds.index_of name names) as [j|].
  - f_equal. by eapply NoDup_lookup.
  - exfalso. apply H1. by apply list_elem_of_lookup_2 with i.
Qed.

Lemma find_id_ok names s name l id : registry_ok names s -> NoDup l -> (forall c, c ∈ l -> c ∈ names) ->
  find_id name l id s =
  Ok (if decide (name ∈ l) then match ModuleIds.index_of name names with Some i => Z.of_nat i | None => id end else id).
Proof.
  intros G Hn. revert id; induction l as [|c l IH]; intros id Hl; [done|]. apply list.NoDup_cons in Hn as [Hc Hn].
  assert (Hcn : c ∈ names) by (apply Hl; constructor).
  assert (Hl' : forall x, x ∈ l -> x ∈ names) by (intros x Hx; apply Hl; by constructor).
  apply list_elem_of_lookup_1 in Hcn as [i Hi].
  destruct (registry_child _ _ _ _ G Hi) as (Hv & Hst & Hu & Hsn & Hsl).
  specialize (IH Hn). cbn [find_id]. rewrite Hsn, Hsl. case_bool_decide as E.
  - subst c. rewrite Hv. cbn [mbind outcome_bind]. rewrite Hst. cbn [mbind outcome_bind]. rewrite Hu.
    rewrite IH by done.
    rewrite (decide_False (P := name ∈ l)), decide_True by (done || constructor).
    f_equal. by rewrite (index_of_lookup name names i (g_nodup _ _ G) Hi).
  - rewrite IH by done. f_equal.
    destruct (decide (name ∈ l)) as [Hin|Hin].
    + by rewrite decide_True by by constructor.
    + rewrite decide_False; [done|]. by intros [?|?]%elem_of_cons.
Qed.

Lemma find_name_ok names s id l name : registry_ok names s -> (forall c, c ∈ l -> c ∈ names) -> 0 <= id ->
  find_name id l name s =
  Ok (match names !! Z.to_nat id with Some n => if decide (n ∈ l) then n else name | None => name end).
Proof.
  intros G. revert name; induction l as [|c l IH]; intros name Hl Hid; cbn [find_name].
  { destruct (names !! Z.to_nat id); [|done]. by rewrite decide_False by apply not_elem_of_nil. }
  assert (Hcn : c ∈ names) by (apply Hl; constructor).
  assert (Hl' : forall x, x ∈ l -> x ∈ names) by (intros x Hx; apply Hl; by constructor).
  apply list_elem_of_lookup_1 in Hcn as [i Hi].
  destruct (registry_child _ _ _ _ G Hi) as (Hv & Hst & Hu & Hsn & Hsl).
  rewrite Hsn, Hsl, Hv. cbn [mbind outcome_bind]. rewrite Hst. cbn [mbind outcome_bind]. rewrite Hu, IH by done. f_equal.
  destruct (Z.eqb_spec id (Z.of_nat i)) as [->|Hne].
  - rewrite Nat2Z.id, Hi. rewrite (decide_True (P := c ∈ c :: l)) by constructor. by destruct (decide (c ∈ l)).
  - destruct (names !! Z.to_nat id) as [n|] eqn:En; [|done].
    destruct (decide (n ∈ l)); [by rewrite decide_True by by constructor|].
    rewrite decide_False; [done|]. intros [->|?]%elem_of_cons; [|done].
    apply Hne. rewrite <- (NoDup_lookup names _ _ c (g_nodup _ _ G) En Hi). lia.
Qed.

Lemma cache_insert_elem name id c e : e ∈ cache_insert name id c <-> e = (name, id) \/ e ∈ c.
Proof.
  induction c as [|[n i] c IH]; cbn; [by rewrite list_elem_of_singleton, elem_of_nil; tauto|].
  destruct (text_ltb name n); rewrite !elem_of_cons, ?IH; tauto.
Qed.

Lemma cache_find_elem name c id : cache_find name c = Some id -> (name, id) ∈ c.
Proof.
  unfold cache_find. destruct (list_find _ c) as [[j [n i]]|] eqn:E; cbn; intros [= <-].
  apply list_find_Some in E as (Hj & Hn & _). cbn in Hn. subst. by apply list_elem_of_lookup_2 with j.
Qed.

Lemma cache_ok_grows names x c : cache_ok names c -> cache_ok (names ++ [x]) c.
Proof. intros Hc n id Hin. destruct (Hc n id Hin) as [? Hl]. split; [done|]. by apply lookup_app_l_Some. Qed.

Lemma get_and_inc_ok names s : registry_ok names s -> Z.of_nat (length names) < 65535 ->
  exists s', get_and_inc_seq_num dirM s = Ok (Z.of_nat (length names), s') /\
    forall q, zoo_get q s' = if decide (q = dirM) then Some (show_dec (Z.of_nat (Datatypes.S (length names)))) else zoo_get q s.
Proof.
  intros G Hb. unfold get_and_inc_seq_num.
  rewrite (get_value_ok dirM s (Z.of_nat (length names))) by (apply G || lia). cbn [mbind outcome_bind].
  rewrite stoul_show by lia. cbn [mbind outcome_bind]. rewrite (wrap_small 32 (Z.of_nat (length names))), (wrap_small 32 (_ + 1)) by width_lia.
  replace (Z.of_nat (length names) + 1) with (Z.of_nat (Datatypes.S (length names))) by lia.
  destruct (set_get s dirM (show_dec (Z.of_nat (Datatypes.S (length names))))) as [Hrc Hq]; [by rewrite (g_seq _ _ G)|].
  destruct (zoo_set _ _ _) as [rc s']. cbn in Hrc, Hq. subst rc. exists s'. done.
Qed.

(** A new name is written behind the others. *)
Lemma registry_add names s s1 s2 name : registry_ok names s -> good_name name -> short name -> name ∉ names ->
  Z.of_nat (length names) < 65535 ->
  (forall q, zoo_get q s1 =
     if decide (q = dirM) then Some (show_dec (Z.of_nat (Datatypes.S (length names)))) else zoo_get q s) ->
  (forall q, zoo_get q s2 =
     if decide (q = child dirM name) then Some (show_dec (Z.of_nat (length names))) else zoo_get q s1) ->
  registry_ok (names ++ [name]) s2.
Proof.
  intros G Hg Hs Hn Hb H1 H2. split.
  - rewrite H2, decide_False by (intros E; by apply (child_not_dir dirM name)).
    rewrite H1, decide_True by done. rewrite length_app. do 3 f_equal. cbn. lia.
  - intros c d Hc. rewrite H2. destruct (decide (child dirM c = child dirM name)) as [E|E].
    + apply child_inj in E as ->. split.
      * intros [= <-]. exists (length names). split; [|done]. by rewrite lookup_app_r, Nat.sub_diag.
      * intros (i & Hi & ->). apply lookup_snoc_Some in Hi as [[_ Hi]|[-> _]]; [|done].
        exfalso. apply Hn. by apply list_elem_of_lookup_2 with i.
    + rewrite H1, decide_False by apply child_not_dir. rewrite (g_names _ _ G) by done. split.
      * intros (i & Hi & ->). exists i. split; [|done]. by apply lookup_app_l_Some.
      * intros (i & Hi & ->). apply lookup_snoc_Some in Hi as [[_ Hi]|[_ <-]]; [eauto|done].
  - apply list.NoDup_app. split; [apply G|]. split; [|apply NoDup_singleton].
    intros x Hx ->%list_elem_of_singleton. done.
  - apply Forall_app. split; [apply G|]. constructor; [done|constructor].
  - rewrite length_app. cbn. lia.
Qed.

Lemma get_module_id_refines names s name create c :
  registry_ok names s -> cache_ok names c -> good_name name -> short name -> Z.of_nat (length names) < 65535 ->
  exists c' s', get_module_id name create c s = Ok ((ModuleIds.get_module_id name create names).1, c', s') /\
    registry_ok (ModuleIds.get_module_id name create names).2 s' /\
    cache_ok (ModuleIds.get_module_id name create names).2 c'.
Proof.
  intros G Hc Hg Hs Hb. unfold get_module_id, ModuleIds.get_module_id.
  pose proof (index_of_elem name names) as Hi.
  destruct (cache_find name c) as [id|] eqn:Ec.
  { apply cache_find_elem in Ec. destruct (Hc _ _ Ec) as [Hid Hl].
    rewrite (index_of_lookup _ _ _ (g_nodup _ _ G) Hl). cbn. pose proof (lookup_lt_Some _ _ _ Hl).
    rewrite Z2Nat.id, wrap_small by width_lia. eauto. }
  destruct (registry_children names s G) as (l & -> & Hnd & Hl).
  rewrite (find_id_ok names) by (done || intros; by apply Hl). cbn [mbind outcome_bind].
  destruct (ModuleIds.index_of name names) as [i|] eqn:Ei.
  - pose proof (lookup_lt_Some _ _ _ Hi).
    rewrite decide_True by (apply Hl; by apply list_elem_of_lookup_2 with i).
    unfold ModuleIds.invalid_id. rewrite (proj2 (Z.eqb_neq _ _)) by lia. cbn.
    rewrite wrap_small by width_lia. eauto.
  - rewrite decide_False by (by rewrite Hl). rewrite Z.eqb_refl. destruct create; cbn [andb]; [|eauto].
    destruct (get_and_inc_ok names s G Hb) as (s1 & -> & H1). cbn [mbind outcome_bind].
    unfold sprintf. rewrite decide_True by done. cbn [mbind outcome_bind].
    rewrite wrap_small by width_lia.
    destruct (create_new s1 dirM name (show_dec (Z.of_nat (length names)))) as [Hrc H2]; [|done| |].
    + right. by rewrite H1, decide_True.
    + rewrite H1, decide_False by apply child_not_dir. apply eq_None_not_Some. intros [d Hd].
      apply (g_names _ _ G) in Hd as (i & Hin & _); [|apply Hg]. apply Hi. by apply list_elem_of_lookup_2 with i.
    + destruct (zoo_create _ _ _) as [rc s2]. cbn in Hrc, H2 |- *. subst rc. cbn.
      do 2 eexists. split; [done|]. split; [by eapply registry_add|].
      intros n id [[= -> ->]|Hin]%cache_insert_elem.
      * rewrite Nat2Z.id, lookup_app_r, Nat.sub_diag by lia. split; [lia|done].
      * by apply (cache_ok_grows names name c Hc).
Qed.

Lemma get_module_name_refines names s id c : registry_ok names s -> cache_ok names c -> 0 <= id ->
  get_module_name id c s = Ok (ModuleIds.get_module_name id names).
Proof.
  intros G Hc Hid. unfold get_module_name, ModuleIds.get_module_name.
  destruct (list_find _ c) as [[j [n i]]|] eqn:Ec.
  { apply list_find_Some in Ec as (Hj & E & _). cbn in E. subst i.
    destruct (Hc n id) as [_ ->]; [|done]. by apply list_elem_of_lookup_2 with j. }
  destruct (registry_children names s G) as (l & -> & Hnd & Hl).
  rewrite (find_name_ok names) by (done || intros; by apply Hl). f_equal.
  destruct (names !! Z.to_nat id) as [n|] eqn:En; [|done].
  rewrite decide_True; [done|]. apply Hl. by apply list_elem_of_lookup_2 with (Z.to_nat id).
Qed.

(** ** Calls of many processes, one after the other *)
Inductive call := CallId (p : Z) (name : text) (create : bool) | CallName (p : Z) (id : Z).
Inductive answer := AnsId (id : Z) | AnsName (name : text).

Record world := MkWorld { caches : gmap Z cache; zk : S }.
Definition cache_of (p : Z) (w : world) : cache := default [] (caches w !! p).

Definition do_call (k : call) (w : world) : outcome (answer * world) :=
  match k with
  | CallId p name create =>
      '(id, c, s) ← get_module_id name create (cache_of p w) (zk w);
      Ok (AnsId id, MkWorld (<[p := c]> (caches w)) s)
  | CallName p id => n ← get_module_name id (cache_of p w) (zk w); Ok (AnsName n, w)
  end.

Fixpoint do_calls (ks : list call) (w : world) : outcome (list answer * world) :=
  match ks with
  | [] => Ok ([], w)
  | k :: ks => '(a, w) ← do_call k w; '(l, w) ← do_calls ks w; Ok (a :: l, w)
  end.

(** What a single node would answer. *)
Definition spec_call (k : call) (names : list text) : answer * list text :=
  match k with
  | CallId _ name create => let '(id, names) := ModuleIds.get_module_id name create names in (AnsId id, names)
  | CallName _ id => (AnsName (ModuleIds.get_module_name id names), names)
  end.

Fixpoint spec_calls (ks : list call) (names : list text) : list answer * list text :=
  match ks with
  | [] => ([], names)
  | k :: ks => let '(a, names) := spec_call k names in let '(l, names) := spec_calls ks names in (a :: l, names)
  end.

Definition call_ok (k : call) : Prop :=
  match k with CallId _ name _ => good_name name /\ short name | CallName _ id => 0 <= id end.

Record world_ok (names : list text) (w : world) : Prop := {
  w_registry : registry_ok names (zk w);
  w_caches : forall p, cache_ok names (cache_of p w)
}.

Lemma names_grow name create names :
  (ModuleIds.get_module_id name create names).2 = names \/
  (ModuleIds.get_module_id name create names).2 = names ++ [name].
Proof. unfold ModuleIds.get_module_id. destruct (ModuleIds.index_of _ _), create; auto. Qed.

Lemma do_call_refines k names w : world_ok names w -> call_ok k -> Z.of_nat (length names) < 65535 ->
  exists w', do_call k w = Ok ((spec_call k names).1, w') /\ world_ok (spec_call k names).2 w' /\
    (length (spec_call k names).2 <= Datatypes.S (length names))%nat.
Proof.
  intros [G Hc] Hk Hb. destruct k as [p name create|p id]; cbn in *.
  - destruct Hk as [Hg Hs].
    destruct (get_module_id_refines names (zk w) name create (cache_of p w)) as (c' & s' & -> & G' & Hc'); auto.
    pose proof (names_grow name create names) as Hn.
    destruct (ModuleIds.get_module_id name create names) as [id names'] eqn:E. cbn in *.
    eexists. split; [done|]. split.
    + split; [done|]. intros q. unfold cache_of. cbn. destruct (decide (p = q)) as [<-|Hne].
      * by rewrite lookup_insert_eq.
      * rewrite lookup_insert_ne by done. specialize (Hc q). unfold cache_of in Hc.
        destruct Hn as [->| ->]; [done|]. by apply cache_ok_grows.
    + destruct Hn as [->| ->]; rewrite ?length_app; cbn; lia.
  - rewrite (get_module_name_refines names) by auto. cbn. exists w. split; [done|]. split; [done|lia].
Qed.

Lemma do_calls_refine ks names w : world_ok names w -> Forall call_ok ks ->
  Z.of_nat (length names) + Z.of_nat (length ks) <= 65535 ->
  exists w', do_calls ks w = Ok ((spec_calls ks names).1, w') /\ world_ok (spec_calls ks names).2 w'.
Proof.
  revert names w; induction ks as [|k ks IH]; intros names w Hw Hk Hb; [by exists w|].
  apply Forall_cons_iff in Hk as [Hk Hks]. cbn [length] in Hb.
  destruct (do_call_refines k names w) as (w1 & E & Hw1 & Hl); [done..|lia|]. cbn [do_calls spec_calls].
  rewrite E. destruct (spec_call k names) as [a names1]. cbn [mbind outcome_bind fst snd] in *.
  destruct (IH names1 w1) as (w2 & E2 & Hw2); [done..|lia|].
  rewrite E2. destruct (spec_calls ks names1) as [l names2]. cbn in *. by exists w2.
Qed.

(** ** connect *)

(** strtok with the delimiter '=': the token and where the next call goes on *)
Definition equals_sign : ascii := "="%char.

Fixpoint span_token (s : text) : text * text :=
  match s with
  | [] => ([], [])
  | c :: r => if bool_decide (c = equals_sign) then ([], r) else let '(t, r) := span_token r in (c :: t, r)
  end.
Fixpoint skip_delims (s : text) : text :=
  match s with c :: r => if bool_decide (c = equals_sign) then skip_delims r else s | [] => [] end.
Definition strtok (s : text) : option (text * text) :=
  match skip_delims s with [] => None | s => Some (span_token s) end.

Definition SESSION_TIMEOUT : Z := 30000.

(** sscanf(timeout, "%u", &zk_timeout) on an int *)
Definition scan_timeout (s : text) : option Z :=
  match strtou 64 s with
  | None => None
  | Some (v, _) => let u := u32 (default (2 ^ 64 - 1) v) in Some (if u <? 2 ^ 31 then u else u - 2 ^ 32)
  end.

(** The hosts and the session timeout of an option [hosts=timeout]. *)
Definition parse_zk_option (opt : text) : option (option text * Z) :=
  match strtok opt with
  | None => Some (None, SESSION_TIMEOUT)
  | Some (hosts, rest) =>
      match strtok rest with
      | None => Some (Some hosts, SESSION_TIMEOUT)
      | Some (timeout, _) => t ← scan_timeout timeout; Some (Some hosts, t)
      end
  end.

(** The loop over zoo_state: [state i] is what the call after [i] naps says. *)
Fixpoint wait_connected (fuel : nat) (state : nat -> bool) (retry max_retry : Z) : outcome bool :=
  match fuel with
  | O => Fault OutOfFuel
  | Datatypes.S fuel =>
      if state (Z.to_nat retry) then Ok true
      else if max_retry <=? retry + 1 then Ok false
      else wait_connected fuel state (retry + 1) max_retry
  end.

Fixpoint delete_all (dir : text) (l : list text) (s : S) : S :=
  match l with [] => s | c :: l => delete_all dir l (zoo_delete (snprintf (child dir c)) s).2 end.

(** foreach_node with the function that deletes *)
Definition reset_nodes (s : S) : S :=
  match zoo_get_children (NODE_ZNODE ns) s with None => s | Some l => delete_all (NODE_ZNODE ns) (reverse l) s end.

Fixpoint create_dirs (l : list text) (s : S) : outcome S :=
  match l with
  | [] => Ok s
  | d :: l =>
      let '(rc, s) := zoo_create d (txt "0") s in
      s ← create_dirs l s; _ ← mola_assert (bool_decide (rc = ZOK)); Ok s
  end.

Definition global_dirs : list text :=
  [NODE_ZNODE ns; MODULE_ZNODE ns; LOCK_ZNODE ns; CLIENT_ZNODE ns; EVENT_ZNODE ns].

(** ZNONODE of zookeeper.h *)
Definition rc_value (rc : zrc) : Z := match rc with ZOK => 0 | ZNODEEXISTS => -110 | ZNONODE => -101 end.

(** [init hosts timeout]: whether zookeeper_init gives a handle. *)
Definition connect (init : option text -> Z -> bool) (state : nat -> bool) (opt : text) (reset : bool) (s : S)
    : outcome (Z * S) :=
  match parse_zk_option opt with
  | None => Ok (-1, s)
  | Some (hosts, zk_timeout) =>
      if negb (init hosts zk_timeout) then Ok (-1, s) else
      let max_retry := Z.quot zk_timeout 100 in
      ok ← wait_connected (Datatypes.S (Z.to_nat max_retry)) state 0 max_retry;
      if negb ok then Ok (-1, s) else
      let s := if reset then reset_nodes s else s in
      let '(rc, s) := zoo_create (NM_ZNODE ns) (txt "ICT") s in
      if bool_decide (rc = ZNONODE) then Ok (rc_value rc, s)
      else if bool_decide (rc = ZOK) then s ← create_dirs global_dirs s; Ok (0, s)
      else Ok (0, s)
  end.

Lemma wait_connected_ok fuel state retry max : 0 <= retry -> (Z.to_nat (max - retry) < fuel)%nat ->
  exists b, wait_connected fuel state retry max = Ok b /\
    (b = true <-> exists i, retry <= Z.of_nat i < Z.max (retry + 1) max /\ state i = true).
Proof.
  revert retry; induction fuel as [|fuel IH]; intros retry Hr Hf; [lia|]. cbn [wait_connected].
  destruct (state (Z.to_nat retry)) eqn:Es.
  { exists true. split; [done|]. split; [|done]. intros _. exists (Z.to_nat retry). split; [lia|done]. }
  destruct (Z.leb_spec max (retry + 1)).
  { exists false. split; [done|]. split; [done|]. intros (i & Hi & Ht).
    replace i with (Z.to_nat retry) in Ht by lia. congruence. }
  destruct (IH (retry + 1)) as (b & -> & Hb); [lia..|]. exists b. split; [done|]. rewrite Hb.
  split; intros (i & Hi & Ht); exists i; (split; [|done]); [lia|].
  destruct (decide (i = Z.to_nat retry)) as [->|]; [congruence|lia].
Qed.

(** *** The option *)
Lemma span_token_free s : equals_sign ∉ s -> span_token s = (s, []).
Proof.
  induction s as [|c s IH]; cbn; [done|]. intros H'. rewrite bool_decide_eq_false_2 by set_solver.
  by rewrite IH by set_solver.
Qed.

Lemma span_token_app s r : equals_sign ∉ s -> span_token (s ++ equals_sign :: r) = (s, r).
Proof.
  induction s as [|c s IH]; cbn; [done|]. intros H'. rewrite bool_decide_eq_false_2 by set_solver.
  by rewrite IH by set_solver.
Qed.

Lemma strtok_free c s : equals_sign ∉ c :: s -> strtok (c :: s) = Some (c :: s, []).
Proof.
  intros H'. unfold strtok. cbn [skip_delims]. rewrite bool_decide_eq_false_2 by set_solver.
  by rewrite span_token_free.
Qed.

Lemma strtok_app c s r : equals_sign ∉ c :: s -> strtok ((c :: s) ++ equals_sign :: r) = Some (c :: s, r).
Proof.
  intros H'. unfold strtok. cbn [skip_delims app]. rewrite bool_decide_eq_false_2 by set_solver.
  change (c :: s ++ equals_sign :: r) with ((c :: s) ++ equals_sign :: r). by rewrite span_token_app.
Qed.

Lemma digits_no_equals s : Forall (fun c => is_digit c = true) s -> equals_sign ∉ s.
Proof. intros Hd Hin. by pose proof (proj1 (list.Forall_forall _ _) Hd _ Hin). Qed.

(** *** The directories *)
Definition nm : text := match ns with None | Some [] => txt "MOLA" | Some n => n end.

Lemma NM_child : NM_ZNODE ns = child [] nm.
Proof. unfold NM_ZNODE, nm. by destruct ns as [[]|]. Qed.

Lemma global_dirs_child : global_dirs = child (NM_ZNODE ns) <$>
  [txt "NODES"; txt "MODULES"; txt "LOCKS"; txt "CLIENTS"; txt "EVENTS"].
Proof. done. Qed.

Lemma create_dirs_ok dir l s : is_Some (zoo_get dir s) -> NoDup l -> Forall good_name l ->
  (forall c, c ∈ l -> zoo_get (child dir c) s = None) ->
  exists s', create_dirs (child dir <$> l) s = Ok s' /\
    forall q, zoo_get q s' = if decide (q ∈ child dir <$> l) then Some (txt "0") else zoo_get q s.
Proof.
  revert s; induction l as [|c l IH]; intros s Hd Hn Hg Hf; cbn [create_dirs fmap list_fmap].
  { exists s. split; [done|]. intros q. by rewrite decide_False by apply not_elem_of_nil. }
  apply list.NoDup_cons in Hn as [Hc Hn]. apply Forall_cons_iff in Hg as [Hg Hgl].
  destruct (create_new s dir c (txt "0")) as [Hrc Hq]; [by right|done|apply Hf; constructor|].
  destruct (zoo_create _ _ _) as [rc s1]. cbn [fst snd] in *. subst rc.
  destruct (IH s1) as (s2 & E2 & Hq2); [|done..| |].
  - rewrite Hq. case_decide; [done|done].
  - intros c' Hc'. rewrite Hq, decide_False; [apply Hf; by constructor|]. by intros ->%child_inj.
  - rewrite E2. cbn. exists s2. split; [done|]. intros q. rewrite Hq2, Hq.
    destruct (decide (q ∈ child dir <$> l)) as [Hin|Hin].
    + by rewrite decide_True by by constructor.
    + destruct (decide (q = child dir c)) as [->|Hne]; [by rewrite decide_True by constructor|].
      rewrite decide_False; [done|]. by intros [?|?]%elem_of_cons.
Qed.

(** Nothing is there under the name space. *)
Definition fresh (s : S) : Prop := forall q, zoo_get (NM_ZNODE ns ++ q) s = None.

(** The first connect makes the directories, with no module registered. *)
Lemma first_connect s : fresh s -> good_name nm ->
  exists s1 s2, zoo_create (NM_ZNODE ns) (txt "ICT") s = (ZOK, s1) /\ create_dirs global_dirs s1 = Ok s2 /\
    registry_ok [] s2 /\ is_Some (zoo_get (NM_ZNODE ns) s2).
Proof.
  intros Hf Hg. pose proof (Hf []) as Hf0. rewrite app_nil_r in Hf0. rewrite NM_child in Hf0.
  destruct (create_new s [] nm (txt "ICT")) as [Hrc Hq]; [by left|done..|].
  rewrite NM_child. destruct (zoo_create _ _ _) as [rc s1]. cbn [fst snd] in *. subst rc.
  rewrite <- NM_child in Hq.
  assert (Hnone : forall c, zoo_get (child (NM_ZNODE ns) c) s1 = None).
  { intros c. rewrite Hq, decide_False by apply child_not_dir. apply Hf. }
  rewrite global_dirs_child.
  destruct (create_dirs_ok (NM_ZNODE ns) [txt "NODES"; txt "MODULES"; txt "LOCKS"; txt "CLIENTS"; txt "EVENTS"] s1)
    as (s2 & E2 & Hq2); auto.
  { rewrite Hq. by rewrite decide_True. }
  { by apply (bool_decide_unpack _). }
  { repeat (constructor; [by apply (bool_decide_unpack _)|]). constructor. }
  exists s1, s2. split; [done|]. split; [done|]. split.
  - split; [| |constructor..|cbn; lia].
    + rewrite Hq2, decide_True; [done|]. apply (list_elem_of_fmap_2 (child (NM_ZNODE ns)) _ (txt "MODULES")).
      by apply (bool_decide_unpack _).
    + intros c d Hc. rewrite Hq2, decide_False.
      * change (child dirM c) with (child (NM_ZNODE ns ++ slash :: txt "MODULES") c).
        assert (child (NM_ZNODE ns ++ slash :: txt "MODULES") c = child (NM_ZNODE ns) (txt "MODULES" ++ slash :: c)) as ->
          by (unfold child; by rewrite <- app_assoc).
        rewrite Hnone. split; [done|]. by intros (i & Hi & _).
      * intros (x & Ex & Hx)%list_elem_of_fmap_1.
        assert (Hxs : slash ∉ x).
        { assert (Forall good_name [txt "NODES"; txt "MODULES"; txt "LOCKS"; txt "CLIENTS"; txt "EVENTS"]) as Hall
            by (repeat (constructor; [by apply (bool_decide_unpack _)|]); constructor).
          apply (proj1 (list.Forall_forall _ _) Hall x Hx). }
        apply (f_equal strrchr_slash) in Ex. rewrite !strrchr_child in Ex by done. injection Ex as Ex _.
        by apply (child_not_dir (NM_ZNODE ns) (txt "MODULES")).
  - rewrite <- NM_child, Hq2. case_decide; [done|]. rewrite Hq, decide_True; done.
Qed.

(** connect once the handle is there and the service answered in time *)
Definition answers (init : option text -> Z -> bool) (state : nat -> bool) (opt : text) : Prop :=
  exists hosts t, parse_zk_option opt = Some (hosts, t) /\ init hosts t = true /\
    exists i, Z.of_nat i < Z.max 1 (Z.quot t 100) /\ state i = true.

Lemma connect_answers init state opt reset s : answers init state opt ->
  connect init state opt reset s =
  (let s := if reset then reset_nodes s else s in
   let '(rc, s) := zoo_create (NM_ZNODE ns) (txt "ICT") s in
   if bool_decide (rc = ZNONODE) then Ok (rc_value rc, s)
   else if bool_decide (rc = ZOK) then s ← create_dirs global_dirs s; Ok (0, s) else Ok (0, s)).
Proof.
  intros (hosts & t & E & Hi & i & Hlt & Hs). unfold connect. rewrite E, Hi. cbn [negb].
  destruct (wait_connected_ok (Datatypes.S (Z.to_nat (Z.quot t 100))) state 0 (Z.quot t 100)) as (b & -> & Hb); [lia..|].
  assert (b = true) as -> by (apply Hb; exists i; split; [lia|done]). done.
Qed.

(** Deleting the nodes of dead processes leaves the modules alone. *)
Definition node_leaves (s : S) : Prop :=
  forall c d, zoo_get (child (child (NODE_ZNODE ns) c) d) s = None.

Lemma delete_all_ok (l : list text) (s : S) : node_leaves s -> Forall (fun c => slash ∉ c) l -> NoDup l ->
  Forall (fun c => is_Some (zoo_get (child (NODE_ZNODE ns) c) s) /\
    (length (child (NODE_ZNODE ns) c) < MAX_NODE_STR_LEN)%nat) l ->
  forall q, zoo_get q (delete_all (NODE_ZNODE ns) l s) =
    if decide (q ∈ child (NODE_ZNODE ns) <$> l) then None else zoo_get q s.
Proof.
  revert s; induction l as [|c l IH]; intros s Hv Hs Hn Hl q; cbn [delete_all fmap list_fmap].
  { by rewrite decide_False by apply not_elem_of_nil. }
  apply Forall_cons_iff in Hl as [[Hc Hlen] Hl]. apply list.NoDup_cons in Hn as [Hnc Hn].
  apply Forall_cons_iff in Hs as [Hsc Hs].
  assert (snprintf (child (NODE_ZNODE ns) c) = child (NODE_ZNODE ns) c) as ->.
  { unfold snprintf, MAX_NODE_STR_LEN in *. apply take_ge. lia. }
  destruct (delete_leaf s (child (NODE_ZNODE ns) c)) as [_ Hq]; [done|intros; apply Hv|].
  rewrite IH; [rewrite Hq| |done..|].
  - destruct (decide (q ∈ child (NODE_ZNODE ns) <$> l)) as [Hin|Hin]; [by rewrite decide_True by by constructor|].
    destruct (decide (q = child (NODE_ZNODE ns) c)) as [->|Hne]; [by rewrite decide_True by constructor|].
    rewrite decide_False; [done|]. by intros [?|?]%elem_of_cons.
  - intros x d. rewrite Hq. case_decide; [done|]. apply Hv.
  - apply list.Forall_forall. intros x Hx. pose proof (proj1 (list.Forall_forall _ _) Hl x Hx) as [Hx1 Hx2].
    split; [|done]. rewrite Hq, decide_False; [done|]. by intros ->%child_inj.
Qed.

Lemma reset_keeps s q : node_leaves s ->
  (forall c, is_Some (zoo_get (child (NODE_ZNODE ns) c) s) -> (length (child (NODE_ZNODE ns) c) < MAX_NODE_STR_LEN)%nat) ->
  (forall c, slash ∉ c -> q <> child (NODE_ZNODE ns) c) ->
  zoo_get q (reset_nodes s) = zoo_get q s.
Proof.
  intros Hv Hlen Hq. unfold reset_nodes.
  destruct (zoo_get (NODE_ZNODE ns) s) as [v|] eqn:E; [|by rewrite no_children].
  destruct (children_of s (NODE_ZNODE ns)) as (l & -> & Hn & Hl); [by rewrite E|].
  assert (Hin : forall c, c ∈ reverse l -> (slash ∉ c) /\ is_Some (zoo_get (child (NODE_ZNODE ns) c) s))
    by (intros c Hc; apply Hl; by apply elem_of_reverse).
  rewrite delete_all_ok.
  - rewrite decide_False; [done|]. intros (c & -> & Hc)%list_elem_of_fmap_1. by apply (Hq c); [apply Hin|].
  - done.
  - apply list.Forall_forall. intros c Hc. by apply Hin.
  - by rewrite reverse_Permutation.
  - apply list.Forall_forall. intros c Hc. split; [by apply Hin|]. apply Hlen. by apply Hin.
Qed.

Lemma dirM_not_node c : slash ∉ c -> dirM <> child (NODE_ZNODE ns) c.
Proof.
  intros Hc E. apply (f_equal strrchr_slash) in E. rewrite strrchr_child in E by done.
  change dirM with (child (NM_ZNODE ns) (txt "MODULES")) in E.
  rewrite strrchr_child in E by (by apply (bool_decide_unpack _)). injection E as E _.
  by apply (child_not_dir (NM_ZNODE ns) (txt "NODES")).
Qed.

Lemma module_not_node c c' : slash ∉ c -> slash ∉ c' -> child dirM c <> child (NODE_ZNODE ns) c'.
Proof.
  intros Hc Hc' E. apply (f_equal strrchr_slash) in E. rewrite !strrchr_child in E by done. injection E as E _.
  apply (child_inj (NM_ZNODE ns) (txt "MODULES") (txt "NODES")) in E. done.
Qed.

(** A later connect finds the registry as it is, also when it resets the nodes. *)
Lemma later_connect names s init state opt reset :
  registry_ok names s -> is_Some (zoo_get (NM_ZNODE ns) s) -> node_leaves s ->
  (forall c, is_Some (zoo_get (child (NODE_ZNODE ns) c) s) -> (length (child (NODE_ZNODE ns) c) < MAX_NODE_STR_LEN)%nat) ->
  answers init state opt ->
  exists s', connect init state opt reset s = Ok (0, s') /\ registry_ok names s'.
Proof.
  intros G HN Hv Hlen Ha. rewrite connect_answers by done. cbv zeta.
  set (s0 := if reset then reset_nodes s else s).
  assert (Hsame : forall q, (forall c, slash ∉ c -> q <> child (NODE_ZNODE ns) c) -> zoo_get q s0 = zoo_get q s).
  { intros q Hq. unfold s0. destruct reset; [by apply reset_keeps|done]. }
  rewrite create_old.
  - cbn. exists s0. split; [done|]. destruct G as [G1 G2 G3 G4 G5]. split; auto.
    + by rewrite Hsame by apply dirM_not_node.
    + intros c d Hc. rewrite Hsame; [by apply G2|]. intros c' Hc'. by apply module_not_node.
  - rewrite Hsame; [done|]. intros c Hc E. apply (f_equal length) in E.
    unfold NODE_ZNODE, child in E. rewrite !length_app in E. cbn in E. lia.
Qed.
End Registry.


(** The option [hosts=timeout]: both parts are read back; without a timeout the default is taken. *)
Theorem zk_option_roundtrip (c : ascii) (hosts : text) (t : Z) :
  equals_sign ∉ c :: hosts -> 0 <= t < 2 ^ 31 ->
  parse_zk_option ((c :: hosts) ++ equals_sign :: show_dec t) = Some (Some (c :: hosts), t) /\
  parse_zk_option ((c :: hosts) ++ [equals_sign]) = Some (Some (c :: hosts), SESSION_TIMEOUT) /\
  parse_zk_option (c :: hosts) = Some (Some (c :: hosts), SESSION_TIMEOUT).
Proof.
  intros He Ht. unfold parse_zk_option. rewrite !strtok_app, strtok_free by done. cbn.
  split; [|done]. destruct (show_dec_cons t) as (d & r & Ed & Hd); [lia|].
  assert (He' : equals_sign ∉ show_dec t) by (apply digits_no_equals, dec_digits_digits; lia).
  rewrite Ed in He'. rewrite Ed, strtok_free by done. rewrite <- Ed.
  unfold scan_timeout. pose proof (read_show 64 t [] ltac:(lia) ltac:(lia) I) as Hr.
  rewrite app_nil_r in Hr. unfold read_unsigned in Hr.
  destruct (strtou 64 (show_dec t)) as [[[v|] r']|]; try done. injection Hr as -> _. cbn.
  rewrite wrap_small by width_lia. by rewrite (proj2 (Z.ltb_lt _ _)) by lia.
Qed.

(** The directories are made in six requests: a process that connects between the first and the
    others finds the name space there, goes on, and its first get_module_id reads a list of
    children that was never written. *)
Theorem connect_race {S : Type} `{ZkTreeLaws S} (ns : option text) (s s1 : S)
    (init : option text -> Z -> bool) (state : nat -> bool) (opt name : text) (create : bool) :
  fresh ns s -> good_name (nm ns) -> answers init state opt ->
  zoo_create (NM_ZNODE ns) (txt "ICT") s = (ZOK, s1) ->
  connect ns init state opt false s1 = Ok (0, s1) /\
  get_module_id ns name create [] s1 = Fault BadDeref.
Proof.
  intros Hf Hg Ha E. pose proof (Hf []) as Hf0. rewrite app_nil_r in Hf0. rewrite NM_child in *.
  destruct (create_new s [] (nm ns) (txt "ICT")) as [_ Hq]; [by left|done..|]. rewrite E in Hq. cbn [snd] in Hq.
  split.
  - rewrite connect_answers by done. cbv zeta. rewrite create_old.
    + done.
    + rewrite NM_child, Hq. by rewrite decide_True.
  - unfold get_module_id. cbn [cache_find]. rewrite no_children; [done|].
    rewrite Hq, decide_False; [apply Hf|]. rewrite <- NM_child. apply child_not_dir.
Qed.

(** ** Examples *)
Module RegistryExamples.
Definition ops : list call :=
  [CallId 1 (txt "kv") true; CallId 2 (txt "log") true; CallId 2 (txt "kv") false; CallId 1 (txt "none") false;
   CallName 1 1; CallId 3 (txt "log") true].

Definition tree0 : tree := ∅.

Lemma tree0_fresh : fresh None tree0.
Proof. intros q. cbn. apply lookup_empty. Qed.

Lemma host_answers : answers (fun _ _ => true) (fun i => bool_decide (i = 3)%nat) (txt "localhost:2346=").
Proof. exists (Some (txt "localhost:2346")), 30000. split_and!; [reflexivity..|]. exists 3%nat. by split. Defined.


Lemma zk_option_roundtrip_witness :
  parse_zk_option (txt "h:1=500") = Some (Some (txt "h:1"), 500).
Proof.
  apply (zk_option_roundtrip "h"%char (txt ":1") 500); [by apply (bool_decide_unpack _)|lia].
Defined.

Lemma connect_race_witness :
  get_module_id None (txt "kv") true [] ({[txt "/MOLA" := txt "ICT"]} : tree) = Fault BadDeref.
Proof.
  apply (connect_race None tree0 {[txt "/MOLA" := txt "ICT"]} (fun _ _ => true) (fun i => bool_decide (i = 3)%nat)
    (txt "localhost:2346=") (txt "kv") true tree0_fresh ltac:(by apply (bool_decide_unpack _)) host_answers eq_refl).
Defined.
End RegistryExamples.
