(* ===== verification/ZkEvents.v ===== *)
(** * Events through zookeeper

    ZookeeperEngine::publish_event and subscribe_event of src/zookeeper.cpp and what zk_watcher does when a
    node has changed.  A publication creates the node of the event, if it is not there, and
    writes to it; a subscription asks for a watch.

    The machine below is one event and the watches of the service on its node, as the documentation
    of zookeeper has them: a watch is told of one change and is gone then; it is told of the creation if the
    node was not there.  A step is one request to the service or one call of on_event. *)
From Stdlib Require Import Ascii String.
From stdpp Require Import base list numbers.
From S2P Require Import Prelude Text ZkEngine.

#[local] Open Scope list_scope.
#[local] Open Scope Z_scope.
#[local] Abbreviation length := List.length.

(** ** The name of an event *)
Section Names.
Context (ns : option text).

(** sprintf(path, "%s/%s", EVENT_ZNODE, event) *)
Definition event_path (event : text) : text := EVENT_ZNODE ns ++ slash :: event.

(** zk_watcher on ZOO_CHANGED_EVENT: the event on_event is called with *)
Definition watch_changed (path : text) : option text :=
  rest ← strip (EVENT_ZNODE ns) path; Some (drop 1 rest).

Lemma event_path_roundtrip event : watch_changed (event_path event) = Some event.
Proof. unfold watch_changed, event_path. rewrite strip_app. cbn. by rewrite drop_0. Qed.
End Names.

(** ** The node of an event *)
Inductive kind := Created | Changed.
#[global] Instance kind_eq : EqDecision kind.
Proof. solve_decision. Defined.

(** [z_told]: notifications on their way to a process; [z_rearm]: processes between on_event and the
    zoo_get that watches again; [z_heard]: the calls of on_event, by process. *)
Record znode := MkZ {
  z_exists : bool;
  z_watch : list Z;
  z_told : list (Z * kind);
  z_rearm : list Z;
  z_heard : list Z
}.

Inductive action :=
| ACreate            (* zoo_create of a publication *)
| ASet               (* zoo_set of a publication *)
| ALocal (q : Z)     (* on_event of the publisher *)
| ASub (p : Z)       (* zoo_exists with a watch *)
| ADeliver (i : nat) (* zk_watcher runs for a notification *)
| ARearm (i : nat).  (* zoo_get with a watch *)

(** The service tells the watches. *)
Definition fire (k : kind) (z : znode) : znode :=
  MkZ (z_exists z) [] (z_told z ++ ((., k) <$> z_watch z)) (z_rearm z) (z_heard z).

Definition add_watch (p : Z) (z : znode) : znode :=
  MkZ (z_exists z) (if bool_decide (p ∈ z_watch z) then z_watch z else p :: z_watch z)
    (z_told z) (z_rearm z) (z_heard z).

Definition exec (a : action) (z : znode) : znode :=
  match a with
  | ACreate =>
      if z_exists z then z
      else fire Created (MkZ true (z_watch z) (z_told z) (z_rearm z) (z_heard z))
  | ASet => if z_exists z then fire Changed z else z
  | ALocal q => MkZ (z_exists z) (z_watch z) (z_told z) (z_rearm z) (z_heard z ++ [q])
  | ASub p => add_watch p z
  | ADeliver i =>
      match z_told z !! i with
      | None => z
      | Some (p, Created) => MkZ (z_exists z) (z_watch z) (delete i (z_told z)) (z_rearm z) (z_heard z)
      | Some (p, Changed) =>
          MkZ (z_exists z) (z_watch z) (delete i (z_told z)) (z_rearm z ++ [p]) (z_heard z ++ [p])
      end
  | ARearm i =>
      match z_rearm z !! i with
      | None => z
      | Some p => add_watch p (MkZ (z_exists z) (z_watch z) (z_told z) (delete i (z_rearm z)) (z_heard z))
      end
  end.

Definition exec_all (l : list action) (z : znode) : znode := foldl (fun z a => exec a z) z l.

Definition publish (q : Z) : list action := [ACreate; ASet; ALocal q].

(** How often [p] was called. *)
Definition heard (p : Z) (z : znode) : nat := length (filter (fun q => q = p) (z_heard z)).

Definition by_others (p : Z) (a : action) : Prop := a <> ASub p /\ a <> ALocal p.

(** ** A process that subscribed before the first publication *)
Record deaf (p : Z) (z : znode) : Prop := {
  d_watch : z_exists z = true -> p ∉ z_watch z;
  d_told : (p, Changed) ∉ z_told z;
  d_rearm : p ∉ z_rearm z
}.

Lemma add_watch_elem p q z : p ∈ z_watch (add_watch q z) <-> p = q \/ p ∈ z_watch z.
Proof. unfold add_watch. cbn. case_bool_decide; [|by rewrite elem_of_cons]. split; [tauto|]. by intros [->|]. Qed.

Lemma fire_told k z e : e ∈ z_told (fire k z) <-> e ∈ z_told z \/ (e.2 = k /\ e.1 ∈ z_watch z).
Proof.
  unfold fire. cbn. rewrite elem_of_app, list_elem_of_fmap. apply or_iff_compat_l. destruct e as [p k']. cbn. split.
  - by intros (x & [= -> ->] & Hx).
  - intros [-> Hp]. eauto.
Qed.

Lemma deaf_step p a z : deaf p z -> by_others p a -> deaf p (exec a z) /\ heard p (exec a z) = heard p z.
Proof.
  intros Hd [Ha1 Ha2]. pose proof Hd as [Hw Ht Hr]. unfold heard. destruct a as [| |q|q|i|i]; cbn [exec].
  - destruct (z_exists z) eqn:E; [by split|]. split; [|done]. split; cbn.
    + intros _. apply not_elem_of_nil.
    + intros Hin. apply (fire_told Created (MkZ true (z_watch z) (z_told z) (z_rearm z) (z_heard z))) in Hin as [?|[? _]]; done.
    + done.
  - destruct (z_exists z) eqn:E; [|by split]. split; [|done]. split.
    + intros _. apply not_elem_of_nil.
    + intros [?|[_ Hin]]%fire_told; [done|]. by apply Hw.
    + done.
  - split; [by split|]. cbn. rewrite list.filter_app, filter_cons_False, filter_nil, app_nil_r; [done|]. by intros ->.
  - split; [|done]. split; [|done..]. intros He [->|Hin]%add_watch_elem; [done|]. by apply Hw.
  - destruct (z_told z !! i) as [[q []]|] eqn:E; [| |by split].
    + split; [|done]. split; cbn; try done. by intros ?%list_elem_of_delete_inv.
    + assert (q <> p) as Hq by (intros ->; apply Ht; by apply list_elem_of_lookup_2 with i).
      split; [split; cbn; try done|].
      * by intros ?%list_elem_of_delete_inv.
      * rewrite elem_of_app, list_elem_of_singleton. by intros [?| ->].
      * cbn. rewrite list.filter_app, filter_cons_False, filter_nil, app_nil_r; [done|]. by intros ->.
  - destruct (z_rearm z !! i) as [q|] eqn:E; [|by split].
    assert (q <> p) as Hq by (intros ->; apply Hr; by apply list_elem_of_lookup_2 with i).
    split; [|done]. split; [|done|by intros ?%list_elem_of_delete_inv].
    intros He [->|Hin]%add_watch_elem; [done|]. by apply Hw.
Qed.

Lemma deaf_run p l z : deaf p z -> Forall (by_others p) l ->
  deaf p (exec_all l z) /\ heard p (exec_all l z) = heard p z.
Proof.
  revert z; induction l as [|a l IH]; intros z Hd Hl; cbn; [done|].
  apply Forall_cons_iff in Hl as [Ha Hl]. destruct (deaf_step p a z Hd Ha) as [Hd' <-]. by apply IH.
Qed.

(** A process that subscribes before the event was ever published does not hear of it: the
    creation of the node uses its watch up, zk_watcher ignores that and asks for no other, so that
    whatever is published and delivered afterwards, on_event is not called unless
    the process subscribes again or publishes itself. *)
Theorem early_subscriber_deaf (p : Z) (l : list action) (z : znode) :
  z_exists z = false -> (p, Changed) ∉ z_told z -> p ∉ z_rearm z -> Forall (by_others p) l ->
  heard p (exec_all (ASub p :: l) z) = heard p z.
Proof.
  intros He Ht Hr Hl. apply (deaf_run p l (add_watch p z)); [|done].
  split; [|done..]. cbn. by rewrite He.
Qed.

(** ** A process that subscribed when the node was there *)
Record live (p : Z) (z : znode) : Prop := {
  l_exists : z_exists z = true;
  l_live : p ∈ z_watch z \/ (p, Changed) ∈ z_told z \/ p ∈ z_rearm z
}.

Lemma elem_of_delete_other {A} (l : list A) i x y : l !! i = Some y -> x ∈ l -> x <> y -> x ∈ delete i l.
Proof.
  intros Hi Hx Hne. rewrite (delete_Permutation _ _ _ Hi) in Hx. by apply elem_of_cons in Hx as [->|?].
Qed.

Lemma live_step p a z : live p z -> live p (exec a z).
Proof.
  intros Hlv. pose proof Hlv as [He Hl]. destruct a as [| |q|q|i|i]; cbn [exec].
  - by rewrite He.
  - rewrite He. split; [done|]. right. destruct Hl as [H|[H|H]]; [left|left|by right]; apply fire_told; auto.
  - by split.
  - split; [done|]. destruct Hl as [H|?]; [left; apply add_watch_elem; auto|by right].
  - destruct (z_told z !! i) as [[q []]|] eqn:E; [| |by split]; (split; [done|]); cbn.
    + destruct Hl as [H|[H|H]]; auto. right. left. by eapply elem_of_delete_other.
    + destruct Hl as [H|[H|H]]; auto; right.
      * destruct (decide (q = p)) as [->|Hne]; [right; apply elem_of_app; right; constructor|].
        left. eapply elem_of_delete_other; [done..|]. intros [=]. by apply Hne.
      * right. apply elem_of_app. by left.
  - destruct (z_rearm z !! i) as [q|] eqn:E; [|by split]. split; [done|].
    destruct (decide (q = p)) as [->|Hne]; [left; apply add_watch_elem; by left|].
    destruct Hl as [H|[H|H]]; [left; apply add_watch_elem; by right|by right; left|].
    right; right. cbn. eapply elem_of_delete_other; [done..|congruence].
Qed.

(** A process that subscribes once the node of the event is there stays in touch, whatever happens in
    which order: it watches, or a notification is on its way to it, or it is about to watch again; and
    a publication that finds it watching is told to it, and it is called when that arrives. *)
Theorem late_subscriber_hears (p q : Z) (l : list action) (z : znode) :
  z_exists z = true ->
  let t := exec_all (ASub p :: l) z in
  (p ∈ z_watch t \/ (p, Changed) ∈ z_told t \/ p ∈ z_rearm t) /\
  (p ∈ z_watch t ->
   exists i, let t' := exec_all (publish q) t in
     z_told t' !! i = Some (p, Changed) /\ heard p (exec (ADeliver i) t') = S (heard p t')).
Proof.
  intros He t. assert (Hlive : live p t).
  { unfold t. cbn. assert (live p (add_watch p z)) as H0 by (split; [done|left; apply add_watch_elem; by left]).
    clear -H0. revert H0. generalize (add_watch p z). induction l as [|a l IH]; intros z' Hz; cbn; [done|].
    apply IH. by apply live_step. }
  clearbody t. destruct Hlive as [Ht Hl]. split; [done|]. intros Hw.
  destruct (list_elem_of_lookup_1 (z_told (fire Changed t)) (p, Changed)) as [i Hi]; [by apply fire_told; right|].
  exists i. cbv zeta.
  assert (exec_all (publish q) t = exec (ALocal q) (fire Changed t)) as -> 
    by (unfold exec_all, publish; cbn [foldl exec]; by rewrite ?Ht).
  split; [done|]. cbn in Hi |- *. rewrite Hi. unfold heard. cbn.
  rewrite (list.filter_app _ (z_heard t ++ [q])), length_app, filter_cons_True by done. cbn. lia.
Qed.

(** ** Examples *)
Module EventExamples.
Definition empty : znode := MkZ false [] [] [] [].
Definition known : znode := exec_all (publish 9) empty.

(** A publication that comes between on_event and the next watch is not told: the process is called once for two
    publications, and before the second was made. *)
Definition overlap : list action := publish 9 ++ [ADeliver 0] ++ publish 9 ++ [ARearm 0].

Example publication_lost :
  let t := exec_all (ASub 1 :: overlap) known in heard 1 t = 1%nat /\ z_told t = [] /\ z_rearm t = [].
Proof. done. Qed.

Lemma early_subscriber_deaf_witness :
  heard 1 (exec_all (ASub 1 :: publish 9 ++ [ADeliver 0] ++ publish 9) empty) = 0%nat.
Proof.
  apply (early_subscriber_deaf 1 (publish 9 ++ [ADeliver 0] ++ publish 9) empty); [reflexivity|apply not_elem_of_nil..|].
  repeat (constructor; [by split|]). constructor.
Defined.

Lemma late_subscriber_hears_witness :
  exists i, z_told (exec_all (publish 9) (exec_all [ASub 1] known)) !! i = Some (1, Changed).
Proof.
  destruct (late_subscriber_hears 1 9 [] known) as [_ H]; [reflexivity|].
  destruct H as (i & Hi & _); [by apply (bool_decide_unpack _)|]. exists i. exact Hi.
Defined.
End EventExamples.
