(* ===== verification/Membership.v ===== *)
(** * Joining and leaving the cluster

    ZookeeperEngine::join, leave, sync_all_nodes and _find_node of src/zookeeper.cpp,
    and the node table's part of NodeManager (src/node_manager.cpp).  ZkEngine.v has
    the names, NodeManager.v the records and the table, ZkRegistry.v the service; here
    they are put together.  What the service promises of sequential nodes is [ZkSeqLaws]. *)
From Stdlib Require Import Ascii String.
From stdpp Require Import base list gmap numbers strings sorting.
From S2P Require Import Prelude Text ActorId NodeManager ZkEngine ZkRegistry.

#[local] Open Scope list_scope.
#[local] Open Scope Z_scope.
#[local] Abbreviation length := List.length.
#[local] Arguments wrap : simpl never.
#[local] Arguments show_dec : simpl never.
#[local] Arguments pad10 : simpl never.

Abbreviation node := Node.node.

(** ** Sequential nodes

    [seq_next dir s] is the number that the next sequential node below [dir] gets. *)
Class ZkSeq (S : Type) := {
  seq_next : text -> S -> Z;
  zoo_create_seq : text -> text -> S -> zrc * text * S
}.

(** The number is appended to the path in ten digits; deleting a node does not give
    its number back. *)
Class ZkSeqLaws (S : Type) `{ZkTree S, ZkSeq S} := {
  create_seq (s : S) dir d :
    is_Some (zoo_get dir s) -> 0 <= seq_next dir s < 2 ^ 31 ->
    zoo_get (child dir (pad10 (seq_next dir s))) s = None ->
    exists s', zoo_create_seq (dir ++ [slash]) d s = (ZOK, child dir (pad10 (seq_next dir s)), s') /\
      forall q, zoo_get q s' = if decide (q = child dir (pad10 (seq_next dir s))) then Some d else zoo_get q s;
  delete_seq (s : S) dir p : seq_next dir (zoo_delete p s).2 = seq_next dir s
}.

(** *** A service that keeps the laws *)
Record seq_tree := MkSeqTree { st_tree : tree; st_seq : gmap text Z }.

Definition on_tree (f : tree -> zrc * tree) (s : seq_tree) : zrc * seq_tree :=
  ((f (st_tree s)).1, MkSeqTree (f (st_tree s)).2 (st_seq s)).

#[global] Instance seq_tree_ops : ZkTree seq_tree := {
  zoo_get p s := zoo_get p (st_tree s);
  zoo_set p d := on_tree (zoo_set p d);
  zoo_create p d := on_tree (zoo_create p d);
  zoo_delete p := on_tree (zoo_delete p);
  zoo_get_children dir s := zoo_get_children dir (st_tree s)
}.

#[global] Instance seq_tree_laws : ZkTreeLaws seq_tree.
Proof.
  split; intros s.
  - exact (set_get (st_tree s)).
  - exact (create_new (st_tree s)).
  - intros p d Hs. cbn [zoo_create seq_tree_ops]. unfold on_tree.
    rewrite (create_old (st_tree s) p d Hs). by destruct s.
  - exact (children_of (st_tree s)).
  - exact (no_children (st_tree s)).
  - exact (delete_leaf (st_tree s)).
Qed.

Definition number (dir : text) (s : seq_tree) : Z := default 0 (st_seq s !! (dir ++ [slash])).

#[global] Instance seq_tree_seq : ZkSeq seq_tree := {
  seq_next := number;
  zoo_create_seq prefix d s :=
    let n := default 0 (st_seq s !! prefix) in
    let path := prefix ++ pad10 n in
    (ZOK, path, MkSeqTree (<[path := d]> (st_tree s)) (<[prefix := n + 1]> (st_seq s)))
}.

#[global] Instance seq_tree_seq_laws : ZkSeqLaws seq_tree.
Proof.
  split; [|done]. intros s dir d _ _ _. cbn. rewrite <- app_assoc.
  eexists. split; [done|]. intros q. cbn. unfold number.
  case_decide; subst; [by rewrite lookup_insert_eq|by rewrite lookup_insert_ne].
Qed.

(** ** The engine *)
Section Membership.
Context {S : Type} `{!ZkTree S, !ZkTreeLaws S, !ZkSeq S, !ZkSeqLaws S}.
(** [get_module_name]: NodeManager::get_module_name, which names the modules of a record *)
Context (ns : option text) (get_module_name : Z -> text).

Abbreviation dirN := (NODE_ZNODE ns).

(** Node::invalid_id, the id of a node that has not joined *)
Definition invalid_id : Z := 4294967295.

(** _find_node: a null pointer is None *)
Definition _find_node (nid : Z) (s : S) : outcome (option node) :=
  _ ← mola_assert (negb (nid =? ANY) && negb (nid =? LOCAL));
  match zoo_get (find_path ns nid) s with
  | None => Ok None
  | Some _ =>
      info ← get_value (find_path ns nid) s;
      match Node.decode get_module_name nid info with
      | Some n => Ok (Some n)
      | None => Fault BadDeref
      end
  end.

(** foreach_node with the function that collects the ids of the other nodes *)
Fixpoint collect_ids (local : Z) (l : list text) : outcome (list Z) :=
  match l with
  | [] => Ok []
  | c :: l =>
      match strrchr_slash (snprintf (child dirN c)) with
      | None => Fault BadDeref
      | Some (_, p) =>
          n ← stoul p;
          let id := ZKID_TO_NODEID n in
          ids ← collect_ids local l;
          Ok (if id =? local then ids else id :: ids)
      end
  end.

Definition node_ids (local : Z) (s : S) : outcome (list Z) :=
  match zoo_get_children dirN s with
  | None => Ok []
  | Some l => collect_ids local (reverse l)
  end.

Fixpoint find_all (ids : list Z) (s : S) : outcome (list node) :=
  match ids with
  | [] => Ok []
  | i :: ids =>
      n ← _find_node i s;
      ns ← find_all ids s;
      Ok (match n with Some n => n :: ns | None => ns end)
  end.

(** sync_all_nodes: the number it returns and the node table *)
Definition sync_all_nodes (local : node) (s : S) (m : Cache.manager) : outcome (Z * Cache.manager) :=
  ids ← node_ids (Node.n_id local) s;
  reg ← find_all ids s;
  Ok (Z.of_nat (length ids) + 1, Cache.sync_all_nodes reg m).

(** Node::same_addr *)
Definition same_addr (a b : node) : bool :=
  bool_decide (Node.n_ip a = Node.n_ip b) && (Node.n_port a =? Node.n_port b) &&
  (Node.n_proto a =? Node.n_proto b).

Definition set_id (id : Z) (n : node) : node :=
  Node.MkNode id (Node.n_endian n) (Node.n_proto n) (Node.n_port n) (Node.n_ip n) (Node.n_modules n).

(** The loop over m_alive_nodes that deletes the node with the address of this one;
    the result of zoo_delete is ignored. *)
Fixpoint delete_zombies (local : node) (alive : list node) (s : S) : outcome S :=
  match alive with
  | [] => Ok s
  | n :: alive =>
      if same_addr local n then
        path ← sprintf (leave_path ns false (Node.n_id n));
        delete_zombies local alive (zoo_delete path s).2
      else delete_zombies local alive s
  end.

(** join of a node that hosts modules, once connect has set m_zhdl: the node with its id, the
    service and the table *)
Definition join (local : node) (s : S) (m : Cache.manager) : outcome (node * S * Cache.manager) :=
  '(_, m) ← sync_all_nodes local s m;
  s ← delete_zombies local (snd <$> map_to_list (Cache.m_alive_nodes m)) s;
  let '(rc, my_path, s) := zoo_create_seq (dirN ++ [slash]) (Node.encode local) s in
  _ ← mola_assert (bool_decide (rc = ZOK));
  id ← ZkEngine.join ns false my_path;
  let local := set_id id local in
  Ok (local, s, (Cache.update_cached_node local m).2).

(** leave, with m_zhdl set *)
Definition leave (local : node) (s : S) : outcome S :=
  path ← sprintf (leave_path ns false (Node.n_id local));
  let '(rc, s) := zoo_delete path s in
  _ ← mola_assert (bool_decide (rc = ZOK));
  Ok s.

(** The id of the node with the number 65534 is ActorID::ANY: every other node that
    synchronises with the registry stops at an assertion. *)
Lemma any_id_asserts (s : S) : _find_node (ZKID_TO_NODEID 65534) s = Fault AssertFailed.
Proof. done. Qed.

(** ** What a registry of joined nodes is *)
Context (Hns : (length dirN + 11 < MAX_NODE_STR_LEN)%nat).

Record reg_ok (s : S) : Prop := {
  rg_dir : is_Some (zoo_get dirN s);
  rg_seq : 0 <= seq_next dirN s < 2 ^ 31;
  rg_node c d : (slash ∉ c) -> zoo_get (child dirN c) s = Some d ->
    exists n r, c = pad10 n /\ 0 <= n < 65534 /\ n < seq_next dirN s /\
      d = Node.encode r /\ Node.node_wf r /\ (length d < MAX_NODE_STR_LEN)%nat;
  rg_leaf : node_leaves ns s
}.

Lemma stoul_pad10 n : 0 <= n < 10 ^ 10 -> stoul (pad10 n) = Ok n.
Proof.
  intros Hn. unfold stoul, strtou. pose proof (pad10_digits n ltac:(lia)) as Hd.
  pose proof (pad10_length n Hn) as Hl. pose proof (pad10_value n Hn) as Hv.
  destruct (pad10 n) as [|c s] eqn:He; [done|]. apply Forall_cons_1 in Hd as [Hc Hs].
  assert (drop_ws (c :: s) = c :: s) as -> by (cbn; by rewrite (digit_not_space c Hc)).
  pose proof Hc as Hc'. unfold is_digit in Hc'.
  assert (drop_sign (c :: s) = c :: s) as -> by (cbn; by rewrite (proj2 (orb_false_iff _ _)) by lia).
  assert (is_minus (c :: s) = false) as -> by (cbn; lia).
  rewrite <- (app_nil_r (c :: s)), span_digits_app by (by constructor || done).
  cbv zeta iota beta. rewrite Hv. destruct (Z.ltb_spec n (2 ^ 64)); [done|lia].
Qed.

Lemma pad10_slash n : 0 <= n -> slash ∉ pad10 n.
Proof.
  intros Hn Hin. pose proof (pad10_digits n Hn) as Hd. rewrite list.Forall_forall in Hd.
  by specialize (Hd _ Hin).
Qed.

Lemma pad10_inj a b : 0 <= a < 10 ^ 10 -> 0 <= b < 10 ^ 10 -> pad10 a = pad10 b -> a = b.
Proof. intros Ha Hb He. rewrite <- (pad10_value a Ha), <- (pad10_value b Hb). by rewrite He. Qed.

Lemma path_length n : 0 <= n < 10 ^ 10 -> (length (child dirN (pad10 n)) < MAX_NODE_STR_LEN)%nat.
Proof. intros Hn. unfold child. rewrite length_app. cbn. rewrite (pad10_length n Hn). lia. Qed.

(** A node's number, from its id *)
Lemma zkid_nodeid n : 0 <= n < 65534 -> NODEID_TO_ZKID (n + 1) = n.
Proof. intros Hn. unfold NODEID_TO_ZKID. rewrite wrap_small by width_lia. lia. Qed.

Lemma collect_ids_ok nums :
  Forall (fun n => 0 <= n < 65534) nums ->
  collect_ids invalid_id (pad10 <$> nums) = Ok ((fun n => n + 1) <$> nums).
Proof.
  induction 1 as [|n nums Hn Hnums IH]; cbn [collect_ids fmap list_fmap]; [done|].
  assert (snprintf (child dirN (pad10 n)) = child dirN (pad10 n)) as ->.
  { apply take_ge. pose proof (path_length n ltac:(lia)). lia. }
  rewrite strrchr_child by (apply pad10_slash; lia). rewrite stoul_pad10 by lia. cbn.
  rewrite IH. cbn. unfold ZKID_TO_NODEID, invalid_id. rewrite wrap_small by width_lia.
  destruct (Z.eqb_spec (n + 1) 4294967295); [lia|done].
Qed.

(** What the others read of a record *)
Definition published (id : Z) (r : node) : node :=
  Node.MkNode id (Node.n_endian r) (Node.n_proto r) (Node.n_port r) (Node.n_ip r)
    (Node.public_modules get_module_name (Node.n_modules r)).

Lemma encode_nonempty r : Node.node_wf r -> Node.encode r <> [].
Proof.
  intros (He & _). unfold Node.encode.
  destruct (show_dec_cons (Node.n_endian r)) as (c & t & -> & _); [width_lia|done].
Qed.

Lemma find_node_ok n r s :
  0 <= n < 65534 -> Node.node_wf r -> (length (Node.encode r) < MAX_NODE_STR_LEN)%nat ->
  zoo_get (child dirN (pad10 n)) s = Some (Node.encode r) ->
  _find_node (n + 1) s = Ok (Some (published (n + 1) r)).
Proof.
  intros Hn Hw Hl Hg. unfold _find_node.
  assert (find_path ns (n + 1) = child dirN (pad10 n)) as ->.
  { pose proof (proj2 (node_found_iff_small ns n ltac:(lia)) ltac:(lia)) as Hp.
    unfold ZKID_TO_NODEID in Hp. by rewrite wrap_small in Hp by width_lia. }
  unfold ANY, LOCAL. destruct (Z.eqb_spec (n + 1) 65535), (Z.eqb_spec (n + 1) 0); try lia. cbn.
  unfold get_value. rewrite Hg. rewrite take_ge by lia.
  pose proof (encode_nonempty r Hw) as Hne.
  destruct (Z.ltb_spec 0 (Z.of_nat (length (Node.encode r)))) as [_|H0].
  2: { destruct (Node.encode r); [done|cbn in H0; lia]. }
  cbn. rewrite decide_True by done. cbn. by rewrite Node.node_roundtrip.
Qed.

(** The records below the directory, each with its number *)
Definition records (s : S) (l : list (Z * node)) : Prop :=
  NoDup l.*1 /\
  Forall (fun e => 0 <= e.1 < 65534 /\ e.1 < seq_next dirN s /\ Node.node_wf e.2 /\
    (length (Node.encode e.2) < MAX_NODE_STR_LEN)%nat /\
    zoo_get (child dirN (pad10 e.1)) s = Some (Node.encode e.2)) l /\
  forall n, 0 <= n -> is_Some (zoo_get (child dirN (pad10 n)) s) -> n < 10 ^ 10 -> n ∈ l.*1.

Lemma records_exist s : reg_ok s ->
  exists l, records s l /\ exists cs, zoo_get_children dirN s = Some cs /\ reverse cs = pad10 <$> l.*1.
Proof.
  intros G. destruct (children_of s dirN (rg_dir _ G)) as (cs & Hcs & Hnd & Hin).
  assert (exists l, reverse cs = pad10 <$> l.*1 /\
    Forall (fun e => 0 <= e.1 < 65534 /\ e.1 < seq_next dirN s /\ Node.node_wf e.2 /\
      (length (Node.encode e.2) < MAX_NODE_STR_LEN)%nat /\
      zoo_get (child dirN (pad10 e.1)) s = Some (Node.encode e.2)) l) as (l & Hl & Hall).
  { assert (forall c, c ∈ reverse cs -> (slash ∉ c) /\ is_Some (zoo_get (child dirN c) s)) as Hc.
    { intros c. rewrite elem_of_reverse. apply Hin. }
    clear Hcs Hnd Hin. induction (reverse cs) as [|c l IH]; [by exists []|].
    destruct (Hc c) as [Hs [d Hd]]; [constructor|].
    destruct (rg_node _ G c d Hs Hd) as (n & r & -> & Hn & Hq & -> & Hw & Hlen).
    destruct IH as (l' & -> & Hl'); [intros x Hx; apply Hc; by constructor|].
    exists ((n, r) :: l'). split; [done|]. by apply list.Forall_cons. }
  exists l. split; [|eauto]. split; [|split; [done|]].
  - apply (NoDup_fmap_1 pad10). rewrite <- Hl. by rewrite reverse_Permutation.
  - intros n Hn Hs Hb. assert (pad10 n ∈ pad10 <$> l.*1) as (n' & He & Hin')%list_elem_of_fmap.
    { rewrite <- Hl, elem_of_reverse, Hin. split; [by apply pad10_slash|done]. }
    apply pad10_inj in He; [by subst|lia|].
    apply list_elem_of_fmap in Hin' as (e & -> & Hin'). rewrite list.Forall_forall in Hall.
    specialize (Hall _ Hin'). lia.
Qed.

Lemma find_all_ok s l :
  records s l ->
  find_all ((fun n => n + 1) <$> l.*1) s =
    Ok ((fun e => published (e.1 + 1) e.2) <$> l).
Proof.
  intros (_ & Hall & _). induction Hall as [|[n r] l (Hn & _ & Hw & Hl & Hg) Hall IH]; cbn; [done|].
  rewrite (find_node_ok n r s) by done. cbn. by rewrite IH.
Qed.

(** A synchronisation of an empty table reads the whole registry. *)
Lemma update_all_fresh reg m :
  NoDup (Node.n_id <$> reg) -> (forall x, x ∈ reg -> Cache.m_alive_nodes m !! Node.n_id x = None) ->
  Cache.m_alive_nodes (Cache.update_all reg m).2 =
  list_to_map ((fun x => (Node.n_id x, x)) <$> reg) ∪ Cache.m_alive_nodes m.
Proof.
  revert m; induction reg as [|x reg IH]; intros m Hnd Hfree; cbn.
  { by rewrite map_empty_union. }
  apply list.NoDup_cons in Hnd as [Hx Hnd]. unfold Cache.update_cached_node, Cache.find_cached_node.
  rewrite (Hfree x) by constructor. set (m1 := Cache.MkManager _ _ _).
  assert (Cache.m_alive_nodes (Cache.update_all reg m1).2 =
    list_to_map ((fun x => (Node.n_id x, x)) <$> reg) ∪ <[Node.n_id x := x]> (Cache.m_alive_nodes m)) as He.
  { apply IH; [done|]. intros y Hy. cbn. rewrite lookup_insert_ne; [apply Hfree; by constructor|].
    intros Heq. apply Hx. rewrite Heq. by apply list_elem_of_fmap_2. }
  destruct (Cache.update_all reg m1) as [c2 m2]. cbn in *. rewrite He.
  rewrite <- insert_union_r; [by rewrite insert_union_l|].
  apply not_elem_of_list_to_map. rewrite <- list_fmap_compose.
  intros (y & Heq & Hy)%list_elem_of_fmap. apply Hx. rewrite Heq. by apply list_elem_of_fmap_2.
Qed.

Lemma sync_fresh reg m :
  NoDup (Node.n_id <$> reg) -> Cache.m_alive_nodes m = ∅ ->
  snd <$> map_to_list (Cache.m_alive_nodes (Cache.sync_all_nodes reg m)) ≡ₚ reg /\
  forall k, is_Some (Cache.m_alive_nodes (Cache.sync_all_nodes reg m) !! k) -> k ∈ Node.n_id <$> reg.
Proof.
  intros Hnd He.
  assert (Cache.m_alive_nodes (Cache.sync_all_nodes reg m) =
          list_to_map ((fun x => (Node.n_id x, x)) <$> reg)) as Ha.
  { pose proof (update_all_fresh reg m Hnd) as Hu. rewrite He, map_union_empty in Hu.
    unfold Cache.sync_all_nodes. destruct (Cache.update_all reg m) as [[] m1]; apply Hu; done. }
  assert (((fun x => (Node.n_id x, x)) <$> reg).*1 = Node.n_id <$> reg) as Hk
    by (by rewrite <- list_fmap_compose).
  rewrite Ha. split.
  - rewrite map_to_list_to_map by (by rewrite Hk). rewrite <- list_fmap_compose.
    rewrite (list_fmap_ext _ id) by done. by rewrite list_fmap_id.
  - intros k [x Hx]. apply elem_of_list_to_map_2 in Hx.
    rewrite <- Hk. apply (list_elem_of_fmap_2 fst) in Hx. done.
Qed.

(** Some of the records, those of this address *)
Definition zombies (local : node) (l : list (Z * node)) : list (Z * node) :=
  filter (fun e => same_addr local e.2 = true) l.

Lemma delete_zombies_eq local l s :
  Forall (fun e => 0 <= e.1 < 65534) l ->
  delete_zombies local ((fun e => published (e.1 + 1) e.2) <$> l) s =
    Ok (delete_all dirN (pad10 <$> (zombies local l).*1) s).
Proof.
  intros Hl. revert s; induction Hl as [|[n r] l Hn Hl IH]; intros s; [done|].
  cbn [fmap list_fmap delete_zombies fst snd]. unfold zombies. rewrite filter_cons.
  change (same_addr local (published (n + 1) r)) with (same_addr local r). cbn [snd].
  destruct (same_addr local r) eqn:Hs; [rewrite decide_True by done|by rewrite decide_False].
  cbn [fst] in Hn.
  assert (leave_path ns false (n + 1) = child dirN (pad10 n)) as Hp
    by (unfold leave_path; by rewrite zkid_nodeid).
  cbn [Node.n_id published]. rewrite Hp. unfold sprintf.
  pose proof (path_length n ltac:(lia)) as Hlen. rewrite decide_True by done. cbn [mbind outcome_bind].
  rewrite IH. cbn [fmap list_fmap delete_all].
  cbn [fst]. unfold snprintf. by rewrite take_ge by lia.
Qed.

Lemma delete_all_seq l s dir : seq_next dir (delete_all dirN l s) = seq_next dir s.
Proof. revert s; induction l as [|c l IH]; intros s; cbn; [done|]. by rewrite IH, delete_seq. Qed.

Lemma zombies_deleted local l l' s :
  reg_ok s -> records s l -> l' ≡ₚ l ->
  forall q, zoo_get q (delete_all dirN (pad10 <$> (zombies local l').*1) s) =
    if decide (q ∈ child dirN <$> (pad10 <$> (zombies local l).*1)) then None else zoo_get q s.
Proof.
  intros G (Hnd & Hall & _) HP q.
  assert (zombies local l' ≡ₚ zombies local l) as HPz by (unfold zombies; by rewrite HP).
  assert (Forall (fun e => 0 <= e.1 < 65534 /\
    zoo_get (child dirN (pad10 e.1)) s = Some (Node.encode e.2)) (zombies local l')) as Hz.
  { rewrite HPz. apply list.Forall_forall. intros e [_ He]%list_elem_of_filter.
    rewrite list.Forall_forall in Hall. specialize (Hall _ He). tauto. }
  rewrite delete_all_ok; [apply decide_ext; by rewrite HPz|apply (rg_leaf _ G)|..].
  - apply list.Forall_forall. intros c (n & -> & (e & -> & He)%list_elem_of_fmap)%list_elem_of_fmap.
    rewrite list.Forall_forall in Hz. apply pad10_slash. by destruct (Hz _ He) as [[? _] _].
  - assert (NoDup (zombies local l').*1) as Hndz.
    { rewrite HPz. unfold zombies. eapply sublist_NoDup; [exact Hnd|]. apply fmap_sublist, sublist_filter. }
    clear HPz. revert Hndz Hz. induction (zombies local l') as [|e z IH]; cbn; [constructor|].
    intros [Hne Hndz]%list.NoDup_cons [He Hz]%list.Forall_cons. apply list.NoDup_cons. split; [|auto].
    intros (n & Heq & (e' & -> & He')%list_elem_of_fmap)%list_elem_of_fmap.
    rewrite list.Forall_forall in Hz. destruct (Hz _ He') as [Hn' _].
    apply pad10_inj in Heq; [|lia|lia]. apply Hne. rewrite Heq. by apply list_elem_of_fmap_2.
  - apply list.Forall_forall. intros c (n & -> & (e & -> & He)%list_elem_of_fmap)%list_elem_of_fmap.
    rewrite list.Forall_forall in Hz. destruct (Hz _ He) as [Hn Hg]. split; [by rewrite Hg|].
    apply path_length. lia.
Qed.

Lemma same_addr_published local id r : same_addr local (published id r) = same_addr local r.
Proof. done. Qed.

(** The record of a node determines its address. *)
Lemma encode_addr local r r' :
  Node.node_wf r -> Node.node_wf r' -> Node.encode r = Node.encode r' ->
  same_addr local r = same_addr local r'.
Proof.
  intros Hw Hw' He. pose proof (Node.node_roundtrip get_module_name 0 r Hw) as H1.
  rewrite He, (Node.node_roundtrip get_module_name 0 r' Hw') in H1.
  injection H1 as _ Hp Ho Hi _. unfold same_addr. by rewrite Hi, Ho, Hp.
Qed.

(** [registered s n r]: the record of [r] is registered under the number [n]. *)
Definition registered (s : S) (n : Z) (r : node) : Prop :=
  zoo_get (child dirN (pad10 n)) s = Some (Node.encode r).

Lemma registered_record s l n r :
  records s l -> 0 <= n < 10 ^ 10 -> Node.node_wf r -> registered s n r ->
  exists r', (n, r') ∈ l /\ 0 <= n < seq_next dirN s /\ forall local, same_addr local r = same_addr local r'.
Proof.
  intros (Hnd & Hall & Hcov) Hn Hw Hr. assert (n ∈ l.*1) as Hin by (apply Hcov; [lia|by eexists|lia]).
  apply list_elem_of_fmap in Hin as ([n' r'] & -> & Hin). exists r'.
  rewrite list.Forall_forall in Hall. destruct (Hall _ Hin) as (Hb & Hq & Hw' & _ & Hg). cbn in *.
  split; [done|]. split; [lia|]. intros local. apply encode_addr; [done..|]. unfold registered in Hr. congruence.
Qed.

Lemma join_name n : 0 <= n < 65534 -> ZkEngine.join ns false (child dirN (pad10 n)) = Ok (n + 1).
Proof.
  intros Hn. unfold ZkEngine.join, child. rewrite (app_assoc _ [slash] (pad10 n)), strip_app.
  cbn [mbind option_bind]. rewrite scan_pad10 by lia. unfold ZKID_TO_NODEID.
  by rewrite wrap_small by width_lia.
Qed.

Lemma NoDup_fst_inj {A B} (l : list (A * B)) a b b' :
  NoDup l.*1 -> (a, b) ∈ l -> (a, b') ∈ l -> b = b'.
Proof.
  intros Hnd (i & Hi)%list_elem_of_lookup (j & Hj)%list_elem_of_lookup.
  assert (i = j) as ->; [|congruence].
  eapply (NoDup_lookup l.*1 i j a Hnd); by rewrite list_lookup_fmap, ?Hi, ?Hj.
Qed.

Lemma next_free s l : records s l -> 0 <= seq_next dirN s < 65534 ->
  zoo_get (child dirN (pad10 (seq_next dirN s))) s = None.
Proof.
  intros (_ & Hall & Hcov) Hq. apply eq_None_not_Some. intros Hs. apply Hcov in Hs; [|lia..].
  apply list_elem_of_fmap in Hs as (e & He & Hin). rewrite list.Forall_forall in Hall.
  specialize (Hall _ Hin). lia.
Qed.

(** A synchronisation reads all records into an empty table. *)
Lemma sync_all_ok s m l cs local :
  records s l -> zoo_get_children dirN s = Some cs -> reverse cs = pad10 <$> l.*1 ->
  Node.n_id local = invalid_id -> Cache.m_alive_nodes m = ∅ ->
  exists k m1 l', sync_all_nodes local s m = Ok (k, m1) /\ l' ≡ₚ l /\
    snd <$> map_to_list (Cache.m_alive_nodes m1) = (fun e => published (e.1 + 1) e.2) <$> l' /\
    Cache.m_alive_nodes m1 !! (seq_next dirN s + 1) = None.
Proof.
  intros Hrec Hcs Hrev Hid Hm. pose proof Hrec as (Hnd & Hall & _).
  set (reg := (fun e => published (e.1 + 1) e.2) <$> l).
  assert (NoDup (Node.n_id <$> reg)) as Hndr.
  { unfold reg. rewrite <- list_fmap_compose.
    replace ((Node.n_id ∘ (fun e : Z * node => published (e.1 + 1) e.2)) <$> l)
      with (Z.succ <$> l.*1) by (by rewrite <- list_fmap_compose).
    apply (NoDup_fmap_2_strong Z.succ); [intros; lia|done]. }
  destruct (sync_fresh reg m Hndr Hm) as [HP Hkeys].
  apply Permutation_map_inv in HP as (l' & He & HPl).
  eexists _, (Cache.sync_all_nodes reg m), l'. split_and!; [|done..|].
  - unfold sync_all_nodes, node_ids. rewrite Hcs, Hrev, Hid, collect_ids_ok.
    + cbn [mbind outcome_bind]. by rewrite (find_all_ok s l Hrec).
    + apply Forall_fmap. eapply list.Forall_impl; [exact Hall|cbn; tauto].
  - apply eq_None_not_Some. intros Hs. apply Hkeys in Hs. unfold reg in Hs.
    apply list_elem_of_fmap in Hs as (x & Hx & (e & -> & Hin)%list_elem_of_fmap). cbn in Hx.
    rewrite list.Forall_forall in Hall. specialize (Hall _ Hin). lia.
Qed.

(** What join does to the registry and the table *)
Lemma join_run s m l cs local :
  reg_ok s -> records s l -> zoo_get_children dirN s = Some cs -> reverse cs = pad10 <$> l.*1 ->
  Node.n_id local = invalid_id -> Cache.m_alive_nodes m = ∅ -> seq_next dirN s < 65534 ->
  let N := seq_next dirN s in
  exists s' m', join local s m = Ok (set_id (N + 1) local, s', m') /\
    (forall q, zoo_get q s' =
       if decide (q = child dirN (pad10 N)) then Some (Node.encode local)
       else if decide (q ∈ child dirN <$> (pad10 <$> (zombies local l).*1)) then None else zoo_get q s) /\
    Cache.m_alive_nodes m' !! (N + 1) = Some (set_id (N + 1) local).
Proof.
  intros G Hrec Hcs Hrev Hid Hm Hseq N. pose proof (rg_seq _ G) as Hq. fold N in Hq, Hseq.
  destruct (sync_all_ok s m l cs local Hrec Hcs Hrev Hid Hm) as (k & m1 & l' & Hsync & HPl & Hl' & Hnew).
  assert (Forall (fun e => 0 <= e.1 < 65534) l') as Hlr.
  { rewrite HPl. eapply list.Forall_impl; [apply (proj1 (proj2 Hrec))|cbn; tauto]. }
  set (s1 := delete_all dirN (pad10 <$> (zombies local l').*1) s).
  pose proof (zombies_deleted local l l' s G Hrec HPl) as Hs1. fold s1 in Hs1.
  assert (seq_next dirN s1 = N) as HN by apply delete_all_seq.
  destruct (create_seq s1 dirN (Node.encode local)) as (s2 & Hc & Hs2).
  { rewrite Hs1, decide_False; [apply (rg_dir _ G)|].
    intros (c & Heq & _)%list_elem_of_fmap. by apply (child_not_dir dirN c). }
  { lia. }
  { rewrite HN, Hs1. pose proof (next_free s l Hrec ltac:(lia)) as Hfree. fold N in Hfree.
    rewrite Hfree. by case_decide. }
  rewrite HN in Hc, Hs2. exists s2, (Cache.update_cached_node (set_id (N + 1) local) m1).2. split_and!.
  - unfold join. rewrite Hsync. cbn [mbind outcome_bind].
    rewrite Hl', (delete_zombies_eq local l' s Hlr). fold s1. cbn [mbind outcome_bind]. rewrite Hc.
    cbn [mola_assert bool_decide mbind outcome_bind decide]. by rewrite join_name by lia.
  - intros q. by rewrite Hs2, Hs1.
  - unfold Cache.update_cached_node, Cache.find_cached_node. cbn [Node.n_id set_id]. fold N in Hnew.
    rewrite Hnew. apply lookup_insert_eq.
Qed.


(** Leave undoes join: the node that joined can leave, and then its record is gone
    and every other stays as it was. *)
Theorem leave_undoes_join (s : S) (m : Cache.manager) (local : node) :
  reg_ok s -> Node.node_wf local -> Node.n_id local = invalid_id -> Cache.m_alive_nodes m = ∅ ->
  seq_next dirN s < 65534 ->
  exists node s1 m' s2, join local s m = Ok (node, s1, m') /\ leave node s1 = Ok s2 /\
    zoo_get (leave_path ns false (Node.n_id node)) s2 = None /\
    forall q, q <> leave_path ns false (Node.n_id node) -> zoo_get q s2 = zoo_get q s1.
Proof.
  intros G Hw Hid Hm Hseq. destruct (records_exist s G) as (l & Hrec & cs & Hcs & Hrev).
  pose proof (rg_seq _ G) as Hq.
  destruct (join_run s m l cs local G Hrec Hcs Hrev Hid Hm Hseq) as (s1 & m' & Hj & Hs1 & _).
  set (N := seq_next dirN s) in *.
  assert (leave_path ns false (Node.n_id (set_id (N + 1) local)) = child dirN (pad10 N)) as Hp.
  { unfold leave_path. cbn [Node.n_id set_id]. by rewrite zkid_nodeid by lia. }
  destruct (delete_leaf s1 (child dirN (pad10 N))) as [Hok Hs2].
  { by rewrite Hs1, decide_True. }
  { intros c Hc. rewrite Hs1, decide_False by apply child_not_dir. case_decide; [done|]. apply (rg_leaf _ G). }
  exists (set_id (N + 1) local), s1, m', (zoo_delete (child dirN (pad10 N)) s1).2.
  rewrite Hp. split; [exact Hj|]. split; [|split].
  - unfold leave. rewrite Hp. unfold sprintf. rewrite decide_True by (apply path_length; lia).
    cbn [mbind outcome_bind]. destruct (zoo_delete _ s1) as [rc s2]. cbn in Hok. by rewrite Hok.
  - by rewrite Hs2, decide_True.
  - intros q Hne. by rewrite Hs2, decide_False.
Qed.
End Membership.

(** ** GetNodeCount and GetNodeIDs

    The keys of a std::map, in order; the ids go to an array of the caller. *)
Definition alive_ids (m : Cache.manager) : list Z :=
  merge_sort Z.le (map_to_list (Cache.m_alive_nodes m)).*1.

Definition get_node_count (m : Cache.manager) : Z := Z.of_nat (size (Cache.m_alive_nodes m)).

Fixpoint store_ids (i : nat) (l ids : list Z) : outcome (list Z) :=
  match l with
  | [] => Ok ids
  | x :: l => if decide (i < length ids)%nat then store_ids (1 + i) l (<[i := x]> ids) else Fault BadDeref
  end.

Definition get_node_ids (ids : list Z) (m : Cache.manager) : outcome (Z * list Z) :=
  ids ← store_ids 0 (alive_ids m) ids; Ok (Z.of_nat (length (alive_ids m)), ids).

Lemma store_ids_ok l i ids :
  (i + length l <= length ids)%nat -> store_ids i l ids = Ok (take i ids ++ l ++ drop (i + length l) ids).
Proof.
  revert i ids; induction l as [|x l IH]; intros i ids Hle; cbn [store_ids length app] in *.
  - by rewrite Nat.add_0_r, take_drop.
  - rewrite decide_True by lia. rewrite IH by (rewrite length_insert; lia).
    rewrite drop_insert_lt, (take_S_r _ _ x) by (lia || (apply list_lookup_insert_eq; lia)).
    rewrite take_insert_ge by lia. rewrite <- app_assoc.
    by replace (1 + i + length l)%nat with (i + Datatypes.S (length l))%nat by lia.
Qed.

(** An array of GetNodeCount elements is enough for GetNodeIDs, which fills it with
    the ids of the nodes in the table, in order and each once; a shorter one is overrun. *)
Theorem node_ids_fit (m : Cache.manager) (ids : list Z) :
  (Z.of_nat (length ids) = get_node_count m ->
   get_node_ids ids m = Ok (get_node_count m, alive_ids m) /\
   Sorted Z.le (alive_ids m) /\ NoDup (alive_ids m) /\
   forall k, k ∈ alive_ids m <-> is_Some (Cache.m_alive_nodes m !! k)) /\
  (Z.of_nat (length ids) < get_node_count m -> get_node_ids ids m = Fault BadDeref).
Proof.
  assert (alive_ids m ≡ₚ (map_to_list (Cache.m_alive_nodes m)).*1) as HP by apply merge_sort_Permutation.
  assert (length (alive_ids m) = size (Cache.m_alive_nodes m)) as Hl.
  { rewrite HP, length_fmap. apply length_map_to_list. }
  unfold get_node_count, get_node_ids. split.
  - intros Hlen. rewrite store_ids_ok by lia. cbn [mbind outcome_bind].
    rewrite take_0, drop_ge, app_nil_r by lia. rewrite Hl. split; [done|]. split; [apply Sorted_merge_sort; apply _|].
    rewrite HP. split; [apply NoDup_fst_map_to_list|]. intros k. rewrite HP. rewrite list_elem_of_fmap. split.
    + intros ([k' x] & -> & Hx%elem_of_map_to_list). eauto.
    + intros [x Hx]. exists (k, x). split; [done|]. by apply elem_of_map_to_list.
  - intros Hlt. assert (forall l i ids, (length ids < i + length l)%nat -> (i <= length ids)%nat ->
      store_ids i l ids = Fault BadDeref) as Hover.
    { clear. induction l as [|x l IH]; intros i ids Hlt Hi; cbn in *; [lia|].
      case_decide; [|done]. apply IH; rewrite length_insert; lia. }
    rewrite Hover; [done|lia|lia].
Qed.

(** ** Witnesses: a dead node with the address of the one that joins, and another node *)
Module MembershipExamples.
Import Node.

Definition no_name (_ : Z) : text := [].
Definition me : node := MkNode invalid_id 0 0 8080 (txt "10.0.0.1") [MkInfo (txt "kv") 3 true].
Definition other : node := MkNode 0 0 0 8080 (txt "10.0.0.2") [].

Definition dir : text := NODE_ZNODE None.

Definition service : seq_tree :=
  MkSeqTree (list_to_map [(NM_ZNODE None, txt "0"); (dir, txt "0");
    (child dir (pad10 3), encode me); (child dir (pad10 5), encode other)]) {[ dir ++ [slash] := 6 ]}.

Definition table : Cache.manager := Cache.MkManager ∅ false ∅.

Lemma me_wf : node_wf me.
Proof. split_and!; try (split; vm_compute; congruence); [discriminate| |]; repeat constructor; vm_compute; congruence. Qed.
Lemma other_wf : node_wf other.
Proof. split_and!; try (split; vm_compute; congruence); [discriminate| |]; repeat constructor; vm_compute; congruence. Qed.

Lemma service_get p d : zoo_get p service = Some d ->
  (p, d) ∈ [(NM_ZNODE None, txt "0"); (dir, txt "0");
    (child dir (pad10 3), encode me); (child dir (pad10 5), encode other)].
Proof. apply elem_of_list_to_map_2. Qed.

Lemma service_ok : reg_ok None service.
Proof.
  split.
  - eexists. vm_compute. reflexivity.
  - vm_compute. split; congruence.
  - intros c d Hc Hg. apply service_get in Hg. rewrite !elem_of_cons in Hg.
    destruct Hg as [[=]|[[=]|[[= -> ->]|[[= -> ->]|Hg%not_elem_of_nil]]]]; [..|done].
    + exists 3, me. split; [done|]. split; [lia|]. split; [done|].
      split; [done|]. split; [apply me_wf|]. vm_compute. lia.
    + exists 5, other. split; [done|]. split; [lia|]. split; [done|].
      split; [done|]. split; [apply other_wf|]. vm_compute. lia.
  - intros c d. apply eq_None_not_Some. intros [v Hv]. apply service_get in Hv.
    rewrite !elem_of_cons in Hv.
    destruct Hv as [[=]|[[=]|[[= He _]|[[= He _]|Hv%not_elem_of_nil]]]]; [..|done].
    + apply (pad10_slash 3); [lia|]. rewrite <- He. apply elem_of_app. right. constructor.
    + apply (pad10_slash 5); [lia|]. rewrite <- He. apply elem_of_app. right. constructor.
Qed.

Lemma dir_short : (length (NODE_ZNODE None) + 11 < MAX_NODE_STR_LEN)%nat.
Proof. vm_compute. lia. Qed.

(** The node gets the id 7; the record 3, of its predecessor, is gone. *)
Example join_result :
  match join None no_name me service table with
  | Ok (n, s, _) => (n_id n, zoo_get (child dir (pad10 3)) s, zoo_get (child dir (pad10 5)) s,
                     zoo_get (child dir (pad10 6)) s)
  | _ => (0, None, None, None)
  end = (7, None, Some (encode other), Some (encode me)).
Proof. vm_compute. reflexivity. Qed.


Lemma leave_undoes_join_witness :
  exists n s1 m' s2, join None no_name me service table = Ok (n, s1, m') /\ leave None n s1 = Ok s2 /\
    zoo_get (leave_path None false (n_id n)) s2 = None.
Proof.
  destruct (leave_undoes_join None no_name dir_short service table me)
    as (n & s1 & m' & s2 & H1 & H2 & H3 & _).
  - exact service_ok.
  - exact me_wf.
  - reflexivity.
  - reflexivity.
  - reflexivity.
  - exists n, s1, m', s2. split; [exact H1|]. split; [exact H2|exact H3].
Defined.

Lemma node_ids_fit_witness :
  let m := Cache.MkManager {[ 4 := other; 2 := me ]} false ∅ in
  get_node_ids [0; 0] m = Ok (get_node_count m, alive_ids m) /\ get_node_ids [0] m = Fault BadDeref.
Proof.
  intros m. split; [|apply (node_ids_fit m [0]); reflexivity].
  destruct (node_ids_fit m [0; 0]) as [H _]. apply H. reflexivity.
Defined.
End MembershipExamples.
