(* ===== verification/SyncLock.v ===== *)
(** * The synchronous lock

    NodeManager::lock(zone, id) of include/mola/node_manager.hpp: the caller asks for the
    asynchronous lock with a callback that sets a variable of the caller's stack frame,
    and waits for the variable with a condition variable of that frame.  Two
    threads take part: the caller, and the thread that runs the callback when the engine grants
    the lock (it may be the caller itself, inside the call).  A step is one access; an
    access to the frame after the caller returned is a fault.

    The wait is an [if], not a loop, so that it matters whether a wait may return without
    a notification; the C++ standard allows it. *)
From stdpp Require Import base list relations numbers.
From S2P Require Import Prelude.

(** The points of lock: the asynchronous lock is asked for, the mutex is taken,
    [acquired] is tested, the wait is entered, sleeps, has the mutex again, returned. *)
Inductive caller := Asks | Takes | Tests | Waits | Wakes | Leaves | Returned.

(** The points of the callback: not granted yet, the mutex, the variable, the notification,
    the end of its block, done. *)
Inductive callback := NotYet | Enters | Sets | Notifies | Unlocks | Done.

Inductive holder := Free | Caller | Callback.
#[global] Instance holder_eq : EqDecision holder.
Proof. solve_decision. Defined.
#[global] Instance caller_eq : EqDecision caller.
Proof. solve_decision. Defined.
#[global] Instance callback_eq : EqDecision callback.
Proof. solve_decision. Defined.

Record state := MkState {
  mutex : holder;
  acquired : bool;
  requested : bool;
  c_pc : caller;
  b_pc : callback
}.

Definition init : state := MkState Free false false Asks NotYet.

(** The frame of lock, with its mutex, its condition variable and [acquired] *)
Definition frame_alive (s : state) : bool := negb (bool_decide (c_pc s = Returned)).

(** A step of the caller; None: it cannot go on now. *)
Definition caller_step (s : state) : option state :=
  match c_pc s with
  | Asks => Some (MkState (mutex s) (acquired s) true Takes (b_pc s))
  | Takes => if decide (mutex s = Free) then Some (MkState Caller (acquired s) (requested s) Tests (b_pc s)) else None
  | Tests => Some (if acquired s then MkState (mutex s) (acquired s) (requested s) Leaves (b_pc s)
                   else MkState Free (acquired s) (requested s) Waits (b_pc s))
  | Waits => None
  | Wakes => if decide (mutex s = Free) then Some (MkState Caller (acquired s) (requested s) Leaves (b_pc s)) else None
  | Leaves => Some (MkState Free (acquired s) (requested s) Returned (b_pc s))
  | Returned => None
  end.

(** A step of the callback, the [&] lambda *)
Definition callback_step (s : state) : outcome (option state) :=
  match b_pc s with
  | NotYet | Done => mret None
  | p =>
      if frame_alive s then
        mret (match p with
        | Enters => if decide (mutex s = Free) then Some (MkState Callback (acquired s) (requested s) (c_pc s) Sets) else None
        | Sets => Some (MkState (mutex s) true (requested s) (c_pc s) Notifies)
        | Notifies => Some (MkState (mutex s) (acquired s) (requested s)
                             (if decide (c_pc s = Waits) then Wakes else c_pc s) Unlocks)
        | Unlocks => Some (MkState Free (acquired s) (requested s) (c_pc s) Done)
        | _ => None
        end)
      else Fault BadDeref
  end.

(** The engine grants the lock once it was asked for. *)
Definition grant (s : state) : option state :=
  match b_pc s with
  | NotYet => if requested s then Some (MkState (mutex s) (acquired s) (requested s) (c_pc s) Enters) else None
  | _ => None
  end.

(** A wait that returns although nobody notified *)
Definition spurious (s : state) : option state :=
  if decide (c_pc s = Waits) then Some (MkState (mutex s) (acquired s) (requested s) Wakes (b_pc s)) else None.

Inductive act := ACaller | ACallback | AGrant | ASpurious.

Definition exec (a : act) (s : state) : outcome (option state) :=
  match a with
  | ACaller => mret (caller_step s)
  | ACallback => callback_step s
  | AGrant => mret (grant s)
  | ASpurious => mret (spurious s)
  end.

(** [may_wake]: whether a wait may return without a notification *)
Inductive step (may_wake : bool) : state -> state -> Prop :=
| step_act a s s' : (a = ASpurious -> may_wake = true) -> exec a s = Ok (Some s') -> step may_wake s s'.

Definition reachable (may_wake : bool) (s : state) : Prop := rtc (step may_wake) init s.

(** What holds as long as waits return only when notified *)
Definition inv (s : state) : bool :=
  (match c_pc s with
   | Asks => negb (requested s) && bool_decide (b_pc s = NotYet)
   | _ => requested s
   end) &&
  (match b_pc s with NotYet | Enters | Sets => negb (acquired s) | _ => acquired s end) &&
  (match mutex s with
   | Caller => bool_decide (c_pc s = Tests) || bool_decide (c_pc s = Leaves)
   | Callback => bool_decide (b_pc s = Sets) || bool_decide (b_pc s = Notifies) || bool_decide (b_pc s = Unlocks)
   | Free => true
   end) &&
  (match c_pc s with Tests | Leaves => bool_decide (mutex s = Caller) | _ => true end) &&
  (match b_pc s with Sets | Notifies | Unlocks => bool_decide (mutex s = Callback) | _ => true end) &&
  (match c_pc s with
   | Waits => match b_pc s with Unlocks | Done => false | _ => true end
   | Wakes => match b_pc s with Unlocks | Done => true | _ => false end
   | Leaves | Returned => bool_decide (b_pc s = Done)
   | _ => true
   end).

Lemma inv_step s s' : inv s = true -> step false s s' -> inv s' = true.
Proof.
  intros Hi Hs. destruct Hs as [a s1 s2 Hw He]. destruct a; [..|by discriminate Hw];
    destruct s1 as [[] [] [] [] []]; try discriminate Hi; vm_compute in He;
    try discriminate He; injection He as <-; vm_compute; reflexivity.
Qed.

Lemma inv_reachable s : reachable false s -> inv s = true.
Proof. revert s. apply rtc_ind_r; [done|]. intros s s' _ Hs IH. by eapply inv_step. Qed.

(** C20: without spurious wake-ups the synchronous lock is one: the caller returns only
    after the lock was granted and the callback is over, the callback never touches a frame
    that is gone, and as long as the lock is granted and the caller has not
    returned one of the two threads can go on. *)
Theorem sync_lock_correct (s : state) :
  reachable false s ->
  (c_pc s = Returned -> acquired s = true /\ b_pc s = Done) /\
  (exists o, callback_step s = Ok o) /\
  (c_pc s = Returned \/ b_pc s = NotYet \/
   (exists s', caller_step s = Some s') \/ exists s', callback_step s = Ok (Some s')).
Proof.
  intros Hr. pose proof (inv_reachable s Hr) as Hi. clear Hr.
  destruct s as [[] [] [] [] []]; try discriminate Hi; clear Hi; cbn;
    (split; [done|]); (split; [by eexists|]); naive_solver.
Qed.

(** The number of steps the two threads can still take *)
Definition left_steps (s : state) : nat :=
  (match c_pc s with Asks => 6 | Takes => 5 | Tests => 4 | Waits => 3 | Wakes => 2 | Leaves => 1 | Returned => 0 end) +
  (match b_pc s with NotYet => 5 | Enters => 4 | Sets => 3 | Notifies => 2 | Unlocks => 1 | Done => 0 end).

(** Every step, also a spurious wake-up, is one of at most eleven. *)
Lemma lock_terminates may_wake s s' : step may_wake s s' -> (left_steps s' < left_steps s)%nat.
Proof.
  intros Hs. destruct Hs as [a s1 s2 Hw He]. destruct a; destruct s1 as [[] [] [] [] []]; vm_compute in He;
    try discriminate He; injection He as <-; vm_compute; lia.
Qed.

(** With a spurious wake-up the caller returns without the lock, and the callback, when
    the lock is granted at last, locks a mutex of a frame that is gone. *)
Theorem sync_lock_spurious :
  exists s s', reachable true s /\ c_pc s = Returned /\ acquired s = false /\ b_pc s = NotYet /\
    grant s = Some s' /\ callback_step s' = Fault BadDeref.
Proof.
  exists (MkState Free false true Returned NotYet), (MkState Free false true Returned Enters).
  split; [|done].
  eapply rtc_l; [by apply (step_act true ACaller init)|].
  eapply rtc_l; [by apply (step_act true ACaller)|].
  eapply rtc_l; [by apply (step_act true ACaller)|].
  eapply rtc_l; [by apply (step_act true ASpurious)|].
  eapply rtc_l; [by apply (step_act true ACaller)|].
  eapply rtc_l; [by apply (step_act true ACaller)|]. apply rtc_refl.
Qed.

(** The callback runs inside the call; the caller does not wait. *)
Lemma sync_lock_correct_witness :
  let s := MkState Free true true Returned Done in acquired s = true /\ b_pc s = Done.
Proof.
  intros s. destruct (sync_lock_correct s) as [H _]; [|by apply H].
  eapply rtc_l; [by apply (step_act false ACaller init)|].
  eapply rtc_l; [by apply (step_act false AGrant)|].
  do 4 (eapply rtc_l; [by apply (step_act false ACallback)|]).
  do 3 (eapply rtc_l; [by apply (step_act false ACaller)|]). apply rtc_refl.
Defined.
