(* ===== verification/Connection.v ===== *)
(** * Connections: addresses and the life of sockets

    include/mola/connection.hpp: parseip and host_to_ip, TCPServer and TCPClient.

    The operating system is an argument of each operation: the descriptor that
    socket or accept returned, whether bind or connect succeeded, what the resolver
    answers.  [open] is the set of descriptors that are open. *)
From Stdlib Require Import Ascii String.
From stdpp Require Import base list gmap numbers.
From S2P Require Import Prelude Bytes Text.

#[local] Open Scope list_scope.
#[local] Arguments wrap : simpl never.

Definition dot : ascii := "."%char.

(** ** strtoul with base 0 *)
Definition digit_value (c : ascii) : option Z :=
  let n := code c in
  if (48 <=? n) && (n <=? 57) then Some (n - 48)
  else if (97 <=? n) && (n <=? 122) then Some (n - 87)
  else if (65 <=? n) && (n <=? 90) then Some (n - 55)
  else None.

Definition base_digit (b : Z) (c : ascii) : option Z :=
  d ← digit_value c; if d <? b then Some d else None.

Fixpoint span_base (b : Z) (s : text) : list Z * text :=
  match s with
  | c :: r =>
      match base_digit b c with
      | Some d => let '(ds, r') := span_base b r in (d :: ds, r')
      | None => ([], s)
      end
  | [] => ([], [])
  end.

Definition base_value (b : Z) (ds : list Z) : Z := foldl (fun a d => b * a + d) 0 ds.

(** 0x and a digit, or a leading 0, choose the base. *)
Definition detect_base (s : text) : Z * text :=
  match s with
  | z :: x :: c :: r =>
      if (code z =? 48) && ((code x =? 120) || (code x =? 88)) && bool_decide (is_Some (base_digit 16 c))
      then (16, c :: r) else (if code z =? 48 then 8 else 10, s)
  | z :: _ => (if code z =? 48 then 8 else 10, s)
  | [] => (10, s)
  end.

Definition strtoul0 (s : text) : Z * text :=
  let t := drop_ws s in
  let '(b, u) := detect_base (drop_sign t) in
  match span_base b u with
  | ([], _) => (0, s)
  | (ds, r) =>
      let v := base_value b ds in
      (if 2 ^ 64 <=? v then 2 ^ 64 - 1 else if is_minus t then u64 (- v) else v, r)
  end.

(** ** Addresses *)

(** The loop of parseip; None is [return false]. *)
Fixpoint parse_octets (k : nat) (p : text) : option (list Z) :=
  match k, p with
  | O, _ | _, [] => Some []
  | S k, _ =>
      let '(x, p) := strtoul0 p in
      let x := u32 x in
      if 256 <? x then None
      else match p with
           | [] => cons (u8 x) <$> parse_octets k []
           | c :: p => if bool_decide (c = dot) then cons (u8 x) <$> parse_octets k p else None
           end
  end.

(** The address in the byte order of the network, as a little-endian host reads it. *)
Definition parseip (host : text) : outcome (option Z) :=
  match parse_octets 4 host with
  | None => mret None
  | Some addr => _ ← mola_assert (Nat.eqb (length addr) 4); mret (Some (of_le addr))
  end.

(** [resolve]: gethostbyname *)
Definition host_to_ip (resolve : text -> option Z) (host : text) : outcome (option Z) :=
  ip ← parseip host;
  match ip with Some ip => mret (Some ip) | None => mret (resolve host) end.

(** ** Sockets *)
Record TCPClient := MkClient { c_sockfd : Z; c_passive : bool; c_running : bool }.
Record TCPServer := MkServer { s_sockfd : Z; s_running : bool; s_clients : list (option TCPClient) }.

Definition INVALID_SOCKFD : Z := -1.
Definition new_client : TCPClient := MkClient INVALID_SOCKFD false false.

(** ::close *)
Definition close (fd : Z) (open : gset Z) : outcome (gset Z) :=
  if bool_decide (fd ∈ open) then mret (open ∖ {[fd]}) else Fault BadDeref.

(** TCPClient::connect(ip, port): [fd] is what socket returned, [ok] whether ::connect
    succeeded. *)
Definition connect (fd : Z) (ok : bool) (c : TCPClient) (open : gset Z) : outcome (Z * TCPClient * gset Z) :=
  if fd <? 0 then mret (-1, MkClient fd (c_passive c) (c_running c), open)
  else
    let open := open ∪ {[fd]} in
    if ok then mret (fd, MkClient fd (c_passive c) true, open)
    else open ← close fd open; mret (-1, MkClient fd (c_passive c) (c_running c), open).

(** TCPClient::connect(host, port) *)
Definition connect_host (resolve : text -> option Z) (host : text) (fd : Z) (ok : bool) (c : TCPClient)
    (open : gset Z) : outcome (Z * TCPClient * gset Z) :=
  _ ← mola_assert (negb (c_passive c));
  ip ← host_to_ip resolve host;
  match ip with
  | Some _ => connect fd ok c open
  | None => mret (-1, c, open)
  end.

(** TCPClient::stop, and the destructor *)
Definition client_stop (c : TCPClient) (open : gset Z) : outcome (TCPClient * gset Z) :=
  if c_running c then
    open ← close (c_sockfd c) open; mret (MkClient (c_sockfd c) (c_passive c) false, open)
  else mret (c, open).

(** The address that TCPServer::start binds to: 0 is any; [None]: it is not initialised,
    since the test [host_to_ip(m_host, ip) < 0] on a bool is never true. *)
Definition bind_addr (resolve : text -> option Z) (host : text) : outcome (option Z) :=
  if bool_decide (host = []) || bool_decide (host = txt "*") then mret (Some 0)
  else host_to_ip resolve host.

(** TCPServer::start; [ok]: bind succeeded *)
Definition server_start (resolve : text -> option Z) (host : text) (fd : Z) (ok : bool) (v : TCPServer)
    (open : gset Z) : outcome (Z * TCPServer * gset Z) :=
  _ ← bind_addr resolve host;
  if fd <? 0 then mret (-1, MkServer fd (s_running v) (s_clients v), open)
  else
    let open := open ∪ {[fd]} in
    if ok then mret (fd, MkServer fd true (s_clients v), open)
    else open ← close fd open; mret (-1, MkServer fd (s_running v) (s_clients v), open).

(** TCPServer::new_connection: [fd] was accepted *)
Definition new_connection (fd : Z) (v : TCPServer) (open : gset Z) : TCPServer * gset Z :=
  (MkServer (s_sockfd v) (s_running v) (s_clients v ++ [Some (MkClient fd true true)]), open ∪ {[fd]}).

Fixpoint stop_clients (cs : list (option TCPClient)) (open : gset Z) : outcome (gset Z) :=
  match cs with
  | [] => mret open
  | None :: cs => stop_clients cs open
  | Some c :: cs => '(_, open) ← client_stop c open; stop_clients cs open
  end.

(** TCPServer::stop, and the destructor *)
Definition server_stop (v : TCPServer) (open : gset Z) : outcome (TCPServer * gset Z) :=
  if s_running v then
    open ← stop_clients (s_clients v) open;
    open ← close (s_sockfd v) open;
    mret (MkServer (s_sockfd v) false ((fun _ => None) <$> s_clients v), open)
  else mret (v, open).

(** ** Addresses are read as they are written *)
Lemma digit_value_digit c : is_digit c = true -> base_digit 10 c = Some (code c - 48).
Proof.
  unfold is_digit, base_digit, digit_value. intros H. rewrite H. cbn.
  by rewrite (proj2 (Z.ltb_lt _ _)) by lia.
Qed.

Lemma span_base_digits ds r :
  Forall (fun c => is_digit c = true) ds -> match r with c :: _ => base_digit 10 c = None | [] => True end ->
  span_base 10 (ds ++ r) = ((fun c => code c - 48) <$> ds, r).
Proof.
  intros Hd Hr. induction Hd as [|c ds Hc Hd IH]; cbn.
  - destruct r as [|c r]; [done|]. cbn. by rewrite Hr.
  - by rewrite (digit_value_digit c Hc), IH.
Qed.

Lemma base_value_dec ds : base_value 10 ((fun c => code c - 48) <$> ds) = dec_value ds.
Proof.
  unfold base_value, dec_value. generalize 0. induction ds as [|c ds IH]; intros a; cbn; [done|]. apply IH.
Qed.

(** A number without a leading zero. *)
Lemma show_dec_head n : 1 <= n < 10 ^ 20 -> exists c r, show_dec n = c :: r /\ 49 <= code c <= 57.
Proof.
  unfold show_dec. change 20 with (Z.of_nat 20). generalize 20%nat. intros fuel. revert n.
  induction fuel as [|fuel IH]; intros n Hn; [cbn in Hn; lia|]. cbn [dec_digits].
  destruct (Z.ltb_spec n 10).
  - exists (digit n), []. split; [done|]. rewrite code_digit; lia.
  - destruct (IH (n / 10)) as (c & r & -> & Hc).
    { split; [apply Z.div_le_lower_bound; lia|]. apply Z.div_lt_upper_bound; [lia|].
      rewrite <- Z.pow_succ_r, <- Nat2Z.inj_succ by lia. lia. }
    by exists c, (r ++ [digit (n mod 10)]).
Qed.

Lemma detect_base_dec c r : 49 <= code c <= 57 -> detect_base (c :: r) = (10, c :: r).
Proof.
  intros Hc. unfold detect_base. assert ((code c =? 48) = false) as -> by lia.
  by destruct r as [|x [|y r]].
Qed.

Lemma strtoul0_show n r :
  0 <= n < 2 ^ 64 -> match r with c :: _ => c = dot | [] => True end ->
  strtoul0 (show_dec n ++ r) = (n, r).
Proof.
  intros Hn Hr. destruct (decide (n = 0)) as [->|Hne].
  { destruct r as [|c [|d r]]; [done|subst; done|subst; done]. }
  destruct (show_dec_head n ltac:(lia)) as (c & t & He & Hc).
  pose proof (dec_digits_digits 20 n ltac:(lia)) as Hd. fold (show_dec n) in Hd.
  assert (is_digit c = true) as Hdc by (unfold is_digit; lia).
  unfold strtoul0. assert (drop_ws (show_dec n ++ r) = show_dec n ++ r) as ->.
  { rewrite He. cbn. by rewrite (digit_not_space c Hdc). }
  assert (drop_sign (show_dec n ++ r) = show_dec n ++ r) as ->.
  { rewrite He. cbn. by rewrite (proj2 (orb_false_iff _ _)) by lia. }
  assert (is_minus (show_dec n ++ r) = false) as -> by (rewrite He; cbn; lia).
  rewrite He. cbn [app]. rewrite detect_base_dec by done. change (c :: t ++ r) with ((c :: t) ++ r).
  rewrite <- He, span_base_digits by (done || (destruct r; [done|by subst])).
  pose proof (base_value_dec (show_dec n)) as Hv. rewrite He in Hv |- *. cbn [fmap list_fmap] in Hv |- *.
  rewrite Hv, <- He. unfold show_dec. rewrite dec_digits_value by (change (Z.of_nat 20) with 20; lia).
  by rewrite (proj2 (Z.leb_gt _ _)) by lia.
Qed.

(** The dotted notation of an address. *)
Fixpoint dotted (l : list Z) : text :=
  match l with
  | [] => []
  | [a] => show_dec a
  | a :: l => show_dec a ++ dot :: dotted l
  end.

Lemma dotted_cons a l : l <> [] -> dotted (a :: l) = show_dec a ++ dot :: dotted l.
Proof. by destruct l. Qed.

Lemma parse_octets_dotted l k : Forall (fun a => 0 <= a <= 256) l -> (length l <= k)%nat ->
  parse_octets k (dotted l) = Some (u8 <$> l).
Proof.
  intros Hl. revert k. induction Hl as [|a l Ha Hl IH]; intros [|k] Hk; cbn [length] in Hk; try done; try lia.
  destruct (show_dec_cons a ltac:(lia)) as (c & t & He & _).
  assert (u32 a = a) as Hu by (apply wrap_small; width_lia).
  destruct (decide (l = [])) as [->|Hne].
  - cbn [dotted]. pose proof (strtoul0_show a [] ltac:(lia) I) as Hs. rewrite app_nil_r in Hs.
    cbn [parse_octets]. rewrite He, <- He, Hs. cbn -[Z.ltb]. rewrite Hu, (proj2 (Z.ltb_ge _ _)) by lia.
    by destruct k.
  - rewrite dotted_cons by done. pose proof (strtoul0_show a (dot :: dotted l) ltac:(lia) eq_refl) as Hs.
    cbn [parse_octets]. rewrite He in Hs |- *. cbn [app] in Hs |- *. rewrite Hs. cbn -[Z.ltb bool_decide].
    rewrite Hu, (proj2 (Z.ltb_ge _ _)), bool_decide_eq_true_2, IH by (lia || done). done.
Qed.

(** Parseip reads the dotted notation of an address: four numbers below 256 give
    the address with these bytes in the order of the network. *)
Theorem parseip_roundtrip (a b c d : Z) :
  is_byte a -> is_byte b -> is_byte c -> is_byte d ->
  parseip (dotted [a; b; c; d]) = Ok (Some (of_le [a; b; c; d])).
Proof.
  unfold is_byte. intros Ha Hb Hc Hd. unfold parseip.
  rewrite parse_octets_dotted by (repeat constructor; lia).
  cbn -[of_le wrap]. by rewrite !wrap_small by width_lia.
Qed.

(** Where parseip is wrong: 256 passes the test for a byte and is stored as 0, and an
    address of fewer than four numbers ends the process instead of being
    given to the resolver. *)
Theorem parseip_edges (b c d : Z) (l : list Z) :
  is_byte b -> is_byte c -> is_byte d -> Forall is_byte l -> (length l < 4)%nat ->
  parseip (dotted [256; b; c; d]) = Ok (Some (of_le [0; b; c; d])) /\
  parseip (dotted l) = Fault AssertFailed.
Proof.
  unfold is_byte. intros Hb Hc Hd Hl Hlen. unfold parseip. split.
  - rewrite parse_octets_dotted by (repeat constructor; lia).
    cbn -[of_le wrap]. change (u8 256) with 0. by rewrite !wrap_small by width_lia.
  - rewrite parse_octets_dotted by (lia || (eapply list.Forall_impl; [exact Hl|cbn; lia])). rewrite length_fmap.
    destruct (Nat.eqb_spec (length l) 4); [lia|done].
Qed.

(** ** Every open socket is somebody's *)
Record sys := MkSys { sv : TCPServer; outgoing : list TCPClient; open : gset Z }.

Inductive op :=
| OStart (resolve : text -> option Z) (host : text) (fd : Z) (ok : bool)
| OAccept (fd : Z)
| OServerStop
| OConnect (i : nat) (fd : Z) (ok : bool)
| OClientStop (i : nat).

(** A socket that the system just made was not open; the acceptor runs with the
    server; nobody starts or connects what is running. *)
Definition fresh_fd (fd : Z) (s : sys) : Prop := fd < 0 \/ fd ∉ open s.

Definition permitted (o : op) (s : sys) : Prop :=
  match o with
  | OStart resolve host fd _ =>
      s_running (sv s) = false /\ fresh_fd fd s /\ exists a, bind_addr resolve host = Ok a
  | OAccept fd => s_running (sv s) = true /\ 0 <= fd /\ fd ∉ open s
  | OServerStop => True
  | OConnect i fd _ => (exists c, outgoing s !! i = Some c /\ c_running c = false) /\ fresh_fd fd s
  | OClientStop i => is_Some (outgoing s !! i)
  end.

Definition exec (o : op) (s : sys) : outcome sys :=
  match o with
  | OStart resolve host fd ok =>
      '(_, v, op) ← server_start resolve host fd ok (sv s) (open s); mret (MkSys v (outgoing s) op)
  | OAccept fd => let '(v, op) := new_connection fd (sv s) (open s) in mret (MkSys v (outgoing s) op)
  | OServerStop => '(v, op) ← server_stop (sv s) (open s); mret (MkSys v (outgoing s) op)
  | OConnect i fd ok =>
      c ← deref (outgoing s !! i);
      '(_, c, op) ← connect fd ok c (open s); mret (MkSys (sv s) (<[i := c]> (outgoing s)) op)
  | OClientStop i =>
      c ← deref (outgoing s !! i);
      '(c, op) ← client_stop c (open s); mret (MkSys (sv s) (<[i := c]> (outgoing s)) op)
  end.

Definition fd_of (c : TCPClient) : list Z := if c_running c then [c_sockfd c] else [].
Definition accepted (v : TCPServer) : list Z := concat ((fun c => default [] (fd_of <$> c)) <$> s_clients v).
Definition listening (v : TCPServer) : list Z := if s_running v then [s_sockfd v] else [].
Definition owned (s : sys) : list Z :=
  listening (sv s) ++ accepted (sv s) ++ concat (fd_of <$> outgoing s).

(** The open sockets are those of the list, each once. *)
Definition holds (op : gset Z) (l : list Z) : Prop := NoDup l /\ forall fd, fd ∈ op <-> fd ∈ l.

#[global] Instance holds_proper op : Proper ((≡ₚ) ==> iff) (holds op).
Proof.
  intros l l' HP. unfold holds. rewrite HP. split; intros [H1 H2]; (split; [done|]);
    intros fd; rewrite H2; [by rewrite HP|by rewrite <- HP].
Qed.

Record sys_ok (s : sys) : Prop := {
  so_holds : holds (open s) (owned s);
  so_idle : s_running (sv s) = false -> accepted (sv s) = []
}.

Lemma holds_add fd op l : holds op l -> fd ∉ op -> holds (op ∪ {[fd]}) (fd :: l).
Proof.
  intros [Hnd Hop] Hfd. split; [constructor; [by rewrite <- Hop|done]|].
  intros x. rewrite elem_of_union, elem_of_singleton, elem_of_cons, Hop. tauto.
Qed.

(** Closing a socket that is owned once. *)
Lemma close_owned fd op l : holds op (fd :: l) -> exists op', close fd op = Ok op' /\ holds op' l.
Proof.
  intros [Hnd Hop]. unfold close. rewrite bool_decide_eq_true_2 by (apply Hop; constructor).
  eexists. split; [done|]. apply list.NoDup_cons in Hnd as [Hni Hnd]. split; [done|].
  intros x. rewrite elem_of_difference, elem_of_singleton, Hop, elem_of_cons. split; [|intros Hx].
  - intros [[?|?] ?]; done.
  - split; [by right|]. by intros ->.
Qed.

Lemma client_stop_owned c op l : holds op (fd_of c ++ l) ->
  exists op', client_stop c op = Ok (MkClient (c_sockfd c) (c_passive c) false, op') /\ holds op' l.
Proof.
  destruct c as [fd ps run]. unfold fd_of, client_stop. cbn. destruct run; cbn; [|by eauto].
  intros Hh. destruct (close_owned fd op l Hh) as (op' & -> & H1). by exists op'.
Qed.

Lemma stop_clients_owned cs op l :
  holds op (concat ((fun c => default [] (fd_of <$> c)) <$> cs) ++ l) ->
  exists op', stop_clients cs op = Ok op' /\ holds op' l.
Proof.
  revert op; induction cs as [|[c|] cs IH]; intros op; cbn; [by eauto| |by apply IH].
  intros Hh. rewrite <- app_assoc in Hh.
  destruct (client_stop_owned c op _ Hh) as (op1 & -> & Hh1). cbn. by apply IH.
Qed.

Lemma concat_update {A} (f : A -> list Z) (l : list A) i c c' :
  l !! i = Some c -> exists rest, concat (f <$> l) ≡ₚ f c ++ rest /\ concat (f <$> <[i := c']> l) ≡ₚ f c' ++ rest.
Proof.
  revert i; induction l as [|x l IH]; intros [|i] Hi; try done; cbn in *.
  - injection Hi as ->. eauto.
  - destruct (IH i Hi) as (rest & H1 & H2). exists (f x ++ rest). rewrite H1, H2. split; solve_Permutation.
Qed.

(** A socket that was opened and closed again. *)
Lemma open_close fd op l : holds op l -> fd ∉ op -> exists op', close fd (op ∪ {[fd]}) = Ok op' /\ holds op' l.
Proof. intros Hh Hfd. by apply close_owned, holds_add. Qed.

Lemma connect_owned fd ok c op l : c_running c = false -> holds op l -> fd < 0 \/ fd ∉ op ->
  exists ret c' op', connect fd ok c op = Ok (ret, c', op') /\ holds op' (fd_of c' ++ l).
Proof.
  intros Hrun Hh Hfd. unfold connect, fd_of. destruct (Z.ltb_spec fd 0); [rewrite Hrun; by eauto 6|].
  destruct Hfd as [?|Hfd]; [lia|]. destruct ok.
  - do 3 eexists. split; [done|]. cbn. by apply holds_add.
  - destruct (open_close fd op l Hh Hfd) as (op' & -> & Hh'). do 3 eexists. split; [done|]. cbn. by rewrite Hrun.
Qed.

Lemma start_owned resolve host fd ok v op l : s_running v = false -> (exists a, bind_addr resolve host = Ok a) ->
  holds op l -> fd < 0 \/ fd ∉ op ->
  exists ret v' op', server_start resolve host fd ok v op = Ok (ret, v', op') /\
    holds op' (listening v' ++ l) /\ s_clients v' = s_clients v.
Proof.
  intros Hrun [a Ha] Hh Hfd. unfold server_start, listening. rewrite Ha. cbn.
  destruct (Z.ltb_spec fd 0); [do 3 eexists; split; [done|]; cbn; by rewrite Hrun|].
  destruct Hfd as [?|Hfd]; [lia|]. destruct ok.
  - do 3 eexists. split; [done|]. cbn. split; [|done]. by apply holds_add.
  - destruct (open_close fd op l Hh Hfd) as (op' & -> & Hh'). do 3 eexists. split; [done|]. cbn. by rewrite Hrun.
Qed.

Lemma exec_sys_ok o s : sys_ok s -> permitted o s -> exists s', exec o s = Ok s' /\ sys_ok s'.
Proof.
  intros [Hh Hidle] Hp. unfold owned in Hh. destruct o as [resolve host fd ok|fd| |i fd ok|i]; cbn in *.
  - destruct Hp as (Hrun & Hfd & Hb). unfold listening in Hh. rewrite Hrun in Hh. cbn in Hh.
    destruct (start_owned resolve host fd ok _ _ _ Hrun Hb Hh Hfd) as (ret & v' & op' & -> & Hh' & Hcl). cbn.
    eexists. split; [done|]. assert (accepted v' = accepted (sv s)) as Hacc by (unfold accepted; by rewrite Hcl).
    split; cbn; [unfold owned; cbn; by rewrite Hacc|]. intros _. rewrite Hacc. auto.
  - destruct Hp as (Hrun & Hfd0 & Hfd). eexists. split; [done|]. split; cbn; [|by rewrite Hrun].
    unfold owned, accepted, listening. cbn. rewrite fmap_app, concat_app. cbn.
    eapply holds_proper; [|apply holds_add; [exact Hh|done]]. unfold accepted, listening. solve_Permutation.
  - unfold server_stop. destruct (s_running (sv s)) eqn:Hrun; cbn.
    2: { eexists. split; [done|]. split; [exact Hh|]. intros _. by apply Hidle. }
    unfold listening in Hh. rewrite Hrun in Hh. cbn in Hh.
    assert (holds (open s) (accepted (sv s) ++ s_sockfd (sv s) :: concat (fd_of <$> outgoing s))) as Hh1
      by (rewrite <- Permutation_middle; exact Hh).
    destruct (stop_clients_owned _ _ _ Hh1) as (op1 & -> & Hh2). cbn.
    destruct (close_owned _ _ _ Hh2) as (op2 & -> & Hh3). cbn. eexists. split; [done|].
    assert (accepted (MkServer (s_sockfd (sv s)) false ((fun _ => None) <$> s_clients (sv s))) = []) as Hnone.
    { unfold accepted. cbn. induction (s_clients (sv s)); [done|]. by cbn. }
    split; [unfold owned; cbn -[accepted]; by rewrite Hnone|by intros _].
  - destruct Hp as [(c & Hc & Hrun) Hfd]. rewrite Hc. cbn.
    destruct (connect_owned fd ok c _ _ Hrun Hh Hfd) as (ret & c' & op' & -> & Hh'). cbn.
    eexists. split; [done|]. split; [|done]. unfold owned. cbn.
    destruct (concat_update fd_of (outgoing s) i c c' Hc) as (rest & H1 & H2).
    rewrite H2. rewrite H1 in Hh'. eapply holds_proper; [|exact Hh']. unfold fd_of at 3. rewrite Hrun.
    solve_Permutation.
  - destruct Hp as [c Hc]. rewrite Hc. cbn.
    destruct (concat_update fd_of (outgoing s) i c (MkClient (c_sockfd c) (c_passive c) false) Hc) as (rest & H1 & H2).
    destruct (client_stop_owned c (open s) (listening (sv s) ++ accepted (sv s) ++ rest)) as (op' & -> & Hh').
    { eapply holds_proper; [|exact Hh]. rewrite H1. solve_Permutation. }
    cbn. eexists. split; [done|]. split; [|done]. unfold owned. cbn. rewrite H2. exact Hh'.
Qed.

Definition sys_step (s s' : sys) : Prop := exists o, permitted o s /\ exec o s = Ok s'.

(** A server that was never started, and clients that are not connected. *)
Definition idle_sys (n : nat) : sys := MkSys (MkServer INVALID_SOCKFD false []) (repeat new_client n) ∅.

Lemma idle_sys_ok n : sys_ok (idle_sys n).
Proof.
  split; [|done]. unfold owned. cbn.
  assert (concat (fd_of <$> repeat new_client n) = []) as -> by (induction n; done).
  split; [constructor|]. intros fd. rewrite elem_of_nil. set_solver.
Qed.

(** Sockets are neither leaked nor closed twice: over any sequence of starts,
    accepts, connects and stops that succeed or fail, the open sockets are exactly
    those of the running server, of the connections it accepted and of the
    running clients, each once, and every operation that is permitted returns. *)
Theorem sockets_owned (n : nat) (s : sys) :
  rtc sys_step (idle_sys n) s ->
  NoDup (owned s) /\ (forall fd, fd ∈ open s <-> fd ∈ owned s) /\
  forall o, permitted o s -> exists s', exec o s = Ok s'.
Proof.
  intros Hr. assert (sys_ok s) as Hok.
  { revert s Hr. apply rtc_ind_r; [apply idle_sys_ok|]. intros s1 s2 _ (o & Hp & He) IH.
    destruct (exec_sys_ok o s1 IH Hp) as (s' & He' & Hok). congruence. }
  destruct Hok as [[Hnd Hop] Hidle]. split; [done|]. split; [done|]. intros o Hp.
  destruct (exec_sys_ok o s (Build_sys_ok _ (conj Hnd Hop) Hidle) Hp) as (s' & He & _). eauto.
Qed.

(** ** Witnesses *)
Lemma parseip_roundtrip_witness : parseip (dotted [10; 0; 200; 255]) = Ok (Some (of_le [10; 0; 200; 255])).
Proof. apply parseip_roundtrip; unfold is_byte; lia. Defined.

Lemma parseip_edges_witness :
  parseip (dotted [256; 1; 2; 3]) = Ok (Some (of_le [0; 1; 2; 3])) /\ parseip (dotted [10; 1]) = Fault AssertFailed.
Proof. apply parseip_edges; unfold is_byte; repeat constructor; lia. Defined.

Example dotted_demo : dotted [10; 0; 200; 255] = txt "10.0.200.255".
Proof. reflexivity. Qed.

(** A client that is connected through the descriptor 5. *)
Definition connected : sys :=
  MkSys (MkServer INVALID_SOCKFD false []) [MkClient 5 false true] ({[5]} : gset Z).

Lemma connected_reachable : rtc sys_step (idle_sys 1) connected.
Proof.
  eapply rtc_l; [|apply rtc_refl]. exists (OConnect 0 5 true). split.
  - split; [by exists new_client|]. right. apply not_elem_of_empty.
  - cbn. unfold connected. do 2 f_equal.
Qed.

Lemma sockets_owned_witness : owned connected = [5] /\ NoDup (owned connected) /\
  (forall fd, fd ∈ open connected <-> fd ∈ owned connected) /\
  forall o, permitted o connected -> exists s', exec o connected = Ok s'.
Proof. split; [reflexivity|]. apply (sockets_owned 1 connected connected_reachable). Defined.
