(* ===== verification/Multiplexer.v ===== *)
(** * The multiplexer

    src/multiplexer.cpp and include/mola/multiplexer.hpp with the counters of
    EventHandler in include/mola/event_handler.hpp: Module Epoll, the edge-triggered
    back end of Linux, and Module Poll, that of other systems.

    The kernel is an argument: what epoll_wait and poll report.  Handlers are numbers,
    [handle] is their handle_event. *)
From stdpp Require Import base list gmap numbers.
From S2P Require Import Prelude.

Inductive Operation := ERROR | READ | WRITE | RDWR.

(** op & READ, op & WRITE; ERROR is -1, all bits *)
Definition has_read (op : Operation) : bool := match op with WRITE => false | _ => true end.
Definition has_write (op : Operation) : bool := match op with READ => false | _ => true end.

Module Epoll.

(** The bits of an epoll event that the loop looks at: EPOLLIN or EPOLLRDHUP, EPOLLOUT,
    EPOLLERR or EPOLLHUP. *)
Record events := MkEvents { ev_in : bool; ev_out : bool; ev_err : bool }.
Definition no_events : events := MkEvents false false false.
Definition events_or (a b : events) : events :=
  MkEvents (ev_in a || ev_in b) (ev_out a || ev_out b) (ev_err a || ev_err b).

(** ** add and del *)

(** [m_ref]: the counter of each handler; [registered]: the handlers in the epoll set
    with their events. *)
Record epoller := MkEpoller { m_num : Z; m_ref : gmap Z Z; registered : gmap Z events }.

Definition ref (h : Z) (e : epoller) : Z := default 0 (m_ref e !! h).
Definition mask (op : Operation) : events := MkEvents (has_read op) (has_write op) false.

(** ::epoll_ctl with EPOLL_CTL_ADD and EPOLL_CTL_DEL: -1 for a descriptor that is, or is
    not, in the set *)
Definition ctl_add (op : Operation) (h : Z) (reg : gmap Z events) : Z * gmap Z events :=
  match reg !! h with Some _ => (-1, reg) | None => (0, <[h := mask op]> reg) end.
Definition ctl_del (h : Z) (reg : gmap Z events) : Z * gmap Z events :=
  match reg !! h with Some _ => (0, delete h reg) | None => (-1, reg) end.

Definition add (op : Operation) (h : Z) (e : epoller) : Z * epoller :=
  let n := if ref h e =? 0 then m_num e + 1 else m_num e in
  let '(ret, reg) := ctl_add op h (registered e) in
  (ret, MkEpoller n (<[h := ref h e + 1]> (m_ref e)) reg).

Definition del (h : Z) (e : epoller) : Z * epoller :=
  let r := <[h := ref h e - 1]> (m_ref e) in
  if ref h e - 1 =? 0 then
    let '(ret, reg) := ctl_del h (registered e) in (ret, MkEpoller (m_num e - 1) r reg)
  else (0, MkEpoller (m_num e) r (registered e)).

Definition new_epoller : epoller := MkEpoller 0 ∅ ∅.

(** ** One turn of the loop of poll *)
Section Loop.
Context {W : Type} (handle : Z -> Operation -> W -> bool * W).

(** The events that epoll_wait returned: errors go to the handler at once, the others are
    added to the activities. *)
Fixpoint collect (evs : list (Z * events)) (acts : gmap Z events) (w : W) : gmap Z events * W :=
  match evs with
  | [] => (acts, w)
  | (h, ev) :: evs =>
      if ev_err ev then collect evs acts (handle h ERROR w).2
      else collect evs (<[h := events_or (default no_events (acts !! h)) ev]> acts) w
  end.

(** A handler is called for writing, then for reading; a bit stays as long as the call
    asks for another one. *)
Definition serve (h : Z) (ev : events) (w : W) : events * W :=
  let '(o, w) := if ev_out ev then handle h WRITE w else (false, w) in
  let '(i, w) := if ev_in ev then handle h READ w else (false, w) in
  (MkEvents i o false, w).

(** The activities in the order of the map. *)
Fixpoint serve_all (acts : list (Z * events)) (w : W) : list (Z * events) * W :=
  match acts with
  | [] => ([], w)
  | (h, ev) :: acts =>
      let '(ev', w) := serve h ev w in
      let '(rest, w) := serve_all acts w in
      (if ev_in ev' || ev_out ev' then (h, ev') :: rest else rest, w)
  end.

Definition turn (evs : list (Z * events)) (acts : gmap Z events) (w : W) : gmap Z events * W :=
  let '(acts, w) := collect evs acts w in
  let '(rest, w) := serve_all (map_to_list acts) w in
  (list_to_map rest, w).

(** epoll_wait does not block while there are activities. *)
Definition timeout (acts : gmap Z events) : Z := if bool_decide (acts = ∅) then -1 else 0.
End Loop.

(** ** The counters *)

(** A handler is added once in its life and deleted any number of times: by its
    error paths and by its destructor. *)
Inductive op := OAdd (o : Operation) (h : Z) | ODel (h : Z).

Definition exec (o : op) (e : epoller) : Z * epoller :=
  match o with OAdd o h => add o h e | ODel h => del h e end.

Fixpoint execs (os : list op) (e : epoller) : epoller :=
  match os with [] => e | o :: os => execs os (exec o e).2 end.

(** Deleted only after it was added. *)
Fixpoint well_used (os : list op) (seen : list Z) : Prop :=
  match os with
  | [] => True
  | OAdd _ h :: os => (h ∉ seen) /\ well_used os (h :: seen)
  | ODel h :: os => (h ∈ seen) /\ well_used os seen
  end.

Record counted (seen : list Z) (e : epoller) : Prop := {
  c_num : m_num e = Z.of_nat (size (registered e));
  c_ref : forall h, h ∈ seen -> ref h e <= 1 /\ (is_Some (registered e !! h) <-> ref h e = 1);
  c_new : forall h, h ∉ seen -> ref h e = 0 /\ registered e !! h = None
}.

Lemma ref_insert h h' n num r reg :
  ref h (MkEpoller num (<[h' := n]> r) reg) = if bool_decide (h = h') then n else default 0 (r !! h).
Proof.
  unfold ref. cbn. case_bool_decide; [subst; by rewrite lookup_insert_eq|by rewrite lookup_insert_ne].
Qed.

Lemma add_counted o h seen e : counted seen e -> h ∉ seen ->
  (add o h e).1 = 0 /\ counted (h :: seen) (add o h e).2.
Proof.
  intros [Hn Hr Hnew] Hh. destruct (Hnew h Hh) as [H0 Hreg]. unfold add, ctl_add. rewrite H0, Hreg. cbn.
  split; [done|]. split; cbn.
  - rewrite map_size_insert_None by done. lia.
  - intros x Hx. rewrite ref_insert. apply elem_of_cons in Hx. case_bool_decide; subst.
    + rewrite lookup_insert_eq. split; [lia|]. split; [done|eauto].
    + destruct Hx as [?|Hx]; [done|]. rewrite lookup_insert_ne by done. by apply Hr.
  - intros x Hx. apply not_elem_of_cons in Hx as [Hne Hx]. rewrite ref_insert, bool_decide_eq_false_2 by done.
    rewrite lookup_insert_ne by done. by apply Hnew.
Qed.

Lemma del_counted h seen e : counted seen e -> h ∈ seen ->
  (del h e).1 = 0 /\ counted seen (del h e).2.
Proof.
  intros [Hn Hr Hnew] Hh. destruct (Hr h Hh) as [Hle Hiff]. unfold del.
  assert (forall x, x ∉ seen -> x <> h) as Hneq by (intros x Hx ->; done).
  destruct (Z.eqb_spec (ref h e - 1) 0) as [H1|H1].
  - destruct (proj2 Hiff ltac:(lia)) as [ev Hev]. unfold ctl_del. rewrite Hev. split; [done|]. split; cbn.
    + rewrite map_size_delete_Some by eauto. assert (size (registered e) <> 0%nat); [|lia].
      rewrite map_size_ne_0_lookup. eauto.
    + intros x Hx. rewrite ref_insert. case_bool_decide; subst.
      * rewrite lookup_delete_eq. split; [lia|]. split; [by intros [? ?]|lia].
      * rewrite lookup_delete_ne by done. by apply Hr.
    + intros x Hx. pose proof (Hneq x Hx). rewrite ref_insert, bool_decide_eq_false_2, lookup_delete_ne by done.
      by apply Hnew.
  - split; [done|]. split; cbn; [done| |].
    + intros x Hx. rewrite ref_insert. case_bool_decide; subst; [|by apply Hr].
      split; [lia|]. rewrite Hiff. lia.
    + intros x Hx. pose proof (Hneq x Hx). rewrite ref_insert, bool_decide_eq_false_2 by done. by apply Hnew.
Qed.

Lemma del_unregisters h seen e : counted seen e -> h ∈ seen ->
  counted seen (del h e).2 /\ registered (del h e).2 !! h = None /\
  (forall x, is_Some (registered (del h e).2 !! x) -> is_Some (registered e !! x)).
Proof.
  intros Hc Hh. split; [by apply del_counted|].
  destruct Hc as [_ Hr _]. destruct (Hr h Hh) as [Hle Hiff]. unfold del, ctl_del.
  destruct (Z.eqb_spec (ref h e - 1) 0) as [H1|H1].
  - destruct (proj2 Hiff ltac:(lia)) as [ev ->]. cbn. split; [apply lookup_delete_eq|].
    intros x [y Hy]. apply lookup_delete_Some in Hy as [_ Hy]. eauto.
  - cbn. split; [|done]. destruct (registered e !! h) eqn:E; [|done]. exfalso.
    assert (ref h e = 1) by (apply Hiff; eauto). lia.
Qed.

(** Without the counters: del takes only the handler itself from the set, add of a handler
    leaves the others. *)
Lemma del_shrinks h x e : is_Some (registered (del h e).2 !! x) -> is_Some (registered e !! x).
Proof.
  unfold del, ctl_del. destruct (ref h e - 1 =? 0); [|done]. destruct (registered e !! h); [|done]. cbn.
  intros [y [_ Hy]%lookup_delete_Some]. eauto.
Qed.

Lemma add_others o h x e : x <> h -> registered (add o h e).2 !! x = registered e !! x.
Proof. intros Hx. unfold add, ctl_add. destruct (registered e !! h); cbn; [done|]. by rewrite lookup_insert_ne. Qed.

(** The counters of the epoll back end: when every handler is added once and
    deleted after that any number of times, no call of epoll_ctl fails, the first
    deletion takes the handler out of the set and the others do nothing, and m_num
    is the number of handlers in the set, so that the loop waits on its
    condition only while there are none. *)
Theorem epoll_counters (os : list op) :
  well_used os [] ->
  (forall os1 o os2, os = os1 ++ o :: os2 -> (exec o (execs os1 new_epoller)).1 = 0) /\
  m_num (execs os new_epoller) = Z.of_nat (size (registered (execs os new_epoller))).
Proof.
  assert (forall os seen e, counted seen e -> well_used os seen ->
    (forall os1 o os2, os = os1 ++ o :: os2 -> (exec o (execs os1 e)).1 = 0) /\
    m_num (execs os e) = Z.of_nat (size (registered (execs os e)))) as Hgen.
  { clear os. intros os. induction os as [|o os IH]; intros seen e Hc Hw.
    { split; [by intros [|] ? ?|]. by apply (c_num _ _ Hc). }
    assert (exists seen', (exec o e).1 = 0 /\ counted seen' (exec o e).2 /\ well_used os seen') as (seen' & H0 & Hc' & Hw').
    { destruct o as [p h|h]; destruct Hw as [Hh Hw]; [exists (h :: seen)|exists seen]; cbn [exec].
      - destruct (add_counted p h seen e Hc Hh). done.
      - destruct (del_counted h seen e Hc Hh). done. }
    destruct (IH seen' _ Hc' Hw') as [IH1 IH2]. cbn [execs]. split; [|done].
    intros [|o1 os1] o' os2 Heq; cbn in Heq; injection Heq as -> ->; [done|]. by eapply IH1. }
  apply (Hgen os []). split; [done|by intros h ?%not_elem_of_nil|]. intros h _. unfold ref. cbn. by rewrite lookup_empty.
Qed.

(** ** What a turn does to sockets that are ready

    [ready w h]: a property of the socket of [h] that handlers end and do not begin: no call
    makes it hold of a socket, a READ that does not ask for another call and an ERROR
    leave it false for theirs.  [I] is an invariant of the handlers.  EpollLoop.v has
    the handlers of src/event_handler.cpp and event_handler.hpp. *)
Section Ready.
Context {W : Type} (handle : Z -> Operation -> W -> bool * W) (I : W -> Prop) (ready : W -> Z -> Prop).
Hypothesis handle_inv : forall h op w, I w -> I (handle h op w).2.
Hypothesis handle_shrinks : forall h op w h', I w -> ready (handle h op w).2 h' -> ready w h'.
Hypothesis read_drains : forall h w, I w -> (handle h READ w).1 = false -> ~ ready (handle h READ w).2 h.
Hypothesis error_closes : forall h w, I w -> ~ ready (handle h ERROR w).2 h.

Definition in_bit (acts : gmap Z events) (h : Z) : Prop := exists ev, acts !! h = Some ev /\ ev_in ev = true.
Definition reports (evs : list (Z * events)) (h : Z) : Prop :=
  exists ev, (h, ev) ∈ evs /\ (ev_in ev = true \/ ev_err ev = true).

Lemma collect_keeps evs acts w acts' w' : I w -> collect handle evs acts w = (acts', w') ->
  I w' /\ forall h, ready w' h -> ready w h /\ (reports evs h \/ in_bit acts h -> in_bit acts' h).
Proof.
  revert acts w; induction evs as [|[h0 ev0] evs IH]; intros acts w Hi; cbn.
  { intros [= <- <-]. split; [done|]. intros h Hh. split; [done|]. intros [(ev & H%not_elem_of_nil & _)|H]; done. }
  destruct (ev_err ev0) eqn:Herr; intros Heq.
  - destruct (IH _ _ (handle_inv h0 ERROR w Hi) Heq) as [Hi' Hk]. split; [done|]. intros h Hh.
    destruct (Hk h Hh) as [H1 H2]. split; [by eapply handle_shrinks|].
    intros [(ev & [[= -> ->]|Hev]%elem_of_cons & Hin)|Hb]; [by apply error_closes in H1| |]; apply H2; [left; by exists ev|by right].
  - destruct (IH _ _ Hi Heq) as [Hi' Hk]. split; [done|]. intros h Hh. destruct (Hk h Hh) as [H1 H2]. split; [done|].
    intros [(ev & [[= -> ->]|Hev]%elem_of_cons & Hin)|(ev & Hev & Hin)]; apply H2.
    + right. unfold in_bit. rewrite lookup_insert_eq. eexists. split; [done|]. cbn.
      destruct Hin as [Hin|Hin]; [|congruence]. rewrite Hin. apply orb_true_r.
    + left. by exists ev.
    + right. unfold in_bit. destruct (decide (h = h0)) as [->|Hne].
      * rewrite lookup_insert_eq, Hev. eexists. split; [done|]. cbn. by rewrite Hin.
      * rewrite lookup_insert_ne by done. eauto.
Qed.

Lemma serve_keeps h ev w ev' w' : I w -> serve handle h ev w = (ev', w') ->
  I w' /\ forall x, ready w' x -> ready w x /\ (x = h -> ev_in ev = true -> ev_in ev' = true).
Proof.
  intros Hi. unfold serve. destruct (if ev_out ev then _ else _) as [o w1] eqn:Ho.
  destruct (if ev_in ev then _ else _) as [i w2] eqn:Hin. intros [= <- <-].
  assert (I w1) as Hi1.
  { destruct (ev_out ev); [|by injection Ho as _ <-]. pose proof (handle_inv h WRITE w Hi) as H. by rewrite Ho in H. }
  assert (I w2) as Hi2.
  { destruct (ev_in ev); [|by injection Hin as _ <-]. pose proof (handle_inv h READ w1 Hi1) as H. by rewrite Hin in H. }
  split; [done|]. intros x Hx.
  assert (ready w2 x -> ready w1 x) as H12.
  { destruct (ev_in ev); [|by injection Hin as _ ->]. intros H. apply (handle_shrinks h READ); [done|]. by rewrite Hin. }
  assert (ready w1 x -> ready w x) as H01.
  { destruct (ev_out ev); [|by injection Ho as _ ->]. intros H. apply (handle_shrinks h WRITE); [done|]. by rewrite Ho. }
  split; [auto|]. intros -> Hev. rewrite Hev in Hin. cbn. destruct i; [done|].
  pose proof (read_drains h w1 Hi1) as Hd. rewrite Hin in Hd. by destruct Hd.
Qed.

Lemma serve_all_keeps acts w rest w' : I w -> serve_all handle acts w = (rest, w') ->
  I w' /\ rest.*1 `sublist_of` acts.*1 /\
  forall x, ready w' x -> ready w x /\
    ((exists ev, (x, ev) ∈ acts /\ ev_in ev = true) -> exists ev, (x, ev) ∈ rest /\ ev_in ev = true).
Proof.
  revert w rest; induction acts as [|[h ev] acts IH]; intros w rest Hi; cbn.
  { intros [= <- <-]. split_and!; [done..|]. intros x Hx. split; [done|]. by intros (ev & ?%not_elem_of_nil & _). }
  destruct (serve handle h ev w) as [ev' w1] eqn:Hs.
  destruct (serve_all handle acts w1) as [rest1 w2] eqn:Hr. intros [= <- <-].
  destruct (serve_keeps _ _ _ _ _ Hi Hs) as [Hi1 Hk1]. destruct (IH _ _ Hi1 Hr) as (Hi2 & Hsub & Hk). split_and!; [done| |].
  { destruct (ev_in ev' || ev_out ev'); cbn; by constructor. }
  intros x Hx. destruct (Hk x Hx) as [H1 H2]. destruct (Hk1 x H1) as [H3 H4].
  split; [done|]. intros (e & [[= -> ->]|He]%elem_of_cons & Hin).
  - specialize (H4 eq_refl Hin). rewrite H4. cbn. exists ev'. split; [constructor|done].
  - destruct (H2 (ex_intro _ e (conj He Hin))) as (e' & He' & Hin'). exists e'. split; [|done].
    destruct (ev_in ev' || ev_out ev'); [by constructor|done].
Qed.

(** A socket that is ready after a turn was so before, and if it was reported or in the
    activities for reading, it is in the activities of the next turn. *)
Lemma turn_keeps evs acts w acts' w' : I w -> turn handle evs acts w = (acts', w') ->
  I w' /\ forall x, ready w' x -> ready w x /\ (reports evs x \/ in_bit acts x -> in_bit acts' x).
Proof.
  intros Hi. unfold turn. destruct (collect handle evs acts w) as [acts1 w1] eqn:Hc.
  destruct (serve_all handle (map_to_list acts1) w1) as [rest w2] eqn:Hs. intros [= <- <-].
  destruct (collect_keeps _ _ _ _ _ Hi Hc) as [Hi1 Hk1]. destruct (serve_all_keeps _ _ _ _ Hi1 Hs) as (Hi2 & Hsub & Hk2).
  split; [done|]. intros x Hx. destruct (Hk2 x Hx) as [H1 H2]. destruct (Hk1 x H1) as [H3 H4]. split; [done|].
  intros (ev & Hev & Hb)%H4. destruct H2 as (ev' & Hev' & Hb'); [exists ev; by rewrite elem_of_map_to_list|].
  exists ev'. split; [|done]. apply elem_of_list_to_map_1; [|done].
  eapply sublist_NoDup; [|exact Hsub]. apply NoDup_fst_map_to_list.
Qed.
End Ready.

(** A bit in the activities keeps epoll_wait from blocking. *)
Lemma in_bit_timeout acts h : in_bit acts h -> timeout acts = 0.
Proof.
  intros (ev & Hev & _). unfold timeout. rewrite bool_decide_eq_false_2; [done|]. intros ->. by rewrite lookup_empty in Hev.
Qed.

(** ** Witnesses *)
Lemma epoll_counters_witness :
  m_num (execs [OAdd RDWR 5; OAdd READ 7; ODel 5; ODel 5] new_epoller) =
  Z.of_nat (size (registered (execs [OAdd RDWR 5; OAdd READ 7; ODel 5; ODel 5] new_epoller))).
Proof.
  apply (epoll_counters [OAdd RDWR 5; OAdd READ 7; ODel 5; ODel 5]).
  repeat split; rewrite ?not_elem_of_cons, ?elem_of_cons; auto using not_elem_of_nil.
Defined.

End Epoll.

(** ** The back end with poll *)
Module Poll.

(** A slot of m_fds and m_evs; the bits of events are POLLIN and POLLOUT. *)
Record slot := MkSlot { pfd_fd : Z; pfd_in : bool; pfd_out : bool; ev : Z }.

(** The arrays: the slots in use, and what is in the memory of the slots behind them,
    which new and del leave there. *)
Record poller := MkPoller { m_cap : nat; slots : list slot; stale : list slot }.

Definition junk : slot := MkSlot 0 false false 0.

(** add: the arrays grow by doubling; the bits are or-ed to what the slot held.  [fresh] is
    the memory that new returned. *)
Definition add (op : Operation) (h fd : Z) (fresh : list slot) (p : poller) : poller :=
  let full := Nat.eqb (length (slots p)) (m_cap p) in
  let stale := if full then fresh else stale p in
  let old := default junk (head stale) in
  MkPoller (if full then 2 * m_cap p else m_cap p)
    (slots p ++ [MkSlot fd (pfd_in old || has_read op) (pfd_out old || has_write op) h]) (tail stale).

(** The test of the loop of del: op is compared with one operation, not with its bits. *)
Definition matches (op : Operation) (h : Z) (s : slot) : bool :=
  (ev s =? h) &&
  match op with READ => pfd_in s | WRITE => pfd_out s | _ => false end.

Fixpoint find_slot (op : Operation) (h : Z) (l : list slot) : option nat :=
  match l with
  | [] => None
  | s :: l => if matches op h s then Some O else S <$> find_slot op h l
  end.

(** del: the last slot is moved to the place of the deleted one. *)
Definition del (op : Operation) (h : Z) (p : poller) : Z * poller :=
  match find_slot op h (slots p), slots p !! (length (slots p) - 1)%nat with
  | Some i, Some s =>
      let l := <[i := s]> (slots p) in
      (0, MkPoller (m_cap p) (take (length (slots p) - 1) l) (s :: stale p))
  | _, _ => (-1, p)
  end.

(** The part of poll that turns the reported bits into calls, in the order of the slots;
    [revents] gives error, input and output for each. *)
Fixpoint activities (l : list slot) (revents : list (bool * bool * bool)) : list (Z * Operation) :=
  match l, revents with
  | s :: l, (err, i, o) :: rs =>
      (if err then [(ev s, ERROR)]
       else (if i then [(ev s, READ)] else []) ++ (if o then [(ev s, WRITE)] else []))
      ++ activities l rs
  | _, _ => []
  end.

Lemma find_slot_spec op h l i : find_slot op h l = Some i ->
  exists s, l !! i = Some s /\ matches op h s = true.
Proof.
  revert i; induction l as [|s l IH]; intros i; cbn; [done|]. destruct (matches op h s) eqn:E.
  - intros [= <-]. by exists s.
  - destruct (find_slot op h l) as [j|]; [|done]. intros [= <-]. by apply IH.
Qed.

(** Deleting from the table of the poll back end with READ or WRITE takes out one slot
    of the handler that has that bit and keeps all others; but with RDWR, which the
    destructor of a stream handler passes, it never finds anything, so that the
    table keeps a pointer to the destroyed handler. *)
Theorem poller_del (op : Operation) (h : Z) (p : poller) :
  (forall i, find_slot op h (slots p) = Some i ->
    exists s p', del op h p = (0, p') /\ matches op h s = true /\ slots p ≡ₚ s :: slots p') /\
  (find_slot op h (slots p) = None -> del op h p = (-1, p)) /\
  del RDWR h p = (-1, p).
Proof.
  assert (forall l, find_slot RDWR h l = None) as Hrdwr.
  { induction l as [|s l IH]; [done|]. cbn. unfold matches. by rewrite andb_false_r, IH. }
  split; [|split; unfold del; [by intros ->|by rewrite Hrdwr]].
  intros i Hi. destruct (find_slot_spec _ _ _ _ Hi) as (s & Hs & Hm). unfold del. rewrite Hi.
  destruct (slots p) as [|x l _] eqn:Hl using rev_ind; [done|].
  replace (length (l ++ [x]) - 1)%nat with (length l) by (rewrite length_app; cbn; lia).
  rewrite list_lookup_middle by done. exists s. eexists. split; [done|]. split; [done|]. cbn [slots].
  apply lookup_lt_Some in Hs as Hlt. rewrite length_app in Hlt. cbn in Hlt.
  destruct (decide (i = length l)) as [->|Hne].
  - rewrite list_lookup_middle in Hs by done. injection Hs as <-.
    rewrite insert_app_r_alt, Nat.sub_diag, take_app_length by lia. solve_Permutation.
  - rewrite lookup_app_l in Hs by lia. rewrite insert_app_l, take_app_length' by (rewrite ?length_insert; lia).
    rewrite (insert_take_drop l i x) by lia.
    rewrite <- (take_drop_middle l i s Hs) at 1. solve_Permutation.
Qed.

(** The first slot of fresh memory that is not zero makes poll report output that was
    not asked for. *)
Lemma stale_bits_kept :
  slots (add READ 9 4 [MkSlot 0 false true 0] (MkPoller 0 [] [])) = [MkSlot 4 true true 9].
Proof. reflexivity. Qed.
End Poll.
