(* ===== verification/LocalNode.v ===== *)
(** * The local node

    How a process gets its own node record: NodeManager::create_local_node of
    src/node_manager.cpp with Connection::get_primary_ip of include/mola/connection.hpp,
    GatewayServer::initialize of include/mola/gateway.hpp, and register_module of
    include/mola/node_manager.hpp.  What getifaddrs, the resolver and the socket calls
    answer are arguments. *)
From Stdlib Require Import Ascii String.
From stdpp Require Import base list gmap numbers.
From S2P Require Import Prelude Bytes Text NodeManager Connection.

#[local] Open Scope Z_scope.
#[local] Open Scope list_scope.
#[local] Abbreviation length := List.length.

(** ** The primary address *)

(** An entry of getifaddrs: without an address, an IPv4 address in the order of the
    network, another family *)
Inductive ifaddr := NoAddr | Inet (a b c d : Z) | OtherFamily.

(** inet_ntop(AF_INET, ...) *)
Definition inet_ntop (a b c d : Z) : text := dotted [a; b; c; d].

(** !strncmp(addr_, "127.", 4) *)
Definition loopback (s : text) : bool := bool_decide (take 4 s = txt "127.").

Fixpoint get_primary_ip (ifs : list ifaddr) : option text :=
  match ifs with
  | [] => None
  | Inet a b c d :: ifs =>
      let addr := inet_ntop a b c d in if loopback addr then get_primary_ip ifs else Some addr
  | _ :: ifs => get_primary_ip ifs
  end.

(** The text of an address begins with 127. exactly when its first number is 127. *)
Lemma loopback_spec a b c d : is_byte a -> loopback (inet_ntop a b c d) = (a =? 127).
Proof.
  unfold is_byte, loopback, inet_ntop. intros Ha. rewrite dotted_cons by done.
  generalize (dotted [b; c; d]). intros t. destruct (Z.eqb_spec a 127) as [->|Hne]; [done|].
  apply bool_decide_eq_false_2. intros E. apply Hne.
  pose proof (strtoul0_show a (dot :: t) ltac:(lia) eq_refl) as H1.
  rewrite <- (take_drop 4 (show_dec a ++ dot :: t)), E in H1.
  pose proof (strtoul0_show 127 (dot :: drop 4 (show_dec a ++ dot :: t)) ltac:(lia) eq_refl) as H2.
  change (show_dec 127 ++ dot :: ?l) with (txt "127." ++ l) in H2. congruence.
Qed.

(** The interfaces that are not a loopback. *)
Definition outward (i : ifaddr) : option (Z * Z * Z * Z) :=
  match i with Inet a b c d => if a =? 127 then None else Some (a, b, c, d) | _ => None end.

Definition valid_if (i : ifaddr) : Prop :=
  match i with Inet a b c d => is_byte a /\ is_byte b /\ is_byte c /\ is_byte d | _ => True end.

(** The primary address is that of the first interface with an IPv4 address outside of
    127.0.0.0/8, as text that parseip reads back; there is none exactly when there is no such
    interface. *)
Lemma primary_ip_spec ifs : Forall valid_if ifs ->
  match head (omap outward ifs) with
  | Some (a, b, c, d) => get_primary_ip ifs = Some (inet_ntop a b c d) /\ parseip (inet_ntop a b c d) = Ok (Some (of_le [a; b; c; d]))
  | None => get_primary_ip ifs = None
  end.
Proof.
  induction 1 as [|i ifs Hi Hifs IH]; [done|]. destruct i as [|a b c d|]; cbn -[loopback inet_ntop]; [done| |done].
  destruct Hi as (Ha & Hb & Hc & Hd). rewrite loopback_spec by done. destruct (a =? 127); cbn -[inet_ntop]; [done|].
  split; [done|]. by apply parseip_roundtrip.
Qed.

(** ** create_local_node *)

(** m_local_node, GatewayServer::gw and the open sockets *)
Record process := MkProcess { m_local_node : option Node.node; gw : option TCPServer; socks : gset Z }.

Definition invalid_id : Z := 2 ^ 32 - 1.

Section Create.
(** [little]: __LITTLE_ENDIAN__ is defined; [single]: the engine has one node, m_single_node;
    [ifs]: the interfaces; [fd], [bound]: what ::socket returned and whether ::bind succeeded *)
Context (little single : bool) (ifs : list ifaddr) (resolve : text -> option Z) (fd : Z) (bound : bool).

(** GatewayServer::initialize *)
Definition gateway_initialize (p : process) : outcome process :=
  match gw p with
  | Some _ => mret p
  | None =>
      n ← deref (m_local_node p);
      '(ret, v, o) ← server_start resolve (Node.n_ip n) fd bound (MkServer INVALID_SOCKFD false []) (socks p);
      _ ← mola_assert (negb (ret <? 0));
      mret (MkProcess (m_local_node p) (Some v) o)
  end.

(** The name of the host that is registered *)
Definition hostname (host : option text) : text :=
  let h := default [] host in
  if bool_decide (h = txt "*") then match get_primary_ip ifs with Some a => a | None => h end else h.

Definition create_local_node (host : option text) (port : Z) (p : process) : outcome process :=
  match m_local_node p with
  | Some _ => mret p
  | None =>
      let n := Node.MkNode invalid_id (if little then 0 else 1) 0 (u16 port) (hostname host) [] in
      let p := MkProcess (Some n) (gw p) (socks p) in
      if single then mret p else gateway_initialize p
  end.

Definition fresh_process : process := MkProcess None None ∅.

(** A node of a cluster that is asked to listen on any address announces the primary one,
    which its peers can read, and its server listens on that address; a second call
    changes nothing. *)
Theorem local_node_reachable port a b c d rest :
  single = false -> 0 <= fd -> bound = true -> 0 <= port < 2 ^ 16 ->
  Forall valid_if ifs -> omap outward ifs = (a, b, c, d) :: rest ->
  exists n v p, create_local_node (Some (txt "*")) port fresh_process = Ok p /\
    m_local_node p = Some n /\ Node.n_port n = port /\
    parseip (Node.n_ip n) = Ok (Some (of_le [a; b; c; d])) /\
    gw p = Some v /\ s_running v = true /\ socks p = {[fd]} /\
    bind_addr resolve (Node.n_ip n) = Ok (Some (of_le [a; b; c; d])) /\
    forall host port', create_local_node host port' p = Ok p.
Proof.
  intros Hs Hfd Hb Hp Hv Ho. pose proof (primary_ip_spec ifs Hv) as Hip. rewrite Ho in Hip. cbn [head] in Hip.
  destruct Hip as [Hget Hparse]. unfold create_local_node, hostname. cbn [m_local_node fresh_process default].
  rewrite bool_decide_eq_true_2, Hget, Hs by done.
  assert (bind_addr resolve (inet_ntop a b c d) = Ok (Some (of_le [a; b; c; d]))) as Hbind.
  { unfold bind_addr, host_to_ip. rewrite Hparse. rewrite !bool_decide_eq_false_2; [done| |];
      intros E; rewrite E in Hparse; vm_compute in Hparse; discriminate. }
  unfold gateway_initialize. cbn [gw m_local_node Node.n_ip]. cbn [deref]. rewrite bind_ok.
  unfold server_start. cbn [Node.n_ip]. rewrite Hbind, bind_ok, (proj2 (Z.ltb_ge fd 0)), Hb by done.
  cbn. rewrite (proj2 (Z.ltb_ge fd 0)) by done. cbn. do 3 eexists. split; [reflexivity|].
  cbn. split_and!; try reflexivity; [by apply wrap_small|done|set_solver|done].
Qed.

(** Without such an interface the record announces the name "*", which is no address, while
    the server listens on any. *)
Theorem local_node_unreachable port :
  Forall valid_if ifs -> omap outward ifs = [] -> single = false -> 0 <= fd -> bound = true ->
  exists n p, create_local_node (Some (txt "*")) port fresh_process = Ok p /\ m_local_node p = Some n /\
    Node.n_ip n = txt "*" /\ parseip (Node.n_ip n) = Ok None /\ bind_addr resolve (Node.n_ip n) = Ok (Some 0).
Proof.
  intros Hv Ho Hs Hfd Hb. pose proof (primary_ip_spec ifs Hv) as Hip. rewrite Ho in Hip. cbn [head] in Hip.
  unfold create_local_node, hostname. cbn [m_local_node fresh_process default].
  rewrite bool_decide_eq_true_2, Hip, Hs by done. change (id (txt "*")) with (txt "*").
  unfold gateway_initialize. cbn [gw m_local_node fresh_process deref]. rewrite bind_ok.
  unfold server_start. cbn [Node.n_ip]. assert (bind_addr resolve (txt "*") = Ok (Some 0)) as -> by done. rewrite bind_ok.
  rewrite (proj2 (Z.ltb_ge fd 0)), Hb by done. cbn. rewrite (proj2 (Z.ltb_ge fd 0)) by done.
  cbn. do 2 eexists. split; [reflexivity|]. by split_and!.
Qed.
End Create.

(** A host with a loopback and an interface in 10.0.0.0/8 *)
Definition demo_ifs : list ifaddr := [NoAddr; Inet 127 0 0 1; OtherFamily; Inet 10 0 0 7; Inet 192 168 0 1].

Lemma demo_ifs_valid : Forall valid_if demo_ifs.
Proof. repeat constructor; cbn; lia. Qed.

Lemma local_node_reachable_witness :
  exists n v p, create_local_node true false demo_ifs (fun _ => None) 5 true (Some (txt "*")) 80 fresh_process = Ok p /\
    m_local_node p = Some n /\ Node.n_port n = 80 /\ parseip (Node.n_ip n) = Ok (Some (of_le [10; 0; 0; 7])) /\
    gw p = Some v /\ s_running v = true /\ socks p = {[5]}.
Proof.
  destruct (local_node_reachable true false demo_ifs (fun _ => None) 5 true 80 10 0 0 7 [(192, 168, 0, 1)])
    as (n & v & p & ? & ? & ? & ? & ? & ? & ? & _ & _);
    [reflexivity|lia|reflexivity|lia|apply demo_ifs_valid|reflexivity|]. exists n, v, p. by split_and!.
Defined.

(** ** register_module *)

(** NodeManager::register_module: the module gets its id from the engine, here the names of
    SingletonEngine, and is added to the record of the local node *)
Definition register_module (name : text) (pub : bool) (names : list text) (p : process)
    : outcome (Z * list text * process) :=
  let '(id, names) := ModuleIds.get_module_id name true names in
  n ← deref (m_local_node p);
  mret (id, names, MkProcess (Some (Node.add_module id name pub n)) (gw p) (socks p)).

(** What is registered is found: the record has the module, and its other modules. *)
Theorem register_module_spec name pub names p n : m_local_node p = Some n ->
  exists id names' p' n', register_module name pub names p = Ok (id, names', p') /\ m_local_node p' = Some n' /\
    forall mid, Node.has_module mid n' = Node.has_module mid n || (id =? mid).
Proof.
  intros Hn. unfold register_module. destruct (ModuleIds.get_module_id name true names) as [id names'] eqn:E.
  rewrite Hn. cbn. do 4 eexists. split; [reflexivity|]. split; [reflexivity|]. intros mid.
  unfold Node.has_module, Node.add_module. cbn. rewrite existsb_app. cbn. rewrite orb_false_r.
  assert (u16 id = id) as ->; [|done]. unfold ModuleIds.get_module_id in E.
  destruct (ModuleIds.index_of name names); injection E as <- _; by apply wrap_idem.
Qed.
