(* ===== verification/Peers.v ===== *)
(** * Nodes and their connections

    How include/mola/event_handler.hpp, connection.hpp and gateway.hpp work together with
    src/node_manager.cpp, src/event_handler.cpp and the delete_node of src/zookeeper.cpp:
    who owns the connection to a peer, and what happens when the peer is down.

    Node objects are shared: std::shared_ptr pointers to them are in the node manager's
    table and in the caches and variables of threads.  A node owns the client it sends
    with, the gateway server the clients it accepted, a client its stream handler.
    Addresses are numbers that are not used again; [BadDeref] is an access to an object that
    is gone or a second release of it.  The sockets are those of Connection.v, the epoll
    sets those of Multiplexer.v; they are one here, since a handler is added to and
    deleted from the same one.  The epoll thread keeps plain pointers to handlers, in the
    events that epoll_wait returned and in the activities of its loop: [acts].  The server's
    own socket and the bytes on the wire are in Connection.v and Stream.v, the buffers that
    wait in a handler's mailbox in Mailbox.v. *)
From stdpp Require Import base list gmap numbers.
From S2P Require Import Prelude Connection Multiplexer.

(** ** The objects *)

(** The mailbox of a handler: open, or closed with that many buffers counted in its
    private queue (m_num_inque, which close does not reset). *)
Inductive mbox := MOpen | MClosed (inque : nat).

(** StreamHandler with its GatewayReceiver: the descriptor, whether it is in
    STATE_WAIT_HANDSHAKE, m_nid, the mailbox.  It is named by its client, which makes one
    handler in its life. *)
Record StreamHandler := MkHandler { h_sockfd : Z; h_wait : bool; h_nid : Z; m_mbox : mbox }.

Record GatewayClient := MkGateway { c_tcp : TCPClient; c_nid : Z; m_handler : option StreamHandler }.

Record Node := MkNode { n_id : Z; m_client : option Z }.

(** [held]: the shared pointers outside of the table; [m_clients] and [m_running] of the
    gateway server; [acts]: the handlers that the epoll thread has in its events and
    activities. *)
Record world := MkWorld {
  nodes : gmap Z Node;
  m_alive_nodes : gmap Z Z;
  held : list Z;
  clients : gmap Z GatewayClient;
  m_clients : list (option Z);
  m_running : bool;
  epoll : Epoll.epoller;
  open : gset Z;
  next : Z;
  acts : list Z
}.

Definition set_nodes (f : gmap Z Node -> gmap Z Node) (w : world) : world :=
  MkWorld (f (nodes w)) (m_alive_nodes w) (held w) (clients w) (m_clients w) (m_running w) (epoll w) (open w) (next w) (acts w).
Definition set_refs (tab : gmap Z Z) (hs : list Z) (w : world) : world :=
  MkWorld (nodes w) tab hs (clients w) (m_clients w) (m_running w) (epoll w) (open w) (next w) (acts w).
Definition set_socks (cl : gmap Z GatewayClient) (e : Epoll.epoller) (o : gset Z) (w : world) : world :=
  MkWorld (nodes w) (m_alive_nodes w) (held w) cl (m_clients w) (m_running w) e o (next w) (acts w).
Definition set_server (l : list (option Z)) (r : bool) (w : world) : world :=
  MkWorld (nodes w) (m_alive_nodes w) (held w) (clients w) l r (epoll w) (open w) (next w) (acts w).
Definition bump (w : world) : world :=
  MkWorld (nodes w) (m_alive_nodes w) (held w) (clients w) (m_clients w) (m_running w) (epoll w) (open w) (next w + 1) (acts w).
Definition set_acts (l : list Z) (w : world) : world :=
  MkWorld (nodes w) (m_alive_nodes w) (held w) (clients w) (m_clients w) (m_running w) (epoll w) (open w) (next w) l.

(** ** Clients *)

(** TCPClient::start: the handler is made and added to the multiplexer *)
Definition start (c : Z) (w : world) : outcome world :=
  k ← deref (clients w !! c);
  let t := c_tcp k in
  let h := MkHandler (c_sockfd t) (c_passive t) (c_nid k) MOpen in
  mret (set_socks (<[c := MkGateway (MkClient (c_sockfd t) (c_passive t) true) (c_nid k) (Some h)]> (clients w))
          (Epoll.add RDWR c (epoll w)).2 (open w) w).

(** StreamHandler::stop, its loop over the mailbox: the buffers of an open one are
    deleted.  dequeue does not know that a mailbox is closed: with buffers counted it finds
    none and asserts, otherwise it takes the tag "closed" for a node
    (Mailbox.dequeue_closed_faults). *)
Definition empty_mbox (m : mbox) : outcome unit :=
  match m with
  | MOpen => mret tt
  | MClosed O => Fault BadDeref
  | MClosed (S _) => Fault AssertFailed
  end.

(** TCPClient::stop: ~StreamHandler deletes the handler from the multiplexer and empties
    its mailbox *)
Definition stop (c : Z) (w : world) : outcome world :=
  k ← deref (clients w !! c);
  if c_running (c_tcp k) then
    h ← deref (m_handler k);
    _ ← empty_mbox (m_mbox h);
    '(t, o) ← client_stop (c_tcp k) (open w);
    mret (set_socks (<[c := MkGateway t (c_nid k) None]> (clients w)) (Epoll.del c (epoll w)).2 o w)
  else mret w.

(** delete client: the destructor stops it *)
Definition delete_client (c : Z) (w : world) : outcome world :=
  w ← stop c w; mret (set_socks (delete c (clients w)) (epoll w) (open w) w).

(** ** Nodes *)

(** Node::~Node *)
Definition delete_Node (a : Z) (w : world) : outcome world :=
  n ← deref (nodes w !! a);
  w ← match m_client n with
      | Some c => w ← stop c w; delete_client c w
      | None => mret w
      end;
  mret (set_nodes (delete a) w).

(** std::shared_ptr::use_count, and what the last pointer to go does *)
Definition use_count (a : Z) (w : world) : nat :=
  (length (filter (fun x => x = a) (held w)) + size (filter (fun e : Z * Z => e.2 = a) (m_alive_nodes w)))%nat.

Definition release (a : Z) (w : world) : outcome world :=
  if decide (use_count a w = 0%nat) then delete_Node a w else mret w.

(** A pointer outside of the table goes. *)
Definition drop (i : nat) (w : world) : outcome world :=
  a ← deref (held w !! i); release a (set_refs (m_alive_nodes w) (delete i (held w)) w).

(** ZookeeperEngine::delete_node: m_alive_nodes.erase(id) *)
Definition delete_node (id : Z) (w : world) : outcome world :=
  match m_alive_nodes w !! id with
  | Some a => release a (set_refs (delete id (m_alive_nodes w)) (held w) w)
  | None => mret w
  end.

(** A node that the registry tells of: update_cached_node.  When the id is in the table
    the new object is not kept. *)
Definition learn (id : Z) (w : world) : world :=
  match m_alive_nodes w !! id with
  | Some _ => w
  | None =>
      bump (set_refs (<[id := next w]> (m_alive_nodes w)) (held w) (set_nodes (<[next w := MkNode id None]>) w))
  end.

(** NodeManager::find_node: the pointer that is returned, or put in the thread's cache *)
Definition find_node (id : Z) (w : world) : option Z * world :=
  match m_alive_nodes w !! id with
  | Some a => (Some a, set_refs (m_alive_nodes w) (held w ++ [a]) w)
  | None => (None, w)
  end.

(** Node::set_client *)
Definition set_client (a : Z) (c : Z) (w : world) : outcome world :=
  n ← deref (nodes w !! a); mret (set_nodes (<[a := MkNode (n_id n) (Some c)]>) w).

(** Mailbox::close: [inque] buffers are in the private queue and [shared] on the shared
    stack, whose second one it reads after it deleted it (Mailbox.close_use_after_free). *)
Definition close_mbox (inque shared : nat) (m : mbox) : outcome mbox :=
  match m with
  | MOpen => if (2 <=? shared)%nat then Fault BadDeref else mret (MClosed inque)
  | MClosed n => mret (MClosed n)
  end.

(** StreamHandler::handle_event(WRITE), when the write fails: the handler is deleted from
    the multiplexer and its mailbox closed; the io_failure of StreamManager only logs. *)
Definition handle_write_failure (c : Z) (inque shared : nat) (w : world) : outcome world :=
  k ← deref (clients w !! c);
  h ← deref (m_handler k);
  m ← close_mbox inque shared (m_mbox h);
  mret (set_socks (<[c := MkGateway (c_tcp k) (c_nid k) (Some (MkHandler (h_sockfd h) (h_wait h) (h_nid h) m))]> (clients w))
          (Epoll.del c (epoll w)).2 (open w) w).

(** Node::get_client(true).  [dial]: None, the address is not found; Some (fd, ok), what
    ::socket returned and whether ::connect succeeded.  [sent]: the write of the handshake
    did not fail, otherwise StreamHandler::handle_event deletes the handler from the
    multiplexer and closes its mailbox, in which nothing else is. *)
Definition get_client (a : Z) (dial : option (Z * bool)) (sent : bool) (w : world) : outcome (option Z * world) :=
  n ← deref (nodes w !! a);
  match m_client n with
  | Some c => mret (Some c, w)
  | None =>
      let c := next w in
      '(ret, t, o) ← match dial with
                     | Some (fd, ok) => connect fd ok new_client (open w)
                     | None => mret (-1, new_client, open w)
                     end;
      let w := bump (set_socks (<[c := MkGateway t (n_id n) None]> (clients w)) (epoll w) o w) in
      if ret <? 0 then w ← delete_client c w; mret (None, w)
      else
        w ← start c w;
        w ← (if sent then mret w else handle_write_failure c 0 0 w);
        w ← set_client a c w;
        mret (Some c, w)
  end.

(** ** The server *)

(** TCPServer::new_connection *)
Definition new_connection (fd : Z) (w : world) : outcome world :=
  let c := next w in
  let k := MkGateway (MkClient fd true false) (2 ^ 32 - 1) None in
  w ← start c (bump (set_socks (<[c := k]> (clients w)) (epoll w) (open w ∪ {[fd]}) w));
  mret (set_server (m_clients w ++ [Some c]) (m_running w) w).

(** AcceptHandler::try_accept: a descriptor, but not 0 *)
Definition try_accept (fd : Z) : bool := 0 <? fd.

(** AcceptHandler::handle_event(READ): [fds] is what the calls of ::accept return, then -1 *)
Fixpoint accept_loop (fds : list Z) (w : world) : outcome world :=
  match fds with
  | [] => mret w
  | fd :: fds => if try_accept fd then w ← new_connection fd w; accept_loop fds w else mret w
  end.

Fixpoint delete_clients (l : list (option Z)) (w : world) : outcome world :=
  match l with
  | [] => mret w
  | None :: l => delete_clients l w
  | Some c :: l => w ← delete_client c w; delete_clients l w
  end.

(** TCPServer::stop *)
Definition server_stop (w : world) : outcome world :=
  if m_running w then
    w ← delete_clients (m_clients w) w;
    mret (set_server ((fun _ => None) <$> m_clients w) false w)
  else mret w.

(** ** Events *)

(** this->m_reader, this->backend(): the handler must be there *)
Definition handler (c : Z) (w : world) : outcome StreamHandler :=
  k ← deref (clients w !! c); deref (m_handler k).

Definition backend_del (c : Z) (w : world) : outcome world :=
  _ ← handler c w; mret (set_socks (clients w) (Epoll.del c (epoll w)).2 (open w) w).

(** GatewayReceiver::io_failure *)
Definition io_failure (c : Z) (w : world) : outcome world :=
  h ← handler c w; delete_node (h_nid h) w.

(** StreamHandler::handle_event: ERROR, and READ when the read fails or the peer closed *)
Definition handle_error (c : Z) (w : world) : outcome world :=
  w ← io_failure c w; _ ← handler c w; backend_del c w.
Definition handle_read_failure (c : Z) (w : world) : outcome world :=
  w ← io_failure c w; backend_del c w.

(** GatewayReceiver::consume in STATE_WAIT_HANDSHAKE *)
Definition consume_handshake (c nid : Z) (w : world) : outcome world :=
  k ← deref (clients w !! c);
  h ← deref (m_handler k);
  let w := set_socks (<[c := MkGateway (c_tcp k) (c_nid k) (Some (MkHandler (h_sockfd h) false nid (m_mbox h)))]> (clients w))
             (epoll w) (open w) w in
  let '(node, w) := find_node nid w in
  match node with
  | Some a =>
      n ← deref (nodes w !! a);
      match m_client n with None => set_client a c w | Some _ => mret w end
  | None => mret w
  end.

(** ** Programs *)

(** [OReport c]: epoll_wait returns an event of [c]; [OServed c]: [c] leaves the events and
    the activities of the epoll thread.  The failures and the handshake are what the
    handler does with an event. *)
Inductive op :=
| OLearn (id : Z)
| OFind (id : Z)
| ODrop (i : nat)
| ODelete (id : Z)
| OGetClient (a : Z) (dial : option (Z * bool)) (sent : bool)
| OAccept (fds : list Z)
| OHandshake (c nid : Z)
| OError (c : Z)
| OReadFailure (c : Z)
| OWriteFailure (c : Z) (inque shared : nat)
| OServerStop
| OReport (c : Z)
| OServed (c : Z).

Definition exec (o : op) (w : world) : outcome world :=
  match o with
  | OLearn id => mret (learn id w)
  | OFind id => mret (find_node id w).2
  | ODrop i => drop i w
  | ODelete id => delete_node id w
  | OGetClient a dial sent => '(_, w) ← get_client a dial sent w; mret w
  | OAccept fds => accept_loop fds w
  | OHandshake c nid => consume_handshake c nid w
  | OError c => handle_error c w
  | OReadFailure c => handle_read_failure c w
  | OWriteFailure c inque shared => handle_write_failure c inque shared w
  | OServerStop => server_stop w
  | OReport c => mret (set_acts (c :: acts w) w)
  | OServed c => mret (set_acts (filter (fun x => x <> c) (acts w)) w)
  end.

Definition idle : world := MkWorld ∅ ∅ [] ∅ [] true Epoll.new_epoller ∅ 1 [].

(** ** Who owns what *)

(** The sockets: every client between two operations runs with its handler, the open
    descriptors are theirs, each of one client, and only handlers that exist are in the
    epoll set. *)
Record sock_ok (cl : gmap Z GatewayClient) (e : Epoll.epoller) (o : gset Z) (nx : Z) : Prop := {
  s_live : forall c k, cl !! c = Some k -> c < nx /\ c_running (c_tcp k) = true /\
             exists h, m_handler k = Some h /\ h_sockfd h = c_sockfd (c_tcp k) /\ (h_wait h = true -> c_passive (c_tcp k) = true);
  s_open : forall fd, fd ∈ o <-> exists c k, cl !! c = Some k /\ c_sockfd (c_tcp k) = fd;
  s_own : forall c c' k k', cl !! c = Some k -> cl !! c' = Some k' ->
            c_sockfd (c_tcp k) = c_sockfd (c_tcp k') -> c = c';
  s_epoll : exists seen, Epoll.counted seen e /\ (forall c, c ∈ seen -> c < nx) /\
              (forall c k, cl !! c = Some k -> c ∈ seen) /\
              (forall c, is_Some (Epoll.registered e !! c) -> is_Some (cl !! c))
}.

(** The pointers: a node object lives as long as somebody points to it. *)
Record refs_ok (ns : gmap Z Node) (tab : gmap Z Z) (hs : list Z) (nx : Z) : Prop := {
  r_live : forall a, is_Some (ns !! a) <-> a ∈ hs \/ exists id, tab !! id = Some a;
  r_fresh : forall a, is_Some (ns !! a) -> a < nx
}.

(** The owners: a client that a node points to exists and is that node's alone; the
    accepted clients are in the slots of the server, every other one has its node.  A
    client that waits for the handshake is no node's. *)
Definition passive (k : GatewayClient) : bool := c_passive (c_tcp k).
Definition waiting (k : GatewayClient) : bool := match m_handler k with Some h => h_wait h | None => false end.

Record own_ok (ns : gmap Z Node) (cl : gmap Z GatewayClient) (sl : list (option Z)) : Prop := {
  o_node : forall a n c, ns !! a = Some n -> m_client n = Some c -> exists k, cl !! c = Some k /\ waiting k = false;
  o_once : forall a a' n n' c, ns !! a = Some n -> ns !! a' = Some n' ->
             m_client n = Some c -> m_client n' = Some c -> a = a';
  o_slot : forall c, Some c ∈ sl <-> exists k, cl !! c = Some k /\ passive k = true;
  o_nodup : NoDup (omap id sl);
  o_owner : forall c k, cl !! c = Some k -> passive k = false -> exists a n, ns !! a = Some n /\ m_client n = Some c
}.

Record ok (w : world) : Prop := {
  ok_sock : sock_ok (clients w) (epoll w) (open w) (next w);
  ok_refs : refs_ok (nodes w) (m_alive_nodes w) (held w) (next w);
  ok_own : own_ok (nodes w) (clients w) (m_clients w);
  ok_acts : forall c, c ∈ acts w -> is_Some (clients w !! c)
}.

(** The client of a node goes with the node's last pointer.  That is fine unless the
    server owns the client as well, the epoll thread has its handler, or a failed write
    closed its mailbox. *)
Definition mbox_open (k : GatewayClient) : Prop := forall h, m_handler k = Some h -> m_mbox h = MOpen.

Definition may_release (a : Z) (w : world) : Prop :=
  use_count a w = 1%nat -> forall n c k, nodes w !! a = Some n -> m_client n = Some c ->
  clients w !! c = Some k -> passive k = false /\ (c ∉ acts w) /\ mbox_open k.

Definition may_delete (id : Z) (w : world) : Prop :=
  forall a, m_alive_nodes w !! id = Some a -> may_release a w.

(** What the runtime does, the system's new descriptors not being open: the kernel reports
    handlers that are in the epoll set; a handler is called by the epoll thread that has
    it, for writing also by who has its node. *)
Definition permitted (o : op) (w : world) : Prop :=
  match o with
  | OLearn _ | OFind _ | OServed _ => True
  | ODrop i => exists a, held w !! i = Some a /\ may_release a w
  | ODelete id => may_delete id w
  | OGetClient a dial _ => a ∈ held w /\ (forall fd ok, dial = Some (fd, ok) -> fd < 0 \/ fd ∉ open w)
  | OAccept fds => m_running w = true /\ NoDup fds /\ (forall fd, fd ∈ fds -> fd ∉ open w)
  | OHandshake c _ => c ∈ acts w /\ forall k, clients w !! c = Some k -> waiting k = true
  | OError c | OReadFailure c => c ∈ acts w /\ forall h, handler c w = Ok h -> may_delete (h_nid h) w
  | OWriteFailure c _ shared =>
      (c ∈ acts w \/ exists a n, a ∈ held w /\ nodes w !! a = Some n /\ m_client n = Some c) /\ (shared < 2)%nat
  | OServerStop => forall c k, clients w !! c = Some k -> passive k = true ->
      (forall a n, nodes w !! a = Some n -> m_client n <> Some c) /\ (c ∉ acts w) /\ mbox_open k
  | OReport c => is_Some (Epoll.registered (epoll w) !! c)
  end.

(** ** Sockets *)
Lemma sock_del cl e o nx c : sock_ok cl e o nx -> is_Some (cl !! c) -> sock_ok cl (Epoll.del c e).2 o nx.
Proof.
  intros [H1 H2 H3 (seen & Hc & Hlt & Hin & Hreg)] [k Hk]. split; [done..|]. exists seen.
  destruct (Epoll.del_unregisters c seen e Hc (Hin _ _ Hk)) as (? & _ & Hr). split_and!; eauto.
Qed.

(** A client is made and started. *)
Lemma sock_start cl e o nx k fd h : sock_ok cl e o nx -> fd ∉ o -> k = MkGateway (MkClient fd (passive k) true) (c_nid k) (Some h) ->
  h_sockfd h = fd -> (h_wait h = true -> passive k = true) ->
  sock_ok (<[nx := k]> cl) (Epoll.add RDWR nx e).2 (o ∪ {[fd]}) (nx + 1).
Proof.
  intros [H1 H2 H3 (seen & Hc & Hlt & Hin & Hreg)] Hfd Hk Hh Hw.
  assert (cl !! nx = None) as Hnx. { destruct (cl !! nx) eqn:E; [|done]. destruct (H1 _ _ E). lia. }
  assert (c_sockfd (c_tcp k) = fd) as Hf by (by rewrite Hk).
  assert (forall c k0, cl !! c = Some k0 -> c_sockfd (c_tcp k0) <> fd) as Hne.
  { intros c k0 E Heq. apply Hfd, H2. eauto. }
  split.
  - intros c k0. destruct (decide (c = nx)) as [->|Hcn].
    + rewrite lookup_insert_eq. intros [= <-]. split_and!; [lia|by rewrite Hk|].
      exists h. split_and!; [by rewrite Hk|congruence|done].
    + rewrite lookup_insert_ne by done. intros E. destruct (H1 _ _ E) as (? & ? & ?). split_and!; [lia|done..].
  - intros fd'. rewrite elem_of_union, elem_of_singleton, H2. split.
    + intros [(c & k0 & E & <-)| ->].
      * exists c, k0. split; [|done]. rewrite lookup_insert_ne; [done|]. intros ->. congruence.
      * exists nx, k. by rewrite lookup_insert_eq.
    + intros (c & k0 & E & <-). apply lookup_insert_Some in E as [[<- <-]|[? E]]; eauto.
  - intros c c' k1 k2 E1 E2 Heq. apply lookup_insert_Some in E1 as [[<- <-]|[? E1]], E2 as [[<- <-]|[? E2]]; try done.
    + edestruct Hne; [exact E2|congruence].
    + edestruct Hne; [exact E1|congruence].
    + eauto.
  - assert (nx ∉ seen) as Hns. { intros Hx%Hlt. lia. }
    exists (nx :: seen). destruct (Epoll.add_counted RDWR nx seen e Hc Hns) as [_ Hc'].
    split_and!; [done| | |].
    + intros c [->|Hx]%elem_of_cons; [lia|]. apply Hlt in Hx. lia.
    + intros c k0 [[<- <-]|[? E]]%lookup_insert_Some; [left|right; eauto].
    + intros c Hr. destruct (decide (c = nx)) as [->|Hcn]; [rewrite lookup_insert_eq; eauto|].
      rewrite lookup_insert_ne by done. apply Hreg. destruct Hc as [_ _ Hnew]. destruct (Hnew nx Hns) as [_ Hno].
      unfold Epoll.add, Epoll.ctl_add in Hr. rewrite Hno in Hr. cbn in Hr. by rewrite lookup_insert_ne in Hr by done.
Qed.

Lemma sock_remove cl e o nx c k : sock_ok cl e o nx -> cl !! c = Some k ->
  sock_ok (delete c cl) (Epoll.del c e).2 (o ∖ {[c_sockfd (c_tcp k)]}) nx.
Proof.
  intros [H1 H2 H3 (seen & Hc & Hlt & Hin & Hreg)] Hk. split.
  - intros c' k' [_ E]%lookup_delete_Some. eauto.
  - intros fd. rewrite elem_of_difference, elem_of_singleton, H2. split.
    + intros [(c' & k' & E & <-) Hne]. exists c', k'. split; [|done]. apply lookup_delete_Some. split; [|done].
      intros ->. congruence.
    + intros (c' & k' & [Hne E]%lookup_delete_Some & <-). split; [eauto|]. intros Heq. apply Hne. eauto.
  - intros c1 c2 k1 k2 [_ E1]%lookup_delete_Some [_ E2]%lookup_delete_Some. eauto.
  - destruct (Epoll.del_unregisters c seen e Hc (Hin _ _ Hk)) as (Hc' & Hno & Hr). exists seen. split_and!; [done..| |].
    + intros c' k' [_ E]%lookup_delete_Some. eauto.
    + intros c' Hs. rewrite lookup_delete_ne; [by apply Hreg, Hr|]. intros <-. rewrite Hno in Hs. by destruct Hs.
Qed.

(** The receiver changes its state. *)
Lemma sock_update cl e o nx c k h h' : sock_ok cl e o nx -> cl !! c = Some k -> m_handler k = Some h ->
  h_sockfd h' = h_sockfd h -> (h_wait h' = true -> h_wait h = true) ->
  sock_ok (<[c := MkGateway (c_tcp k) (c_nid k) (Some h')]> cl) e o nx.
Proof.
  intros [H1 H2 H3 (seen & Hc & Hlt & Hin & Hreg)] Hk Hh Hf Hw.
  destruct (H1 _ _ Hk) as (Hlt' & Hrun & h0 & Hh0 & Hfd & Hp).
  set (k' := MkGateway _ _ _).
  assert (forall x y, <[c := k']> cl !! x = Some y -> exists y0, cl !! x = Some y0 /\ c_tcp y = c_tcp y0) as Hback.
  { intros x y [[<- <-]|[? E]]%lookup_insert_Some; eauto. }
  split.
  - intros x y [[<- <-]|[? E]]%lookup_insert_Some; [|eauto]. split_and!; [done..|]. exists h'. cbn.
    simplify_eq. split_and!; [done|congruence|auto].
  - intros fd. rewrite H2. split; intros (x & y & E & <-).
    + destruct (decide (x = c)) as [->|]; [exists c, k'; rewrite lookup_insert_eq; split; [done|]; unfold k'; cbn; congruence|].
      exists x, y. by rewrite lookup_insert_ne.
    + destruct (Hback _ _ E) as (y0 & E0 & ->). eauto.
  - intros c1 c2 k1 k2 E1 E2 Heq. destruct (Hback _ _ E1) as (y1 & ? & Ht1), (Hback _ _ E2) as (y2 & ? & Ht2).
    eapply H3; [done..|]. congruence.
  - exists seen. split_and!; [done..| |].
    + intros x y E. destruct (Hback _ _ E) as (y0 & ? & _). eauto.
    + intros x Hx. apply lookup_insert_is_Some. destruct (decide (c = x)); [by left|right; eauto].
Qed.

(** ** Destructors *)
Definition stopped (k : GatewayClient) : GatewayClient :=
  MkGateway (MkClient (c_sockfd (c_tcp k)) (c_passive (c_tcp k)) false) (c_nid k) None.

Section Destructors.
Context (w : world) (c : Z) (k : GatewayClient).
Context (Hs : sock_ok (clients w) (epoll w) (open w) (next w)) (Hk : clients w !! c = Some k) (Hm : mbox_open k).

Let gone (cl : gmap Z GatewayClient) : world :=
  set_socks cl (Epoll.del c (epoll w)).2 (open w ∖ {[c_sockfd (c_tcp k)]}) w.

Lemma stop_eq : stop c w = Ok (gone (<[c := stopped k]> (clients w))).
Proof.
  destruct Hs as [H1 H2 _ _]. destruct (H1 _ _ Hk) as (_ & Hrun & h & Hh & _).
  unfold stop. rewrite Hk. cbn. rewrite Hrun, Hh. cbn. rewrite (Hm _ Hh). cbn. unfold client_stop, close. rewrite Hrun.
  rewrite bool_decide_eq_true_2; [done|]. apply H2. eauto.
Qed.

Lemma delete_client_eq : delete_client c w = Ok (gone (delete c (clients w))).
Proof. unfold delete_client. rewrite stop_eq. cbn. by rewrite delete_insert_eq. Qed.

Lemma stop_delete_eq : (w ← stop c w; delete_client c w) = Ok (gone (delete c (clients w))).
Proof.
  rewrite stop_eq. unfold delete_client, stop. cbn. rewrite lookup_insert_eq. cbn. by rewrite delete_insert_eq.
Qed.
End Destructors.

Lemma delete_Node_eq w a n : sock_ok (clients w) (epoll w) (open w) (next w) -> nodes w !! a = Some n ->
  (forall c, m_client n = Some c -> exists k, clients w !! c = Some k /\ mbox_open k) ->
  delete_Node a w = Ok (set_nodes (delete a)
    match m_client n with
    | Some c =>
        match clients w !! c with
        | Some k => set_socks (delete c (clients w)) (Epoll.del c (epoll w)).2 (open w ∖ {[c_sockfd (c_tcp k)]}) w
        | None => w
        end
    | None => w
    end).
Proof.
  intros Hs Ha Hc. unfold delete_Node. rewrite Ha. cbn. destruct (m_client n) as [c|]; [|done].
  destruct (Hc c eq_refl) as (k & Hk & Hm). rewrite Hk. change (mret w) with (Ok w).
  rewrite (stop_delete_eq w c k Hs Hk Hm). done.
Qed.

(** A node goes with the client that is its alone. *)
Lemma own_destroy ns cl sl a n : own_ok ns cl sl -> ns !! a = Some n ->
  (forall c k, m_client n = Some c -> cl !! c = Some k -> passive k = false) ->
  own_ok (delete a ns) (match m_client n with Some c => delete c cl | None => cl end) sl.
Proof.
  intros [H1 H2 H3 H4 H5] Ha Hp. destruct (m_client n) as [c|] eqn:Hc.
  - destruct (H1 _ _ _ Ha Hc) as (k & Hk & _). pose proof (Hp _ _ eq_refl Hk) as Hpk. split; [..|done|].
    + intros x m c' [Hx Hm]%lookup_delete_Some Hc'. destruct (H1 _ _ _ Hm Hc') as (k' & Hk' & Hw').
      exists k'. split; [|done]. apply lookup_delete_Some. split; [|done]. intros <-. apply Hx. eauto.
    + intros x y m m' c' [_ Hm]%lookup_delete_Some [_ Hm']%lookup_delete_Some. eauto.
    + intros c'. rewrite H3. split; intros (k' & E & Hp').
      * exists k'. split; [|done]. apply lookup_delete_Some. split; [|done]. intros <-. congruence.
      * apply lookup_delete_Some in E as [_ E]. eauto.
    + intros c' k' [Hne E]%lookup_delete_Some Hp'. destruct (H5 _ _ E Hp') as (x & m & Hm & Hmc).
      exists x, m. split; [|done]. apply lookup_delete_Some. split; [|done]. intros <-. congruence.
  - split; [..|done|].
    + intros x m c' [_ Hm]%lookup_delete_Some. eauto.
    + intros x y m m' c' [_ Hm]%lookup_delete_Some [_ Hm']%lookup_delete_Some. eauto.
    + done.
    + intros c' k' E Hp'. destruct (H5 _ _ E Hp') as (x & m & Hm & Hmc).
      exists x, m. split; [|done]. apply lookup_delete_Some. split; [|done]. intros <-. congruence.
Qed.

(** ** Pointers *)
Lemma use_count_0 a w : use_count a w = 0%nat <-> (a ∉ held w) /\ forall id, m_alive_nodes w !! id <> Some a.
Proof.
  unfold use_count. rewrite Nat.eq_add_0, map_size_empty_iff, length_zero_iff_nil. split.
  - intros [Hh Ht]. split.
    + intros Hin. assert (a ∈ filter (fun x => x = a) (held w)) as Hf by (by apply list_elem_of_filter).
      rewrite Hh in Hf. by apply elem_of_nil in Hf.
    + intros id E. assert (filter (fun e : Z * Z => e.2 = a) (m_alive_nodes w) !! id = Some a) as Hf
        by (by apply map_lookup_filter_Some). by rewrite Ht, lookup_empty in Hf.
  - intros [Hh Ht]. split.
    + destruct (filter (fun x => x = a) (held w)) as [|x l] eqn:E; [done|].
      assert (x ∈ filter (fun x => x = a) (held w)) as [-> Hx]%list_elem_of_filter by (rewrite E; left). done.
    + apply map_eq. intros id. rewrite lookup_empty. apply map_lookup_filter_None. right. intros x E Hx. cbn in Hx. subst.
      by apply (Ht id).
Qed.

Lemma use_count_pos a w : use_count a w <> 0%nat -> a ∈ held w \/ exists id, m_alive_nodes w !! id = Some a.
Proof.
  intros Hu. destruct (decide (a ∈ held w)) as [?|Hh]; [by left|right].
  destruct (decide (filter (fun e : Z * Z => e.2 = a) (m_alive_nodes w) = ∅)) as [E|(id & x & E)%map_choose].
  - destruct Hu. apply use_count_0. split; [done|]. intros id Hid.
    assert (filter (fun e : Z * Z => e.2 = a) (m_alive_nodes w) !! id = Some a) as Hf
      by (by apply map_lookup_filter_Some). by rewrite E, lookup_empty in Hf.
  - apply map_lookup_filter_Some in E as [E <-]. eauto.
Qed.

Lemma use_count_held i a w : held w !! i = Some a ->
  use_count a w = S (use_count a (set_refs (m_alive_nodes w) (delete i (held w)) w)).
Proof.
  intros Hi. unfold use_count. cbn.
  assert (length (filter (fun x => x = a) (held w)) = S (length (filter (fun x => x = a) (delete i (held w))))) as ->; [|done].
  trans (length (filter (fun x => x = a) (a :: delete i (held w)))); [|by rewrite filter_cons_True].
  apply Permutation_length, filter_Permutation. by apply delete_Permutation.
Qed.

Lemma use_count_table id a w : m_alive_nodes w !! id = Some a ->
  use_count a w = S (use_count a (set_refs (delete id (m_alive_nodes w)) (held w) w)).
Proof.
  intros Hi. unfold use_count. cbn. rewrite map_filter_delete, map_size_delete_Some.
  2:{ exists a. by apply map_lookup_filter_Some. }
  assert (size (filter (fun e : Z * Z => e.2 = a) (m_alive_nodes w)) <> 0%nat); [|lia].
  rewrite map_size_ne_0_lookup. exists id, a. by apply map_lookup_filter_Some.
Qed.

(** The world after a pointer to [a] is gone and before its destructor ran. *)
Record ok_but (a : Z) (w : world) : Prop := {
  b_sock : sock_ok (clients w) (epoll w) (open w) (next w);
  b_refs : refs_ok (nodes w) (m_alive_nodes w) (a :: held w) (next w);
  b_own : own_ok (nodes w) (clients w) (m_clients w);
  b_acts : forall c, c ∈ acts w -> is_Some (clients w !! c)
}.

Lemma drop_ok_but i a w : ok w -> held w !! i = Some a -> ok_but a (set_refs (m_alive_nodes w) (delete i (held w)) w).
Proof.
  intros [Hs [Hr Hf] Ho Ha] Hi. split; [done| |done|done]. split; [|done]. intros x. cbn. rewrite Hr.
  by rewrite <- (delete_Permutation (held w) i a Hi).
Qed.

Lemma erase_ok_but id a w : ok w -> m_alive_nodes w !! id = Some a ->
  ok_but a (set_refs (delete id (m_alive_nodes w)) (held w) w).
Proof.
  intros [Hs [Hr Hf] Ho Ha] Hi. split; [done| |done|done]. split; [|done]. intros x. cbn. rewrite Hr, elem_of_cons.
  split.
  - intros [Hx|[id' E]]; [by auto|]. destruct (decide (id = id')) as [<-|]; [left; left; congruence|].
    right. exists id'. by rewrite lookup_delete_ne.
  - intros [[->|Hx]|[id' [_ E]%lookup_delete_Some]]; eauto.
Qed.

(** What is left of the connections when node [a] may go. *)
Lemma release_ok a w : ok_but a w ->
  (use_count a w = 0%nat -> forall n c k, nodes w !! a = Some n -> m_client n = Some c ->
     clients w !! c = Some k -> passive k = false /\ (c ∉ acts w) /\ mbox_open k) ->
  exists w', release a w = Ok w' /\ ok w' /\ forall c, c ∈ acts w -> clients w' !! c = clients w !! c.
Proof.
  intros [Hs [Hr Hf] Ho Ha] Hp. unfold release. case_decide as Hu.
  - apply use_count_0 in Hu as Hu'. destruct Hu' as [Hh Ht].
    destruct (proj2 (Hr a) ltac:(left; left)) as [n Hn].
    assert (forall c, m_client n = Some c -> exists k, clients w !! c = Some k /\ mbox_open k) as Hc.
    { intros c E. destruct (o_node _ _ _ Ho _ _ _ Hn E) as (k & Hk & _). exists k. split; [done|]. by apply (Hp Hu _ _ _ Hn E). }
    rewrite (delete_Node_eq w a n Hs Hn Hc). eexists. split; [done|].
    pose proof (own_destroy _ _ _ a n Ho Hn (fun c k E E' => proj1 (Hp Hu _ _ _ Hn E E'))) as Ho'.
    assert (refs_ok (delete a (nodes w)) (m_alive_nodes w) (held w) (next w)) as Hr'.
    { split.
      - intros x. rewrite lookup_delete_is_Some, Hr, elem_of_cons. split; [intros [? [[?|?]|?]]; auto; congruence|].
        intros Hx. split; [|tauto]. intros <-. destruct Hx as [?|[id Hx]]; [done|by eapply Ht].
      - intros x [_ Hx]%lookup_delete_is_Some. auto. }
    destruct (m_client n) as [c|] eqn:Ec; [|by split].
    destruct (Hc c eq_refl) as (k & Hk & _). rewrite Hk. destruct (Hp Hu _ _ _ Hn Ec Hk) as (_ & Hna & _).
    assert (forall x, x ∈ acts w -> delete c (clients w) !! x = clients w !! x) as Hsame.
    { intros x Hx. apply lookup_delete_ne. intros <-. done. }
    split; [|done]. split; [by apply sock_remove|done|done|]. cbn. intros x Hx. rewrite (Hsame x Hx). auto.
  - exists w. split; [done|]. split; [|done]. split; [done| |done|done]. split; [|done].
    intros x. rewrite Hr, elem_of_cons. split; [|tauto]. intros [[->|?]|?]; [|tauto..].
    by apply use_count_pos.
Qed.

(** ** New clients *)
Definition accepted (fd nid : Z) : GatewayClient := MkGateway (MkClient fd true true) nid (Some (MkHandler fd true nid MOpen)).
Definition connected (fd nid : Z) (m : mbox) : GatewayClient :=
  MkGateway (MkClient fd false true) nid (Some (MkHandler fd false nid m)).

Lemma own_accept ns cl sl c fd nid : own_ok ns cl sl -> cl !! c = None ->
  own_ok ns (<[c := accepted fd nid]> cl) (sl ++ [Some c]).
Proof.
  intros [H1 H2 H3 H4 H5] Hc. assert (Some c ∉ sl) as Hsl. { intros (k & E & _)%H3. congruence. }
  split; [|done| | |].
  - intros a n x Ha Hx. destruct (H1 _ _ _ Ha Hx) as (k & E & Hw). exists k. split; [|done].
    rewrite lookup_insert_ne; [done|]. intros <-. congruence.
  - intros x. rewrite elem_of_app, list_elem_of_singleton, H3. split.
    + intros [(k & E & Hp)|[= ->]]; [|eexists; by rewrite lookup_insert_eq].
      exists k. split; [|done]. rewrite lookup_insert_ne; [done|]. intros <-. congruence.
    + intros (k & [[<- <-]|[? E]]%lookup_insert_Some & Hp); eauto.
  - rewrite omap_app. cbn. apply list.NoDup_app. split_and!; [done| |apply list.NoDup_singleton].
    intros x (y & Hy & Hid)%list_elem_of_omap ->%list_elem_of_singleton. cbn in Hid. congruence.
  - intros x k [[<- <-]|[? E]]%lookup_insert_Some Hp; [done|eauto].
Qed.

Lemma own_connect ns cl sl a n c fd mb : own_ok ns cl sl -> cl !! c = None -> ns !! a = Some n -> m_client n = None ->
  own_ok (<[a := MkNode (n_id n) (Some c)]> ns) (<[c := connected fd (n_id n) mb]> cl) sl.
Proof.
  intros [H1 H2 H3 H4 H5] Hc Ha Hn.
  assert (forall x m, ns !! x = Some m -> m_client m <> Some c) as Hno.
  { intros x m E Hm. destruct (H1 _ _ _ E Hm) as (k & ? & _). congruence. }
  split; [| | |done|].
  - intros x m y [[<- <-]|[? E]]%lookup_insert_Some Hy.
    + injection Hy as <-. exists (connected fd (n_id n) mb). by rewrite lookup_insert_eq.
    + destruct (H1 _ _ _ E Hy) as (k & Hk & Hw). exists k. rewrite lookup_insert_ne; [done|]. intros <-. congruence.
  - intros x x' m m' y [[<- <-]|[? E]]%lookup_insert_Some [[<- <-]|[? E']]%lookup_insert_Some Hy Hy'; cbn in *.
    + done.
    + injection Hy as <-. by destruct (Hno _ _ E').
    + injection Hy' as <-. by destruct (Hno _ _ E).
    + eauto.
  - intros x. rewrite H3. split.
    + intros (k & E & Hp). exists k. rewrite lookup_insert_ne; [done|]. intros <-. congruence.
    + intros (k & [[<- <-]|[? E]]%lookup_insert_Some & Hp); [done|eauto].
  - intros x k [[<- <-]|[? E]]%lookup_insert_Some Hp; [exists a; eexists; by rewrite lookup_insert_eq|].
    destruct (H5 _ _ E Hp) as (y & m & Hm & Hmc). exists y, m. rewrite lookup_insert_ne; [done|]. intros <-. congruence.
Qed.

(** The handler of a client changes: the handshake ends the waiting, a failed write closes
    the mailbox. *)
Lemma own_update ns cl sl c k h h' : own_ok ns cl sl -> cl !! c = Some k -> m_handler k = Some h ->
  (h_wait h' = true -> h_wait h = true) ->
  own_ok ns (<[c := MkGateway (c_tcp k) (c_nid k) (Some h')]> cl) sl.
Proof.
  intros [H1 H2 H3 H4 H5] Hc Hh Hw. set (k' := MkGateway _ _ _).
  assert (passive k' = passive k) as Hpk by done.
  split; [|done| |done|].
  - intros a n x Ha Hx. destruct (H1 _ _ _ Ha Hx) as (y & Hy & Hwy). destruct (decide (x = c)) as [->|?].
    + exists k'. rewrite lookup_insert_eq. split; [done|]. unfold waiting in *. simplify_eq. rewrite Hh in Hwy. cbn.
      destruct (h_wait h') eqn:E; [|done]. by rewrite Hw in Hwy.
    + exists y. by rewrite lookup_insert_ne.
  - intros x. rewrite H3. destruct (decide (x = c)) as [->|?].
    + rewrite lookup_insert_eq, Hc. split; intros (y & [= <-] & Hp); eexists; (split; [done|]); congruence.
    + by rewrite lookup_insert_ne.
  - intros x y [[<- <-]|[? E]]%lookup_insert_Some Hp; [|eauto]. rewrite Hpk in Hp. eauto.
Qed.

Lemma handler_update w c k h h' e : ok w -> clients w !! c = Some k -> m_handler k = Some h ->
  h_sockfd h' = h_sockfd h -> (h_wait h' = true -> h_wait h = true) ->
  sock_ok (clients w) e (open w) (next w) ->
  ok (set_socks (<[c := MkGateway (c_tcp k) (c_nid k) (Some h')]> (clients w)) e (open w) w).
Proof.
  intros [_ Hr Ho Ha] Hk Hh Hf Hw Hs. split; cbn; [by eapply sock_update|done|by eapply own_update|].
  intros x Hx. apply lookup_insert_is_Some'. auto.
Qed.

Lemma own_link ns cl sl a n c k : own_ok ns cl sl -> ns !! a = Some n -> m_client n = None ->
  cl !! c = Some k -> waiting k = false -> (forall x m, ns !! x = Some m -> m_client m <> Some c) ->
  own_ok (<[a := MkNode (n_id n) (Some c)]> ns) cl sl.
Proof.
  intros [H1 H2 H3 H4 H5] Ha Hn Hc Hw Hno. split; [| |done|done|].
  - intros x m y [[<- <-]|[? E]]%lookup_insert_Some Hy; [|eauto]. injection Hy as <-. eauto.
  - intros x x' m m' y [[<- <-]|[? E]]%lookup_insert_Some [[<- <-]|[? E']]%lookup_insert_Some Hy Hy'; cbn in *.
    + done.
    + injection Hy as <-. by destruct (Hno _ _ E').
    + injection Hy' as <-. by destruct (Hno _ _ E).
    + eauto.
  - intros x y E Hp. destruct (H5 _ _ E Hp) as (b & m & Hm & Hmc). exists b, m. rewrite lookup_insert_ne; [done|].
    intros <-. congruence.
Qed.

Lemma waiting_unlinked ns cl sl c k : own_ok ns cl sl -> cl !! c = Some k -> waiting k = true ->
  forall x m, ns !! x = Some m -> m_client m <> Some c.
Proof. intros Ho Hk Hw x m Hm Hc. destruct (o_node _ _ _ Ho _ _ _ Hm Hc) as (k' & ? & ?). congruence. Qed.

(** A map that agrees on the liveness of nodes keeps the pointers. *)
Lemma refs_update ns tab hs nx a n : refs_ok ns tab hs nx -> is_Some (ns !! a) -> refs_ok (<[a := n]> ns) tab hs nx.
Proof.
  intros [H1 H2] Ha. assert (forall x, is_Some (<[a := n]> ns !! x) <-> is_Some (ns !! x)) as Hx.
  { intros x. rewrite lookup_insert_is_Some'. split; [intros [<-|?]; done|auto]. }
  split; intros x; rewrite Hx; auto.
Qed.

Lemma refs_mono ns tab hs nx : refs_ok ns tab hs nx -> refs_ok ns tab hs (nx + 1).
Proof. intros [H1 H2]. split; [done|]. intros a Ha%H2. lia. Qed.

Lemma sock_mono cl e o nx : sock_ok cl e o nx -> sock_ok cl e o (nx + 1).
Proof.
  intros [H1 H2 H3 (seen & Hc & Hlt & Hin & Hreg)]. split; [|done|done|].
  - intros c k E. destruct (H1 _ _ E) as (? & ?). split; [lia|done].
  - exists seen. split_and!; [done| |done|done]. intros c Hx%Hlt. lia.
Qed.

Lemma fresh_client w : ok w -> clients w !! next w = None.
Proof. intros [Hs _ _ _]. destruct (clients w !! next w) eqn:E; [|done]. destruct (s_live _ _ _ _ Hs _ _ E). lia. Qed.

(** ** Every operation keeps the world *)
Lemma learn_ok id w : ok w -> ok (learn id w).
Proof.
  intros Hok. unfold learn. destruct (m_alive_nodes w !! id) as [a|] eqn:E; [done|].
  destruct Hok as [Hs [H1 H2] [O1 O2 O3 O4 O5] Hact].
  assert (nodes w !! next w = None) as Hno.
  { destruct (nodes w !! next w) eqn:En; [|done]. pose proof (H2 (next w) ltac:(eauto)). lia. }
  split; cbn; [by apply sock_mono| | |done].
  - split.
    + intros x. rewrite lookup_insert_is_Some'. rewrite H1. split.
      * intros [<-|[?|[id' Hi]]]; [right; exists id; by rewrite lookup_insert_eq|by left|].
        right. exists id'. rewrite lookup_insert_ne; [done|]. congruence.
      * intros [?|[id' [[_ <-]|[_ Hi]]%lookup_insert_Some]]; eauto.
    + intros x [<-|Hx%H2]%lookup_insert_is_Some'; lia.
  - split; [| |done|done|].
    + intros x n c [[<- <-]|[_ Hn]]%lookup_insert_Some; [done|eauto].
    + intros x y n m c [[<- <-]|[_ Hn]]%lookup_insert_Some [[<- <-]|[_ Hm]]%lookup_insert_Some; try done. eauto.
    + intros c k Hk Hp. destruct (O5 _ _ Hk Hp) as (x & n & Hn & Hc). exists x, n. rewrite lookup_insert_ne; [done|].
      intros <-. congruence.
Qed.

Lemma peer_find_ok id w : ok w -> ok (find_node id w).2.
Proof.
  intros Hok. unfold find_node. destruct (m_alive_nodes w !! id) as [a|] eqn:E; [|done].
  destruct Hok as [Hs [H1 H2] Ho Hact].
  split; [done| |done|done]. split; [|done]. intros x. cbn. rewrite H1, elem_of_app, list_elem_of_singleton.
  split; [tauto|]. intros [[?| ->]|?]; eauto.
Qed.

Lemma delete_node_ok id w : ok w -> may_delete id w ->
  exists w', delete_node id w = Ok w' /\ ok w' /\ forall c, c ∈ acts w -> clients w' !! c = clients w !! c.
Proof.
  intros Hok Hm. unfold delete_node. destruct (m_alive_nodes w !! id) as [a|] eqn:E; [|eauto].
  apply (release_ok a _ (erase_ok_but id a w Hok E)). intros Hu. apply (Hm a E). by rewrite (use_count_table id a w E), Hu.
Qed.

Lemma drop_ok i a w : ok w -> held w !! i = Some a -> may_release a w -> exists w', drop i w = Ok w' /\ ok w'.
Proof.
  intros Hok Hi Hm. unfold drop. rewrite Hi. cbn.
  destruct (release_ok a _ (drop_ok_but i a w Hok Hi)) as (w' & E & Hok' & _); [|eauto].
  intros Hu. apply Hm. by rewrite (use_count_held i a w Hi), Hu.
Qed.

Lemma backend_del_ok c w : ok w -> is_Some (clients w !! c) -> exists w', backend_del c w = Ok w' /\ ok w'.
Proof.
  intros [Hs Hr Ho Ha] [k Hk]. destruct (s_live _ _ _ _ Hs _ _ Hk) as (_ & _ & h & Hh & _).
  unfold backend_del, handler. rewrite Hk. cbn. rewrite Hh. cbn. eexists. split; [done|].
  split; [apply sock_del; eauto|done|done|done].
Qed.

Lemma handler_inv c w h : handler c w = Ok h -> exists k, clients w !! c = Some k /\ m_handler k = Some h.
Proof. unfold handler. intros H. inv_ok. eauto. Qed.

Lemma handler_ok c w : ok w -> is_Some (clients w !! c) -> exists h, handler c w = Ok h.
Proof.
  intros [Hs _ _ _] [k Hk]. destruct (s_live _ _ _ _ Hs _ _ Hk) as (_ & _ & h & Hh & _).
  exists h. unfold handler. rewrite Hk. cbn. by rewrite Hh.
Qed.

Lemma peer_down_ok c w : ok w -> c ∈ acts w -> (forall h, handler c w = Ok h -> may_delete (h_nid h) w) ->
  (exists w', handle_read_failure c w = Ok w' /\ ok w') /\ exists w', handle_error c w = Ok w' /\ ok w'.
Proof.
  intros Hok Hc Hm. pose proof (ok_acts _ Hok c Hc) as Hk. destruct (handler_ok c w Hok Hk) as [h Hh].
  unfold handle_read_failure, handle_error, io_failure. rewrite Hh. cbn.
  destruct (delete_node_ok _ w Hok (Hm h Hh)) as (w1 & -> & Hok1 & Hsame). cbn.
  assert (is_Some (clients w1 !! c)) as Hl by (by rewrite (Hsame c Hc)).
  destruct (handler_ok c w1 Hok1 Hl) as [h1 ->]. destruct (backend_del_ok c w1 Hok1 Hl) as (w2 & E & ?).
  cbn. rewrite E. split; eauto.
Qed.

Lemma write_failure_ok c inque shared w : ok w -> is_Some (clients w !! c) -> (shared < 2)%nat ->
  exists w', handle_write_failure c inque shared w = Ok w' /\ ok w'.
Proof.
  intros Hok [k Hk] Hlt. destruct (s_live _ _ _ _ (ok_sock _ Hok) _ _ Hk) as (_ & _ & h & Hh & _).
  unfold handle_write_failure. rewrite Hk. cbn. rewrite Hh. cbn.
  assert (exists m, close_mbox inque shared (m_mbox h) = Ok m) as [m ->].
  { destruct (m_mbox h); [|cbn; eauto]. destruct shared as [|[|]]; [cbn; eauto..|lia]. }
  cbn. eexists. split; [done|]. eapply handler_update; eauto. apply sock_del; [apply (ok_sock _ Hok)|eauto].
Qed.

Lemma get_client_ok a dial sent w : ok w -> is_Some (nodes w !! a) ->
  (forall fd ok, dial = Some (fd, ok) -> fd < 0 \/ fd ∉ open w) ->
  exists r w', get_client a dial sent w = Ok (r, w') /\ ok w'.
Proof.
  intros Hok [n Hn] Hd. unfold get_client. rewrite Hn. cbn. destruct (m_client n) as [c|] eqn:Ec; [eauto|].
  pose proof (fresh_client w Hok) as Hf. destruct Hok as [Hs Hr Ho Hact].
  assert (forall t o, o = open w -> c_running t = false -> exists w',
    delete_client (next w) (bump (set_socks (<[next w := MkGateway t (n_id n) None]> (clients w)) (epoll w) o w)) = Ok w' /\ ok w')
    as Hfail.
  { intros t o -> Ht. unfold delete_client, stop. cbn. rewrite lookup_insert_eq. cbn. rewrite Ht. cbn.
    eexists. split; [done|]. rewrite delete_insert_id by done. split; [by apply sock_mono|by apply refs_mono|done|done]. }
  destruct dial as [[fd []]|]; cbn.
  2:{ unfold connect, close. destruct (Z.ltb_spec fd 0); cbn;
        [|rewrite bool_decide_eq_true_2 by set_solver; cbn]; edestruct Hfail as (w' & -> & ?); cbn; eauto.
      destruct (Hd fd false eq_refl) as [|Hfd]; [lia|]. clear -Hfd. set_solver. }
  2:{ edestruct Hfail as (w' & -> & ?); cbn; eauto. }
  unfold connect. destruct (Z.ltb_spec fd 0) as [|Hfd]; cbn; [edestruct Hfail as (w' & -> & ?); cbn; eauto|].
  rewrite (proj2 (Z.ltb_ge fd 0)) by done.
  destruct (Hd fd true eq_refl) as [|Hfd']; [lia|]. unfold start. cbn. rewrite lookup_insert_eq. cbn.
  set (m := if sent then MOpen else MClosed 0).
  pose proof (sock_start _ _ _ _ (connected fd (n_id n) m) fd _ Hs Hfd' eq_refl eq_refl ltac:(done)) as Hs'.
  pose proof (own_connect _ _ _ a n (next w) fd m Ho Hf Hn Ec) as Ho'.
  assert (forall x, x ∈ acts w -> is_Some (<[next w := connected fd (n_id n) m]> (clients w) !! x)) as Ha'.
  { intros x Hx. apply lookup_insert_is_Some'. auto. }
  destruct sent; cbn; [|unfold handle_write_failure; cbn; rewrite lookup_insert_eq; cbn]; unfold set_client; cbn;
    rewrite Hn; cbn; eexists _, _; (split; [done|]); rewrite !insert_insert_eq;
    (split; cbn; [|by apply refs_mono, refs_update; eauto|exact Ho'|exact Ha']).
  - done.
  - apply sock_del; [done|]. rewrite lookup_insert_eq. eauto.
Qed.

Lemma new_connection_ok fd w : ok w -> fd ∉ open w ->
  exists w', new_connection fd w = Ok w' /\ ok w' /\ open w' = open w ∪ {[fd]}.
Proof.
  intros Hok Hfd. pose proof (fresh_client w Hok) as Hf. destruct Hok as [Hs Hr Ho Ha].
  unfold new_connection, start. cbn. rewrite lookup_insert_eq. cbn. eexists. split; [done|]. split; [|done].
  rewrite insert_insert_eq. split; cbn.
  - by apply (sock_start _ _ _ _ (accepted fd (2 ^ 32 - 1)) fd (MkHandler fd true (2 ^ 32 - 1) MOpen) Hs).
  - by apply refs_mono.
  - by apply (own_accept _ _ _ (next w) fd (2 ^ 32 - 1)).
  - intros x Hx. apply lookup_insert_is_Some'. auto.
Qed.

Lemma accept_loop_ok fds w : ok w -> NoDup fds -> (forall fd, fd ∈ fds -> fd ∉ open w) ->
  exists w', accept_loop fds w = Ok w' /\ ok w'.
Proof.
  revert w. induction fds as [|fd fds IH]; intros w Hok Hnd Hfr; cbn; [eauto|].
  destruct (try_accept fd); [|eauto]. apply list.NoDup_cons in Hnd as [Hnin Hnd].
  destruct (new_connection_ok fd w Hok) as (w1 & -> & Hok1 & Ho1); [apply Hfr; left|]. cbn.
  apply IH; [done..|]. intros x Hx. rewrite Ho1, elem_of_union, elem_of_singleton. intros [Hin| ->]; [|done].
  by apply (Hfr x); [right|].
Qed.

Lemma handshake_ok c nid k w : ok w -> clients w !! c = Some k -> waiting k = true ->
  exists w', consume_handshake c nid w = Ok w' /\ ok w'.
Proof.
  intros Hok Hk Hw. unfold consume_handshake. rewrite Hk. cbn.
  pose proof Hw as Hw'. unfold waiting in Hw'. destruct (m_handler k) as [h|] eqn:Hh; [|done]. cbn.
  set (w1 := set_socks _ _ _ _).
  assert (ok w1) as Hok1 by (eapply handler_update; [done..|apply (ok_sock _ Hok)]).
  pose proof (peer_find_ok nid w1 Hok1) as Hok2. unfold find_node in *.
  destruct (m_alive_nodes w1 !! nid) as [a|] eqn:Ea; cbn in *; [|eauto].
  destruct (proj2 (r_live _ _ _ _ (ok_refs _ Hok1) a) ltac:(eauto)) as [n Hn]. cbn in Hn. rewrite Hn. cbn.
  destruct (m_client n) as [c'|] eqn:Ec; [eauto|]. unfold set_client. cbn. rewrite Hn. cbn. eexists. split; [done|].
  destruct Hok2 as [Hs2 Hr2 Ho2 Ha2]. split; [done|by apply refs_update; eauto| |done].
  eapply own_link; [done..| | |]; [apply lookup_insert_eq|done|].
  by apply (waiting_unlinked _ _ _ c k (ok_own _ Hok)).
Qed.

(** The server deletes the clients of its slots. *)
Definition can_go (w : world) (c : Z) : Prop := exists k, clients w !! c = Some k /\ mbox_open k.

Lemma delete_clients_ok l w : sock_ok (clients w) (epoll w) (open w) (next w) -> NoDup (omap id l) ->
  (forall c, Some c ∈ l -> can_go w c) ->
  exists cl e o, delete_clients l w = Ok (set_socks cl e o w) /\ sock_ok cl e o (next w) /\
    forall c k, cl !! c = Some k <-> clients w !! c = Some k /\ Some c ∉ l.
Proof.
  revert w. induction l as [|[c|] l IH]; intros w Hs Hnd Hl; cbn.
  - exists (clients w), (epoll w), (open w). split_and!; [by destruct w|done|]. intros c k.
    split; [|tauto]. intros E. split; [done|apply not_elem_of_nil].
  - cbn in Hnd. apply list.NoDup_cons in Hnd as [Hnin Hnd].
    assert (Some c ∉ l) as Hc. { intros Hin. apply Hnin. apply list_elem_of_omap. eauto. }
    destruct (Hl c ltac:(left)) as (k & Hk & Hm). rewrite (delete_client_eq w c k Hs Hk Hm). cbn.
    edestruct IH as (cl & e & o & -> & Hs' & Hcl); [by apply sock_remove|done| |].
    { intros c' Hc'. destruct (Hl c' ltac:(by right)) as (k' & Hk' & Hm'). exists k'. split; [|done].
      apply lookup_delete_Some. split; [congruence|done]. }
    exists cl, e, o. split_and!; [done|done|]. intros c' k'. rewrite Hcl. cbn. rewrite lookup_delete_Some, elem_of_cons.
    naive_solver.
  - cbn in Hnd. edestruct (IH w Hs Hnd) as (cl & e & o & -> & Hs' & Hcl).
    { intros c' Hc'. apply Hl. by right. }
    exists cl, e, o. split_and!; [done|done|]. intros c k. rewrite Hcl, elem_of_cons. naive_solver.
Qed.

Lemma delete_clients_dangling l w c : sock_ok (clients w) (epoll w) (open w) (next w) ->
  (forall c k, clients w !! c = Some k -> mbox_open k) ->
  Some c ∈ l -> clients w !! c = None -> delete_clients l w = Fault BadDeref.
Proof.
  revert w. induction l as [|[c'|] l IH]; intros w Hs Hm Hc Hno; cbn; [by apply elem_of_nil in Hc| |].
  - destruct (clients w !! c') as [k|] eqn:Hk.
    + rewrite (delete_client_eq w c' k Hs Hk (Hm _ _ Hk)). cbn. apply IH; [by apply sock_remove| | |].
      * intros x y E. cbn in E. apply lookup_delete_Some in E as [_ E]. eauto.
      * apply elem_of_cons in Hc as [[= ->]|?]; [congruence|done].
      * cbn. by apply lookup_delete_None; right.
    + unfold delete_client, stop. by rewrite Hk.
  - apply elem_of_cons in Hc as [?|Hc]; [done|by apply IH].
Qed.

Lemma slots_live w : ok w -> forall c, Some c ∈ m_clients w -> exists k, clients w !! c = Some k /\ passive k = true.
Proof. intros [_ _ Ho _] c. apply (o_slot _ _ _ Ho). Qed.

Lemma server_stop_ok w : ok w -> permitted OServerStop w -> exists w', server_stop w = Ok w' /\ ok w'.
Proof.
  intros Hok Hp. cbn in Hp. unfold server_stop. destruct (m_running w); [|eauto].
  pose proof (slots_live w Hok) as Hsl. destruct Hok as [Hs Hr [H1 H2 H3 H4 H5] Ha].
  destruct (delete_clients_ok (m_clients w) _ Hs H4) as (cl & e & o & -> & Hs' & Hcl).
  { intros c (k & Hk & Hpk)%Hsl. exists k. split; [done|]. by apply (Hp c k). }
  cbn. eexists. split; [done|].
  assert (forall c k, cl !! c = Some k -> clients w !! c = Some k /\ passive k = false) as Hact.
  { intros c k [E Hc]%Hcl. split; [done|]. destruct (passive k) eqn:Ep; [|done]. destruct Hc. apply H3. eauto. }
  split; [done|done| |]; cbn; [split; [|done| | |]|].
  - intros a n c Hn Hc. destruct (H1 _ _ _ Hn Hc) as (k & Hk & Hw). exists k. split; [|done]. apply Hcl. split; [done|].
    intros (k' & E & Hp')%H3. destruct (Hp _ _ E Hp') as [Hno _]. by apply (Hno _ _ Hn).
  - intros c. split; [by intros (? & ? & ?)%list_elem_of_fmap|]. intros (k & [_ E]%Hact & ?). congruence.
  - clear. induction (m_clients w); [constructor|done].
  - intros c k [E _]%Hact. eauto.
  - intros c Hc. destruct (Ha c Hc) as [k Hk]. exists k. apply Hcl. split; [done|].
    intros (k' & E & Hp')%H3. by destruct (Hp _ _ E Hp') as (_ & [] & _).
Qed.

Lemma peer_op_ok o w : ok w -> permitted o w -> exists w', exec o w = Ok w' /\ ok w'.
Proof.
  intros Hok. destruct o; cbn.
  - intros _. eexists. split; [done|by apply learn_ok].
  - intros _. eexists. split; [done|by apply peer_find_ok].
  - intros (a & Hi & Hm). by eapply drop_ok.
  - intros Hm. edestruct delete_node_ok as (w' & ? & ? & _); eauto.
  - intros [Ha Hd]. edestruct get_client_ok as (r & w' & -> & ?); [done| |done|cbn; eauto].
    apply (r_live _ _ _ _ (ok_refs _ Hok)). by left.
  - intros (_ & ? & ?). by apply accept_loop_ok.
  - intros [[k Hk]%(ok_acts _ Hok) Hw]. eapply handshake_ok; eauto.
  - intros [Hc Hm]. by apply peer_down_ok.
  - intros [Hc Hm]. by apply peer_down_ok.
  - intros [Hc Hlt]. apply write_failure_ok; [done| |done]. destruct Hc as [?|(a & n & _ & Hn & Hc)]; [by apply (ok_acts _ Hok)|].
    destruct (o_node _ _ _ (ok_own _ Hok) _ _ _ Hn Hc) as (k & -> & _). eauto.
  - by apply server_stop_ok.
  - intros Hc. eexists. split; [done|]. destruct Hok as [Hs Hr Ho Ha]. split; [done..|]. intros x [->|Hx]%elem_of_cons; [|auto].
    destruct (s_epoll _ _ _ _ Hs) as (seen & _ & _ & _ & Hreg). auto.
  - intros _. eexists. split; [done|]. destruct Hok as [Hs Hr Ho Ha]. split; [done..|]. intros x [_ Hx]%list_elem_of_filter. auto.
Qed.

Definition step (w w' : world) : Prop := exists o, permitted o w /\ exec o w = Ok w'.

Lemma idle_ok : ok idle.
Proof.
  split; [split|split|split|]; cbn; try done.
  - intros fd. split; [by intros ?%elem_of_empty|by intros (? & ? & ? & _)].
  - exists []. split_and!; [|by intros c ?%elem_of_nil|done|by intros c [? ?]]. split; [done| |done].
    by intros h ?%elem_of_nil.
  - intros a. split; [by intros [? ?]|]. intros [?%elem_of_nil|[? ?]]; done.
  - by intros a [? ?].
  - intros c. split; [by intros ?%elem_of_nil|by intros (? & ? & _)].
  - constructor.
  - by intros c ?%elem_of_nil.
Qed.

Lemma peers_reachable_ok w : rtc step idle w -> ok w.
Proof.
  intros Hr. remember idle as w0 eqn:E. assert (ok w0) as Hok by (subst; apply idle_ok). clear E.
  induction Hr as [w|w0 w1 w2 (o & Hp & He) _ IH]; [done|]. apply IH.
  destruct (peer_op_ok o w0 Hok Hp) as (w' & E & ?). congruence.
Qed.

(** C24: over any sequence of what the runtime does with nodes and connections (learning
    and forgetting nodes, taking and dropping pointers to them, connecting, accepting,
    events that epoll_wait reports and the epoll thread keeps, handshakes, failures of
    reads and writes, the stop of the server), as long as a client is deleted only when it
    has one owner, the epoll thread does not have its handler and no failed write closed its
    mailbox, and a write fails with fewer than two buffers on the shared stack: no operation
    touches an object that is gone or frees one twice, every handler that the epoll thread
    has or that is in the epoll set exists, the open descriptors are those of the live
    clients, and a client that was not accepted belongs to exactly one node. *)
Theorem peers_safe w : rtc step idle w ->
  (forall o, permitted o w -> exists w', exec o w = Ok w') /\
  (forall c, c ∈ acts w -> exists h, handler c w = Ok h) /\
  (forall c, is_Some (Epoll.registered (epoll w) !! c) -> exists h, handler c w = Ok h) /\
  (forall fd, fd ∈ open w <-> exists c k, clients w !! c = Some k /\ c_sockfd (c_tcp k) = fd) /\
  (forall c k, clients w !! c = Some k -> passive k = false ->
     exists a, (exists n, nodes w !! a = Some n /\ m_client n = Some c) /\
               forall a' n', nodes w !! a' = Some n' -> m_client n' = Some c -> a' = a).
Proof.
  intros Hok%peers_reachable_ok. split_and!.
  - intros o Hp. destruct (peer_op_ok o w Hok Hp) as (w' & ? & _). eauto.
  - intros c Hc. apply handler_ok; [done|by apply (ok_acts _ Hok)].
  - intros c Hc. apply handler_ok; [done|].
    destruct (s_epoll _ _ _ _ (ok_sock _ Hok)) as (seen & _ & _ & _ & Hreg). auto.
  - apply (s_open _ _ _ _ (ok_sock _ Hok)).
  - intros c k Hk Hp. destruct (o_owner _ _ _ (ok_own _ Hok) _ _ Hk Hp) as (a & n & Ha & Hc). exists a.
    split; [eauto|]. intros a' n' Ha' Hc'. by eapply (o_once _ _ _ (ok_own _ Hok)).
Qed.

(** ** A peer that is down *)

Definition node_client (a : Z) (w : world) : option Z := nodes w !! a ≫= m_client.

Definition mbox_of (c : Z) (w : world) : option mbox := k ← clients w !! c; m_mbox <$> m_handler k.

Lemma mbox_of_open c k w : clients w !! c = Some k -> mbox_of c w = Some MOpen -> mbox_open k.
Proof.
  unfold mbox_of. intros Hk. rewrite Hk. cbn. intros Hm h Hh. rewrite Hh in Hm. cbn in Hm. congruence.
Qed.

(** Whatever the node's client is, as long as its mailbox is open, the destructor itself
    runs; a client other than the node's survives it. *)
Lemma release_runs a w : ok_but a w -> (forall c, node_client a w = Some c -> mbox_of c w = Some MOpen) ->
  exists w', release a w = Ok w' /\
  sock_ok (clients w') (epoll w') (open w') (next w') /\ m_clients w' = m_clients w /\ m_running w' = m_running w /\
  acts w' = acts w /\
  forall c, clients w' !! c =
    if decide (use_count a w = 0%nat /\ node_client a w = Some c) then None else clients w !! c.
Proof.
  intros [Hs [Hr Hf] Ho Ha] Hm. unfold release. case_decide as Hu.
  2:{ exists w. split_and!; [done..|]. intros c. rewrite decide_False; [done|]. tauto. }
  destruct (proj2 (Hr a) ltac:(left; left)) as [n Hn].
  assert (forall c, m_client n = Some c -> exists k, clients w !! c = Some k /\ mbox_open k) as Hc.
  { intros c E. destruct (o_node _ _ _ Ho _ _ _ Hn E) as (k & Hk & _). exists k. split; [done|].
    eapply mbox_of_open; [done|]. apply Hm. unfold node_client. by rewrite Hn. }
  rewrite (delete_Node_eq w a n Hs Hn Hc). eexists. split; [done|]. unfold node_client. rewrite Hn. cbn.
  destruct (m_client n) as [c|] eqn:Ec; cbn;
    [|split_and!; [done..|]; intros c; rewrite decide_False; [done|naive_solver]].
  destruct (Hc c eq_refl) as (k & Hk & _). rewrite Hk. cbn. split_and!; [by apply sock_remove|done|done|done|].
  intros x. case_decide as Hx.
  - destruct Hx as [_ [= ->]]. apply lookup_delete_eq.
  - apply lookup_delete_ne. intros ->. by destruct Hx.
Qed.

(** With the mailbox closed the destructor fails. *)
Lemma release_fails a w c n : ok_but a w -> use_count a w = 0%nat -> node_client a w = Some c ->
  mbox_of c w = Some (MClosed n) -> release a w = (_ ← empty_mbox (MClosed n); mret w).
Proof.
  intros [Hs _ _ _] Hu Hc Hm. unfold release. rewrite decide_True by done. unfold delete_Node.
  unfold node_client in Hc. destruct (nodes w !! a) as [nd|]; [|done]. cbn in Hc |- *. rewrite Hc.
  unfold stop. unfold mbox_of in Hm. destruct (clients w !! c) as [k|] eqn:Hk; [|done]. cbn in Hm |- *.
  destruct (s_live _ _ _ _ Hs _ _ Hk) as (_ & -> & h & Hh & _). rewrite Hh in Hm |- *. cbn in Hm |- *.
  injection Hm as ->. by destruct n.
Qed.

(** The client that goes when the peer of a connection is down: the table has the last
    pointer to the node of the receiver's m_nid. *)
Definition last_client (h : StreamHandler) (w : world) : option Z :=
  a ← m_alive_nodes w !! h_nid h; if decide (use_count a w = 1%nat) then node_client a w else None.

(** A connection is released by its own failure when it is that client. *)
Definition own_last (c : Z) (h : StreamHandler) (w : world) : Prop := last_client h w = Some c.

(** What io_failure leaves of the connection that failed. *)
Lemma io_failure_runs c h w : ok w -> handler c w = Ok h ->
  (forall c', last_client h w = Some c' -> mbox_of c' w = Some MOpen) ->
  exists w', io_failure c w = Ok w' /\ (own_last c h w -> clients w' !! c = None) /\
    (~ own_last c h w -> clients w' !! c = clients w !! c).
Proof.
  intros Hok Hh. unfold io_failure. rewrite Hh. cbn. unfold delete_node, own_last, last_client.
  destruct (m_alive_nodes w !! h_nid h) as [a|] eqn:E; cbn; [|intros _; exists w; by split_and!].
  pose proof (use_count_table _ a w E) as Hu. destruct (decide (use_count a w = 1%nat)) as [H1|H1]; intros Hm.
  - destruct (release_runs a _ (erase_ok_but _ a w Hok E) Hm) as (w' & Hw' & _ & _ & _ & _ & Hcl).
    exists w'. split; [done|]. rewrite Hcl. change (node_client a (set_refs _ _ w)) with (node_client a w). split; intros Ho.
    + rewrite decide_True; [done|]. split; [lia|done].
    + rewrite decide_False; [done|tauto].
  - unfold release. rewrite decide_False by lia. eexists. split; [done|]. by split.
Qed.

Lemma io_failure_fails c h w c' n : ok w -> handler c w = Ok h -> last_client h w = Some c' ->
  mbox_of c' w = Some (MClosed n) -> io_failure c w = (_ ← empty_mbox (MClosed n); mret w).
Proof.
  intros Hok Hh Hl Hm. unfold io_failure. rewrite Hh. cbn. unfold delete_node, last_client in *.
  destruct (m_alive_nodes w !! h_nid h) as [a|] eqn:E; [|done]. cbn in Hl. case_decide as Hu; [|done].
  rewrite (use_count_table _ a w E) in Hu. injection Hu as Hu.
  rewrite (release_fails a _ c' n (erase_ok_but _ a w Hok E) Hu Hl Hm). by destruct n.
Qed.

(** C29: when the peer of a connection is down, by an error event or a read that fails or
    ends, the handler goes on with itself after io_failure: if the connection is the
    client of the node that its handshake named and the table has the last pointer to this
    node, delete_node has destroyed the handler and the event handler uses it; in every other
    case the event is handled and the descriptor stays open.  If a failed write has closed
    the mailbox of the client that goes, whichever it is, already its destructor fails. *)
Theorem peer_down_outcome w c h : rtc step idle w -> handler c w = Ok h ->
  ((forall c', last_client h w = Some c' -> mbox_of c' w = Some MOpen) ->
   (own_last c h w -> handle_read_failure c w = Fault BadDeref /\ handle_error c w = Fault BadDeref) /\
   (~ own_last c h w -> exists w1 w2, handle_read_failure c w = Ok w1 /\ handle_error c w = Ok w2 /\
      clients w1 !! c = clients w !! c /\ clients w2 !! c = clients w !! c)) /\
  (forall c' n, last_client h w = Some c' -> mbox_of c' w = Some (MClosed n) ->
     let f := match n with O => BadDeref | S _ => AssertFailed end in
     handle_read_failure c w = Fault f /\ handle_error c w = Fault f).
Proof.
  intros Hok%peers_reachable_ok Hh. unfold handle_read_failure, handle_error. split.
  - intros Hm. destruct (io_failure_runs c h w Hok Hh Hm) as (w' & E & Hc & Hc'). rewrite E. cbn. unfold backend_del, handler.
    destruct (handler_inv _ _ _ Hh) as (k & Hk & Hkh). split; intros Ho.
    + by rewrite (Hc Ho).
    + specialize (Hc' Ho). rewrite Hk in Hc'. rewrite Hc'. cbn. rewrite Hkh. cbn.
      eexists _, _. split_and!; [done|done|..]; cbn; congruence.
  - intros c' n Hl Hm. rewrite (io_failure_fails c h w c' n Hok Hh Hl Hm). by destruct n.
Qed.

(** The handler of a node's client that goes while the epoll thread has it: the thread
    keeps the pointer, and whatever it does with the next event faults. *)
Theorem deleted_while_held w i a c : rtc step idle w -> held w !! i = Some a -> use_count a w = 1%nat ->
  node_client a w = Some c -> mbox_of c w = Some MOpen -> c ∈ acts w ->
  exists w', drop i w = Ok w' /\ c ∈ acts w' /\
    handle_error c w' = Fault BadDeref /\ handle_read_failure c w' = Fault BadDeref /\
    (forall nid, consume_handshake c nid w' = Fault BadDeref) /\
    (forall n m, handle_write_failure c n m w' = Fault BadDeref).
Proof.
  intros Hok%peers_reachable_ok Hi Hu Hn Hm Hc. unfold drop. rewrite Hi. cbn.
  destruct (release_runs a _ (drop_ok_but i a w Hok Hi)) as (w' & -> & _ & _ & _ & Ha & Hcl).
  { intros c'. change (node_client a (set_refs _ _ w)) with (node_client a w). intros E. simplify_eq. done. }
  assert (clients w' !! c = None) as Hno.
  { rewrite Hcl, decide_True; [done|]. split; [|done]. rewrite (use_count_held i a w Hi) in Hu. lia. }
  exists w'. split; [done|]. split; [by rewrite Ha|].
  unfold handle_error, handle_read_failure, consume_handshake, handle_write_failure, io_failure, handler. by rewrite Hno.
Qed.

(** After a failed write the client of a node cannot go: StreamHandler::stop takes from the
    mailbox that the failure closed. *)
Theorem closed_client_stuck w i a c n : rtc step idle w -> held w !! i = Some a -> use_count a w = 1%nat ->
  node_client a w = Some c -> mbox_of c w = Some (MClosed n) ->
  drop i w = Fault (match n with O => BadDeref | S _ => AssertFailed end).
Proof.
  intros Hok%peers_reachable_ok Hi Hu Hn Hm. unfold drop. rewrite Hi. cbn. rewrite (use_count_held i a w Hi) in Hu.
  injection Hu as Hu. rewrite (release_fails a _ c n (drop_ok_but i a w Hok Hi) Hu Hn Hm). by destruct n.
Qed.

(** A connection that was accepted and that the handshake gave to a node has two owners:
    when the last pointer to the node goes, the stop of the server frees the connection
    again; when the server stops first, the node frees it again. *)
Theorem linked_client_freed_twice w i a c k : rtc step idle w -> m_running w = true ->
  (forall c k, clients w !! c = Some k -> mbox_of c w = Some MOpen) ->
  held w !! i = Some a -> use_count a w = 1%nat -> node_client a w = Some c ->
  clients w !! c = Some k -> passive k = true ->
  (drop i w ≫= server_stop) = Fault BadDeref /\ (server_stop w ≫= drop i) = Fault BadDeref.
Proof.
  intros Hok%peers_reachable_ok Hrun Hm Hi Hu Hn Hk Hp. split.
  - unfold drop. rewrite Hi. cbn.
    destruct (release_runs a _ (drop_ok_but i a w Hok Hi)) as (w' & -> & Hs & Hsl & Hr & _ & Hcl).
    { intros c'. change (node_client a (set_refs _ _ w)) with (node_client a w). intros E. simplify_eq. by apply (Hm _ k). }
    unfold server_stop. rewrite bind_ok, Hr. cbn [m_running set_refs]. rewrite Hrun.
    rewrite (delete_clients_dangling _ _ c); [done|done| | |].
    + intros x y E. rewrite Hcl in E. destruct (decide _); [discriminate|]. eapply (mbox_of_open x _ w); eauto.
    + rewrite Hsl. apply (o_slot _ _ _ (ok_own _ Hok)). eauto.
    + rewrite Hcl, decide_True; [done|]. split; [|done]. rewrite (use_count_held i a w Hi) in Hu. lia.
  - unfold server_stop. rewrite Hrun.
    destruct (delete_clients_ok (m_clients w) w (ok_sock _ Hok) (o_nodup _ _ _ (ok_own _ Hok)))
      as (cl & e & o & -> & _ & Hcl).
    { intros x (y & Hy & _)%(slots_live w Hok). exists y. split; [done|]. eapply mbox_of_open; eauto. }
    assert (cl !! c = None) as Hno.
    { destruct (cl !! c) as [k'|] eqn:E; [|done]. apply Hcl in E as [_ []]. apply (o_slot _ _ _ (ok_own _ Hok)). eauto. }
    cbn. unfold drop, release. cbn. rewrite Hi. cbn.
    rewrite decide_True by (rewrite (use_count_held i a w Hi) in Hu; unfold use_count in *; cbn in *; lia).
    unfold delete_Node. cbn. unfold node_client in Hn. destruct (nodes w !! a) as [n|]; [|done]. cbn in Hn |- *.
    rewrite Hn. unfold stop. cbn. by rewrite Hno.
Qed.

(** ** Example: node 7 connects to this one and is given the accepted connection *)
Definition after (o : op) (w : world) : world := match exec o w with Ok w' => w' | Fault _ => w end.

Definition met : world := after (OHandshake 2 7) (after (OReport 2) (after (OAccept [5]) (after (OLearn 7) idle))).

Lemma met_reachable : rtc step idle met.
Proof.
  eapply rtc_l; [exists (OLearn 7); split; [exact I|reflexivity]|].
  eapply rtc_l; [exists (OAccept [5]); split; [|vm_compute; reflexivity]|].
  { cbn. split_and!; [done|repeat constructor; by intros ?%elem_of_nil|].
    intros fd ->%list_elem_of_singleton. by intros ?%elem_of_empty. }
  eapply rtc_l; [exists (OReport 2); split; [eexists; vm_compute; reflexivity|reflexivity]|].
  apply rtc_once. exists (OHandshake 2 7). split; [|vm_compute; reflexivity].
  split; [left|]. intros k Hk. vm_compute in Hk. injection Hk as <-. reflexivity.
Qed.

(** The thread that received the handshake drops its pointer: only the table is left. *)
Definition met_cold : world := after (ODrop 0) met.
Lemma met_cold_reachable : rtc step idle met_cold.
Proof.
  eapply rtc_r; [apply met_reachable|]. exists (ODrop 0). split; [|vm_compute; reflexivity].
  exists 1. split; [reflexivity|]. intros Hu. vm_compute in Hu. discriminate.
Qed.

(** The registry drops the node instead: only the thread is left. *)
Definition met_gone : world := after (ODelete 7) met.
Lemma met_gone_reachable : rtc step idle met_gone.
Proof.
  eapply rtc_r; [apply met_reachable|]. exists (ODelete 7). split; [|vm_compute; reflexivity].
  intros a Ha Hu. vm_compute in Ha. injection Ha as <-. vm_compute in Hu. discriminate.
Qed.

(** There a write fails. *)
Definition met_shut : world := after (OWriteFailure 2 0 0) met_gone.
Lemma met_shut_reachable : rtc step idle met_shut.
Proof.
  eapply rtc_r; [apply met_gone_reachable|]. exists (OWriteFailure 2 0 0). split; [|vm_compute; reflexivity].
  split; [left; left|lia].
Qed.

Lemma peers_safe_witness : rtc step idle met /\ exists w', exec (OWriteFailure 2 1 0) met = Ok w'.
Proof.
  split; [apply met_reachable|]. apply (peers_safe met met_reachable). split; [left; left|lia].
Defined.

Lemma peer_down_outcome_witness :
  rtc step idle met_cold /\ handler 2 met_cold = Ok (MkHandler 5 false 7 MOpen) /\
  handle_read_failure 2 met_cold = Fault BadDeref.
Proof.
  split; [apply met_cold_reachable|]. split; [reflexivity|].
  apply (peer_down_outcome met_cold 2 (MkHandler 5 false 7 MOpen) met_cold_reachable eq_refl).
  - intros c' E. vm_compute in E. injection E as <-. reflexivity.
  - reflexivity.
Defined.

Lemma deleted_while_held_witness :
  rtc step idle met_gone /\ exists w', drop 0 met_gone = Ok w' /\ handle_error 2 w' = Fault BadDeref.
Proof.
  split; [apply met_gone_reachable|].
  destruct (deleted_while_held met_gone 0 1 2 met_gone_reachable) as (w' & E & _ & F & _);
    [vm_compute; reflexivity..|left|eauto].
Defined.

Lemma closed_client_stuck_witness : rtc step idle met_shut /\ drop 0 met_shut = Fault BadDeref.
Proof.
  split; [apply met_shut_reachable|].
  apply (closed_client_stuck met_shut 0 1 2 0 met_shut_reachable); vm_compute; reflexivity.
Defined.

Lemma linked_client_freed_twice_witness :
  rtc step idle met_gone /\ (drop 0 met_gone ≫= server_stop) = Fault BadDeref.
Proof.
  split; [apply met_gone_reachable|].
  eapply (linked_client_freed_twice met_gone 0 1 2 _ met_gone_reachable); try (vm_compute; reflexivity).
  intros c k Hk. destruct (decide (c = 2)) as [->|Hc]; [vm_compute; reflexivity|]. exfalso.
  change (clients met_gone) with
    ({[2 := MkGateway (MkClient 5 true true) (2 ^ 32 - 1) (Some (MkHandler 5 false 7 MOpen))]} : gmap Z GatewayClient) in Hk.
  by rewrite lookup_singleton_ne in Hk.
Defined.
