(* ===== verification/EpollWait.v ===== *)
(** * The pollers and their first wait

    src/multiplexer.cpp: the table of pollers (Multiplexer::initialize and instance), and
    the wait at the head of Epoller::poll.  The poller sleeps on a condition variable until a
    handler is there; add counts the handler in m_num and notifies, both without the
    mutex of the wait.  Any number of threads add and delete handlers; a step is one access
    to m_num or one call of the condition variable. *)
From stdpp Require Import base list relations numbers.
From S2P Require Import Prelude.

(** ** The table of pollers *)
Module Backends.

(** io_thread_num and backends; a poller is its m_id *)
Record table := MkTable { io_thread_num : Z; backends : list Z }.

Definition none : table := MkTable 0 [].

Definition initialize (np : Z) (t : table) : outcome table :=
  _ ← mola_assert (0 <? np);
  mret (MkTable np (backends t ++ (Z.of_nat <$> seq 0 (Z.to_nat np)))).

(** [rnd]: what ::random returns *)
Definition instance (i rnd : Z) (t : table) : outcome Z :=
  i ← (if i =? -1 then if io_thread_num t =? 0 then Fault Uncaught else mret (rnd mod io_thread_num t) else mret i);
  _ ← mola_assert ((0 <=? i) && (i <? io_thread_num t));
  deref (backends t !! Z.to_nat i).

Lemma lookup_pollers np i : 0 <= i < np -> (Z.of_nat <$> seq 0 (Z.to_nat np)) !! Z.to_nat i = Some i.
Proof. intros H. rewrite list_lookup_fmap, lookup_seq_lt by lia. cbn. f_equal. lia. Qed.

(** After initialize every number below that of the threads has its poller, and no number
    stands for some poller. *)
Theorem instance_spec np rnd i : 0 < np -> 0 <= rnd ->
  exists t, initialize np none = Ok t /\
    instance i rnd t =
      if i =? -1 then Ok (rnd mod np)
      else if (0 <=? i) && (i <? np) then Ok i else Fault AssertFailed.
Proof.
  intros Hnp Hr. unfold initialize. rewrite (proj2 (Z.ltb_lt 0 np) Hnp). cbn. eexists. split; [done|].
  unfold instance. cbn. destruct (Z.eqb_spec i (-1)) as [->|Hi].
  - rewrite (proj2 (Z.eqb_neq np 0)) by lia. pose proof (Z.mod_pos_bound rnd np Hnp). cbn.
    rewrite (proj2 (Z.leb_le _ _)), (proj2 (Z.ltb_lt _ _)) by lia. cbn. by rewrite lookup_pollers.
  - cbn. destruct (Z.leb_spec 0 i), (Z.ltb_spec i np); cbn; try done. by rewrite lookup_pollers.
Qed.

Lemma instance_spec_witness : exists t, initialize 4 none = Ok t /\ instance (-1) 1804289383 t = Ok 3.
Proof. apply (instance_spec 4 1804289383 (-1)); lia. Defined.
End Backends.

(** ** The wait *)
Module Wait.

(** The points of poll: the test of m_num, on the way to the wait, waiting, woken, in the
    loop over epoll_wait *)
Inductive pc := Tests | Locks | Waits | Woken | Polls.
#[global] Instance pc_eq : EqDecision pc.
Proof. solve_decision. Defined.

(** [adding]: threads in add between the count and the notification.  [missed] is not in
    the code: a notification came while the poller was on its way to the wait. *)
Record state := MkState { m_num : nat; adding : nat; poller : pc; missed : bool }.

Definition init : state := MkState 0 0 Tests false.

Inductive act :=
| APoll        (** a step of the poller *)
| ACount       (** add: m_num++ *)
| ANotify      (** add: m_cond.notify_one() *)
| ADel         (** del: m_num-- *)
| ASpurious.   (** the wait returns without a notification *)

Definition exec (a : act) (s : state) : option state :=
  match a with
  | APoll =>
      match poller s with
      | Tests => Some (if decide (m_num s = 0%nat) then MkState (m_num s) (adding s) Locks false
                       else MkState (m_num s) (adding s) Polls (missed s))
      | Locks => Some (MkState (m_num s) (adding s) Waits (missed s))
      | Woken => Some (MkState (m_num s) (adding s) Tests (missed s))
      | Waits | Polls => None
      end
  | ACount => Some (MkState (S (m_num s)) (S (adding s)) (poller s) (missed s))
  | ANotify =>
      match adding s with
      | O => None
      | S n => Some (match poller s with
                     | Waits => MkState (m_num s) n Woken (missed s)
                     | Locks => MkState (m_num s) n Locks true
                     | p => MkState (m_num s) n p (missed s)
                     end)
      end
  | ADel => match m_num s with O => None | S n => Some (MkState n (adding s) (poller s) (missed s)) end
  | ASpurious => match poller s with Waits => Some (MkState (m_num s) (adding s) Woken (missed s)) | _ => None end
  end.

Definition step (s s' : state) : Prop := exists a, exec a s = Some s'.
Definition reachable (s : state) : Prop := rtc step init s.

(** What add does to the poller, run as a whole *)
Definition add (s : state) : option state := s ← exec ACount s; exec ANotify s.

Definition inv (s : state) : Prop :=
  match poller s with Locks | Waits => missed s = false -> (m_num s <= adding s)%nat | _ => True end.

Lemma wait_step_inv s s' : step s s' -> inv s -> inv s'.
Proof.
  intros [a H]. unfold inv. destruct s as [n k p m], a; cbn in H.
  - destruct p; simplify_eq/=; try done. case_decide; simplify_eq/=; try done. lia.
  - simplify_eq/=. destruct p; try done; intros Hi Hm; specialize (Hi Hm); lia.
  - destruct k; [done|]. destruct p; simplify_eq/=; try done.
  - destruct n; [done|]. simplify_eq/=. destruct p; try done; intros Hi Hm; specialize (Hi Hm); lia.
  - destruct p; simplify_eq/=. done.
Qed.

Lemma wait_reachable_inv s : reachable s -> inv s.
Proof.
  unfold reachable. intros H. remember init as s0 eqn:E. assert (inv s0) as Hi by (by subst). clear E.
  induction H; [done|]. eauto using wait_step_inv.
Qed.

(** Whatever threads add and delete handlers, a poller that waits although a handler is
    there has a notification coming, unless one came between its test of m_num and its wait;
    and a whole add always wakes a poller that waits, which then sees the handler. *)
Theorem waiting_poller_notified s : reachable s -> poller s = Waits ->
  (missed s = false -> m_num s <> 0%nat -> adding s <> 0%nat) /\
  (exists s1 s2 s3, add s = Some s1 /\ exec APoll s1 = Some s2 /\ exec APoll s2 = Some s3 /\ poller s3 = Polls).
Proof.
  intros Hi%wait_reachable_inv Hp. unfold inv in Hi. rewrite Hp in Hi. split.
  - intros Hm Hn. specialize (Hi Hm). lia.
  - destruct s as [n k p m]. cbn in Hp. subst. do 3 eexists. split_and!; cbn; reflexivity.
Qed.

(** The threads go on without an add or a spurious wake-up. *)
Definition quiet_step (s s' : state) : Prop := exec APoll s = Some s' \/ exec ADel s = Some s'.

(** The test and the wait are not atomic: when a handler is added in between, the
    notification is lost and the poller waits, for ever unless another handler is added,
    although a handler is registered. *)
Theorem first_wakeup_lost :
  exists s, reachable s /\ poller s = Waits /\ m_num s = 1%nat /\ adding s = 0%nat /\
    forall s', rtc quiet_step s s' -> poller s' = Waits.
Proof.
  exists (MkState 1 0 Waits true). split_and!; [|done..|].
  - eapply rtc_l; [by exists APoll|]. eapply rtc_l; [by exists ACount|]. eapply rtc_l; [by exists ANotify|].
    apply rtc_once. by exists APoll.
  - intros s' Hr. remember (MkState 1 0 Waits true) as s0 eqn:E. assert (poller s0 = Waits) as H0 by (by subst). clear E.
    induction Hr as [|s0 s1 s2 Hs _ IH]; [done|]. apply IH. destruct s0 as [n k p m]. cbn in H0. subst.
    destruct Hs as [Hs|Hs]; cbn in Hs; [done|]. destruct n; by simplify_eq/=.
Qed.

Lemma waiting_poller_notified_witness :
  reachable (MkState 0 0 Waits false) /\ exists s1, add (MkState 0 0 Waits false) = Some s1.
Proof.
  assert (reachable (MkState 0 0 Waits false)) as Hr.
  { eapply rtc_l; [by exists APoll|]. apply rtc_once. by exists APoll. }
  split; [done|]. destruct (waiting_poller_notified _ Hr eq_refl) as [_ (s1 & _ & _ & H & _)]. eauto.
Defined.
End Wait.
