(* ===== verification/EpollLoop.v ===== *)
(** * The epoll loop with its handlers

    Epoller::poll of src/multiplexer.cpp (Module Epoll of Multiplexer.v) running the two
    handlers there are: AcceptHandler of src/event_handler.cpp and StreamHandler of
    include/mola/event_handler.hpp (its reader and writer are those of Stream.v), over
    sockets that the network fills at any time.

    The kernel's part is explicit: what lies in a socket, the connections that wait at a
    listening one, the descriptors that accept can hand out, and [edges], the
    sockets of the edge-triggered set that became ready and were not reported yet.  What the
    system does in one call of a handler is a [choice] of the [tape]: what came from the
    network and from other threads before the call, how much a read returns, whether the
    write lock is free, what the writes do.  There is one io thread; handlers are named
    by their descriptors and are not deleted (Peers.v has who deletes them), and
    io_failure is that of StreamManager, which logs. *)
From stdpp Require Import base list gmap numbers.
From S2P Require Import Prelude Stream Multiplexer.

(** A connected socket: the bytes that arrived and were not read, the end of the stream
    behind them, an error. *)
Record sock := MkSock { k_bytes : list Z; k_eof : bool; k_err : bool }.

(** What comes from outside of the loop.  [EClient]: a thread connects and starts the
    client; [EListen]: a server starts; [EFds]: the descriptors that accept can return. *)
Inductive env :=
| EInput (h : Z) (bytes : list Z)
| EEof (h : Z)
| EError (h : Z)
| EConnect (l : Z) (bytes : list Z)
| ESend (h : Z) (c : chain) (rs : list wio)
| EClient (fd : Z)
| EListen (fd : Z)
| EFds (l : list Z).

(** [c_read]: at least that much is returned if it is there, [None] is a failure other than
    EAGAIN. *)
Record choice := MkChoice { c_env : list env; c_read : option nat; c_lock : bool; c_write : list wio }.
Definition quiet : choice := MkChoice [] (Some 1%nat) true [].

Section Loop.
Context {S E : Type} `{!StreamManager S E}.

(** [init fd]: the state of the manager that TCPClient::start makes. *)
Context (init : Z -> S).

(** A handler with the kernel's side of its socket.  [failed] records that the last accept
    gave no usable descriptor and left connections waiting. *)
Inductive obj :=
| Stream (k : sock) (rd : reader (S := S)) (wr : writer)
| Accept (backlog : list sock) (err failed : bool).

Record world := MkWorld {
  objs : gmap Z obj;
  epoll : Epoll.epoller;
  edges : gset Z;
  fds : list Z;
  tape : list choice;
  handed : list (Z * E)
}.

Definition set_obj (h : Z) (o : obj) (w : world) : world :=
  MkWorld (<[h := o]> (objs w)) (epoll w) (edges w) (fds w) (tape w) (handed w).
Definition set_epoll (e : Epoll.epoller) (w : world) : world :=
  MkWorld (objs w) e (edges w) (fds w) (tape w) (handed w).
Definition set_edges (g : gset Z) (w : world) : world :=
  MkWorld (objs w) (epoll w) g (fds w) (tape w) (handed w).
Definition set_fds (l : list Z) (w : world) : world :=
  MkWorld (objs w) (epoll w) (edges w) l (tape w) (handed w).
Definition set_tape (t : list choice) (w : world) : world :=
  MkWorld (objs w) (epoll w) (edges w) (fds w) t (handed w).
Definition hand (h : Z) (es : list E) (w : world) : world :=
  MkWorld (objs w) (epoll w) (edges w) (fds w) (tape w) (handed w ++ ((fun e => (h, e)) <$> es)).

Definition registered (h : Z) (w : world) : bool := bool_decide (is_Some (Epoll.registered (epoll w) !! h)).

(** A socket of the set becomes ready. *)
Definition raise (h : Z) (w : world) : world :=
  if registered h w then set_edges (edges w ∪ {[h]}) w else w.

(** backend()->add and backend()->del; a socket that is added is reported at once if
    it is ready. *)
Definition backend_add (op : Operation) (h : Z) (w : world) : world :=
  set_edges (edges w ∪ {[h]}) (set_epoll (Epoll.add op h (epoll w)).2 w).
Definition backend_del (h : Z) (w : world) : world := set_epoll (Epoll.del h (epoll w)).2 w.

(** TCPServer::new_connection, TCPClient::start, StreamHandler::start: the first buffer, then
    the multiplexer *)
Definition new_connection (fd : Z) (k : sock) (w : world) : outcome world :=
  rd ← read_loop (init fd);
  mret (backend_add RDWR fd (set_obj fd (Stream k rd new_writer) w)).

(** TCPServer::start: the acceptor *)
Definition listen (fd : Z) (w : world) : world :=
  backend_add READ fd (set_obj fd (Accept [] false false) w).

Definition fresh (fd : Z) (w : world) : bool :=
  bool_decide (objs w !! fd = None) && bool_decide (fd ∉ fds w).

Definition happens (e : env) (w : world) : outcome world :=
  match e with
  | EInput h bytes =>
      match objs w !! h with
      | Some (Stream k rd wr) => mret (raise h (set_obj h (Stream (MkSock (k_bytes k ++ bytes) (k_eof k) (k_err k)) rd wr) w))
      | _ => mret w
      end
  | EEof h =>
      match objs w !! h with
      | Some (Stream k rd wr) => mret (raise h (set_obj h (Stream (MkSock (k_bytes k) true (k_err k)) rd wr) w))
      | _ => mret w
      end
  | EError h =>
      match objs w !! h with
      | Some (Stream k rd wr) => mret (raise h (set_obj h (Stream (MkSock (k_bytes k) (k_eof k) true) rd wr) w))
      | Some (Accept bl _ f) => mret (raise h (set_obj h (Accept bl true f) w))
      | None => mret w
      end
  | EConnect l bytes =>
      match objs w !! l with
      | Some (Accept bl err f) => mret (raise l (set_obj l (Accept (bl ++ [MkSock bytes false false]) err f) w))
      | _ => mret w
      end
  | ESend h c rs =>
      match objs w !! h with
      | Some (Stream k rd wr) =>
          let wr' := (async_write c rs wr).2 in
          let w := set_obj h (Stream k rd wr') w in
          mret (if negb (mclosed wr) && mclosed wr' then backend_del h w else w)
      | _ => mret w
      end
  | EClient fd => if fresh fd w then new_connection fd (MkSock [] false false) w else mret w
  | EListen fd => if fresh fd w then mret (listen fd w) else mret w
  | EFds l => mret (set_fds (remove_dups (filter (fun fd => objs w !! fd = None) l)) w)
  end.

Fixpoint all_happen (es : list env) (w : world) : outcome world :=
  match es with [] => mret w | e :: es => w ← happens e w; all_happen es w end.

(** ::read of at most [n] bytes *)
Definition sys_read (n : nat) (ch : choice) (k : sock) : io * sock :=
  match c_read ch with
  | None => (IoError, k)
  | Some m =>
      if k_err k then (IoError, k)
      else if bool_decide (k_bytes k = []) then (if k_eof k then IoDone [] else IoAgain, k)
      else
        let t := Nat.min n (Nat.max 1 m) in
        (IoDone (take t (k_bytes k)), MkSock (drop t (k_bytes k)) (k_eof k) (k_err k))
  end.

(** !read_some(...) || nrd == 0 *)
Definition read_failed (r : io) : bool := match r with IoError | IoDone [] => true | _ => false end.

(** The loop of AcceptHandler::handle_event: accept fails when nobody waits (EAGAIN) or no
    descriptor is left (EMFILE), and try_accept does not take descriptor 0.  What is left
    of the backlog is returned. *)
Fixpoint accept_loop (bl : list sock) (w : world) : outcome (list sock * world) :=
  match bl, fds w with
  | k :: bl', fd :: rest =>
      let w := set_fds rest w in
      if 0 <? fd then w ← new_connection fd k w; accept_loop bl' w else mret (bl', w)
  | _, _ => mret (bl, w)
  end.

Definition next_choice (w : world) : choice * world :=
  match tape w with [] => (quiet, w) | ch :: t => (ch, set_tape t w) end.

(** handle_event of the handler [h].  A socket whose write failed fails again. *)
Definition handle_event (h : Z) (op : Operation) (w : world) : outcome (bool * world) :=
  let '(ch, w) := next_choice w in
  w ← all_happen (c_env ch) w;
  o ← deref (objs w !! h);
  match o, op with
  | Stream _ _ _, ERROR => mret (false, backend_del h w)
  | Stream k rd wr, READ =>
      let '(r, k') := sys_read (rd_size rd - length (collected rd)) ch k in
      '(b, rd', es) ← handle_read r rd;
      let w := hand h es (set_obj h (Stream k' rd' wr) w) in
      mret (b, if read_failed r then backend_del h w else w)
  | Stream k rd wr, WRITE =>
      if c_lock ch then
        let '(b, wr') := handle_write (if mclosed wr then [WError] else c_write ch) wr in
        let w := set_obj h (Stream k rd wr') w in
        mret (b, if mclosed wr' then backend_del h w else w)
      else mret (true, w)
  | Accept bl err f, READ =>
      '(bl', w) ← accept_loop bl w;
      mret (false, set_obj h (Accept bl' err (negb (bool_decide (bl' = [])))) w)
  | Accept _ _ _, ERROR => mret (false, backend_del h w)
  | _, _ => mret (false, w)
  end.

(** The loop stops where a handler fails. *)
Definition handle (h : Z) (op : Operation) (w : outcome world) : bool * outcome world :=
  match w ≫= handle_event h op with
  | Ok (b, w') => (b, Ok w')
  | Fault f => (false, Fault f)
  end.

(** ** Turns *)

(** There is something to read or to accept. *)
Definition input (o : obj) : bool :=
  match o with
  | Stream k _ _ => negb (bool_decide (k_bytes k = [])) || k_eof k
  | Accept bl _ _ => negb (bool_decide (bl = []))
  end.
Definition errored (o : obj) : bool := match o with Stream k _ _ => k_err k | Accept _ err _ => err end.

(** What epoll_wait returns when it looks at [h], whether or not [h] can be written *)
Definition event_of (w : world) (x : Z * bool) : option (Z * Epoll.events) :=
  o ← objs w !! x.1;
  let ev := Epoll.MkEvents (input o) x.2 (errored o) in
  if bool_decide (x.1 ∈ edges w) && registered x.1 w && (Epoll.ev_in ev || Epoll.ev_out ev || Epoll.ev_err ev)
  then Some (x.1, ev) else None.

(** One turn: epoll_wait reports some of the edges, [hs]. *)
Definition turn (hs : list (Z * bool)) (t : list choice) (acts : gmap Z Epoll.events) (w : world) :
    outcome (gmap Z Epoll.events * world) :=
  let w' := set_tape t (set_edges (edges w ∖ list_to_set hs.*1) w) in
  let '(acts', r) := Epoll.turn handle (omap (event_of w) hs) acts (Ok w') in
  w'' ← r; mret (acts', w'').

Inductive event := Env (e : env) | Turn (hs : list (Z * bool)) (t : list choice).

Definition step (e : event) (acts : gmap Z Epoll.events) (w : world) : outcome (gmap Z Epoll.events * world) :=
  match e with
  | Env e => w ← happens e w; mret (acts, w)
  | Turn hs t => turn hs t acts w
  end.

Fixpoint run (es : list event) (acts : gmap Z Epoll.events) (w : world) : outcome (gmap Z Epoll.events * world) :=
  match es with
  | [] => mret (acts, w)
  | e :: es => '(acts, w) ← step e acts w; run es acts w
  end.

Definition idle : world := MkWorld ∅ Epoll.new_epoller ∅ [] [] [].

(** ** What the loop keeps *)

(** The set counts each handler right; accept hands out descriptors that are not in use. *)
Record ok (w : world) : Prop := {
  ok_epoll : exists seen, Epoll.counted seen (epoll w) /\ forall h, h ∈ seen <-> is_Some (objs w !! h);
  ok_nodup : NoDup (fds w);
  ok_fresh : forall fd, fd ∈ fds w -> objs w !! fd = None
}.

(** A handler that the loop has to call for reading: its socket is in the set and has
    something to read or an error, or a connection waits at an acceptor whose last accept
    did not fail. *)
Definition wants (o : obj) : bool :=
  match o with
  | Stream k _ _ => input o || k_err k
  | Accept _ _ failed => input o && negb failed
  end.

(** The kernel does not know of it any more. *)
Definition unkept (w : world) (h : Z) : Prop :=
  exists o, objs w !! h = Some o /\ is_Some (Epoll.registered (epoll w) !! h) /\ wants o = true /\ h ∉ edges w.

(** Nothing of that kind is added. *)
Definition calm (w w' : world) : Prop := forall h, unkept w' h -> unkept w h.

Lemma calm_refl w : calm w w.
Proof. by intros h. Qed.
Lemma calm_trans w1 w2 w3 : calm w1 w2 -> calm w2 w3 -> calm w1 w3.
Proof. intros H1 H2 h Hh. auto. Qed.

(** Neither depends on the tape and on what was handed on. *)
Lemma ok_same w w' : ok w -> objs w' = objs w -> epoll w' = epoll w -> fds w' = fds w -> ok w'.
Proof. intros [H1 H2 H3] Ho He Hf. split; rewrite ?Ho, ?He, ?Hf; done. Qed.
Lemma calm_same w w' : objs w' = objs w -> epoll w' = epoll w -> edges w' = edges w -> calm w w'.
Proof. intros Ho He Hg h. unfold unkept. by rewrite Ho, He, Hg. Qed.

(** A handler changes. *)
Lemma ok_set_obj h o w : ok w -> is_Some (objs w !! h) -> ok (set_obj h o w).
Proof.
  intros [(seen & Hc & Hs) H2 H3] Hh.
  assert (forall x, is_Some (<[h := o]> (objs w) !! x) <-> is_Some (objs w !! x)) as Hx.
  { intros x. rewrite lookup_insert_is_Some'. split; [intros [<-|?]; done|auto]. }
  split; cbn; [exists seen; split; [done|]; intros x; by rewrite Hx|done|].
  intros fd Hfd. specialize (H3 fd Hfd). apply eq_None_not_Some. rewrite Hx, H3. by intros [? ?].
Qed.

Lemma calm_set_obj h o o' w : objs w !! h = Some o -> (wants o' = true -> wants o = true) -> calm w (set_obj h o' w).
Proof.
  intros Ho Hw x (y & Hy & Hr & Hwy & He). cbn in *. apply lookup_insert_Some in Hy as [[<- <-]|[_ Hy]].
  - exists o. auto.
  - by exists y.
Qed.

(** The kernel raises the edge of a socket that changed. *)
Lemma raise_spec h o w : ok w -> is_Some (objs w !! h) -> ok (raise h (set_obj h o w)) /\ calm w (raise h (set_obj h o w)).
Proof.
  intros Hok Hh. unfold raise. destruct (registered h (set_obj h o w)) eqn:Eo.
  - split; [by eapply ok_same; [by apply ok_set_obj|..]|]. intros x (y & Hy & Hr & Hw & He). cbn in *.
    exists y. split_and!; [|done|done|set_solver]. rewrite lookup_insert_ne in Hy; [done|]. set_solver.
  - split; [by apply ok_set_obj|]. intros x (y & Hy & Hr & Hw & He). cbn in *.
    exists y. split_and!; [|done..]. rewrite lookup_insert_ne in Hy; [done|]. intros ->.
    apply bool_decide_eq_false in Eo. done.
Qed.

(** del *)
Lemma del_spec h w : ok w -> is_Some (objs w !! h) ->
  ok (backend_del h w) /\ calm w (backend_del h w) /\ ~ unkept (backend_del h w) h.
Proof.
  intros [(seen & Hc & Hs) H2 H3] Hh. destruct (Epoll.del_unregisters h seen _ Hc (proj2 (Hs h) Hh)) as (Hc' & Hno & _).
  split_and!.
  - split; cbn; [eauto|done..].
  - intros x (y & Hy & Hr & Hw & He). exists y. split_and!; [done|exact (Epoll.del_shrinks h x _ Hr)|done|done].
  - intros (y & Hy & Hr & _). cbn in Hr. rewrite Hno in Hr. by destruct Hr.
Qed.

(** A new handler is added: the kernel looks at it at once. *)
Lemma add_spec op fd o w : ok w -> objs w !! fd = None -> fd ∉ fds w ->
  ok (backend_add op fd (set_obj fd o w)) /\ calm w (backend_add op fd (set_obj fd o w)).
Proof.
  intros [(seen & Hc & Hs) H2 H3] Hfd Hnf. split.
  - assert (fd ∉ seen) as Hns. { rewrite Hs, Hfd. by intros [? ?]. }
    destruct (Epoll.add_counted op fd seen _ Hc Hns) as [_ Hc']. split; cbn; [|done|].
    + exists (fd :: seen). split; [done|]. intros x. rewrite elem_of_cons, Hs, lookup_insert_is_Some'. naive_solver.
    + intros x Hx. rewrite lookup_insert_ne by (intros ->; done). auto.
  - intros x (y & Hy & Hr & Hw & He). cbn in *. assert (x <> fd) as Hne by set_solver.
    rewrite lookup_insert_ne in Hy by done. rewrite Epoll.add_others in Hr by done. exists y. split_and!; [done..|set_solver].
Qed.

Definition keeps (w w' : world) : Prop := ok w' /\ calm w w' /\ forall h, is_Some (objs w !! h) -> is_Some (objs w' !! h).

Lemma keeps_trans w1 w2 w3 : keeps w1 w2 -> keeps w2 w3 -> keeps w1 w3.
Proof. intros (? & ? & ?) (? & ? & ?). split_and!; [done|by eapply calm_trans|auto]. Qed.

Lemma keeps_same w w' : ok w -> objs w' = objs w -> epoll w' = epoll w -> edges w' = edges w -> fds w' = fds w -> keeps w w'.
Proof. intros. split_and!; [by eapply ok_same|by apply calm_same|congruence]. Qed.

Lemma set_obj_live h o w : forall x, is_Some (objs w !! x) -> is_Some (objs (set_obj h o w) !! x).
Proof. intros x Hx. apply lookup_insert_is_Some'. auto. Qed.

Lemma new_connection_spec fd k w w' : ok w -> objs w !! fd = None -> fd ∉ fds w ->
  new_connection fd k w = Ok w' -> keeps w w' /\ fds w' = fds w.
Proof.
  intros Hok Hfd Hnf H. unfold new_connection in H. destruct (read_loop (init fd)) as [rd|] eqn:Er; [|done].
  injection H as <-. destruct (add_spec RDWR fd (Stream k rd new_writer) w Hok Hfd Hnf). split; [|done].
  split_and!; [done..|apply set_obj_live].
Qed.

Lemma happens_spec e w w' : ok w -> happens e w = Ok w' -> keeps w w'.
Proof.
  intros Hok. assert (keeps w w) as Hrefl by (by apply keeps_same).
  assert (forall h o, is_Some (objs w !! h) -> keeps w (raise h (set_obj h o w))) as Hraise.
  { intros h o Hh. destruct (raise_spec h o w Hok Hh). split_and!; [done..|]. intros x Hx. unfold raise.
    destruct (registered _ _); by apply set_obj_live. }
  destruct e; cbn.
  - destruct (objs w !! h) as [[k rd wr|bl err f]|] eqn:Eo; intros [= <-]; eauto.
  - destruct (objs w !! h) as [[k rd wr|bl err f]|] eqn:Eo; intros [= <-]; eauto.
  - destruct (objs w !! h) as [[k rd wr|bl err f]|] eqn:Eo; intros [= <-]; eauto.
  - destruct (objs w !! l) as [[k rd wr|bl err f]|] eqn:Eo; intros [= <-]; eauto.
  - destruct (objs w !! h) as [[k rd wr|bl err f]|] eqn:Eo; [|by intros [= <-]..].
    set (w1 := set_obj _ _ w). assert (ok w1) as Hok1 by (apply ok_set_obj; eauto).
    assert (calm w w1) as Hc1 by (by eapply calm_set_obj).
    destruct (negb (mclosed wr) && _); intros [= <-]; [|split_and!; [done..|apply set_obj_live]].
    destruct (del_spec h w1 Hok1) as (? & Hc2 & _); [by apply set_obj_live; eauto|].
    split_and!; [done|by eapply calm_trans|apply set_obj_live].
  - destruct (fresh fd w) eqn:Eo; [|by intros [= <-]]. unfold fresh in Eo.
    apply andb_true_iff in Eo as [Hf1%bool_decide_eq_true Hf2%bool_decide_eq_true]. intros Hn.
    by apply (new_connection_spec fd (MkSock [] false false)).
  - destruct (fresh fd w) eqn:Eo; [|by intros [= <-]]. unfold fresh in Eo.
    apply andb_true_iff in Eo as [Hf1%bool_decide_eq_true Hf2%bool_decide_eq_true]. intros [= <-].
    destruct (add_spec READ fd (Accept [] false false) w Hok) as [? ?]; [done..|]. split_and!; [done..|apply set_obj_live].
  - intros [= <-]. destruct Hok as [H1 _ _]. split_and!; [|by apply calm_same|done]. split; [done|apply NoDup_remove_dups|].
    intros fd Hfd. cbn in Hfd. rewrite elem_of_remove_dups, list_elem_of_filter in Hfd. by destruct Hfd.
Qed.

Lemma all_happen_spec es w w' : ok w -> all_happen es w = Ok w' -> keeps w w'.
Proof.
  revert w. induction es as [|e es IH]; cbn; intros w Hok H; [injection H as <-; by apply keeps_same|].
  destruct (happens e w) as [w1|] eqn:He; [|done]. pose proof (happens_spec _ _ _ Hok He) as Hk. eapply keeps_trans; [exact Hk|].
  apply IH; [apply Hk|done].
Qed.

Lemma accept_loop_spec bl w bl' w' : ok w -> accept_loop bl w = Ok (bl', w') -> keeps w w'.
Proof.
  revert w. induction bl as [|k bl IH]; intros w Hok; cbn; [intros [= <- <-]; by apply keeps_same|].
  destruct (fds w) as [|fd rest] eqn:Ef; [intros [= <- <-]; by apply keeps_same|].
  set (w1 := set_fds rest w).
  assert (keeps w w1) as Hk1.
  { destruct Hok as [H1 H2 H3]. rewrite Ef in H2, H3. apply list.NoDup_cons in H2 as [_ H2].
    split_and!; [|by apply calm_same|done]. split; [done..|]. intros x Hx. apply H3. by right. }
  destruct (0 <? fd); [|intros [= <- <-]; done]. intros H.
  destruct (new_connection fd k w1) as [w2|] eqn:Hn; [|done].
  destruct (new_connection_spec fd k w1 w2) as [Hk2 _]; [apply Hk1| | |done|].
  - apply (ok_fresh _ Hok). rewrite Ef. left.
  - pose proof (ok_nodup _ Hok) as Hnd. rewrite Ef in Hnd. by apply list.NoDup_cons in Hnd as [? _].
  - eapply keeps_trans; [exact Hk1|]. eapply keeps_trans; [exact Hk2|]. apply IH; [apply Hk2|done].
Qed.

(** Bytes that are left were there, and a read that meets EAGAIN leaves none. *)
Lemma sys_read_spec n ch k r k' rd rd' wr : sys_read n ch k = (r, k') ->
  (wants (Stream k' rd' wr) = true -> wants (Stream k rd wr) = true) /\
  (r = IoAgain -> wants (Stream k' rd' wr) = false).
Proof.
  unfold sys_read, wants, input. destruct (c_read ch) as [m|]; [|by intros [= <- <-]].
  destruct (k_err k) eqn:Ee; [intros [= <- <-]; by rewrite orb_true_r|].
  case_bool_decide as Hb; intros [= <- <-]; [|done]. rewrite Ee, (bool_decide_eq_true_2 _ Hb).
  by destruct (k_eof k).
Qed.

(** A READ that does not ask for another call failed or met EAGAIN. *)
Lemma handle_read_false r rd rd' es : handle_read r rd = Ok (false, rd', es) -> read_failed r = true \/ r = IoAgain.
Proof.
  destruct r as [| |[|b bytes]]; cbn; [by left|by right|by left|]. destruct (Nat.eqb _ _); [|done].
  destruct (consume _ _) as [[s evs]|]; [|done]. cbn. by destruct (read_loop s).
Qed.

Lemma handle_event_spec h op w b w' : ok w -> handle_event h op w = Ok (b, w') ->
  keeps w w' /\ (op = ERROR \/ (op = READ /\ b = false) -> ~ unkept w' h).
Proof.
  intros Hok. unfold handle_event. destruct (next_choice w) as [ch w1] eqn:Hch.
  assert (keeps w w1) as Hk1.
  { unfold next_choice in Hch. destruct (tape w); injection Hch as <- <-; by apply keeps_same. }
  destruct (all_happen (c_env ch) w1) as [w2|] eqn:Hh; [|done]. cbn.
  assert (keeps w w2) as Hk2 by (eapply keeps_trans; [done|]; eapply all_happen_spec; [apply Hk1|done]).
  clear Hh Hk1 Hch. destruct (objs w2 !! h) as [o|] eqn:Ho; [|done]. cbn.
  assert (forall b1 w1, keeps w w1 -> is_Some (objs w1 !! h) -> Ok (b1, backend_del h w1) = Ok (b, w') ->
    keeps w w' /\ ~ unkept w' h) as Hdel.
  { intros b1 w0 Hk Hl [= -> <-]. destruct (del_spec h w0) as (? & ? & ?); [apply Hk|done|]. split; [|done].
    eapply keeps_trans; [exact Hk|]. by split_and!. }
  assert (forall o', (wants o' = true -> wants o = true) -> keeps w (set_obj h o' w2)) as Hset.
  { intros o' Hw. eapply keeps_trans; [exact Hk2|]. split_and!; [apply ok_set_obj; [apply Hk2|eauto]| |apply set_obj_live].
    by eapply calm_set_obj. }
  destruct o as [k rd wr|bl err f], op; cbn.
  - intros He. destruct (Hdel _ _ Hk2 ltac:(eauto) He). auto.
  - destruct (sys_read _ ch k) as [r k'] eqn:Er. destruct (handle_read r rd) as [[[b1 rd'] es]|] eqn:Hr; [|done]. cbn.
    destruct (sys_read_spec _ _ _ _ _ rd rd' wr Er) as [Hw Ha]. specialize (Hset _ Hw).
    set (w3 := hand h es _). assert (keeps w w3) as Hk3 by (eapply keeps_trans; [exact Hset|]; apply keeps_same; [apply Hset|done..]).
    destruct (read_failed r) eqn:Ef; intros He.
    + destruct (Hdel _ _ Hk3 ltac:(apply set_obj_live; eauto) He). auto.
    + injection He as -> <-. split; [done|]. intros [?|[_ ->]]; [done|]. apply handle_read_false in Hr as [?|Hr]; [congruence|].
      intros (y & Hy & _ & Hy' & _). cbn in Hy. rewrite lookup_insert_eq in Hy. injection Hy as <-. rewrite (Ha Hr) in Hy'. done.
  - destruct (c_lock ch); [|intros [= <- <-]; split; [done|naive_solver]].
    destruct (handle_write _ wr) as [b1 wr']. specialize (Hset (Stream k rd wr') ltac:(done)).
    destruct (mclosed wr'); intros He; [destruct (Hdel _ _ Hset ltac:(apply set_obj_live; eauto) He); auto|].
    injection He as -> <-. split; [done|naive_solver].
  - intros [= <- <-]. split; [done|naive_solver].
  - intros He. destruct (Hdel _ _ Hk2 ltac:(eauto) He). auto.
  - destruct (accept_loop bl w2) as [[bl' w3]|] eqn:Ha; [|done]. cbn.
    pose proof (accept_loop_spec _ _ _ _ (proj1 Hk2) Ha) as Hk3. destruct (proj2 (proj2 Hk3) h ltac:(eauto)) as [o3 Ho3].
    set (o' := Accept bl' err _). assert (wants o' = false) as Hw by (cbn; by destruct (bool_decide _)).
    intros [= <- <-]. split.
    + eapply keeps_trans; [exact Hk2|]. eapply keeps_trans; [exact Hk3|].
      split_and!; [apply ok_set_obj; [apply Hk3|eauto]| |apply set_obj_live]. eapply calm_set_obj; [done|congruence].
    + intros _ (y & Hy & _ & Hy' & _). cbn in Hy. rewrite lookup_insert_eq in Hy. injection Hy as <-. congruence.
  - intros [= <- <-]. split; [done|naive_solver].
  - intros [= <- <-]. split; [done|naive_solver].
Qed.

(** ** The loop *)
Definition fine (w : outcome world) : Prop := forall w', w = Ok w' -> ok w'.
Definition pending (w : outcome world) (h : Z) : Prop := exists w', w = Ok w' /\ unkept w' h.

Lemma handle_spec h op w : fine w ->
  fine (handle h op w).2 /\ (forall x, pending (handle h op w).2 x -> pending w x) /\
  (op = ERROR \/ (op = READ /\ (handle h op w).1 = false) -> ~ pending (handle h op w).2 h).
Proof.
  intros Hf. unfold handle. destruct w as [w|f]; cbn; [|split_and!; [done|by intros x (? & ? & _)|by intros _ (? & ? & _)]].
  destruct (handle_event h op w) as [[b w']|f] eqn:He; cbn; [|split_and!; [done|by intros x (? & ? & _)|by intros _ (? & ? & _)]].
  destruct (handle_event_spec _ _ _ _ _ (Hf w eq_refl) He) as [(Hok & Hc & _) Hd]. split_and!.
  - by intros ? [= <-].
  - intros x (? & [= <-] & Hx). exists w. auto.
  - intros Ho (? & [= <-] & Hx). by apply Hd in Hx.
Qed.

Definition kept (acts : gmap Z Epoll.events) (w : world) : Prop := forall h, unkept w h -> Epoll.in_bit acts h.

(** An edge that epoll_wait took is in what it returned. *)
Lemma edge_reported w w' hs x : objs w' = objs w -> epoll w' = epoll w -> edges w' = edges w ∖ list_to_set hs.*1 ->
  unkept w' x -> unkept w x \/ Epoll.reports (omap (event_of w) hs) x.
Proof.
  intros Ho He Hg (o & Hx & Hr & Hw & Hn). rewrite Ho in Hx. rewrite He in Hr. rewrite Hg in Hn.
  destruct (decide (x ∈ edges w)) as [Hin|]; [right|left; by exists o].
  assert (x ∈ hs.*1) as ([x' out] & -> & Hhs)%list_elem_of_fmap.
  { destruct (decide (x ∈ hs.*1)) as [|Hne]; [done|]. destruct Hn. apply elem_of_difference. by rewrite elem_of_list_to_set. }
  cbn in *. exists (Epoll.MkEvents (input o) out (errored o)).
  assert (input o = true \/ errored o = true) as Hio.
  { destruct o; cbn in *; apply orb_true_iff in Hw || apply andb_true_iff in Hw; tauto. }
  split; [|done]. apply list_elem_of_omap. exists (x', out). split; [done|]. unfold event_of, registered. cbn. rewrite Hx. cbn.
  rewrite !bool_decide_eq_true_2 by done. destruct Hio as [-> | ->]; rewrite ?orb_true_r; done.
Qed.

Lemma step_spec e acts w acts' w' : ok w -> kept acts w -> step e acts w = Ok (acts', w') -> ok w' /\ kept acts' w'.
Proof.
  intros Hok Hk. destruct e as [e|hs t]; cbn.
  - destruct (happens e w) as [w1|] eqn:He; [|done]. intros [= <- <-].
    destruct (happens_spec _ _ _ Hok He) as (? & Hc & _). split; [done|]. intros h Hh. auto.
  - unfold turn. set (w1 := set_tape _ _). destruct (Epoll.turn handle _ acts (Ok w1)) as [a r] eqn:Ht.
    destruct r as [w2|]; [|done]. intros [= <- <-].
    assert (fine (Ok w1)) as Hf by (intros ? [= <-]; by eapply ok_same).
    destruct (Epoll.turn_keeps handle fine pending) with (6 := Ht) as [Hf' Hp]; [..|done|].
    + intros. by apply handle_spec.
    + intros h op w0 h' Hw0. by apply handle_spec.
    + intros h w0 Hw0 Hb. apply handle_spec; auto.
    + intros h w0 Hw0. apply handle_spec; auto.
    + split; [by apply Hf'|]. intros h Hh. destruct (Hp h) as [(? & [= <-] & Hu) Hb]; [by exists w2|]. apply Hb.
      destruct (edge_reported w w1 hs h) as [Hu'|Hr]; [done..|right; auto|by left].
Qed.

Lemma run_spec es acts w acts' w' : ok w -> kept acts w -> run es acts w = Ok (acts', w') -> ok w' /\ kept acts' w'.
Proof.
  revert acts w. induction es as [|e es IH]; intros acts w Hok Hk; cbn; [by intros [= <- <-]|].
  destruct (step e acts w) as [[a1 w1]|] eqn:He; [|done]. destruct (step_spec _ _ _ _ _ Hok Hk He). by apply IH.
Qed.

Lemma loop_idle_ok : ok idle.
Proof.
  split; cbn; [|constructor|done]. exists []. split.
  - split; [done|by intros h ?%elem_of_nil|]. intros h _. unfold Epoll.ref. cbn. by rewrite lookup_empty.
  - intros h. split; [by intros ?%elem_of_nil|by intros [? ?]].
Qed.

(** C26: the loop over epoll with its stream handlers and acceptors forgets no input: over
    any sequence of what the network and other threads do, between the turns and before
    each call of a handler, and of turns of the loop, whatever part of the edges each
    epoll_wait reports, whatever reads, writes and accept return: a socket of the epoll
    set with bytes, an end of stream or an error, or with connections waiting, is one
    that the kernel has yet to report, or is in the activities for reading, so that the
    loop does not block in epoll_wait; the exception is an acceptor whose last accept
    failed (no descriptor left, or descriptor 0) while connections wait. *)
Theorem input_not_forgotten (es : list event) acts w h o :
  run es ∅ idle = Ok (acts, w) -> objs w !! h = Some o -> is_Some (Epoll.registered (epoll w) !! h) ->
  input o = true \/ (exists k rd wr, o = Stream k rd wr /\ k_err k = true) ->
  h ∈ edges w \/ (Epoll.in_bit acts h /\ Epoll.timeout acts = 0) \/
  exists bl err, o = Accept bl err true /\ bl <> [].
Proof.
  intros Hrun Ho Hr Hi. destruct (run_spec es ∅ idle acts w loop_idle_ok) as [_ Hk]; [by intros x (? & ? & _)|done|].
  destruct (decide (h ∈ edges w)) as [|Hn]; [by left|right].
  destruct (wants o) eqn:Hw.
  - left. assert (Epoll.in_bit acts h) as Hb by (apply Hk; by exists o). split; [done|by eapply Epoll.in_bit_timeout].
  - right. destruct o as [k rd wr|bl err f].
    + cbn in Hw, Hi. apply orb_false_iff in Hw as [Hw He]. destruct Hi as [Hi|(? & ? & ? & [= -> -> ->] & Hi)]; congruence.
    + destruct Hi as [Hi|(? & ? & ? & ? & _)]; [|done]. cbn in *. rewrite Hi in Hw. destruct f; [|done].
      exists bl, err. split; [done|]. intros ->. by rewrite bool_decide_eq_true_2 in Hi.
Qed.

(** That exception happens: when no descriptor is left, one turn of the loop leaves the
    connection waiting, the kernel has no edge of it and epoll_wait blocks; descriptors
    that become free later change nothing. *)
Theorem accept_failure_strands (bytes : list Z) :
  exists w, run [Env (EListen 3); Env (EConnect 3 bytes); Turn [(3, false)] []; Env (EFds [4; 5])] ∅ idle = Ok (∅, w) /\
    objs w !! 3 = Some (Accept [MkSock bytes false false] false true) /\ fds w = [4; 5] /\
    is_Some (Epoll.registered (epoll w) !! 3) /\ edges w = ∅ /\ Epoll.timeout (∅ : gmap Z Epoll.events) = -1.
Proof. eexists. split; [vm_compute; reflexivity|]. split_and!; [vm_compute; eauto..]. Qed.
End Loop.

(** ** Example: a connection is accepted and its first bytes are read

    The manager asks for buffers of two bytes and hands them on. *)
Module EpollLoopExamples.
#[local] Instance pairs : StreamManager unit (list Z) := {|
  get_buffer s := mret (2%nat, s);
  consume s b := mret (s, [b])
|}.

Definition demo : list event :=
  [Env (EFds [4; 5]); Env (EListen 3); Env (EConnect 3 [1; 2; 3]); Turn [(3, false)] [];
   Turn [(4, true)] [MkChoice [EInput 4 [6]] None true []; quiet]].

Definition demo_acts : gmap Z Epoll.events := {[4 := Epoll.MkEvents true false false]}.
Definition demo_end : world :=
  match run (fun _ => tt) demo ∅ idle with Ok (_, w) => w | Fault _ => idle end.

(** Both handlers ran: one byte of the four was read, the descriptor stays in the
    activities, and the input that came during the turn has its edge. *)
Lemma input_not_forgotten_witness :
  run (fun _ => tt) demo ∅ idle = Ok (demo_acts, demo_end) /\
  (4 ∈ edges demo_end \/ (Epoll.in_bit demo_acts 4 /\ Epoll.timeout demo_acts = 0) \/
   exists bl err, Stream (MkSock [2; 3; 6] false false) (MkReader tt 2 [1] true) new_writer = Accept (S := unit) bl err true /\ bl <> []).
Proof.
  split; [vm_compute; reflexivity|].
  apply (input_not_forgotten (fun _ => tt) demo demo_acts demo_end 4 (Stream (MkSock [2; 3; 6] false false) (MkReader tt 2 [1] true) new_writer)).
  - vm_compute. reflexivity.
  - vm_compute. reflexivity.
  - eexists. vm_compute. reflexivity.
  - left. reflexivity.
Defined.
End EpollLoopExamples.
