(* ===== verification/Client.v ===== *)
(** * The client library

    src/client.cpp and include/mola/client.hpp: the requests and the message cache of
    a ClientConn.  Threads of the program call recv_message, the thread of the
    multiplexer calls deliver_message; both hold m_lock except while they wait on
    m_condvar, so that a step is a critical section.  Which waiter notify_one
    wakes is up to the system.  The test in deliver_message that the target is this
    client, which compares ids, is left out; a callback is a number. *)
From stdpp Require Import base list gmap strings numbers.
From Stdlib Require Import String.
From S2P Require Import Prelude.

#[local] Open Scope string_scope.
#[local] Open Scope Z_scope.
#[local] Open Scope list_scope.

#[local] Abbreviation length := List.length.

Definition star : string := "*".

(** A std::multimap keeps its keys in order and equal keys in the order they came. *)
Fixpoint emplace (k : string) (v : Z) (m : list (string * Z)) : list (string * Z) :=
  match m with
  | [] => [(k, v)]
  | (k', v') :: m' => if String.leb k' k then (k', v') :: emplace k v m' else (k, v) :: m
  end.

(** begin() for the wild card, else find(mo), and the cache without that entry; of equal
    keys find gives the first, as the GNU library does. *)
Fixpoint take_msg (mo : string) (m : list (string * Z)) : option (string * Z * list (string * Z)) :=
  match m with
  | [] => None
  | (k, v) :: m =>
      if bool_decide (mo = star) || bool_decide (k = mo) then Some (k, v, m)
      else '(e, rest) ← take_msg mo m; Some (e, (k, v) :: rest)
  end.

(** The connection; [waiting] are the threads in m_condvar.wait with the module they
    want, [woken] those that were notified and have not got the lock yet. *)
Record conn := MkConn {
  m_msg_cache : list (string * Z);
  m_pending : gmap string Z;
  m_req_states : gmap Z Z;
  waiting : list (Z * string);
  woken : list (Z * string)
}.

Definition pending (mo : string) (c : conn) : Z := default 0 (m_pending c !! mo).
Definition set_pending (mo : string) (n : Z) (c : conn) : conn :=
  MkConn (m_msg_cache c) (<[mo := n]> (m_pending c)) (m_req_states c) (waiting c) (woken c).

(** One round of the loop of recv_message: the message with its module, or the thread
    waits. *)
Definition recv_round (t : Z) (mo : string) (c : conn) : option (string * Z) * conn :=
  match take_msg mo (m_msg_cache c) with
  | Some (k, v, m) => (Some (k, v), MkConn m (m_pending c) (m_req_states c) (waiting c) (woken c))
  | None =>
      let c := set_pending mo (pending mo c + 1) c in
      (None, MkConn (m_msg_cache c) (m_pending c) (m_req_states c) (waiting c ++ [(t, mo)]) (woken c))
  end.

(** A thread that was woken goes on. *)
Definition recv_again (t : Z) (mo : string) (l1 l2 : list (Z * string)) (c : conn)
  : option (string * Z) * conn :=
  recv_round t mo
    (set_pending mo (pending mo c - 1)
       (MkConn (m_msg_cache c) (m_pending c) (m_req_states c) (waiting c) (l1 ++ l2))).

(** What deliver_message does with a message: the callback of a request, or the cache.  The
    flag says that notify_one is called. *)
Inductive delivery := Called (callback : Z) | Cached (notify : bool).

Definition deliver_message (reqid : Z) (mo : string) (v : Z) (c : conn) : delivery * conn :=
  match m_req_states c !! reqid with
  | Some cb =>
      (Called cb, MkConn (m_msg_cache c) (m_pending c) (delete reqid (m_req_states c)) (waiting c) (woken c))
  | None =>
      (Cached ((0 <? pending mo c) || (0 <? pending star c)),
       MkConn (emplace mo v (m_msg_cache c)) (m_pending c) (m_req_states c) (waiting c) (woken c))
  end.

(** notify_one wakes the waiter between [w1] and [w2]. *)
Definition wake (w : Z * string) (w1 w2 : list (Z * string)) (c : conn) : conn :=
  MkConn (m_msg_cache c) (m_pending c) (m_req_states c) (w1 ++ w2) (woken c ++ [w]).

(** send_message with a callback: [r] are the values of rand(), the first that is not 0
    is the id; an id that is in use keeps its old callback.  The rest is the plain
    send_message. *)
Fixpoint choose_reqid (r : list Z) : option Z :=
  match r with
  | [] => None
  | x :: r => if u32 x =? 0 then choose_reqid r else Some (u32 x)
  end.

Definition register (reqid cb : Z) (c : conn) : conn :=
  match m_req_states c !! reqid with
  | Some _ => c
  | None => MkConn (m_msg_cache c) (m_pending c) (<[reqid := cb]> (m_req_states c)) (waiting c) (woken c)
  end.

(** ** Executions *)

(** What happened: a message was put in the cache or received. *)
Inductive event := EPut (mo : string) (v : Z) | EGot (mo : string) (v : Z).

Definition got (r : option (string * Z)) : list event :=
  match r with Some (k, v) => [EGot k v] | None => [] end.

(** [allowed]: the modules that the threads of the program ask for. *)
Inductive step (allowed : string -> Prop) : conn * list event -> conn * list event -> Prop :=
| step_recv c es t mo :
    allowed mo -> step allowed (c, es) ((recv_round t mo c).2, es ++ got (recv_round t mo c).1)
| step_again c es t mo l1 l2 :
    woken c = l1 ++ (t, mo) :: l2 ->
    step allowed (c, es) ((recv_again t mo l1 l2 c).2, es ++ got (recv_again t mo l1 l2 c).1)
| step_register c es reqid cb : step allowed (c, es) (register reqid cb c, es)
| step_called c es reqid mo v cb c' :
    deliver_message reqid mo v c = (Called cb, c') -> step allowed (c, es) (c', es)
| step_quiet c es reqid mo v b c' :
    deliver_message reqid mo v c = (Cached b, c') -> (b = true -> waiting c' = []) ->
    step allowed (c, es) (c', es ++ [EPut mo v])
| step_notify c es reqid mo v c' w w1 w2 :
    deliver_message reqid mo v c = (Cached true, c') -> waiting c' = w1 ++ w :: w2 ->
    step allowed (c, es) (wake w w1 w2 c', es ++ [EPut mo v])
| step_spurious c es w w1 w2 :
    waiting c = w1 ++ w :: w2 -> step allowed (c, es) (wake w w1 w2 c, es).

Definition new_conn : conn := MkConn [] ∅ ∅ [] [].

(** ** Messages of a module are received in the order they came *)
Definition puts (k : string) (es : list event) : list Z :=
  omap (fun e => match e with EPut k' v => if bool_decide (k' = k) then Some v else None | _ => None end) es.
Definition gots (k : string) (es : list event) : list Z :=
  omap (fun e => match e with EGot k' v => if bool_decide (k' = k) then Some v else None | _ => None end) es.
Definition of_key (k : string) (m : list (string * Z)) : list Z :=
  omap (fun e => if bool_decide (e.1 = k) then Some e.2 else None) m.

#[local] Arguments of_key : simpl never.
#[local] Arguments puts : simpl never.
#[local] Arguments gots : simpl never.

Definition fifo (k : string) (s : conn * list event) : Prop :=
  puts k s.2 = gots k s.2 ++ of_key k (m_msg_cache s.1).

Lemma leb_refl s : String.leb s s = true.
Proof.
  unfold String.leb. assert (String.compare s s = Eq) as ->; [|done].
  induction s as [|c s IH]; cbn; [done|]. unfold Ascii.compare. by rewrite N.compare_refl.
Qed.

Lemma leb_trans a b c : String.leb a b = true -> String.leb b c = true -> String.leb a c = true.
Proof.
  unfold String.leb. revert b c; induction a as [|x a IH]; intros [|y b] [|z c]; cbn; try done.
  unfold Ascii.compare.
  destruct (N.compare_spec (Ascii.N_of_ascii x) (Ascii.N_of_ascii y)) as [Hxy|Hxy|Hxy]; try done;
    destruct (N.compare_spec (Ascii.N_of_ascii y) (Ascii.N_of_ascii z)) as [Hyz|Hyz|Hyz]; try done;
    destruct (N.compare_spec (Ascii.N_of_ascii x) (Ascii.N_of_ascii z)) as [Hxz|Hxz|Hxz]; try done; try lia.
  apply IH.
Qed.

(** The keys of the cache are in order. *)
Fixpoint ordered (m : list (string * Z)) : Prop :=
  match m with
  | [] => True
  | (k, _) :: m => Forall (fun e => String.leb k e.1 = true) m /\ ordered m
  end.

Lemma emplace_ordered k v m : ordered m -> ordered (emplace k v m).
Proof.
  induction m as [|[k' v'] m IH]; cbn; [done|]. intros [Hall Ho]. destruct (String.leb k' k) eqn:E; cbn.
  - split; [|by apply IH]. clear IH Ho. induction Hall as [|[k2 v2] m Hk Hall IH]; cbn.
    + by constructor.
    + destruct (String.leb k2 k); constructor; try done; by constructor.
  - assert (String.leb k k' = true) as Hle by (destruct (String.leb_total k k'); congruence).
    split; [|done]. constructor; [done|]. eapply list.Forall_impl; [exact Hall|].
    intros e He. by eapply leb_trans.
Qed.

Lemma of_key_cons x k v m : of_key x ((k, v) :: m) = (if bool_decide (k = x) then [v] else []) ++ of_key x m.
Proof. unfold of_key. cbn. by destruct (bool_decide (k = x)). Qed.

Lemma of_key_emplace k k' v m : ordered m ->
  of_key k (emplace k' v m) = of_key k m ++ (if bool_decide (k' = k) then [v] else []).
Proof.
  induction m as [|[k2 v2] m IH]; intros Ho; cbn [emplace]; [rewrite of_key_cons; apply app_nil_r|].
  destruct Ho as [Hall Ho]. destruct (String.leb k2 k') eqn:E; rewrite !of_key_cons.
  - by rewrite IH, app_assoc.
  - case_bool_decide; [subst|by rewrite app_nil_r].
    rewrite bool_decide_eq_false_2 by (intros ->; by rewrite leb_refl in E).
    assert (of_key k m = []) as ->; [|done].
    clear IH Ho. induction Hall as [|[k3 v3] l He Hl IHl]; [done|]. rewrite of_key_cons, IHl.
    rewrite bool_decide_eq_false_2; [done|]. intros ->. cbn in He. congruence.
Qed.

(** What take_msg takes of a key is the first of that key. *)
Lemma take_msg_spec mo m k v rest : take_msg mo m = Some (k, v, rest) ->
  (mo = star \/ k = mo) /\ (ordered m -> ordered rest) /\
  forall x, of_key x m = (if bool_decide (k = x) then [v] else []) ++ of_key x rest.
Proof.
  revert rest; induction m as [|[k' v'] m IH]; intros rest; cbn; [done|].
  destruct (bool_decide (mo = star) || bool_decide (k' = mo)) eqn:E.
  - intros [= <- <- <-]. split; [apply orb_true_iff in E as [E|E]; apply bool_decide_eq_true in E; auto|].
    split; [by intros [_ ?]|]. intros x. apply of_key_cons.
  - destruct (take_msg mo m) as [[e r]|] eqn:Et; cbn; [|done]. intros [= -> <-].
    destruct (IH r eq_refl) as (H1 & H2 & H3). split; [done|].
    assert (forall P, Forall P m -> Forall P r) as Hsub.
    { clear -Et. revert k v r Et. induction m as [|[k2 v2] m IH]; intros k v r; cbn; [done|].
      destruct (_ || _); [intros [= <- <- <-] P HP; by apply Forall_cons_1 in HP as [_ ?]|].
      destruct (take_msg mo m) as [[[k3 v3] r3]|] eqn:E3; cbn; [|done].
      intros [= <- <- <-] P [Hh Ht]%Forall_cons_1. constructor; [done|]. by apply (IH _ _ _ eq_refl). }
    split.
    + cbn. intros [Hall Ho]. split; [by apply Hsub|auto].
    + intros x. rewrite !of_key_cons, (H3 x). apply orb_false_iff in E as [E1 E2].
      apply bool_decide_eq_false in E1, E2. destruct H1 as [H1| ->]; [done|].
      destruct (decide (k' = x)) as [->|Hx]; [|by rewrite (bool_decide_eq_false_2 (k' = x))].
      by rewrite (bool_decide_eq_false_2 (mo = x)) by congruence.
Qed.

Lemma puts_app k es es' : puts k (es ++ es') = puts k es ++ puts k es'.
Proof. apply omap_app. Qed.
Lemma gots_app k es es' : gots k (es ++ es') = gots k es ++ gots k es'.
Proof. apply omap_app. Qed.

Lemma gots_got x k v : gots x [EGot k v] = if bool_decide (k = x) then [v] else [].
Proof. unfold gots. cbn. by destruct (bool_decide (k = x)). Qed.
Lemma puts_put x k v : puts x [EPut k v] = if bool_decide (k = x) then [v] else [].
Proof. unfold puts. cbn. by destruct (bool_decide (k = x)). Qed.

Definition kept (s : conn * list event) : Prop := ordered (m_msg_cache s.1) /\ forall k, fifo k s.

Lemma recv_round_kept t mo c es : kept (c, es) ->
  kept ((recv_round t mo c).2, es ++ got (recv_round t mo c).1).
Proof.
  intros [Ho Hf]. unfold recv_round. destruct (take_msg mo (m_msg_cache c)) as [[[k v] m]|] eqn:E; cbn.
  - destruct (take_msg_spec _ _ _ _ _ E) as (_ & Hor & Hk). split; [by apply Hor|]. intros x. specialize (Hf x). unfold fifo in *. cbn [fst snd m_msg_cache got] in *.
    rewrite puts_app, gots_app, gots_got, Hf, Hk.
    change (puts x [EGot k v]) with (@nil Z). by rewrite app_nil_r, app_assoc.
  - rewrite app_nil_r. done.
Qed.

Lemma deliver_kept reqid mo v c b c' es : kept (c, es) -> deliver_message reqid mo v c = (Cached b, c') ->
  kept (c', es ++ [EPut mo v]).
Proof.
  intros [Ho Hf]. unfold deliver_message. destruct (m_req_states c !! reqid); [done|]. intros [= _ <-].
  split; cbn; [by apply emplace_ordered|]. intros x. specialize (Hf x). unfold fifo in *.
  cbn [fst snd m_msg_cache] in *. rewrite puts_app, gots_app, puts_put, Hf, of_key_emplace by done.
  change (gots x [EPut mo v]) with (@nil Z). by rewrite app_nil_r, app_assoc.
Qed.

Lemma step_kept allowed s s' : kept s -> step allowed s s' -> kept s'.
Proof.
  intros Hk Hs. destruct Hs; try done.
  - by apply recv_round_kept.
  - unfold recv_again. apply recv_round_kept. exact Hk.
  - unfold register. by destruct (m_req_states c !! reqid).
  - revert H. unfold deliver_message. destruct (m_req_states c !! reqid); [|done]. by intros [= _ <-].
  - by eapply deliver_kept.
  - change (kept (c', es ++ [EPut mo v])). by eapply deliver_kept.
Qed.

(** C28: what a client receives: over any interleaving of receivers, deliveries,
    requests and wake-ups, the messages of each module that were received followed by
    those in the cache are the messages that were put there, in their order, so that none is
    lost, received twice or overtaken by another of its module. *)
Theorem client_fifo (allowed : string -> Prop) (c : conn) (es : list event) (k : string) :
  rtc (step allowed) (new_conn, []) (c, es) ->
  puts k es = gots k es ++ of_key k (m_msg_cache c).
Proof.
  intros Hr. assert (kept (c, es)) as [_ Hf]; [|by apply (Hf k)].
  revert Hr. generalize (c, es). apply rtc_ind_r; [done|]. intros s1 s2 _ Hs IH. by eapply step_kept.
Qed.

(** ** Who is woken *)
Lemma length_emplace k k' v m : length (of_key k (emplace k' v m)) =
  (length (of_key k m) + if bool_decide (k' = k) then 1 else 0)%nat.
Proof.
  induction m as [|[k2 v2] m IH]; cbn [emplace].
  - rewrite of_key_cons. by destruct (bool_decide (k' = k)).
  - destruct (String.leb k2 k'); rewrite !of_key_cons, !length_app, ?IH, ?of_key_cons, ?length_app;
      destruct (bool_decide (k' = k)); cbn; lia.
Qed.

(** All threads ask for the module [mo]. *)
Record woken_enough (mo : string) (c : conn) : Prop := {
  we_same : Forall (fun w => w.2 = mo) (waiting c ++ woken c);
  we_pending : pending mo c = Z.of_nat (length (waiting c) + length (woken c));
  we_enough : waiting c <> [] -> (length (of_key mo (m_msg_cache c)) <= length (woken c))%nat
}.

Lemma pending_set mo n c : pending mo (set_pending mo n c) = n.
Proof. unfold pending, set_pending. cbn. by rewrite lookup_insert_eq. Qed.

Lemma take_none mo m : take_msg mo m = None -> of_key mo m = [].
Proof.
  induction m as [|[k v] m IH]; [done|]. cbn [take_msg]. destruct (_ || _) eqn:E; [done|].
  destruct (take_msg mo m) as [[e r]|]; [done|]. intros _. apply orb_false_iff in E as [_ E].
  rewrite of_key_cons, E, IH; done.
Qed.

Lemma recv_round_enough t mo c : mo <> star ->
  Forall (fun w => w.2 = mo) (waiting c ++ woken c) ->
  pending mo c = Z.of_nat (length (waiting c) + length (woken c)) ->
  (waiting c <> [] -> (length (of_key mo (m_msg_cache c)) <= S (length (woken c)))%nat) ->
  woken_enough mo (recv_round t mo c).2.
Proof.
  intros Hstar Hs Hp He. unfold recv_round. destruct (take_msg mo (m_msg_cache c)) as [[[k v] m]|] eqn:E; cbn.
  - destruct (take_msg_spec _ _ _ _ _ E) as ([?| ->] & _ & Hk); [done|]. split; try done. cbn. intros Hw.
    specialize (He Hw). rewrite (Hk mo), bool_decide_eq_true_2 in He by done. cbn in He. lia.
  - split; cbn.
    + rewrite Forall_app in *. destruct Hs as [H1 H2]. split; [|done]. apply Forall_app. split; [done|by constructor].
    + unfold pending in *. cbn. rewrite lookup_insert_eq. cbn. rewrite Hp, length_app. cbn. lia.
    + intros _. rewrite (take_none _ _ E). cbn. lia.
Qed.

Lemma wake_enough mo w w1 w2 c c0 :
  waiting c = w1 ++ w :: w2 -> Forall (fun w => w.2 = mo) (waiting c ++ woken c) ->
  pending mo c = Z.of_nat (length (waiting c) + length (woken c)) ->
  (length (of_key mo (m_msg_cache c)) <= S c0)%nat -> c0 = length (woken c) ->
  woken_enough mo (wake w w1 w2 c).
Proof.
  intros Hw Hs Hp He ->. split; cbn.
  - rewrite Hw in Hs. rewrite !Forall_app, Forall_cons_iff in Hs. destruct Hs as [[H1 [H2 H3]] H4].
    rewrite !Forall_app. repeat split; try done. by constructor.
  - unfold pending in *. cbn. rewrite Hp, Hw, !length_app. cbn. lia.
  - intros _. rewrite length_app. cbn. lia.
Qed.

Lemma step_enough mo s s' : mo <> star ->
  woken_enough mo s.1 -> step (fun m => m = mo) s s' -> woken_enough mo s'.1.
Proof.
  intros Hstar Hk Hs.
  destruct Hs as [c es t m ->|c es t m l1 l2 Hw|c es r cb|c es r m v cb c' Hd|c es r m v b c' Hd Hq|c es r m v c' w w1 w2 Hd Hw
    |c es w w1 w2 Hw]; cbn in *.
  - destruct Hk as [Hf Hp He]. apply recv_round_enough; try done. intros Hne. specialize (He Hne). lia.
  - destruct Hk as [Hf Hp He]. rewrite Hw in Hf, Hp. rewrite !Forall_app, Forall_cons_iff in Hf.
    destruct Hf as (H1 & H2 & H3 & H4). cbn in H3. subst m. apply recv_round_enough; cbn; try done.
    + by rewrite !Forall_app.
    + rewrite pending_set. unfold pending in *. cbn. rewrite Hp, !length_app. cbn. lia.
    + intros Hne. specialize (He Hne). rewrite Hw, length_app in He. rewrite length_app. cbn in He. lia.
  - unfold register. destruct (m_req_states c !! r); [done|]. destruct Hk. by split.
  - revert Hd. unfold deliver_message. destruct (m_req_states c !! r); [|done]. intros [= _ <-]. destruct Hk. by split.
  - revert Hd Hq. unfold deliver_message. destruct (m_req_states c !! r); [done|]. intros [= Hb <-] Hq. cbn in Hq.
    destruct Hk as [Hf Hp He]. split; try done. cbn. intros Hne. rewrite length_emplace.
    destruct (decide (m = mo)) as [->|Hm]; [|rewrite bool_decide_eq_false_2 by done; specialize (He Hne); lia].
    destruct b; [by destruct Hne; auto|]. apply orb_false_iff in Hb as [Hb _]. apply Z.ltb_ge in Hb.
    destruct (waiting c); [done|]. cbn in Hp. lia.
  - revert Hd Hw. unfold deliver_message. destruct (m_req_states c !! r); [done|]. intros [= Hb <-] Hw. cbn in Hw.
    destruct Hk as [Hf Hp He]. eapply wake_enough; try done. cbn. rewrite length_emplace.
    rewrite Hw in He. specialize (He ltac:(by destruct w1)). destruct (bool_decide (m = mo)); lia.
  - destruct Hk as [Hf Hp He]. eapply wake_enough; try done. rewrite Hw in He. specialize (He ltac:(by destruct w1)). lia.
Qed.

(** When all threads of the program ask for one module, no message lies unnoticed:
    over any interleaving, if a message of the module is in the cache and a thread
    waits for it, then a thread has been notified and is about to look. *)
Theorem same_module_noticed (mo : string) (c : conn) (es : list event) :
  mo <> star -> rtc (step (fun m => m = mo)) (new_conn, []) (c, es) ->
  waiting c <> [] -> of_key mo (m_msg_cache c) <> [] -> woken c <> [].
Proof.
  intros Hstar Hr Hw Hc Hn. assert (woken_enough mo (c, es).1) as [_ _ He].
  { revert Hr. generalize (c, es). apply rtc_ind_r; [by split|]. intros s1 s2 _ Hs IH. by eapply step_enough. }
  specialize (He Hw). cbn in He. rewrite Hn in He. destruct (of_key mo (m_msg_cache c)); [done|]. cbn in He. lia.
Qed.

(** With threads that ask for different modules a message can lie unnoticed: the one
    condition variable serves all modules, notify_one may wake a thread that wants
    another module, and that thread waits again without waking anybody else. *)
Theorem other_module_unnoticed : exists c es,
  rtc (step (fun _ => True)) (new_conn, []) (c, es) /\
  of_key "A" (m_msg_cache c) = [7] /\ (1, "A") ∈ waiting c /\ woken c = [].
Proof.
  set (c1 := (recv_round 2 "B" (recv_round 1 "A" new_conn).2).2).
  set (c2 := wake (2, "B") [(1, "A")] [] (deliver_message 0 "A" 7 c1).2).
  set (c3 := (recv_again 2 "B" [] [] c2).2).
  exists c3, [EPut "A" 7]. split.
  - eapply rtc_l; [by apply (step_recv _ _ _ 1 "A")|].
    eapply rtc_l; [by apply (step_recv _ _ _ 2 "B")|].
    eapply rtc_l; [by apply (step_notify _ _ _ 0 "A" 7 (deliver_message 0 "A" 7 c1).2 (2, "B") [(1, "A")] [])|].
    eapply rtc_l; [by apply (step_again _ _ _ 2 "B" [] [])|]. apply rtc_refl.
  - split; [reflexivity|]. split; [constructor|reflexivity].
Qed.

(** ** Requests *)

(** The reply to a request calls the callback of that request once, and a second
    reply goes to the cache; but an id that rand drew before and that is still in
    use keeps its old callback, which then gets the reply to the new request,
    whose own callback is never called. *)
Theorem request_callback (r cb cb0 v v' : Z) (mo mo' : string) (c : conn) :
  (m_req_states c !! r = None ->
   deliver_message r mo v (register r cb c) = (Called cb, c) /\
   exists b c', deliver_message r mo' v' c = (Cached b, c')) /\
  (m_req_states c !! r = Some cb0 ->
   register r cb c = c /\
   exists c' b c'', deliver_message r mo v (register r cb c) = (Called cb0, c') /\
     deliver_message r mo' v' c' = (Cached b, c'')).
Proof.
  unfold deliver_message, register. split; intros Hr; rewrite Hr.
  - cbn. rewrite lookup_insert_eq, delete_insert_id by done. split; [by destruct c|]. by eexists _, _.
  - split; [done|]. rewrite Hr. eexists _, _, _. split; [done|]. cbn. by rewrite lookup_delete_eq.
Qed.

(** ** Witnesses *)
Definition one_waits : conn := (deliver_message 0 "A" 7 (recv_round 1 "A" new_conn).2).2.
Definition one_woken : conn := wake (1, "A") [] [] one_waits.

Lemma one_woken_reached (allowed : string -> Prop) : allowed "A" ->
  rtc (step allowed) (new_conn, []) (one_woken, [EPut "A" 7]).
Proof.
  intros Ha. eapply rtc_l; [by apply (step_recv _ _ _ 1 "A")|].
  eapply rtc_l; [by apply (step_notify _ _ _ 0 "A" 7 one_waits (1, "A") [] [])|]. apply rtc_refl.
Qed.

Lemma client_fifo_witness :
  puts "A" [EPut "A" 7] = gots "A" [EPut "A" 7] ++ of_key "A" (m_msg_cache one_woken).
Proof. apply (client_fifo (fun _ => True) one_woken [EPut "A" 7] "A"). by apply one_woken_reached. Defined.

(** Two threads wait; the first is notified of the message. *)
Definition two_wait : conn := (deliver_message 0 "A" 7 (recv_round 2 "A" (recv_round 1 "A" new_conn).2).2).2.

Lemma same_module_noticed_witness : woken (wake (1, "A") [] [(2, "A")] two_wait) <> [].
Proof.
  apply (same_module_noticed "A" (wake (1, "A") [] [(2, "A")] two_wait) [EPut "A" 7]); try discriminate.
  eapply rtc_l; [by apply (step_recv _ _ _ 1 "A")|].
  eapply rtc_l; [by apply (step_recv _ _ _ 2 "A")|].
  eapply rtc_l; [by apply (step_notify _ _ _ 0 "A" 7 two_wait (1, "A") [] [(2, "A")])|]. apply rtc_refl.
Defined.

Lemma request_callback_witness :
  deliver_message 9 "A" 7 (register 9 4 new_conn) = (Called 4, new_conn).
Proof. apply (request_callback 9 4 0 7 8 "A" "A" new_conn). reflexivity. Defined.
