(* ===== verification/ClientSend.v ===== *)
(** * The sending side of the client library

    ClientConn::send_message of src/client.cpp with what it calls of
    src/node_manager.cpp (query_node_with_module and Node::deliver_message as
    they are compiled with CLIENT_CONTEXT, local_node_id) and of
    include/mola/node_manager.hpp (add_delay_task).  The load balancer is that of
    LoadBalancer.v, the pool of delayed tasks that of NodeManager.v.

    The actor id of a client is an argument of the model: it is built from a 64-bit
    number by a constructor that include/mola/actor_id.hpp no longer has; only its
    node id, which connect sets, is used here. *)
From stdpp Require Import base list gmap strings numbers.
From S2P Require Import Prelude ActorId Message LoadBalancer Dispatcher NodeManager.

#[local] Open Scope Z_scope.
#[local] Open Scope list_scope.
#[local] Arguments wrap : simpl never.
#[local] Abbreviation length := List.length.

(** ** The state *)

(** What is written to the connection of a node. *)
Inductive write := Handshake (nid : Z) | Msg (m : metadata).

(** A node of m_alive_nodes; [cn_client]: it has a client, [cn_wire]: what was written to it. *)
Record cnode := MkCNode {
  cn_id : Z;
  cn_modules : list Z;
  cn_client : bool;
  cn_wire : list write
}.

(** [c_static] is the static variable of Node::local_node_id, one for the process;
    [c_local] the id of this connection's own node, [c_mids] what the registry answers
    for a module name, [c_nodes] the node table in the order of the ids. *)
Record cstate := MkC {
  c_static : option Z;
  c_local : Z;
  c_cid : ActorID;
  c_mids : gmap string Z;
  c_nodes : list cnode
}.

(** The closure that send_message makes. *)
Record task := MkTask { t_mod : string; t_msg : metadata }.

Definition cn_has (mid : Z) (n : cnode) : bool := existsb (Z.eqb mid) (cn_modules n).

Definition put_cnode (n : cnode) (l : list cnode) : list cnode :=
  map (fun o => if cn_id o =? cn_id n then n else o) l.
Definition with_nodes (l : list cnode) (s : cstate) : cstate :=
  MkC (c_static s) (c_local s) (c_cid s) (c_mids s) l.

(** ** The operations *)
Definition local_node_id (s : cstate) : Z * cstate :=
  match c_static s with
  | Some n => (n, s)
  | None => (c_local s, MkC (Some (c_local s)) (c_local s) (c_cid s) (c_mids s) (c_nodes s))
  end.

Definition get_module_id (mo : string) (s : cstate) : Z := default ModuleIds.invalid_id (c_mids s !! mo).

Definition candidates (mid : Z) (s : cstate) : list cnode := List.filter (cn_has mid) (c_nodes s).

Definition append_wire (ws : list write) (n : cnode) : cnode :=
  MkCNode (cn_id n) (cn_modules n) true (cn_wire n ++ ws).

(** Node::deliver_message of a node with a client *)
Definition deliver (n : cnode) (m : metadata) (s : cstate) : outcome (Z * cstate) :=
  let '(nid, s) := local_node_id s in
  let m := set_target_node (cn_id n) (set_sender_node nid m) in
  _ ← mola_assert (cn_has (module_id (target m)) n);
  mret (0, with_nodes (put_cnode (append_wire [Msg m] n) (c_nodes s)) s).

Section Send.
(** Whether the node at an address can be connected. *)
Context (connect : Z -> bool).

(** send_message(node, message) *)
Definition send_to_node (n : cnode) (m : metadata) (s : cstate) : outcome (Z * cstate) :=
  if cn_client n then deliver n m s
  else
    _ ← mola_assert (connect (cn_id n));
    deliver (append_wire [Handshake (node_id (c_cid s))] n) m s.

(** The closure: -1 when the module or a node with it is not known yet. *)
Definition callback (t : task) (s : Z * cstate) : outcome (Z * (Z * cstate)) :=
  let mid := get_module_id (t_mod t) s.2 in
  if mid =? ModuleIds.invalid_id then mret (-1, s)
  else
    let cs := candidates mid s.2 in
    if (length cs =? 0)%nat then mret (-1, s)
    else
      let m := set_target (set_module_id mid (target (t_msg t))) (t_msg t) in
      '(n, s) ← select_one_node cs s;
      _ ← mola_assert (cn_has mid n);
      '(r, c) ← send_to_node n m s.2;
      mret (r, (s.1, c)).

Definition prepare (intf : Z) (m : metadata) (s : cstate) : metadata :=
  set_request (set_sender (c_cid s) (set_target4 ANY ANY intf ANY m)).

(** send_message(mod, intf, message) *)
Definition send_message (mo : string) (intf : Z) (m : metadata) (s : Z * cstate) (p : DelayPool.pool)
  : outcome (Z * (Z * cstate) * DelayPool.pool) :=
  let t := MkTask mo (prepare intf m s.2) in
  '(r, s) ← callback t s;
  mret (0, s, if r =? 0 then p else DelayPool.add "NODE_CHANGE"%string t p).

(** A task of the pool; a process that aborted runs no more. *)
Definition run_delayed (t : task) (w : outcome (Z * cstate)) : Z * outcome (Z * cstate) :=
  match w with
  | Ok s => match callback t s with Ok (r, s) => (r, Ok s) | Fault e => (0, Fault e) end
  | Fault e => (0, Fault e)
  end.
End Send.

(** ** What one send does *)

(** Module ids are 16-bit numbers and the ids of the table are distinct. *)
Record cstate_wf (s : cstate) : Prop := {
  cw_ids : NoDup (map cn_id (c_nodes s));
  cw_mids : forall mo mid, c_mids s !! mo = Some mid -> in_width 16 mid
}.

Definition known (mo : string) (s : cstate) : bool :=
  negb (get_module_id mo s =? ModuleIds.invalid_id) &&
  existsb (cn_has (get_module_id mo s)) (c_nodes s).

(** The message as it is written for the node [n]. *)
Definition routed (t : task) (n : cnode) (s : cstate) : metadata :=
  set_target_node (cn_id n)
    (set_sender_node (default (c_local s) (c_static s))
       (set_target (set_module_id (get_module_id (t_mod t) s) (target (t_msg t))) (t_msg t))).

Definition greeting (n : cnode) (s : cstate) : list write :=
  if cn_client n then [] else [Handshake (node_id (c_cid s))].

(** [s'] is [s] after the message of [t] was written to [n]. *)
Definition after_send (t : task) (n : cnode) (s : cstate) : cstate :=
  MkC (Some (default (c_local s) (c_static s))) (c_local s) (c_cid s) (c_mids s)
    (put_cnode (append_wire (greeting n s ++ [Msg (routed t n s)]) n) (c_nodes s)).

Lemma cn_has_elem mid n : cn_has mid n = true <-> mid ∈ cn_modules n.
Proof.
  unfold cn_has. rewrite existsb_exists. split.
  - intros (x & Hx & ->%Z.eqb_eq). by apply list_elem_of_In.
  - intros H. exists mid. split; [by apply list_elem_of_In|apply Z.eqb_refl].
Qed.

Lemma select_one_node_in {A St} (cs : list A) (seed : Z) (st : St) : cs <> [] ->
  exists n seed', select_one_node cs (seed, st) = Ok (n, (seed', st)) /\ n ∈ cs.
Proof.
  intros Hcs. unfold select_one_node, random_below. cbn [fst snd].
  assert (0 < Z.of_nat (length cs)) as Hl by (destruct cs; cbn in *; [done|lia]).
  rewrite (proj2 (Z.ltb_lt _ _) Hl). cbn.
  set (i := WorkSteal.random seed mod Z.of_nat (length cs)).
  assert (0 <= i < Z.of_nat (length cs)) as Hi by (apply Z.mod_pos_bound; lia).
  destruct (lookup_lt_is_Some_2 cs (Z.to_nat i)) as [n Hn]; [lia|].
  exists n, (WorkSteal.random seed). rewrite Hn. split; [done|]. by eapply list_elem_of_lookup_2.
Qed.

Lemma send_to_node_ok connect t n s : (cn_client n = false -> connect (cn_id n) = true) ->
  in_width 16 (get_module_id (t_mod t) s) -> cn_has (get_module_id (t_mod t) s) n = true ->
  send_to_node connect n (set_target (set_module_id (get_module_id (t_mod t) s) (target (t_msg t))) (t_msg t)) s
  = Ok (0, after_send t n s).
Proof.
  intros Hc Hw Hn. unfold send_to_node, after_send, greeting, routed, deliver, local_node_id.
  assert (forall nd (m : metadata),
    module_id (target (set_target_node nd (set_sender_node (default (c_local s) (c_static s)) (set_target
      (set_module_id (get_module_id (t_mod t) s) (target (t_msg t))) m)))) = get_module_id (t_mod t) s) as Hm.
  { intros nd m. cbn. by apply wrap_small. }
  destruct (c_static s) as [st|] eqn:Est, (cn_client n) eqn:Ecl; cbn [default id from_option app] in *;
    rewrite ?Hc by done; cbn [mola_assert]; rewrite ?bind_ok; cbn [append_wire cn_id cn_modules];
    rewrite Hm; unfold cn_has in *; cbn [cn_modules append_wire]; rewrite Hn; cbn; do 2 f_equal;
    unfold with_nodes, append_wire; cbn; rewrite ?Est, <- ?app_assoc; done.
Qed.

(** A message of a known module is sent to a node with the module, unless the node chosen has
    no connection and cannot be connected: then the process stops. *)
Lemma callback_cases connect t seed s : cstate_wf s -> known (t_mod t) s = true ->
  exists seed' n, n ∈ c_nodes s /\ cn_has (get_module_id (t_mod t) s) n = true /\
    callback connect t (seed, s) =
      if cn_client n || connect (cn_id n) then Ok (0, (seed', after_send t n s)) else Fault AssertFailed.
Proof.
  intros [_ Hmids] Hk. unfold known in Hk. apply andb_true_iff in Hk as [Hv He].
  apply negb_true_iff in Hv. unfold callback. cbn [fst snd]. rewrite Hv.
  set (cs := candidates (get_module_id (t_mod t) s) s).
  assert (cs <> []) as Hcs.
  { apply existsb_exists in He as (n & Hn & Hh). intros E.
    assert (List.In n cs) as Hin by (by apply filter_In). by rewrite E in Hin. }
  assert ((length cs =? 0)%nat = false) as -> by (destruct cs; done).
  destruct (select_one_node_in cs seed s Hcs) as (n & seed' & Hsel & Hin).
  apply list_elem_of_In, filter_In in Hin as [Hin Hh]. exists seed', n. split; [by apply list_elem_of_In|].
  split; [done|]. rewrite Hsel, bind_ok, Hh. cbn [mola_assert]. rewrite bind_ok. cbn [fst snd].
  destruct (cn_client n || connect (cn_id n)) eqn:Ec.
  - rewrite send_to_node_ok; [done| | |done].
    + intros Hn. by rewrite Hn in Ec.
    + unfold get_module_id. destruct (c_mids s !! t_mod t) eqn:E; cbn; [by eapply Hmids|].
      unfold in_width, ModuleIds.invalid_id. lia.
  - apply orb_false_iff in Ec as [E1 E2]. unfold send_to_node. by rewrite E1, E2.
Qed.

Lemma callback_ok connect t seed s : (forall id, connect id = true) -> cstate_wf s ->
  known (t_mod t) s = true ->
  exists seed' n, callback connect t (seed, s) = Ok (0, (seed', after_send t n s)) /\
    n ∈ c_nodes s /\ cn_has (get_module_id (t_mod t) s) n = true.
Proof.
  intros Hc Hw Hk. destruct (callback_cases connect t seed s Hw Hk) as (seed' & n & Hin & Hh & E).
  exists seed', n. by rewrite E, Hc, orb_true_r.
Qed.

Lemma callback_unknown connect t s : known (t_mod t) s.2 = false -> callback connect t s = Ok (-1, s).
Proof.
  unfold known, callback. destruct (_ =? ModuleIds.invalid_id); [done|]. cbn. intros He.
  assert (candidates (get_module_id (t_mod t) s.2) s.2 = []) as ->; [|done].
  unfold candidates. induction (c_nodes s.2) as [|n l IH]; [done|]. cbn in *.
  apply orb_false_iff in He as [-> He]. by apply IH.
Qed.

(** Sending a message to a module never fails: when the module and a node with
    it are known, the message is written once, after the handshake if the
    connection is new, to a node that has the module, marked a request of this client
    to that module and interface; otherwise nothing is written and the message
    waits in the pool for the next change of the nodes. *)
Theorem client_send_spec (connect : Z -> bool) (mo : string) (intf seed : Z) (m : metadata)
    (s : cstate) (p : DelayPool.pool) :
  (forall id, connect id = true) -> cstate_wf s ->
  let t := MkTask mo (prepare intf m s) in
  (known mo s = true ->
   exists seed' n, send_message connect mo intf m (seed, s) p = Ok (0, (seed', after_send t n s), p) /\
     n ∈ c_nodes s /\ get_module_id mo s ∈ cn_modules n /\
     let w := routed t n s in
     type w = MOLA_MESSAGE_TYPE_REQUSET /\ reqid w = reqid m /\ msize w = msize m /\
     target w = new_ActorID (cn_id n) (get_module_id mo s) ANY intf) /\
  (known mo s = false ->
   send_message connect mo intf m (seed, s) p = Ok (0, (seed, s), DelayPool.add "NODE_CHANGE"%string t p)).
Proof.
  intros Hc Hw t. unfold send_message. cbn [fst snd]. fold t. split; intros Hk.
  - destruct (callback_ok connect t seed s Hc Hw Hk) as (seed' & n & -> & Hin & Hh).
    exists seed', n. split; [done|]. split; [done|]. split; [by apply cn_has_elem|]. by repeat split.
  - by rewrite callback_unknown.
Qed.

(** ** What stands on a connection *)
Definition wire_ok (s : cstate) (n : cnode) : Prop :=
  if cn_client n then exists ms, cn_wire n = Handshake (node_id (c_cid s)) :: map Msg ms
  else cn_wire n = [].

Definition wires_ok (s : cstate) : Prop :=
  NoDup (map cn_id (c_nodes s)) /\ Forall (wire_ok s) (c_nodes s).

Lemma put_cnode_ids n l : map cn_id (put_cnode n l) = map cn_id l.
Proof.
  unfold put_cnode. rewrite map_map. apply map_ext. intros o. destruct (Z.eqb_spec (cn_id o) (cn_id n)); congruence.
Qed.

Lemma after_send_wires t n s : n ∈ c_nodes s -> wires_ok s -> wires_ok (after_send t n s).
Proof.
  intros Hin [Hnd Hall]. split; cbn; [by rewrite put_cnode_ids|].
  unfold put_cnode. rewrite Forall_map. eapply list.Forall_impl; [exact Hall|].
  intros o Ho. cbn. destruct (_ =? _); [|done].
  rewrite list.Forall_forall in Hall. specialize (Hall n Hin). unfold wire_ok, append_wire, greeting in *. cbn.
  destruct (cn_client n); [destruct Hall as [ms ->]; exists (ms ++ [routed t n s]); cbn; by rewrite map_app|].
  rewrite Hall. by exists [routed t n s].
Qed.

Lemma callback_after connect t seed s r seed' s' : callback connect t (seed, s) = Ok (r, (seed', s')) ->
  s' = s \/ exists n, n ∈ c_nodes s /\ s' = after_send t n s.
Proof.
  unfold callback. cbn [fst snd]. destruct (_ =? ModuleIds.invalid_id) eqn:Ev; [intros [= _ _ <-]; by left|].
  destruct (length _ =? 0)%nat; [intros [= _ _ <-]; by left|]. intros H. inv_ok.
  destruct r0 as [n [sd st]]. inv_ok. right.
  unfold select_one_node, random_below in E. inv_ok. cbn in *. inv_ok.
  apply list_elem_of_lookup_2, list_elem_of_In, filter_In in D as [Hn _].
  exists n. split; [by apply list_elem_of_In|].
  destruct r1 as [r1 c]. injection H as _ _ <-. unfold send_to_node, deliver, local_node_id in E1.
  unfold after_send, greeting, routed. destruct (c_static st) eqn:Es, (cn_client n) eqn:Ec; cbn in *; inv_ok;
    unfold with_nodes, append_wire; cbn; rewrite ?Es, <- ?app_assoc; done.
Qed.

(** ** Executions of a connection

    Sends, the turns of the pool, and what the rest of the process and the cluster do:
    nodes come and go, names get ids, another connection asks for its node id first. *)
Definition cpool := @DelayPool.pool task.

Inductive step (connect : Z -> bool) : cstate * cpool -> cstate * cpool -> Prop :=
| step_send mo intf m seed seed' s p s' p' :
    send_message connect mo intf m (seed, s) p = Ok (0, (seed', s'), p') -> step connect (s, p) (s', p')
| step_turn fuel seed seed' s p s' p' :
    DelayPool.loop_turn (run_delayed connect) fuel p (Ok (seed, s)) = Ok (p', Ok (seed', s')) ->
    step connect (s, p) (s', p')
| step_change s p : step connect (s, p) (s, DelayPool.notify "NODE_CHANGE"%string p)
| step_node s p l1 l2 id mods :
    c_nodes s = l1 ++ l2 -> id ∉ map cn_id (c_nodes s) ->
    step connect (s, p) (with_nodes (l1 ++ MkCNode id mods false [] :: l2) s, p)
| step_gone s p l1 n l2 :
    c_nodes s = l1 ++ n :: l2 -> step connect (s, p) (with_nodes (l1 ++ l2) s, p)
| step_names s p mids :
    step connect (s, p) (MkC (c_static s) (c_local s) (c_cid s) mids (c_nodes s), p)
| step_static s p n :
    c_static s = None -> step connect (s, p) (MkC (Some n) (c_local s) (c_cid s) (c_mids s) (c_nodes s), p).

Definition still_ok (cid : ActorID) (w : outcome (Z * cstate)) : Prop :=
  match w with Ok (_, s) => c_cid s = cid /\ wires_ok s | Fault _ => True end.

Lemma callback_still_ok connect t seed s r seed' s' :
  callback connect t (seed, s) = Ok (r, (seed', s')) -> wires_ok s -> c_cid s' = c_cid s /\ wires_ok s'.
Proof.
  intros H Hw. apply callback_after in H as [->|(n & Hin & ->)]; [done|].
  split; [done|]. by apply after_send_wires.
Qed.

Lemma run_delayed_ok connect cid t w : still_ok cid w -> still_ok cid (run_delayed connect t w).2.
Proof.
  destruct w as [[seed s]|]; [|done]. cbn. intros [Hcid Hw].
  destruct (callback connect t (seed, s)) as [[r [seed' s']]|] eqn:E; [|done]. cbn.
  apply callback_still_ok in E as [-> ?]; done.
Qed.

Lemma step_wires connect x y : step connect x y -> wires_ok x.1 -> c_cid y.1 = c_cid x.1 /\ wires_ok y.1.
Proof.
  intros Hs Hw. destruct Hs as [mo intf m seed seed' s p s' p' H|fuel seed seed' s p s' p' H|s p|s p l1 l2 id mods Hl Hid
    |s p l1 n l2 Hl|s p mids|s p n Hn]; cbn in *; try done.
  - unfold send_message in H. inv_ok. destruct r as [r [sd st]]. injection H as _ -> _.
    by eapply callback_still_ok.
  - apply (DelayPool.loop_turn_inv (run_delayed connect) (still_ok (c_cid s))) in H; try done.
    intros t w. apply run_delayed_ok.
  - split; [done|]. destruct Hw as [Hnd Hall]. unfold wires_ok. cbn. rewrite Hl in *. split.
    + rewrite map_app in *. cbn. rewrite <- Permutation_middle. by constructor.
    + rewrite Forall_app in *. destruct Hall as [H1 H2]. split; [done|]. by constructor.
  - split; [done|]. destruct Hw as [Hnd Hall]. unfold wires_ok. cbn. rewrite Hl in *. split.
    + rewrite map_app in *. cbn in Hnd. rewrite <- Permutation_middle in Hnd. by apply list.NoDup_cons in Hnd as [_ ?].
    + rewrite Forall_app, Forall_cons_iff in *. tauto.
Qed.

(** Over any sequence of sends, delayed sends and changes of the cluster, a
    connection to a node carries exactly one handshake, with the node id of the
    client and before everything else, and then only messages. *)
Theorem handshake_first (connect : Z -> bool) (local : Z) (cid : ActorID) (s : cstate) (p p0 : cpool) (n : cnode) :
  rtc (step connect) (MkC None local cid ∅ [], p0) (s, p) -> n ∈ c_nodes s ->
  (cn_client n = false /\ cn_wire n = []) \/
  (cn_client n = true /\ exists ms, cn_wire n = Handshake (node_id cid) :: map Msg ms).
Proof.
  intros Hr Hn. assert (c_cid (s, p).1 = cid /\ wires_ok (s, p).1) as [Hcid [_ Hall]].
  { revert Hr. generalize (s, p). apply (rtc_ind_r (fun x => c_cid x.1 = cid /\ wires_ok x.1)).
    - split; [done|]. split; cbn; constructor.
    - intros x y _ Hs [Hc Hw]. destruct (step_wires _ _ _ Hs Hw) as [-> ?]. done. }
  rewrite list.Forall_forall in Hall. specialize (Hall n Hn). unfold wire_ok in Hall. cbn in *.
  rewrite Hcid in Hall. destruct (cn_client n); auto.
Qed.

(** ** Delayed messages *)

(** What routing leaves alone in a message. *)
Definition essence (m : metadata) : Z * Z * Z * Z * Z :=
  (type m, data_type m, msize m, reqid m, intf_id (target m)).

Definition on_wire (n : cnode) : list (Z * Z * Z * Z * Z) :=
  omap (fun w => match w with Msg m => Some (essence m) | Handshake _ => None end) (cn_wire n).
Definition all_sent (l : list cnode) : list (Z * Z * Z * Z * Z) := l ≫= on_wire.

Lemma on_wire_append ws n : on_wire (append_wire ws n) =
  on_wire n ++ omap (fun w => match w with Msg m => Some (essence m) | Handshake _ => None end) ws.
Proof. apply omap_app. Qed.

Lemma put_cnode_absent n l : cn_id n ∉ map cn_id l -> put_cnode n l = l.
Proof.
  intros Hn. unfold put_cnode. rewrite <- (List.map_id l) at 2. apply map_ext_in. intros o Ho.
  destruct (Z.eqb_spec (cn_id o) (cn_id n)) as [E|]; [|done]. destruct Hn. rewrite <- E.
  apply list_elem_of_In. by apply in_map.
Qed.

Lemma put_cnode_here ws l1 n l2 : NoDup (map cn_id (l1 ++ n :: l2)) ->
  put_cnode (append_wire ws n) (l1 ++ n :: l2) = l1 ++ append_wire ws n :: l2.
Proof.
  rewrite map_app. cbn. intros Hnd. apply list.NoDup_app in Hnd as (_ & Hd & [Hn _]%list.NoDup_cons).
  unfold put_cnode. rewrite map_app. cbn. rewrite Z.eqb_refl. f_equal; [|f_equal].
  - apply (put_cnode_absent (append_wire ws n)). cbn. intros Hin. apply (Hd _ Hin). by left.
  - by apply (put_cnode_absent (append_wire ws n)).
Qed.

Lemma after_send_all t n s : NoDup (map cn_id (c_nodes s)) -> n ∈ c_nodes s ->
  all_sent (c_nodes (after_send t n s)) ≡ₚ essence (t_msg t) :: all_sent (c_nodes s).
Proof.
  intros Hnd (l1 & l2 & E)%list_elem_of_split. cbn. rewrite E in *. rewrite put_cnode_here by done.
  unfold all_sent. rewrite !bind_app, !bind_cons, on_wire_append, omap_app.
  assert (omap (fun w => match w with Msg m => Some (essence m) | Handshake _ => None end) (greeting n s) = []) as ->
    by (unfold greeting; by destruct (cn_client n)).
  cbn. rewrite <- app_assoc. cbn. by rewrite <- !Permutation_middle.
Qed.

Lemma after_send_mods t n s : n ∈ c_nodes s -> NoDup (map cn_id (c_nodes s)) ->
  map cn_modules (c_nodes (after_send t n s)) = map cn_modules (c_nodes s).
Proof.
  intros (l1 & l2 & E)%list_elem_of_split Hnd. cbn. rewrite E in *. rewrite put_cnode_here by done. by rewrite !map_app.
Qed.

Lemma existsb_mods mid l : existsb (cn_has mid) l = existsb (existsb (Z.eqb mid)) (map cn_modules l).
Proof. induction l as [|n l IH]; cbn; [done|]. by rewrite IH. Qed.

Lemma after_send_known t n s mo : n ∈ c_nodes s -> NoDup (map cn_id (c_nodes s)) ->
  known mo (after_send t n s) = known mo s.
Proof.
  intros Hn Hnd. unfold known. rewrite !existsb_mods, after_send_mods by done. done.
Qed.

Lemma after_send_wf t n s : cstate_wf s -> cstate_wf (after_send t n s).
Proof. intros [Hi Hm]. split; cbn; [by rewrite put_cnode_ids|done]. Qed.

(** A node that has the module of one of the messages, no connection, and refuses one *)
Definition refusing (connect : Z -> bool) (q : list task) (s : cstate) : Prop :=
  exists t n, t ∈ q /\ n ∈ c_nodes s /\ cn_has (get_module_id (t_mod t) s) n = true /\
    cn_client n = false /\ connect (cn_id n) = false.

Lemma refusing_after_send connect q t n s : refusing connect q (after_send t n s) -> refusing connect (t :: q) s.
Proof.
  intros (u & n' & Hu & Hn & Hh & Hc & Hr). exists u, n'. split; [by right|]. split; [|done].
  cbn in Hn. unfold put_cnode in Hn. apply list_elem_of_In, in_map_iff in Hn as (o & E & Ho%list_elem_of_In).
  destruct (_ =? _) in E; [|by subst]. by subst n'.
Qed.

Lemma drain_aborted connect fuel q e : (length q <= fuel)%nat ->
  DelayPool.drain (run_delayed connect) fuel q (Fault e) = Ok (Fault e).
Proof.
  revert fuel; induction q as [|t q IH]; intros [|fuel] Hf; cbn in *; try done; [lia|]. apply IH. lia.
Qed.

(** What became of the waiting messages [q]. *)
Definition delay_outcome (connect : Z -> bool) (q : list task) (s : cstate) (w : outcome (Z * cstate)) : Prop :=
  match w with
  | Ok (_, s') => all_sent (c_nodes s') ≡ₚ map (fun t => essence (t_msg t)) q ++ all_sent (c_nodes s)
  | Fault e => e = AssertFailed /\ refusing connect q s
  end.

Lemma drain_delayed connect fuel q seed s : cstate_wf s ->
  Forall (fun t => known (t_mod t) s = true) q -> (length q <= fuel)%nat ->
  exists w, DelayPool.drain (run_delayed connect) fuel q (Ok (seed, s)) = Ok w /\ delay_outcome connect q s w.
Proof.
  revert fuel seed s; induction q as [|t q IH]; intros fuel seed s Hw Hk Hf.
  { exists (Ok (seed, s)). split; [by destruct fuel|]. cbn. done. }
  destruct fuel as [|fuel]; cbn in Hf; [lia|]. apply Forall_cons_iff in Hk as [Ht Hq]. cbn.
  destruct (callback_cases connect t seed s Hw Ht) as (seed1 & n & Hin & Hh & ->).
  destruct (cn_client n || connect (cn_id n)) eqn:Ec; cbn.
  - destruct (IH fuel seed1 (after_send t n s)) as (w & -> & Hp); [by apply after_send_wf| |lia|].
    { eapply list.Forall_impl; [exact Hq|]. intros u Hu. cbn. rewrite after_send_known; [done|done|apply Hw]. }
    exists w. split; [done|]. destruct w as [[seed' s']|e]; unfold delay_outcome in *; cbn [map app].
    + rewrite Hp, after_send_all by (done || apply Hw). by rewrite Permutation_middle.
    + destruct Hp as [-> Hr]. split; [done|]. by eapply refusing_after_send.
  - rewrite drain_aborted by lia. exists (Fault AssertFailed). split; [done|]. split; [done|].
    apply orb_false_iff in Ec as [E1 E2]. exists t, n. split; [by left|done].
Qed.

Lemma process_done connect fuel evs ev tasks w : Forall (eq ev) evs -> tasks !! ev = None ->
  DelayPool.process_events (run_delayed connect) fuel evs tasks w = Ok (tasks, w).
Proof. intros HF Hn. induction HF as [|? evs <- HF IH]; cbn; [done|]. by rewrite Hn. Qed.

(** C27: what becomes of messages that had to wait: once the modules of all of them are known,
    one turn of the pool's loop after the notification, with no other event outstanding, leaves
    none waiting and writes every one of them exactly once, unless a node that has one of the modules
    refuses the connection: then the process stops at the assertion of send_message. *)
Theorem delayed_sent (connect : Z -> bool) (fuel : nat) (seed : Z) (s : cstate) (p : cpool) (q : list task) :
  cstate_wf s ->
  DelayPool.m_tasks p !! "NODE_CHANGE"%string = Some q -> q <> [] ->
  Forall (eq "NODE_CHANGE"%string) (DelayPool.m_event_que p) ->
  Forall (fun t => known (t_mod t) s = true) q -> (length q <= fuel)%nat ->
  exists p' w,
    DelayPool.loop_turn (run_delayed connect) fuel (DelayPool.notify "NODE_CHANGE"%string p) (Ok (seed, s)) = Ok (p', w) /\
    DelayPool.m_tasks p' = delete "NODE_CHANGE"%string (DelayPool.m_tasks p) /\
    match w with
    | Ok (_, s') => all_sent (c_nodes s') ≡ₚ map (fun t => essence (t_msg t)) q ++ all_sent (c_nodes s)
    | Fault e => e = AssertFailed /\ exists t n, t ∈ q /\ n ∈ c_nodes s /\
        cn_has (get_module_id (t_mod t) s) n = true /\ cn_client n = false /\ connect (cn_id n) = false
    end.
Proof.
  intros Hw Hq Hne Hev Hk Hf. unfold DelayPool.notify. rewrite Hq. destruct q as [|t q]; [done|].
  unfold DelayPool.loop_turn. cbn [DelayPool.m_tasks DelayPool.m_event_que].
  rewrite bool_decide_eq_false_2 by (intros E; by rewrite E, lookup_empty in Hq).
  destruct (drain_delayed connect fuel (t :: q) seed s Hw Hk Hf) as (w & Hd & Hp).
  assert (Forall (eq "NODE_CHANGE"%string) (DelayPool.m_event_que p ++ ["NODE_CHANGE"%string])) as Hall
    by (apply Forall_app; by repeat constructor).
  destruct (DelayPool.m_event_que p ++ ["NODE_CHANGE"%string]) as [|ev evs] eqn:Ee; [by destruct (DelayPool.m_event_que p)|].
  apply Forall_cons_iff in Hall as [<- Hall]. cbn [DelayPool.process_events]. rewrite Hq, Hd. cbn [mbind outcome_bind].
  rewrite (process_done _ _ _ "NODE_CHANGE"%string) by (done || apply lookup_delete_eq).
  eexists _, w. split; [done|]. split; [done|]. exact Hp.
Qed.

(** ** The node id of the process *)

(** Of two connections of one process, the second sends under the name of the
    first: the function that Node::deliver_message asks for the local node id keeps the
    first answer in a static variable, so that the replies go to the first one. *)
Theorem second_connection_misnamed (connect : Z -> bool) (mo mo' : string) (intf intf' seed seed' : Z)
    (m m' : metadata) (a b : cstate) (p p' : cpool) :
  (forall id, connect id = true) -> cstate_wf a -> cstate_wf b -> c_static a = None ->
  known mo a = true -> known mo' b = true ->
  exists sa a' sb b' n w,
    send_message connect mo intf m (seed, a) p = Ok (0, (sa, a'), p) /\
    send_message connect mo' intf' m' (seed', MkC (c_static a') (c_local b) (c_cid b) (c_mids b) (c_nodes b)) p'
      = Ok (0, (sb, b'), p') /\
    n ∈ c_nodes b' /\ list.last (cn_wire n) = Some (Msg w) /\ node_id (sender w) = u32 (c_local a).
Proof.
  intros Hc Ha Hb Hst Hka Hkb. unfold send_message. cbn [fst snd].
  destruct (callback_ok connect (MkTask mo (prepare intf m a)) seed a Hc Ha Hka) as (sa & na & Ea & _ & _).
  set (b1 := MkC (Some (default (c_local a) (c_static a))) (c_local b) (c_cid b) (c_mids b) (c_nodes b)).
  assert (cstate_wf b1) as Hb1 by (destruct Hb; by split).
  destruct (callback_ok connect (MkTask mo' (prepare intf' m' b1)) seed' b1 Hc Hb1 Hkb) as (sb & nb & Eb & Hin & _).
  eexists sa, (after_send _ na a), sb, (after_send _ nb b1), _, _. rewrite Ea. split; [done|].
  cbn [c_static after_send]. fold b1. rewrite Eb. split; [done|].
  destruct (list_elem_of_split _ _ Hin) as (l1 & l2 & E).
  assert (NoDup (map cn_id (l1 ++ nb :: l2))) as Hnd by (rewrite <- E; apply Hb1).
  cbn [c_nodes after_send]. rewrite E, put_cnode_here by done.
  split; [apply elem_of_app; right; by left|]. cbn. split; [by rewrite app_assoc, last_snoc|].
  cbn. by rewrite Hst.
Qed.

(** ** Witnesses *)
Module ClientSendExamples.
Definition n3 : cnode := MkCNode 3 [7] false [].
Definition n5 : cnode := MkCNode 5 [7; 8] false [].
Definition cid : ActorID := new_ActorID 70000 65535 65535 65535.
Definition yes (_ : Z) : bool := true.
Definition kv : cstate := MkC None 70000 cid {[ "kv"%string := 7 ]} [n3; n5].
Definition kv2 : cstate := MkC None 70001 (set_node_id 70001 cid) {[ "kv"%string := 7 ]} [n3; n5].
Definition no_tasks : cpool := DelayPool.MkPool ∅ [] false.
Definition waiting_task : task := MkTask "kv"%string (prepare 2 zero_meta kv).
Definition one_task : cpool := DelayPool.MkPool {[ "NODE_CHANGE"%string := [waiting_task] ]} [] false.

Lemma table_wf st local c : cstate_wf (MkC st local c {[ "kv"%string := 7 ]} [n3; n5]).
Proof.
  split; [apply (bool_decide_unpack _); by vm_compute|]. cbn. intros mo mid.
  rewrite lookup_singleton_Some. intros [_ <-]. unfold in_width. lia.
Qed.

Lemma client_send_spec_witness : exists seed' n,
  send_message yes "kv"%string 2 zero_meta (1, kv) no_tasks
    = Ok (0, (seed', after_send waiting_task n kv), no_tasks) /\
  7 ∈ cn_modules n.
Proof.
  destruct (client_send_spec yes "kv"%string 2 1 zero_meta kv no_tasks (fun _ => eq_refl) (table_wf None 70000 cid))
    as [H _].
  destruct (H eq_refl) as (seed' & n & E & _ & Hm & _). exists seed', n. split; [exact E|exact Hm].
Defined.

(** A message is sent to the only node, which gets the handshake first. *)
Definition alone : cstate := MkC None 70000 cid {[ "kv"%string := 7 ]} [n3].
Definition alone' : cstate := after_send waiting_task n3 alone.

Lemma handshake_first_witness :
  exists ms, cn_wire (append_wire (greeting n3 alone ++ [Msg (routed waiting_task n3 alone)]) n3)
             = Handshake (node_id cid) :: map Msg ms.
Proof.
  destruct (handshake_first yes 70000 cid alone' no_tasks no_tasks
    (append_wire (greeting n3 alone ++ [Msg (routed waiting_task n3 alone)]) n3)) as [[H _]|[_ H]]; [| |discriminate|exact H].
  - eapply rtc_l; [apply (step_node yes (MkC None 70000 cid ∅ []) no_tasks [] [] 3 [7]); [done|cbn; apply not_elem_of_nil]|].
    eapply rtc_l; [apply (step_names yes _ no_tasks {[ "kv"%string := 7 ]})|].
    eapply rtc_l; [|apply rtc_refl].
    apply (step_send yes "kv"%string 2 zero_meta 1 (WorkSteal.random 1)). by vm_compute.
  - by left.
Defined.

Lemma delayed_sent_witness : exists p' w,
  DelayPool.loop_turn (run_delayed yes) 1 (DelayPool.notify "NODE_CHANGE"%string one_task) (Ok (1, kv)) = Ok (p', w) /\
  match w with Ok (_, s') => all_sent (c_nodes s') ≡ₚ [essence (t_msg waiting_task)] | Fault _ => False end.
Proof.
  destruct (delayed_sent yes 1 1 kv one_task [waiting_task]) as (p' & w & E & _ & Hp).
  - apply table_wf.
  - by vm_compute.
  - discriminate.
  - constructor.
  - constructor; [by vm_compute|constructor].
  - cbn. lia.
  - exists p', w. split; [exact E|]. destruct w as [[sd s']|e]; [exact Hp|].
    destruct Hp as (_ & t & n & _ & _ & _ & _ & [=]).
Defined.

(** Nobody can be connected: the process stops. *)
Example delayed_aborts : exists p',
  DelayPool.loop_turn (run_delayed (fun _ => false)) 1 (DelayPool.notify "NODE_CHANGE"%string one_task) (Ok (1, kv))
    = Ok (p', Fault AssertFailed).
Proof. eexists. by vm_compute. Qed.

Lemma second_connection_misnamed_witness : exists sb b' n w,
  send_message yes "kv"%string 2 zero_meta (1, MkC (Some 70000) 70001 (set_node_id 70001 cid) (c_mids kv2) (c_nodes kv2))
    no_tasks = Ok (0, (sb, b'), no_tasks) /\
  n ∈ c_nodes b' /\ list.last (cn_wire n) = Some (Msg w) /\ node_id (sender w) = 70000.
Proof.
  destruct (second_connection_misnamed yes "kv"%string "kv"%string 2 2 1 1 zero_meta zero_meta kv kv2 no_tasks no_tasks)
    as (sa & a' & sb & b' & n & w & Ha & Hb & Hn & Hl & Hs); try done; try apply table_wf.
  exists sb, b', n, w. split; [|by repeat split].
  assert (c_static a' = Some 70000) as Est.
  { apply (f_equal (fun o => match o with Ok (_, (_, c), _) => c_static c | Fault _ => None end)) in Ha.
    rewrite <- Ha. by vm_compute. }
  rewrite <- Est. exact Hb.
Defined.
End ClientSendExamples.
