(* ===== verification/ClientApi.v ===== *)
(** * The C calls of the client library

    src/client.cpp and include/mola/client.hpp: the address of a cluster, the static state
    that the connections of a process share, and what the calls that send a message do
    with the references to it.  Routing, delayed tasks and the message cache are in
    ClientSend.v and Client.v; the memory of messages is that of Message.v, the table of
    pollers that of EpollWait.v. *)
From Stdlib Require Import Ascii String.
From stdpp Require Import base list gmap numbers strings.
From S2P Require Import Prelude Text Message Client EpollWait.

#[local] Open Scope Z_scope.
#[local] Open Scope list_scope.
#[local] Arguments wrap : simpl never.
#[local] Abbreviation length := List.length.

(** ** The address of a cluster *)
Definition at_sign : ascii := "@"%char.

(** strchr(addr, '@'): what is before it and after it *)
Fixpoint split_at_sign (s : text) : option (text * text) :=
  match s with
  | [] => None
  | c :: s => if decide (c = at_sign) then Some ([], s) else '(a, b) ← split_at_sign s; Some (c :: a, b)
  end.

(** ConnectToCluster: the name space of the engine and the address it connects to *)
Definition cluster_addr (addr : text) : option text * text :=
  match split_at_sign addr with Some (ns, a) => (Some ns, a) | None => (None, addr) end.

(** An address with a name space is taken apart at its first '@', and only there. *)
Theorem cluster_addr_spec (ns a : text) : at_sign ∉ ns ->
  cluster_addr (ns ++ at_sign :: a) = (Some ns, a) /\ cluster_addr ns = (None, ns).
Proof.
  intros Hns. unfold cluster_addr.
  assert (split_at_sign (ns ++ at_sign :: a) = Some (ns, a) /\ split_at_sign ns = None) as [-> ->]; [|done].
  induction ns as [|c ns IH]; [done|]. apply not_elem_of_cons in Hns as [Hc Hns]. destruct (IH Hns) as [H1 H2]. cbn.
  rewrite !decide_False by congruence. by rewrite H1, H2.
Qed.

Lemma cluster_addr_spec_witness : cluster_addr (txt "test@10.0.0.1:2181") = (Some (txt "test"), txt "10.0.0.1:2181").
Proof. apply (cluster_addr_spec (txt "test") (txt "10.0.0.1:2181")). by apply (bool_decide_unpack _). Defined.

(** ** The connections of a process *)

(** The static members of ClientConn, the threads that were started, and the ClientConn
    objects that were made and not deleted.  A connection is registered under the 64 bits of
    its actor id. *)
Record process := MkProcess {
  initialized : bool;
  pollers : Backends.table;
  aio_threads : nat;
  client_map : gmap Z Z;
  conns : gset Z
}.

Definition start_up : process := MkProcess false Backends.none 0 ∅ ∅.

(** ClientConn::initialize; Multiplexer::initialize has one poller by default *)
Definition initialize (p : process) : outcome process :=
  if initialized p then mret p
  else t ← Backends.initialize 1 (pollers p); mret (MkProcess true t (S (aio_threads p)) (client_map p) (conns p)).

(** std::map::emplace *)
Definition register_client (key c : Z) (p : process) : process :=
  MkProcess (initialized p) (pollers p) (aio_threads p)
    (match client_map p !! key with Some _ => client_map p | None => <[key := c]> (client_map p) end) (conns p).

(** client_map[key]: an unknown key is inserted with a null pointer *)
Definition find_client (key : Z) (p : process) : Z * process :=
  match client_map p !! key with
  | Some c => (c, p)
  | None => (0, MkProcess (initialized p) (pollers p) (aio_threads p) (<[key := 0]> (client_map p)) (conns p))
  end.

(** ClientConn::connect; [rc1], [rc2]: what connect and join of the engine return *)
Definition connect (c key rc1 rc2 : Z) (p : process) : outcome process :=
  p ← initialize p;
  _ ← mola_assert (rc1 =? 0);
  _ ← mola_assert (rc2 =? 0);
  mret (register_client key c p).

(** ConnectToCluster, with the new object at [c] *)
Definition ConnectToCluster (c key rc1 rc2 : Z) (p : process) : outcome process :=
  connect c key rc1 rc2 (MkProcess (initialized p) (pollers p) (aio_threads p) (client_map p) (conns p ∪ {[c]})).

(** DisconnectFromCluster: leave and disconnect, then the object is deleted *)
Definition DisconnectFromCluster (c : Z) (p : process) : outcome process :=
  _ ← mola_assert (negb (c =? 0));
  _ ← deref (if decide (c ∈ conns p) then Some tt else None);
  mret (MkProcess (initialized p) (pollers p) (aio_threads p) (client_map p) (conns p ∖ {[c]})).

Inductive call := CConnect (c key : Z) | CDisconnect (c : Z).

Definition exec (k : call) (p : process) : outcome process :=
  match k with CConnect c key => ConnectToCluster c key 0 0 p | CDisconnect c => DisconnectFromCluster c p end.

Definition step (p p' : process) : Prop := exists k, exec k p = Ok p'.

Definition shared (p : process) : Prop :=
  if initialized p then aio_threads p = 1%nat /\ pollers p = Backends.MkTable 1 [0]
  else aio_threads p = 0%nat /\ pollers p = Backends.none.

Lemma step_shared p p' : step p p' -> shared p -> shared p' /\ (initialized p = true -> initialized p' = true).
Proof.
  intros [[c key|c] H]; unfold shared; cbn in H.
  - unfold ConnectToCluster, connect, initialize in H. cbn in H. destruct (initialized p) eqn:Ei; cbn in H.
    + injection H as <-. by cbn.
    + intros [Ha Hp]. rewrite Hp, Ha in H. by injection H as <-.
  - unfold DisconnectFromCluster in H. inv_ok. cbn. done.
Qed.

(** However connections come and go, the process has one poller and one i/o thread, which
    every call of Multiplexer::instance finds, from the first connection on. *)
Theorem one_io_thread p c key rnd : rtc step start_up p -> 0 <= rnd ->
  exists p', ConnectToCluster c key 0 0 p = Ok p' /\ aio_threads p' = 1%nat /\ Backends.instance (-1) rnd (pollers p') = Ok 0.
Proof.
  intros Hr Hrnd. assert (shared p) as Hs.
  { remember start_up as p0 eqn:E. assert (shared p0) as H0 by (by subst). clear E.
    induction Hr as [|p0 p1 p2 Hs _ IH]; [done|]. apply IH. by eapply step_shared. }
  unfold shared in Hs. unfold ConnectToCluster, connect, initialize. cbn.
  destruct (initialized p); cbn; destruct Hs as [Ha Hp]; rewrite ?Hp; cbn; eexists; (split; [done|]); cbn; rewrite ?Ha, ?Hp;
    (split; [done|]); unfold Backends.instance; cbn; by rewrite Z.mod_1_r.
Qed.

Lemma one_io_thread_witness :
  exists p', ConnectToCluster 8 2 0 0 start_up = Ok p' /\ aio_threads p' = 1%nat /\ Backends.instance (-1) 7 (pollers p') = Ok 0.
Proof. apply (one_io_thread start_up 8 2 7); [apply rtc_refl|lia]. Defined.

(** A connection that was closed is still found under its id. *)
Theorem disconnected_client_found p c key p1 p2 : client_map p !! key = None ->
  ConnectToCluster c key 0 0 p = Ok p1 -> DisconnectFromCluster c p1 = Ok p2 ->
  (find_client key p2).1 = c /\ c ∉ conns p2.
Proof.
  intros Hk H1 H2. unfold ConnectToCluster, connect, initialize in H1. unfold DisconnectFromCluster in H2.
  assert (client_map p1 !! key = Some c) as Hc.
  { cbn in H1. destruct (initialized p); inv_ok; cbn; rewrite Hk; apply lookup_insert_eq. }
  inv_ok. unfold find_client. cbn in *. rewrite Hc. split; [done|]. set_solver.
Qed.

(** ** Sending a message *)

(** What a send leaves: buffers with the connection, which frees the packed body in
    [buf] and drops the reference when they are written, or a task of the delay pool. *)
Inductive fate := Written (need_free : bool) (buf : Z) | Delayed.

Section Send.
(** [le]: this host is little endian; [be]: the peer is not.  The routing fields of the
    metadata, which ClientSend.v sets, do not matter here. *)
Context (le be : bool).

(** Node::deliver_message from the serialization on: the caller's reference goes to the
    buffer *)
Definition transmit (p : Z) (s : mem) : outcome (fate * mem) :=
  '(nf, buf, _, s) ← serialize le p be s; mret (Written nf buf, s).

(** ~StreamBuffer of the last buffer of the message *)
Definition written (f : fate) (p : Z) (s : mem) : outcome mem :=
  match f with
  | Written nf buf =>
      s ← (if (nf : bool) then _ ← deref (bufs s !! buf); mret (set_bufs (delete buf) s) else mret s);
      dec_ref p s
  | Delayed => mret s
  end.

(** ClientConn::send_message: the closure captures a copy of the pointer; [now]: its first
    run finds a node, and gives the copy away; otherwise the pool gets a copy of the
    closure *)
Definition send_message (now : bool) (h : Z) (s : mem) : outcome (fate * mem) :=
  '(q, s) ← sp_copy h s;
  if now then transmit q s
  else '(_, s) ← sp_copy q s; s ← sp_drop q s; mret (Delayed, s).

(** SendMsgToCluster: rt_msg is made from the body, and passed at the end *)
Definition SendMsgToCluster (now : bool) (a : Z) (s : mem) : outcome (Z * fate * mem) :=
  '(rt_msg, s) ← sp_of_msg a s;
  '(f, s) ← send_message now rt_msg s;
  mret (rt_msg, f, s).

(** The body of a message that can be sent: it has a type, its pack function fits, and
    the caller has a reference. *)
Definition sendable (v : vtab) (m : message) : Prop :=
  mvtab m = Some v /\ 0 < count m < 2 ^ 32 /\
  (is_Some (unpack v) -> exists ps pk, pack_size v = Some ps /\ pack v = Some pk /\
     Z.of_nat (length (pk (user_data m))) <= ps (user_data m)).

Lemma transmit_spec p w a m v s : wraps s !! p = Some w -> a <> 0 -> m_data w = a -> msgs s !! a = Some m ->
  sendable v m -> data_type (m_metadata w) = (match unpack v with Some _ => TYPE_USER_NORMAL | None => TYPE_USER_LITTLE end) ->
  exists nf buf s' w', transmit p s = Ok (Written nf buf, s') /\ (nf = true -> is_Some (bufs s' !! buf)) /\
    wraps s' !! p = Some w' /\ m_refcnt w' = m_refcnt w.
Proof.
  intros Hw Ha Hd Hm (Hv & Hc & Hp) Ht. unfold transmit, serialize. rewrite Hw. cbn. rewrite Ht.
  destruct (unpack v) as [u|] eqn:Eu; cbn.
  - rewrite Hd, Hm. cbn. rewrite Hv. cbn.
    destruct (Hp ltac:(eauto)) as (ps' & pk' & Eps & Epk & Hle'). rewrite Eps, Epk. cbn.
    rewrite (proj2 (Z.leb_le _ _) Hle'). cbn.
    edestruct (drop_spec p) as (s3 & -> & Hwr & Hbf & _ & _).
    { cbn. apply lookup_insert_eq. } { cbn. unfold is_stream. cbn. by rewrite Ht. } { cbn. congruence. }
    { cbn. rewrite Hd. exact Hm. } { done. } { eauto. }
    cbn. rewrite Hwr. cbn. rewrite lookup_insert_eq. cbn. eexists true, _, _, _. split; [done|]. cbn.
    rewrite Hbf, Hwr, lookup_insert_eq. cbn. rewrite lookup_insert_eq. eauto.
  - rewrite Hw. cbn. eexists false, _, _, _. split; [done|]. cbn. rewrite lookup_insert_eq. by split_and!.
Qed.

(** When the connection has written the message one reference of two is left. *)
Lemma written_spec nf buf p w s : (nf = true -> is_Some (bufs s !! buf)) -> wraps s !! p = Some w -> m_refcnt w = 2 ->
  exists s' w', written (Written nf buf) p s = Ok s' /\ wraps s' !! p = Some w' /\ m_refcnt w' = 1.
Proof.
  intros Hb Hw Hr. unfold written, dec_ref. destruct nf.
  - destruct (Hb eq_refl) as [bs ->]. cbn. rewrite Hw. cbn. rewrite Hr. cbn. eexists _, _. split; [done|]. cbn.
    by rewrite lookup_insert_eq.
  - cbn. rewrite Hw. cbn. rewrite Hr. cbn. eexists _, _. split; [done|]. cbn. by rewrite lookup_insert_eq.
Qed.

Lemma transmit_written p w a m v s : wraps s !! p = Some w -> m_refcnt w = 2 -> a <> 0 -> m_data w = a ->
  msgs s !! a = Some m -> sendable v m ->
  data_type (m_metadata w) = (match unpack v with Some _ => TYPE_USER_NORMAL | None => TYPE_USER_LITTLE end) ->
  exists f s1 s2 w', transmit p s = Ok (f, s1) /\ written f p s1 = Ok s2 /\ wraps s2 !! p = Some w' /\ m_refcnt w' = 1.
Proof.
  intros Hw Hr Ha Hd Hm Hs Ht. destruct (transmit_spec _ _ _ _ _ _ Hw Ha Hd Hm Hs Ht) as (nf & buf & s1 & w1 & E & Hb & Hw1 & Hr1).
  destruct (written_spec nf buf p w1 s1 Hb Hw1 ltac:(congruence)) as (s2 & w2 & E2 & Hw2 & Hr2). eauto 10.
Qed.

(** A message that a client sends is never freed: when the connection has written it,
    at once or after it waited in the delay pool, the wrapper still has one reference, which
    SendMsgToCluster gave up with pass() although send_message had only taken a copy. *)
Theorem client_send_leaks a m v s : 0 < brk s -> a <> 0 -> msgs s !! a = Some m -> sendable v m ->
  (exists p f s1 s2 w, SendMsgToCluster true a s = Ok (p, f, s1) /\ written f p s1 = Ok s2 /\
     wraps s2 !! p = Some w /\ m_refcnt w = 1) /\
  (exists p s1 f s2 s3 w, SendMsgToCluster false a s = Ok (p, Delayed, s1) /\ transmit p s1 = Ok (f, s2) /\
     written f p s2 = Ok s3 /\ wraps s3 !! p = Some w /\ m_refcnt w = 1).
Proof.
  intros Hb Ha Hm Hs. pose proof Hs as (Hv & _ & _).
  unfold SendMsgToCluster, send_message, sp_of_msg, wrapper_of_msg, sp_copy, sp_drop.
  rewrite (proj2 (Z.eqb_neq a 0) Ha), Hm. cbn. rewrite Hv. cbn.
  assert ((brk s =? 0) = false) as Hb0 by (apply Z.eqb_neq; lia).
  rewrite Hb0. unfold inc_ref, dec_ref. cbn. rewrite lookup_insert_eq. cbn.
  assert (forall n, data_type (set_size n (set_data_type (match unpack v with Some _ => TYPE_USER_NORMAL | None => TYPE_USER_LITTLE end) zero_meta))
    = match unpack v with Some _ => TYPE_USER_NORMAL | None => TYPE_USER_LITTLE end) as Ht by (intros; by destruct (unpack v)).
  split.
  - edestruct (transmit_written (brk s)) as (f & s1 & s2 & w & -> & E & Hw & Hr);
      [apply lookup_insert_eq|done|exact Ha|done|exact Hm|exact Hs|apply Ht|].
    cbn. eexists _, _, _, _, _. split; [done|]. eauto.
  - rewrite Hb0, lookup_insert_eq. cbn. rewrite lookup_insert_eq. cbn. eexists (brk s), _.
    edestruct (transmit_written (brk s)) as (f & s1 & s2 & w & E1 & E2 & Hw & Hr).
    8:{ exists f, s1, s2, w. split; [reflexivity|]. eauto. }
    { cbn. apply lookup_insert_eq. } { done. } { exact Ha. } { done. } { exact Hm. } { exact Hs. } { apply Ht. }
Qed.
End Send.

Lemma client_send_leaks_witness :
  exists p f s1 s2 w, SendMsgToCluster true false true 9 (MkMem {[ 9 := MessageExamples.demo_body ]} ∅ ∅ 10 []) = Ok (p, f, s1) /\
    written f p s1 = Ok s2 /\ wraps s2 !! p = Some w /\ m_refcnt w = 1.
Proof.
  apply (client_send_leaks true false 9 MessageExamples.demo_body MessageExamples.demo_vtab); [cbn; lia|done|reflexivity|].
  split_and!; [reflexivity|cbn; lia|cbn; lia|]. intros _. do 2 eexists. split_and!; [reflexivity..|]. cbn. lia.
Defined.

(** ** Receiving *)

(** The module name that RecvMsgFromCluster and RecvMsgWithMoFromCluster ask for: a null
    or empty name stands for any module *)
Definition recv_key (module : option string) : string :=
  match module with
  | Some m => if bool_decide (m = EmptyString) then star else m
  | None => star
  end.

(** One round of the wait of RecvMsgFromCluster in thread [t]; the wrapper of the cache
    becomes the caller's *)
Definition RecvMsgFromCluster (t : Z) (module : option string) (c : conn) : option (string * Z) * conn :=
  recv_round t (recv_key module) c.

(** RecvMsgWithMoFromCluster: the name that is handed out is that of the sender *)
Definition RecvMsgWithMoFromCluster (t : Z) (c : conn) : option (string * Z) * conn := recv_round t star c.

(** Without a name the first message of the cache is received, whatever module it is of. *)
Theorem recv_any t k v rest pend reqs ws rd module : module = None \/ module = Some EmptyString ->
  RecvMsgFromCluster t module (MkConn ((k, v) :: rest) pend reqs ws rd) = (Some (k, v), MkConn rest pend reqs ws rd) /\
  RecvMsgWithMoFromCluster t (MkConn ((k, v) :: rest) pend reqs ws rd) = (Some (k, v), MkConn rest pend reqs ws rd).
Proof. intros [-> | ->]; done. Qed.
