(* ===== verification/ConsistentHash.v ===== *)
(** * Consistent hashing

    include/mola/consistent_hashing.hpp: consistent_hash_map, a ring of nodes by the
    hash of each.  The std::map is a list in the strict order of its keys; an
    iterator is the entry it points to, end() is [None].  The hash function is the
    template argument Hash. *)
From stdpp Require Import base list sets numbers.
From S2P Require Import Prelude.

#[local] Open Scope Z_scope.

Section Ring.
Context {T : Type} (hasher : T -> Z).

Definition ring := list (Z * T).

(** ** The std::map *)
Fixpoint map_insert (k : Z) (v : T) (m : ring) : (Z * T) * bool * ring :=
  match m with
  | [] => ((k, v), true, [(k, v)])
  | (k', v') :: m' =>
      if k <? k' then ((k, v), true, (k, v) :: m)
      else if k =? k' then ((k', v'), false, m)
      else let '(e, b, r) := map_insert k v m' in (e, b, (k', v') :: r)
  end.

Fixpoint map_erase (k : Z) (m : ring) : Z * ring :=
  match m with
  | [] => (0, [])
  | (k', v') :: m => if k =? k' then (1, m) else let '(n, r) := map_erase k m in (n, (k', v') :: r)
  end.

Fixpoint lower_bound (k : Z) (m : ring) : option (Z * T) :=
  match m with
  | [] => None
  | (k', v') :: m => if k' <? k then lower_bound k m else Some (k', v')
  end.

(** ** The operations *)
Definition size (nodes : ring) : Z := Z.of_nat (length nodes).
Definition empty (nodes : ring) : bool := match nodes with [] => true | _ => false end.
Definition insert (node : T) (nodes : ring) : (Z * T) * bool * ring := map_insert (hasher node) node nodes.
Definition erase_at (it : Z * T) (nodes : ring) : ring := (map_erase it.1 nodes).2.
Definition erase (node : T) (nodes : ring) : Z * ring := map_erase (hasher node) nodes.
Definition find (hash : Z) (nodes : ring) : option (Z * T) :=
  if empty nodes then None
  else match lower_bound hash nodes with Some e => Some e | None => head nodes end.

(** ** The invariant *)

(** Keys are w-bit numbers in strict order and each is the hash of its node. *)
Fixpoint ring_wf (w lo : Z) (m : ring) : Prop :=
  match m with
  | [] => True
  | (k, v) :: m => lo <= k < 2 ^ w /\ k = hasher v /\ ring_wf w (k + 1) m
  end.

Definition hashes (w : Z) : Prop := forall x, in_width w (hasher x).

Lemma ring_wf_weaken w lo lo' m : lo' <= lo -> ring_wf w lo m -> ring_wf w lo' m.
Proof. destruct m as [|[k v] m]; cbn; [done|]. intros ? (? & ? & ?). split_and!; (lia || done). Qed.

Lemma ring_wf_elem w lo m e : ring_wf w lo m -> e ∈ m -> lo <= e.1 < 2 ^ w /\ e.1 = hasher e.2.
Proof.
  revert lo; induction m as [|[k v] m IH]; intros lo Hw He; [by apply not_elem_of_nil in He|].
  destruct Hw as (H1 & H2 & H3). apply elem_of_cons in He as [->|He]; [done|].
  destruct (IH _ H3 He). split; [lia|done].
Qed.

Lemma map_insert_spec w lo x m : hashes w -> lo <= hasher x -> ring_wf w lo m ->
  let '(e, b, r) := map_insert (hasher x) x m in
  ring_wf w lo r /\ e ∈ r /\ e.1 = hasher x /\
  (if b then e = (hasher x, x) /\ (forall y, y ∈ r <-> y = e \/ y ∈ m) /\ (forall y, y ∈ m -> y.1 <> hasher x)
   else r = m).
Proof.
  intros Hh. revert lo; induction m as [|[k v] m IH]; intros lo Hlo Hw; cbn.
  { specialize (Hh x). unfold in_width in Hh. split_and!; try done; try lia; set_solver. }
  destruct Hw as (H1 & -> & H3). destruct (Z.ltb_spec (hasher x) (hasher v)).
  - pose proof (Hh x) as Hx. unfold in_width in Hx.
    assert (forall y, y ∈ (hasher v, v) :: m -> y.1 <> hasher x).
    { intros y [->|Hy]%elem_of_cons; cbn; [lia|]. destruct (ring_wf_elem _ _ _ _ H3 Hy). lia. }
    split_and!; try done; cbn; try lia; try set_solver. by split_and!; try lia.
  - destruct (Z.eqb_spec (hasher x) (hasher v)) as [E|E].
    + split_and!; cbn; try done. set_solver.
    + specialize (IH (hasher v + 1) ltac:(lia) H3). destruct (map_insert (hasher x) x m) as [[e b] r].
      destruct IH as (I1 & I2 & I3 & I4). split_and!; cbn; try done; [set_solver|].
      destruct b; [|congruence]. destruct I4 as (I4 & I5 & I6). split_and!; [done| |].
      * intros y. rewrite !elem_of_cons, I5. tauto.
      * intros y [->|Hy]%elem_of_cons; cbn; [congruence|by apply I6].
Qed.

Lemma map_erase_spec w lo k m : ring_wf w lo m ->
  let '(n, r) := map_erase k m in
  ring_wf w lo r /\ (forall y, y ∈ r <-> y ∈ m /\ y.1 <> k) /\
  n = (if bool_decide (k ∈ m.*1) then 1 else 0).
Proof.
  revert lo; induction m as [|[k' v] m IH]; intros lo Hw; cbn.
  { split_and!; [done|intros y; rewrite elem_of_nil; tauto|done]. }
  destruct Hw as (H1 & H2 & H3). destruct (Z.eqb_spec k k') as [->|E].
  - split_and!; [by eapply ring_wf_weaken; [|exact H3]; lia| |].
    + intros y. rewrite elem_of_cons. split; [|intros [[->|?] ?]; done].
      intros Hy. destruct (ring_wf_elem _ _ _ _ H3 Hy). split; [set_solver|lia].
    + rewrite bool_decide_eq_true_2; [done|set_solver].
  - specialize (IH _ H3). destruct (map_erase k m) as [n r]. destruct IH as (I1 & I2 & I3).
    split_and!; [done| |].
    + intros y. rewrite !elem_of_cons, I2. split; [intros [->|]; cbn; [split; [set_solver|congruence]|tauto]|tauto].
    + rewrite I3, (bool_decide_ext (k ∈ m.*1) (k ∈ ((k', v) :: m).*1)); [done|]. cbn. rewrite elem_of_cons. naive_solver.
Qed.

Lemma map_insert_size k v m :
  let '(_, b, r) := map_insert k v m in size r = size m + (if b then 1 else 0).
Proof.
  induction m as [|[k' v'] m IH]; cbn; [done|]. destruct (k <? k'); [unfold size; cbn; lia|].
  destruct (k =? k'); [unfold size; cbn; lia|]. destruct (map_insert k v m) as [[e b] r].
  unfold size in *. cbn [length]. destruct b; lia.
Qed.

Lemma map_erase_size k m : let '(n, r) := map_erase k m in size r = size m - n.
Proof.
  induction m as [|[k' v'] m IH]; cbn; [done|]. destruct (k =? k'); [unfold size; cbn; lia|].
  destruct (map_erase k m) as [n r]. unfold size in *. cbn [length]. lia.
Qed.

(** ** Who owns a key *)

(** How far the hash [k] is from [h], going up and around. *)
Definition dist (w h k : Z) : Z := (k - h) mod 2 ^ w.

Definition nearest (w h : Z) (m : ring) (e : Z * T) : Prop :=
  e ∈ m /\ forall y, y ∈ m -> dist w h e.1 <= dist w h y.1.

Lemma dist_above w h k : 0 <= h -> h <= k < 2 ^ w -> dist w h k = k - h.
Proof. intros. unfold dist. apply Z.mod_small. lia. Qed.

Lemma dist_below w h k : h < 2 ^ w -> 0 <= k < h -> dist w h k = k - h + 2 ^ w.
Proof.
  intros. unfold dist. rewrite <- (Z.mod_small (k - h + 2 ^ w) (2 ^ w)) by lia.
  rewrite <- (Z_mod_plus_full (k - h) 1). f_equal. lia.
Qed.

Lemma lower_bound_spec w lo h m : ring_wf w lo m ->
  match lower_bound h m with
  | Some e => e ∈ m /\ h <= e.1 /\ forall y, y ∈ m -> y.1 < h \/ e.1 <= y.1
  | None => forall y, y ∈ m -> y.1 < h
  end.
Proof.
  revert lo; induction m as [|[k v] m IH]; intros lo Hw; cbn; [by intros y ?%not_elem_of_nil|].
  destruct Hw as (H1 & H2 & H3). destruct (Z.ltb_spec k h).
  - specialize (IH _ H3). destruct (lower_bound h m) as [e|].
    + destruct IH as (I1 & I2 & I3). split_and!; [set_solver|done|]. intros y [->|Hy]%elem_of_cons; cbn; auto.
    + intros y [->|Hy]%elem_of_cons; cbn; auto.
  - split_and!; [set_solver|done|]. intros y [->|Hy]%elem_of_cons; cbn; [lia|].
    destruct (ring_wf_elem _ _ _ _ H3 Hy). lia.
Qed.

Lemma ring_wf_key w lo m e e' : ring_wf w lo m -> e ∈ m -> e' ∈ m -> e.1 = e'.1 -> e = e'.
Proof.
  revert lo; induction m as [|[k v] m IH]; intros lo Hw He He' E; [by apply not_elem_of_nil in He|].
  destruct Hw as (H1 & H2 & H3). apply elem_of_cons in He as [->|He], He' as [->|He']; cbn in E; try done.
  - destruct (ring_wf_elem _ _ _ _ H3 He'). lia.
  - destruct (ring_wf_elem _ _ _ _ H3 He). lia.
  - by eapply IH.
Qed.

Lemma nearest_unique w h m e e' : ring_wf w 0 m -> 0 <= h < 2 ^ w ->
  nearest w h m e -> nearest w h m e' -> e = e'.
Proof.
  intros Hw Hh [He H1] [He' H2]. eapply ring_wf_key; try done.
  specialize (H1 _ He'). specialize (H2 _ He).
  destruct (ring_wf_elem _ _ _ _ Hw He) as [B _], (ring_wf_elem _ _ _ _ Hw He') as [B' _].
  destruct (Z.lt_ge_cases e.1 h), (Z.lt_ge_cases e'.1 h);
    rewrite ?(dist_below w h e.1), ?(dist_above w h e.1), ?(dist_below w h e'.1), ?(dist_above w h e'.1) in * by lia; lia.
Qed.

Lemma find_is_nearest w h m : ring_wf w 0 m -> 0 <= h < 2 ^ w ->
  match find h m with Some e => nearest w h m e | None => m = [] end.
Proof.
  intros Hw Hh. unfold find. destruct m as [|[k v] m]; [done|]. cbn [empty head].
  pose proof (lower_bound_spec w 0 h _ Hw) as Hl. set (l := (k, v) :: m) in *.
  destruct (lower_bound h l) as [e|].
  - destruct Hl as (I1 & I2 & I3). split; [done|]. intros y Hy.
    destruct (ring_wf_elem _ _ _ _ Hw I1) as [B _], (ring_wf_elem _ _ _ _ Hw Hy) as [B' _].
    rewrite (dist_above w h e.1) by lia. destruct (I3 y Hy).
    + rewrite dist_below by lia. lia.
    + rewrite dist_above by lia. lia.
  - split; [set_solver|]. intros y Hy. pose proof (Hl y Hy). pose proof (Hl (k, v) ltac:(set_solver)) as Hk. cbn in Hk |- *.
    destruct (ring_wf_elem _ _ _ _ Hw Hy) as [B _]. destruct Hw as (H1 & _ & H3).
    rewrite !dist_below by lia. unfold l in Hy. apply elem_of_cons in Hy as [->|Hy]; cbn; [lia|].
    destruct (ring_wf_elem _ _ _ _ H3 Hy). lia.
Qed.

Lemma find_nearest_iff w h m e : ring_wf w 0 m -> 0 <= h < 2 ^ w ->
  find h m = Some e <-> nearest w h m e.
Proof.
  intros Hw Hh. pose proof (find_is_nearest w h m Hw Hh) as H. destruct (find h m) as [e'|].
  - split; [by intros [= ->]|]. intros Hn. f_equal. by eapply nearest_unique.
  - subst m. split; [done|]. by intros [?%not_elem_of_nil _].
Qed.

(** The ring is well-formed for ever: from a ring whose keys are w-bit hashes in
    strict order, each the hash of its node, every operation leads to such a ring; an
    insertion adds the node unless its hash is taken, a removal takes away what has the
    hash and says whether there was something. *)
Theorem ring_well_formed (w : Z) (x : T) (it : Z * T) (m : ring) : hashes w -> ring_wf w 0 m ->
  (let '(e, b, r) := insert x m in
   ring_wf w 0 r /\ e ∈ r /\ e.1 = hasher x /\ size r = size m + (if b then 1 else 0) /\
   (if b then e = (hasher x, x) /\ forall y, y ∈ r <-> y = e \/ y ∈ m else r = m)) /\
  (let '(n, r) := erase x m in
   ring_wf w 0 r /\ (forall y, y ∈ r <-> y ∈ m /\ y.1 <> hasher x) /\ size r = size m - n /\
   n = (if bool_decide (hasher x ∈ m.*1) then 1 else 0)) /\
  ring_wf w 0 (erase_at it m).
Proof.
  intros Hh Hw. pose proof (map_insert_spec w 0 x m Hh ltac:(apply Hh) Hw) as Hi. unfold insert, erase, erase_at.
  pose proof (map_insert_size (hasher x) x m) as Hs. pose proof (map_erase_size (hasher x) m) as Hs'.
  pose proof (map_erase_spec w 0 (hasher x) m Hw) as He. pose proof (map_erase_spec w 0 it.1 m Hw) as He'.
  destruct (map_insert (hasher x) x m) as [[e b] r], (map_erase (hasher x) m) as [n r'], (map_erase it.1 m) as [n' r''].
  split_and!; try apply Hi; try apply He; try apply He'; try done.
  destruct Hi as (_ & _ & _ & Hi). destruct b; [|done]. by destruct Hi as (? & ? & _).
Qed.

(** The owner of a key is the node whose hash is met first going up from the
    key's hash and around the ring; there is one unless the ring is empty. *)
Theorem ring_owner (w h : Z) (m : ring) : ring_wf w 0 m -> 0 <= h < 2 ^ w ->
  (find h m = None <-> m = []) /\ (forall e, find h m = Some e <-> nearest w h m e).
Proof.
  intros Hw Hb. split.
  - pose proof (find_is_nearest w h m Hw Hb) as H. destruct (find h m) as [e'|]; [|done].
    split; [done|]. intros ->. by destruct H as [?%not_elem_of_nil _].
  - intros e'. by apply find_nearest_iff.
Qed.

(** Consistent hashing moves as few keys as possible: a node that joins takes
    some keys over and changes the owner of no other key; when a node leaves, only the
    keys it owned change their owner. *)
Theorem minimal_disruption (w h : Z) (x : T) (m : ring) : hashes w -> ring_wf w 0 m -> 0 <= h < 2 ^ w ->
  (find h (insert x m).2 = find h m \/ find h (insert x m).2 = Some (hasher x, x)) /\
  (forall e, find h m = Some e -> e.1 <> hasher x -> find h (erase x m).2 = Some e).
Proof.
  intros Hh Hw Hb. pose proof (map_insert_spec w 0 x m Hh) as Hi. unfold insert, erase.
  pose proof (map_erase_spec w 0 (hasher x) m Hw) as He.
  destruct (map_insert (hasher x) x m) as [[e b] r], (map_erase (hasher x) m) as [n r']. cbn.
  specialize (Hi ltac:(apply Hh) Hw) as (I1 & I2 & I3 & I4). destruct He as (E1 & E2 & _). split.
  - destruct b; [|subst; by left]. destruct I4 as (-> & I4 & _).
    destruct (find h r) as [e'|] eqn:E; [|].
    + apply (find_nearest_iff w) in E as Hn; [|done..]. destruct Hn as [Hin Hle].
      apply I4 in Hin as [->|Hin]; [by right|]. left. symmetry. apply (find_nearest_iff w); [done..|].
      split; [done|]. intros y Hy. apply Hle, I4. by right.
    + pose proof (find_is_nearest w h r I1 Hb) as Hn. rewrite E in Hn. subst r. by apply not_elem_of_nil in I2.
  - intros e' E Hx. apply (find_nearest_iff w) in E as [Hin Hle]; [|done..]. apply (find_nearest_iff w); [done..|].
    split; [by apply E2|]. intros y [Hy _]%E2. by apply Hle.
Qed.

(** Nodes are told apart by their hash alone: a node whose hash is taken is not
    inserted, and removing it removes the node that has its hash. *)
Theorem colliding_node (w : Z) (x y : T) (m : ring) : hashes w -> ring_wf w 0 m ->
  hasher x = hasher y -> (hasher y, y) ∈ m ->
  insert x m = (hasher y, y, false, m) /\ (erase x m).1 = 1 /\ (hasher y, y) ∉ (erase x m).2.
Proof.
  intros Hh Hw E Hy. pose proof (map_insert_spec w 0 x m Hh ltac:(apply Hh) Hw) as Hi. unfold insert, erase.
  pose proof (map_erase_spec w 0 (hasher x) m Hw) as He.
  destruct (map_insert (hasher x) x m) as [[e b] r], (map_erase (hasher x) m) as [n r']. cbn.
  destruct He as (_ & E2 & ->), Hi as (I1 & I2 & I3 & I4). split_and!.
  - destruct b; [destruct I4 as (_ & _ & I4); by destruct (I4 _ Hy)|]. subst r.
    by rewrite (ring_wf_key w 0 m e (hasher y, y)) by (cbn; congruence || done).
  - rewrite bool_decide_eq_true_2; [done|]. rewrite E. by apply (list_elem_of_fmap_2 fst _ (hasher y, y)).
  - rewrite E2. cbn. by intros [_ ?].
Qed.
End Ring.

(** ** Witnesses *)
Module RingExamples.
Definition low4 (x : Z) : Z := x mod 16.
Definition ring3 : ring := [(1, 1); (5, 21); (12, 12)].

Lemma low4_hashes : hashes low4 4.
Proof. intros x. unfold in_width, low4. apply Z.mod_pos_bound. lia. Qed.
Lemma ring3_wf : ring_wf low4 4 0 ring3.
Proof. by vm_compute. Qed.

Lemma ring_owner_witness : find 13 ring3 = Some (1, 1) /\ nearest 4 13 ring3 (1, 1).
Proof.
  destruct (ring_owner low4 4 13 ring3 ring3_wf ltac:(lia)) as [_ H].
  split; [reflexivity|]. apply H. reflexivity.
Defined.

Lemma ring_well_formed_witness : ring_wf low4 4 0 (insert low4 7 ring3).2 /\ size (insert low4 7 ring3).2 = 4.
Proof.
  destruct (ring_well_formed low4 4 7 (1, 1) ring3 low4_hashes ring3_wf) as [(H1 & _ & _ & H2 & _) _].
  split; [exact H1|exact H2].
Defined.

Lemma minimal_disruption_witness : find 3 (erase low4 1 ring3).2 = Some (5, 21).
Proof.
  destruct (minimal_disruption low4 4 3 1 ring3 low4_hashes ring3_wf ltac:(lia)) as [_ H].
  apply H; [reflexivity|]. by vm_compute.
Defined.

Lemma colliding_node_witness : insert low4 5 ring3 = (5, 21, false, ring3).
Proof.
  apply (colliding_node low4 4 5 21 ring3 low4_hashes ring3_wf); [reflexivity|].
  cbn. apply elem_of_cons. right. apply elem_of_cons. by left.
Defined.
End RingExamples.
