(* ===== verification/Runtime.v ===== *)
(** * The runtime: actors, mailboxes and workers together

    How include/mola/scheduler.hpp (Worker::run), include/mola/actor.hpp
    (Actor::deliver_message, Actor::execute) and the mailbox work together: a message to a
    blocked mailbox puts the actor on the run queue, a worker takes the actor
    off, runs its schedule loop and puts it back unless its mailbox got blocked.

    The operations of the mailbox are atomic steps here.  Mailbox.v and
    MailboxConc.v show that they may be taken so as long as one thread at a time
    consumes, and that this is the case is shown in this file.  The run queue is a
    list from which a worker takes any task: WorkSteal.v and LinkedQueue.v show
    that the queues lose and duplicate none.  Threads that send and threads
    that work interleave freely. *)
From stdpp Require Import base list gmap numbers.
From S2P Require Import Prelude Message Mailbox Actor.

#[local] Open Scope Z_scope.
#[local] Arguments wrap : simpl never.

(** ** The state *)

(** An actor: its mailbox, and, as a record of what happened, the messages that were
    accepted for it and those that were invoked. *)
Record astate := MkA {
  a_mb : amailbox;
  a_tag : mbox_tag;
  a_sent : list metadata;
  a_done : list metadata
}.

(** Where a worker is: in Worker::run before dequeue, in the loop of execute at the
    counter [i], at its end, or back with the status of execute. *)
Inductive wstate :=
| Idle
| Loop (a i : Z)
| Trying (a : Z)
| Returned (a : Z) (r : ExecStatus).

(** [owing]: the actors that deliver_message is about to enqueue, after the mailbox
    told it MAILBOX_UNBLOCKED. *)
Record world := MkW {
  actors : gmap Z astate;
  queue : list Z;
  owing : list Z;
  workers : list wstate
}.

Definition new_actor : astate := MkA ([], [[]; []]) MB_BLOCKED [] [].

Definition push (x : Z) (m : metadata) (mb : amailbox) : amailbox := ((x, m) :: mb.1, mb.2).

Inductive action :=
| Create (a : Z) (autostart : bool)
| Send (a x : Z) (m : metadata)
| Resched (k : nat)
| Take (w k : nat)
| Turn (w : nat) (throws : bool)
| Try (w : nat)
| Return (w : nat).

Definition set_actor (a : Z) (s : astate) (W : world) : world :=
  MkW (<[a := s]> (actors W)) (queue W) (owing W) (workers W).
Definition set_wstate (w : nat) (p : wstate) (W : world) : world :=
  MkW (actors W) (queue W) (owing W) (<[w := p]> (workers W)).
Definition enqueue (a : Z) (W : world) : world := MkW (actors W) (queue W ++ [a]) (owing W) (workers W).

(** ** The steps *)

(** A new instance; load_module puts the instances of a module that is started
    automatically on the queue. *)
Definition create (a : Z) (autostart : bool) (W : world) : option world :=
  match actors W !! a with
  | Some _ => None
  | None => let W := set_actor a new_actor W in Some (if autostart then enqueue a W else W)
  end.

(** deliver_message up to the result of the mailbox.  A closed mailbox is fatal
    (ActorExit.v); here the message is just not accepted. *)
Definition deliver (a x : Z) (m : metadata) (W : world) : option world :=
  s ← actors W !! a;
  match a_tag s with
  | MB_CLOSED => Some W
  | tag =>
      let W := set_actor a (MkA (push x m (a_mb s)) MB_OPEN (m :: a_sent s) (a_done s)) W in
      Some (match tag with
            | MB_BLOCKED => MkW (actors W) (queue W) (a :: owing W) (workers W)
            | _ => W
            end)
  end.

(** The enqueue at the end of deliver_message *)
Definition resched (k : nat) (W : world) : option world :=
  a ← owing W !! k;
  Some (enqueue a (MkW (actors W) (queue W) (delete k (owing W)) (workers W))).

(** m_current = m_strategy->dequeue(this), and the start of execute *)
Definition take (w k : nat) (W : world) : option world :=
  p ← workers W !! w; a ← queue W !! k;
  match p with
  | Idle => Some (set_wstate w (Loop a 1) (MkW (actors W) (delete k (queue W)) (owing W) (workers W)))
  | _ => None
  end.

Section Steps.
(** The threshold of an actor's module. *)
Context (threshold : Z -> Z).

(** One turn of the loop of execute; [throws]: the callback exits the actor. *)
Definition turn (w : nat) (throws : bool) (W : world) : option world :=
  p ← workers W !! w;
  match p with
  | Loop a i =>
      s ← actors W !! a;
      if i <=? threshold a then
        match get_message (a_mb s) with
        | (None, mb) => Some (set_wstate w (Trying a) (set_actor a (MkA mb (a_tag s) (a_sent s) (a_done s)) W))
        | (Some m, mb) =>
            if throws then
              Some (set_wstate w (Returned a EXIT) (set_actor a (MkA mb MB_CLOSED (a_sent s) (m :: a_done s)) W))
            else
              Some (set_wstate w (Loop a (if is_reply m then i else u32 (i + 1)))
                      (set_actor a (MkA mb (a_tag s) (a_sent s) (m :: a_done s)) W))
        end
      else Some (set_wstate w (Trying a) W)
  | _ => None
  end.

(** m_mbox.is_blocked() or m_mbox.try_block() *)
Definition is_tag_blocked (t : mbox_tag) : bool := match t with MB_BLOCKED => true | _ => false end.

Definition try_idle (w : nat) (W : world) : option world :=
  p ← workers W !! w;
  match p with
  | Trying a =>
      s ← actors W !! a;
      Some (if idle (is_tag_blocked (a_tag s)) (a_mb s) then
              set_wstate w (Returned a BLOCKED) (set_actor a (MkA (a_mb s) MB_BLOCKED (a_sent s) (a_done s)) W)
            else set_wstate w (Returned a RESUMABLE) W)
  | _ => None
  end.

(** What Worker::run does with the status. *)
Definition return_status (w : nat) (W : world) : option world :=
  p ← workers W !! w;
  match p with
  | Returned a RESUMABLE => Some (set_wstate w Idle (enqueue a W))
  | Returned a BLOCKED => Some (set_wstate w Idle W)
  | Returned a EXIT =>
      Some (set_wstate w Idle (MkW (delete a (actors W)) (queue W) (owing W) (workers W)))
  | _ => None
  end.

Definition exec (act : action) (W : world) : option world :=
  match act with
  | Create a auto => create a auto W
  | Send a x m => deliver a x m W
  | Resched k => resched k W
  | Take w k => take w k W
  | Turn w throws => turn w throws W
  | Try w => try_idle w W
  | Return w => return_status w W
  end.

Fixpoint exec_all (l : list action) (W : world) : option world :=
  match l with
  | [] => Some W
  | act :: l => W ← exec act W; exec_all l W
  end.

Definition start (n : nat) : world := MkW ∅ [] [] (replicate n Idle).

(** ** One token per actor *)
Definition here (a b : Z) : nat := if decide (a = b) then 1%nat else 0%nat.
Definition held (a : Z) (p : wstate) : nat :=
  match p with
  | Loop b _ | Trying b | Returned b RESUMABLE => here a b
  | _ => 0%nat
  end.

Definition tokens (a : Z) (W : world) : nat :=
  (sum_list (here a <$> queue W) + sum_list (here a <$> owing W) + sum_list (held a <$> workers W))%nat.

(** What holds of an actor with [n] tokens. *)
Definition actor_ok (n : nat) (o : option astate) : Prop :=
  match o with
  | None => n = 0%nat
  | Some s =>
      mb_wf (a_mb s) /\
      match a_tag s with
      | MB_OPEN => n = 1%nat
      | MB_BLOCKED => n = 0%nat /\ inbox (a_mb s) = []
      | MB_CLOSED => n = 0%nat
      end /\ a_sent s ≡ₚ a_done s ++ (inbox (a_mb s)).*2
  end.

(** A worker that exits an actor has closed its mailbox, and only one does. *)
Definition leaving (a : Z) (p : wstate) : nat :=
  match p with Returned b EXIT => here a b | _ => 0%nat end.
Definition exits_ok (a : Z) (W : world) : Prop :=
  sum_list (leaving a <$> workers W) =
    match actors W !! a with Some (MkA _ MB_CLOSED _ _) => 1%nat | _ => 0%nat end.

Definition ok_at (a : Z) (W : world) : Prop := actor_ok (tokens a W) (actors W !! a) /\ exits_ok a W.

Definition world_ok (W : world) : Prop := forall a, ok_at a W.

(** What the parts of a step do to the counts. *)
Definition exits (a : Z) (W : world) : nat := sum_list (leaving a <$> workers W).

Lemma tokens_set_wstate a w p q W : workers W !! w = Some p ->
  (tokens a (set_wstate w q W) + held a p = tokens a W + held a q)%nat.
Proof. intros H. unfold tokens. cbn. pose proof (sum_fmap_insert (held a) _ _ _ q H). lia. Qed.

Lemma exits_set_wstate a w p q W : workers W !! w = Some p ->
  (exits a (set_wstate w q W) + leaving a p = exits a W + leaving a q)%nat.
Proof. intros H. unfold exits. cbn. pose proof (sum_fmap_insert (leaving a) _ _ _ q H). lia. Qed.

Lemma tokens_enqueue a b W : tokens a (enqueue b W) = (tokens a W + here a b)%nat.
Proof. unfold tokens. cbn. rewrite sum_fmap_snoc. lia. Qed.

Lemma here_eq a : here a a = 1%nat.
Proof. unfold here. by rewrite decide_True. Qed.
Lemma here_ne a b : a <> b -> here a b = 0%nat.
Proof. intros. unfold here. by rewrite decide_False. Qed.

Lemma inbox_push x m mb : inbox (push x m mb) = (x, m) :: inbox mb.
Proof. done. Qed.

(** A step that leaves the actor [b] alone keeps what holds of it. *)
Lemma world_ok_other W W' b :
  actors W' !! b = actors W !! b -> tokens b W' = tokens b W -> exits b W' = exits b W -> ok_at b W -> ok_at b W'.
Proof. unfold ok_at, exits_ok, exits. intros -> -> ->. done. Qed.

(** Every step keeps what holds of an actor [b] that it does not start automatically. *)
Lemma create_ok b a auto W W' : create a auto W = Some W' -> (auto = true -> a <> b) -> ok_at b W -> ok_at b W'.
Proof.
  unfold create. destruct (actors W !! a) eqn:E; [done|]. intros [= <-] Hauto Hok.
  destruct (decide (b = a)) as [->|Hb].
  - destruct auto; [by destruct (Hauto eq_refl)|]. unfold ok_at, exits_ok in *. cbn. rewrite lookup_insert_eq. rewrite E in Hok. destruct Hok as [Ht He].
    split; [|done]. cbn in *. unfold tokens in *. cbn. done.
  - destruct auto; (apply (world_ok_other W); [cbn; by rewrite lookup_insert_ne| |done|exact Hok]); [|done].
    rewrite tokens_enqueue, here_ne by done. unfold tokens. cbn. lia.
Qed.

Lemma deliver_ok b a x m W W' : deliver a x m W = Some W' -> ok_at b W -> ok_at b W'.
Proof.
  unfold deliver. destruct (actors W !! a) as [s|] eqn:E; cbn; [|done]. intros H Hok.
  destruct (decide (b = a)) as [->|Hb].
  - unfold ok_at, exits_ok in *. rewrite E in Hok. destruct Hok as [(Hwf & Ht & Hp) He]. destruct s as [mb tag sent dn]. cbn in *.
    destruct tag; injection H as <-; cbn; rewrite ?lookup_insert_eq, ?E; cbn; unfold tokens in *; cbn; rewrite ?here_eq.
    + split; [|done]. split_and!; [done|done|]. rewrite Hp. by rewrite Permutation_middle.
    + split; [|done]. split_and!; [done|lia|]. rewrite Hp. by rewrite Permutation_middle.
    + done.
  - destruct (a_tag s); injection H as <-; (apply (world_ok_other W); [| | |exact Hok]); cbn; try done;
      rewrite ?lookup_insert_ne by done; unfold tokens; cbn; rewrite ?here_ne by done; lia || done.
Qed.

Lemma resched_ok b k W W' : resched k W = Some W' -> ok_at b W -> ok_at b W'.
Proof.
  unfold resched. destruct (owing W !! k) as [a|] eqn:E; cbn; [|done]. intros [= <-] Hok.
  apply (world_ok_other W); [done| |done|exact Hok]. rewrite tokens_enqueue. unfold tokens. cbn.
  rewrite (sum_fmap_delete (here b) _ _ _ E). lia.
Qed.

Lemma take_ok b w k W W' : take w k W = Some W' -> ok_at b W -> ok_at b W'.
Proof.
  unfold take. destruct (workers W !! w) as [p|] eqn:Ep; cbn; [|done].
  destruct (queue W !! k) as [a|] eqn:E; cbn; [|done]. destruct p; try done. intros [= <-] Hok.
  apply (world_ok_other W); [done| | |exact Hok].
  - unfold tokens. cbn. rewrite (sum_fmap_delete (here b) (queue W) _ _ E).
    pose proof (sum_fmap_insert (held b) _ _ _ (Loop a 1) Ep). cbn in *. lia.
  - pose proof (exits_set_wstate b w _ (Loop a 1) W Ep). unfold exits in *. cbn in *. lia.
Qed.

Lemma tokens_held a w p W : workers W !! w = Some p -> (held a p <= tokens a W)%nat.
Proof. intros H. pose proof (tokens_set_wstate a w p Idle W H). cbn in *. lia. Qed.

Lemma exits_leaving a w p W : workers W !! w = Some p -> (leaving a p <= exits a W)%nat.
Proof. intros H. pose proof (exits_set_wstate a w p Idle W H). cbn in *. lia. Qed.

(** A worker that holds an actor holds its only token, and the mailbox is open. *)
Lemma held_open a w p W : ok_at a W -> workers W !! w = Some p -> held a p = 1%nat ->
  exists s, actors W !! a = Some s /\ a_tag s = MB_OPEN /\ mb_wf (a_mb s) /\
    tokens a W = 1%nat /\ exits a W = 0%nat /\ a_sent s ≡ₚ a_done s ++ (inbox (a_mb s)).*2.
Proof.
  intros Hok Hp Hh. pose proof (tokens_held a w p W Hp). destruct Hok as [Ha He].
  unfold actor_ok, exits_ok in *. fold (exits a W) in He. destruct (actors W !! a) as [[mb tag sent dn]|]; [|lia].
  destruct Ha as (Hwf & Ht & Hp'). cbn in *. exists (MkA mb tag sent dn). destruct tag; [|lia..]. done.
Qed.

(** Replacing the state of a worker by one of the same actor, and that actor's. *)
Lemma ok_at_worker W w p q a s' : workers W !! w = Some p ->
  actor_ok (tokens a W + held a q - held a p) (Some s') ->
  (exits a W + leaving a q - leaving a p = match a_tag s' with MB_CLOSED => 1 | _ => 0 end)%nat ->
  ok_at a (set_wstate w q (set_actor a s' W)).
Proof.
  intros Hp Ha He. pose proof (tokens_held a w p W Hp). pose proof (exits_leaving a w p W Hp).
  pose proof (tokens_set_wstate a w p q W Hp) as Ht. pose proof (exits_set_wstate a w p q W Hp) as Hx.
  unfold ok_at, exits_ok. fold (exits a (set_wstate w q (set_actor a s' W))).
  change (tokens a (set_wstate w q (set_actor a s' W))) with (tokens a (set_wstate w q W)).
  change (exits a (set_wstate w q (set_actor a s' W))) with (exits a (set_wstate w q W)).
  cbn [actors set_wstate set_actor]. rewrite lookup_insert_eq.
  replace (tokens a (set_wstate w q W)) with (tokens a W + held a q - held a p)%nat by lia. split; [done|].
  destruct s' as [mb tag sn dn]. cbn in He. destruct tag; lia.
Qed.

(** A worker that runs the actor [a] leaves another one alone. *)
Definition runs (a : Z) (p : wstate) : Prop :=
  match p with Idle => False | Loop b _ | Trying b | Returned b _ => b = a end.

Lemma runs_other a b p : runs a p -> b <> a -> held b p = 0%nat /\ leaving b p = 0%nat.
Proof. intros Hr Hb. destruct p as [|c i|c|c []]; cbn in *; subst; rewrite ?here_ne by done; done. Qed.

Lemma ok_at_other W W' w p q a b : workers W !! w = Some p -> runs a p -> runs a q -> b <> a ->
  actors W' !! b = actors W !! b -> queue W' = queue W -> owing W' = owing W -> workers W' = <[w := q]> (workers W) ->
  ok_at b W -> ok_at b W'.
Proof.
  intros Hp Ha Hq Hb E1 E2 E3 E4. destruct (runs_other a b p Ha Hb) as [H1 H2]. destruct (runs_other a b q Hq Hb) as [H3 H4].
  pose proof (tokens_set_wstate b w p q W Hp). pose proof (exits_set_wstate b w p q W Hp).
  apply world_ok_other; [done|..]; unfold tokens, exits in *; cbn in *; rewrite ?E2, ?E3, ?E4; lia.
Qed.

Lemma set_actor_id a s W : actors W !! a = Some s -> set_actor a s W = W.
Proof. intros H. destruct W. unfold set_actor. cbn in *. by rewrite insert_id. Qed.

Lemma turn_ok b w throws W W' : turn w throws W = Some W' -> ok_at b W -> ok_at b W'.
Proof.
  unfold turn. destruct (workers W !! w) as [p|] eqn:Ep; cbn; [|done]. destruct p as [|a i|a|a r]; try done.
  destruct (actors W !! a) as [s|] eqn:Hs; cbn; [|done]. intros H Hok. destruct (decide (b = a)) as [->|Hb].
  - destruct (held_open a w (Loop a i) W Hok Ep (here_eq a)) as (s' & E & Htag & Hwf & Ht & Hx & Hp). rewrite Hs in E. injection E as <-.
    pose proof (get_message_spec (a_mb s) Hwf) as Hg. destruct (i <=? threshold a).
    + destruct (get_message (a_mb s)) as [[m|] mb]; [destruct throws|]; injection H as <-;
        (eapply ok_at_worker; [exact Ep| |]); cbn; rewrite ?here_eq, ?Ht, ?Hx, ?Htag; try done.
      * destruct Hg as (Hwf' & x & HP). split_and!; [done|done|]. rewrite Hp, HP; cbn; by rewrite Permutation_middle.
      * destruct Hg as (Hwf' & x & HP). split_and!; [done|done|]. rewrite Hp, HP; cbn; by rewrite Permutation_middle.
      * destruct Hg as (HP & Hwf' & HP'). split_and!; [done|done|]. by rewrite Hp, HP, HP'.
    + injection H as <-. rewrite <- (set_actor_id a s W Hs).
      eapply ok_at_worker; [exact Ep| |]; cbn; rewrite ?here_eq, ?Ht, ?Hx, ?Htag; done.
  - destruct (i <=? threshold a); [destruct (get_message (a_mb s)) as [[m|] mb]; [destruct throws|]|]; injection H as <-;
      (eapply (ok_at_other W _ w (Loop a i) _ a b); [exact Ep|done| |exact Hb| |done|done|done|exact Hok]); cbn; try done;
      by rewrite lookup_insert_ne.
Qed.

Lemma try_idle_ok b w W W' : try_idle w W = Some W' -> ok_at b W -> ok_at b W'.
Proof.
  unfold try_idle. destruct (workers W !! w) as [p|] eqn:Ep; cbn; [|done]. destruct p as [|a i|a|a r]; try done.
  destruct (actors W !! a) as [s|] eqn:Hs; cbn; [|done]. intros H Hok. destruct (decide (b = a)) as [->|Hb].
  - destruct (held_open a w (Trying a) W Hok Ep (here_eq a)) as (s' & E & Htag & Hwf & Ht & Hx & Hp). rewrite Hs in E. injection E as <-.
    rewrite Htag in H. unfold idle in H. cbn in H. case_bool_decide as Hi; injection H as <-.
    + eapply ok_at_worker; [exact Ep| |]; cbn; rewrite ?here_eq, ?Ht, ?Hx; done.
    + rewrite <- (set_actor_id a s W Hs).
      eapply ok_at_worker; [exact Ep| |]; cbn; rewrite ?here_eq, ?Ht, ?Hx, ?Htag; done.
  - destruct (idle _ _); injection H as <-;
      (eapply (ok_at_other W _ w (Trying a) _ a b); [exact Ep|done| |exact Hb| |done|done|done|exact Hok]); cbn; try done.
    by rewrite lookup_insert_ne.
Qed.

Lemma return_status_ok b w W W' : return_status w W = Some W' -> ok_at b W -> ok_at b W'.
Proof.
  unfold return_status. destruct (workers W !! w) as [p|] eqn:Ep; cbn; [|done].
  destruct p as [|a i|a|a r]; try done. intros H Hok.
  pose proof (tokens_set_wstate b w (Returned a r) Idle W Ep) as Ht.
  pose proof (exits_set_wstate b w (Returned a r) Idle W Ep) as Hx.
  pose proof (exits_leaving b w _ W Ep) as Hl.
  destruct r; injection H as <-; cbn in Ht, Hx, Hl.
  - apply (world_ok_other W); [done| | |exact Hok]; unfold tokens, exits in *; cbn in *; rewrite ?sum_fmap_snoc; lia.
  - apply (world_ok_other W); [done| | |exact Hok]; unfold tokens, exits in *; cbn in *; lia.
  - destruct (decide (b = a)) as [->|Hb].
    + unfold ok_at, exits_ok in *. rewrite here_eq in *. cbn. rewrite lookup_delete_eq. unfold exits, tokens in *. cbn in *.
      destruct Hok as [Ha He]. destruct (actors W !! a) as [[mb tag sn dn]|]; [|lia].
      destruct Ha as (_ & Ha & _). cbn in Ha. destruct tag; lia.
    + rewrite here_ne in * by done. apply (world_ok_other W); [| | |exact Hok]; cbn.
      * by rewrite lookup_delete_ne.
      * unfold tokens in *. cbn in *. lia.
      * unfold exits in *. cbn in *. lia.
Qed.

(** The action starts the actor automatically. *)
Definition autostarts (a : Z) (act : action) : Prop := act = Create a true.

Lemma exec_ok_at a act W W' : ~ autostarts a act -> exec act W = Some W' -> ok_at a W -> ok_at a W'.
Proof.
  destruct act as [b auto|b x m|k|w k|w t|w|w]; cbn; intros Hn;
    eauto using deliver_ok, resched_ok, take_ok, turn_ok, try_idle_ok, return_status_ok.
  intros H. apply (create_ok a b auto W W' H). intros -> ->. by apply Hn.
Qed.

Lemma start_ok n : world_ok (start n).
Proof.
  intros a. unfold ok_at, actor_ok, exits_ok, tokens. cbn. rewrite lookup_empty.
  assert (sum_list (held a <$> replicate n Idle) = 0%nat /\ sum_list (leaving a <$> replicate n Idle) = 0%nat) as [-> ->]; [|done].
  induction n as [|n [IH1 IH2]]; cbn in *; done.
Qed.

Lemma exec_all_ok_at a l W W' : Create a true ∉ l -> exec_all l W = Some W' -> ok_at a W -> ok_at a W'.
Proof.
  revert W; induction l as [|act l IH]; cbn; intros W Hl; [by intros [= <-]|].
  apply not_elem_of_cons in Hl as [Ha Hl]. destruct (exec act W) as [W1|] eqn:E; cbn; [|done].
  intros HW Hok. eapply IH; [done..|]. eapply exec_ok_at; [|done..]. by intros ->.
Qed.

Lemma reached_ok n l W a : Create a true ∉ l -> exec_all l (start n) = Some W -> ok_at a W.
Proof. intros Hl HW. eapply exec_all_ok_at; [done..|]. apply start_ok. Qed.

(** C12: an actor that is not started automatically is run by at most one worker at a time: in
    whatever way senders and workers interleave, and whatever other actors are started
    automatically, the worker that runs it is the only one that does, and the actor is
    neither on the run queue nor about to be put there.  So one thread consumes its mailbox, as
    the mailbox requires.  For the others see [autostart_runs_twice]. *)
Theorem actor_exclusive (n : nat) (l : list action) (W : world) (a : Z) (w1 w2 : nat) (p1 p2 : wstate) :
  Create a true ∉ l -> exec_all l (start n) = Some W ->
  workers W !! w1 = Some p1 -> held a p1 = 1%nat -> workers W !! w2 = Some p2 -> held a p2 = 1%nat ->
  w1 = w2 /\ a ∉ queue W /\ a ∉ owing W.
Proof.
  intros Hl HW H1 E1 H2 E2. pose proof (reached_ok _ _ _ _ Hl HW) as Hok.
  destruct (held_open a w1 p1 W Hok H1 E1) as (_ & _ & _ & _ & Ht & _).
  pose proof (tokens_set_wstate a w1 p1 Idle W H1) as Hs. cbn in Hs.
  assert (forall q, a ∈ q -> (1 <= sum_list (here a <$> q))%nat) as Hin.
  { intros q (i & Hi)%list_elem_of_lookup_1. pose proof (sum_fmap_delete (here a) q i a Hi). rewrite here_eq in *. lia. }
  pose proof (sum_fmap_insert (held a) _ _ _ Idle H1) as Hsum. cbn in Hsum. unfold tokens in Ht.
  split_and!; [|intros Hq; specialize (Hin _ Hq); lia..].
  destruct (decide (w1 = w2)) as [|Hne]; [done|].
  assert (workers (set_wstate w1 Idle W) !! w2 = Some p2) as H2' by (cbn; by rewrite list_lookup_insert_ne).
  pose proof (tokens_held a w2 p2 _ H2'). unfold tokens in *. cbn in *. lia.
Qed.

(** C13: of an actor that is not started automatically no work is forgotten and no message lost,
    whatever other actors are: every message that was accepted for it is either invoked once
    or in the mailbox, and as long as there is one in the mailbox and the actor has not
    exited, it is on the run queue, about to be put there, or run by a worker. *)
Theorem no_actor_forgotten (n : nat) (l : list action) (W : world) (a : Z) (s : astate) :
  Create a true ∉ l -> exec_all l (start n) = Some W -> actors W !! a = Some s ->
  a_sent s ≡ₚ a_done s ++ (inbox (a_mb s)).*2 /\
  (inbox (a_mb s) <> [] -> a_tag s <> MB_CLOSED ->
   a ∈ queue W \/ a ∈ owing W \/ exists w p, workers W !! w = Some p /\ held a p = 1%nat).
Proof.
  intros Hl HW Hs. destruct (reached_ok _ _ _ _ Hl HW) as [Ha _]. rewrite Hs in Ha.
  destruct Ha as (_ & Ht & Hp). split; [done|]. intros Hi Hc.
  destruct (a_tag s); [|by destruct Ht|done].
  assert (forall {A} (f : A -> nat) (q : list A), (forall x, (f x <= 1)%nat) -> (1 <= sum_list (f <$> q))%nat ->
    exists x, x ∈ q /\ f x = 1%nat) as Hex.
  { clear. intros A f q Hf. induction q as [|x q IH]; cbn; [lia|]. intros Hq. destruct (decide (f x = 1%nat)).
    - exists x. split; [apply list_elem_of_here|done].
    - destruct IH as (y & Hy & E); [specialize (Hf x); lia|]. exists y. split; [by apply list_elem_of_further|done]. }
  assert (forall x, (here a x <= 1)%nat) as Hh by (intros x; unfold here; case_decide; lia).
  assert (forall x, here a x = 1%nat -> x = a) as Hh' by (intros x; unfold here; case_decide; done).
  assert (forall p, (held a p <= 1)%nat) as Hh2 by (intros [| | |? []]; cbn; auto with lia).
  unfold tokens in Ht. destruct (decide (1 <= sum_list (here a <$> queue W))%nat) as [H1|H1].
  - left. destruct (Hex _ _ _ Hh H1) as (x & Hx & ->%Hh'). done.
  - destruct (decide (1 <= sum_list (here a <$> owing W))%nat) as [H2|H2].
    + right; left. destruct (Hex _ _ _ Hh H2) as (x & Hx & ->%Hh'). done.
    + right; right. destruct (Hex _ (held a) (workers W) Hh2) as (p & Hp' & E); [lia|].
      apply list_elem_of_lookup_1 in Hp' as [w Hw]. by exists w, p.
Qed.

(** ** Everything gets done *)
Definition internal (act : action) : Prop := match act with Create _ _ | Send _ _ _ => False | _ => True end.

Definition load (s : astate) : nat := length (inbox (a_mb s)).
Definition total_load (m : gmap Z astate) : nat := sum_list ((fun kv => load kv.2) <$> map_to_list m).
Definition pending (m : gmap Z astate) (a : Z) : bool :=
  match m !! a with Some s => negb (load s =? 0)%nat | None => false end.

(** How many steps a worker has to go at most before it needs another message. *)
Definition weight (pend : Z -> bool) (p : wstate) : nat :=
  match p with
  | Idle => 0
  | Loop a i => if i <=? threshold a then 3 else 7
  | Trying a => if pend a then 6 else 2
  | Returned _ RESUMABLE => 5
  | Returned _ _ => 1
  end.

Definition measure (W : world) : nat :=
  (10 * total_load (actors W) + 5 * length (owing W) + 4 * length (queue W) +
   sum_list (weight (pending (actors W)) <$> workers W))%nat.

Lemma total_load_insert m a s s' : m !! a = Some s ->
  (total_load (<[a := s']> m) + load s = total_load m + load s')%nat.
Proof.
  intros H. unfold total_load.
  rewrite <- (insert_delete_id m a s H) at 2. rewrite <- (insert_delete_eq m a s').
  rewrite !(sum_list_perm _ _ (fmap_Permutation _ _ _ (map_to_list_insert _ _ _ (lookup_delete_eq m a)))).
  cbn. lia.
Qed.

Lemma total_load_delete m a : (total_load (delete a m) <= total_load m)%nat.
Proof.
  destruct (m !! a) as [s|] eqn:H; [|by rewrite delete_id].
  unfold total_load. rewrite <- (insert_delete_id m a s H) at 2.
  rewrite (sum_list_perm _ _ (fmap_Permutation _ _ _ (map_to_list_insert _ _ _ (lookup_delete_eq m a)))). cbn. lia.
Qed.

Lemma weight_mono (pend pend' : Z -> bool) p :
  (forall a, pend' a = true -> pend a = true) -> (weight pend' p <= weight pend p)%nat.
Proof.
  intros H. destruct p as [|a i|a|a r]; cbn; try lia. specialize (H a).
  destruct (pend' a), (pend a); lia || by discriminate H.
Qed.

Lemma weights_mono pend pend' l : (forall a, pend' a = true -> pend a = true) ->
  (sum_list (weight pend' <$> l) <= sum_list (weight pend <$> l))%nat.
Proof. intros H. induction l as [|p l IH]; cbn; [lia|]. pose proof (weight_mono _ _ p H). lia. Qed.

(** What the workers still have to do when [w] goes from [p] to [q]. *)
Lemma weights_step pend pend' l w p q : l !! w = Some p -> (forall a, pend' a = true -> pend a = true) ->
  (sum_list (weight pend' <$> <[w := q]> l) + weight pend p <= sum_list (weight pend <$> l) + weight pend' q)%nat.
Proof.
  intros Hp Hm. pose proof (sum_fmap_insert (weight pend') l w p q Hp). pose proof (weight_mono _ _ p Hm).
  pose proof (sum_fmap_insert (weight pend) l w p p Hp). rewrite (list_insert_id l w p Hp) in *.
  assert (sum_list (weight pend' <$> l) + weight pend p <= sum_list (weight pend <$> l) + weight pend' p)%nat; [|lia].
  clear -Hp Hm. revert w Hp; induction l as [|y l IH]; intros [|w] Hp; simplify_eq/=.
  - pose proof (weights_mono _ _ l Hm). lia.
  - specialize (IH _ Hp). pose proof (weight_mono _ _ y Hm). lia.
Qed.

Lemma pending_insert m a s s' b : m !! a = Some s -> (load s' <= load s)%nat ->
  pending (<[a := s']> m) b = true -> pending m b = true.
Proof.
  intros Hs Hle. unfold pending. destruct (decide (b = a)) as [->|Hb].
  - rewrite lookup_insert_eq, Hs, !negb_true_iff, !Nat.eqb_neq. lia.
  - by rewrite lookup_insert_ne.
Qed.

(** A step of a worker from [p] to [q] that leaves the actor [a] with [s']. *)
Lemma measure_worker W w p q a s s' : workers W !! w = Some p -> actors W !! a = Some s ->
  (load s' <= load s)%nat ->
  (10 * load s' + weight (pending (<[a := s']> (actors W))) q < 10 * load s + weight (pending (actors W)) p)%nat ->
  (measure (set_wstate w q (set_actor a s' W)) < measure W)%nat.
Proof.
  intros Hp Hs Hle Hlt. unfold measure. cbn [actors owing queue workers set_wstate set_actor].
  pose proof (total_load_insert _ _ _ s' Hs).
  pose proof (weights_step _ (pending (<[a := s']> (actors W))) _ _ _ q Hp (fun b => pending_insert _ a s s' b Hs Hle)).
  lia.
Qed.

Lemma measure_phase W w p q : workers W !! w = Some p ->
  (weight (pending (actors W)) q < weight (pending (actors W)) p)%nat ->
  (measure (set_wstate w q W) < measure W)%nat.
Proof.
  intros Hp Hlt. unfold measure. cbn [actors owing queue workers set_wstate].
  pose proof (weights_step _ (pending (actors W)) _ _ _ q Hp (fun b H => H)). lia.
Qed.

#[local] Arguments measure : simpl never.

Hypothesis thresholds : forall a, 1 <= threshold a.

Lemma load_get_message s : mb_wf (a_mb s) ->
  match get_message (a_mb s) with
  | (None, mb) => load s = 0%nat /\ length (inbox mb) = 0%nat
  | (Some _, mb) => load s = S (length (inbox mb))
  end.
Proof.
  intros Hwf. pose proof (get_message_spec _ Hwf) as H. unfold load.
  destruct (get_message (a_mb s)) as [[m|] mb]; [by destruct H as (_ & x & ->)|by destruct H as (-> & _ & ->)].
Qed.

Lemma turn_measure w throws W W' : world_ok W -> turn w throws W = Some W' -> (measure W' < measure W)%nat.
Proof.
  intros Hok. unfold turn. destruct (workers W !! w) as [p|] eqn:Ep; cbn; [|done]. destruct p as [|a i|a|a r]; try done.
  destruct (held_open a w (Loop a i) W (Hok a) Ep (here_eq a)) as (s & Hs & Htag & Hwf & _). rewrite Hs. cbn.
  pose proof (load_get_message s Hwf) as Hg. destruct (i <=? threshold a) eqn:Ei.
  - destruct (get_message (a_mb s)) as [[m|] mb]; [destruct throws|]; intros [= <-];
      (eapply measure_worker; [exact Ep|exact Hs| |]); unfold load in *; cbn [a_mb weight]; rewrite ?Ei; try lia.
    + rewrite Hg. match goal with |- context [if ?b then 3%nat else 7%nat] => destruct b end; lia.
    + unfold pending. rewrite lookup_insert_eq. unfold load. cbn [a_mb]. destruct Hg as [_ ->]. cbn. lia.
  - intros [= <-]. eapply measure_phase; [exact Ep|]. cbn. rewrite Ei. destruct (pending _ _); lia.
Qed.

Lemma try_idle_measure w W W' : world_ok W -> try_idle w W = Some W' -> (measure W' < measure W)%nat.
Proof.
  intros Hok. unfold try_idle. destruct (workers W !! w) as [p|] eqn:Ep; cbn; [|done]. destruct p as [|a i|a|a r]; try done.
  destruct (held_open a w (Trying a) W (Hok a) Ep (here_eq a)) as (s & Hs & Htag & Hwf & _). rewrite Hs. cbn.
  unfold idle. rewrite Htag. cbn. case_bool_decide as Hi; intros [= <-].
  - eapply measure_worker; [exact Ep|exact Hs|done|]. cbn [weight load a_mb]. unfold load. cbn [a_mb]. destruct (pending _ _); lia.
  - eapply measure_phase; [exact Ep|]. cbn.
    assert (pending (actors W) a = true) as ->; [|lia]. unfold pending, load. rewrite Hs.
    by destruct (inbox (a_mb s)).
Qed.

Lemma return_measure w W W' : return_status w W = Some W' -> (measure W' < measure W)%nat.
Proof.
  unfold return_status. destruct (workers W !! w) as [p|] eqn:Ep; cbn; [|done]. destruct p as [|a i|a|a r]; try done.
  destruct r; intros [= <-]; unfold measure; cbn [actors owing queue workers set_wstate enqueue].
  - pose proof (weights_step _ (pending (actors W)) _ _ _ Idle Ep (fun b H => H)). rewrite length_app. cbn in *. lia.
  - pose proof (weights_step _ (pending (actors W)) _ _ _ Idle Ep (fun b H => H)). cbn in *. lia.
  - pose proof (total_load_delete (actors W) a).
    assert (forall b, pending (delete a (actors W)) b = true -> pending (actors W) b = true) as Hm.
    { intros b. unfold pending. destruct (decide (b = a)) as [->|]; [by rewrite lookup_delete_eq|by rewrite lookup_delete_ne]. }
    pose proof (weights_step _ _ _ _ _ Idle Ep Hm). cbn in *. lia.
Qed.

Lemma internal_measure act W W' : world_ok W -> internal act -> exec act W = Some W' -> (measure W' < measure W)%nat.
Proof.
  intros Hok. destruct act as [a auto|a x m|k|w k|w t|w|w]; cbn; try done; intros _.
  - unfold resched. destruct (owing W !! k) as [a|] eqn:E; cbn; [|done]. intros [= <-]. unfold measure. cbn.
    rewrite length_delete, length_app by done. apply lookup_lt_Some in E. cbn. lia.
  - unfold take. destruct (workers W !! w) as [p|] eqn:Ep; cbn; [|done].
    destruct (queue W !! k) as [a|] eqn:E; cbn; [|done]. destruct p; try done. intros [= <-]. unfold measure.
    pose proof (weights_step _ (pending (actors W)) _ _ _ (Loop a 1) Ep (fun b H => H)) as Hw.
    cbn [actors owing queue workers set_wstate weight] in *. rewrite length_delete by done. apply lookup_lt_Some in E.
    rewrite (proj2 (Z.leb_le _ _) (thresholds a)) in Hw. lia.
  - by apply turn_measure.
  - by apply try_idle_measure.
  - apply return_measure.
Qed.

Lemma internal_ok act W W' : internal act -> exec act W = Some W' -> world_ok W -> world_ok W'.
Proof. intros Hi E Hok a. eapply exec_ok_at; [|done..]. by intros ->. Qed.

Lemma run_bound l W W' : world_ok W -> Forall internal l -> exec_all l W = Some W' ->
  world_ok W' /\ (length l + measure W' <= measure W)%nat.
Proof.
  revert W; induction l as [|act l IH]; intros W Hok; cbn; [intros _ [= <-]; split; [done|lia]|].
  intros [Ha Hl]%Forall_cons_iff. destruct (exec act W) as [W1|] eqn:E; cbn; [|done]. intros HW.
  destruct (IH W1) as [Hok' Hb]; [by eapply internal_ok|done..|].
  split; [done|]. pose proof (internal_measure _ _ _ Hok Ha E). lia.
Qed.

Lemma exec_workers act W W' : exec act W = Some W' -> length (workers W') = length (workers W).
Proof.
  destruct act as [a auto|a x m|k|w k|w t|w|w]; cbn;
    unfold create, deliver, resched, take, turn, try_idle, return_status; intros H;
    repeat (first [case_match|progress simplify_option_eq]); simplify_eq/=; try done;
    by rewrite ?length_insert.
Qed.

Lemma exec_all_workers l W W' : exec_all l W = Some W' -> length (workers W') = length (workers W).
Proof.
  revert W; induction l as [|act l IH]; intros W; cbn; [by intros [= <-]|].
  destruct (exec act W) as [W1|] eqn:E; cbn; [|done]. intros H. rewrite (IH _ H). by eapply exec_workers.
Qed.

(** Where no worker and no sender can go on, everything is done. *)
Lemma stuck_quiet W : world_ok W -> (0 < length (workers W))%nat ->
  (forall act, internal act -> exec act W = None) ->
  queue W = [] /\ owing W = [] /\ Forall (fun p => p = Idle) (workers W).
Proof.
  intros Hok Hn Hstuck.
  assert (Forall (fun p => p = Idle) (workers W)) as Hidle.
  { apply list.Forall_forall. intros p (w & Hw)%list_elem_of_lookup_1. destruct p as [|a i|a|a r]; [done|exfalso..].
    - specialize (Hstuck (Turn w false) I). cbn in Hstuck. unfold turn in Hstuck. rewrite Hw in Hstuck.
      destruct (held_open a w _ W (Hok a) Hw (here_eq a)) as (s & Hs & _). cbn in Hstuck. rewrite Hs in Hstuck. cbn in Hstuck.
      destruct (i <=? threshold a), (get_message (a_mb s)) as [[]]; done.
    - specialize (Hstuck (Try w) I). cbn in Hstuck. unfold try_idle in Hstuck. rewrite Hw in Hstuck.
      destruct (held_open a w _ W (Hok a) Hw (here_eq a)) as (s & Hs & _). cbn in Hstuck. by rewrite Hs in Hstuck.
    - specialize (Hstuck (Return w) I). cbn in Hstuck. unfold return_status in Hstuck. rewrite Hw in Hstuck. by destruct r. }
  split_and!; [| |done].
  - specialize (Hstuck (Take 0 0) I). cbn in Hstuck. unfold take in Hstuck.
    destruct (workers W) as [|p ws]; [cbn in Hn; lia|]. apply Forall_cons_iff in Hidle as [-> _].
    cbn in Hstuck. by destruct (queue W).
  - specialize (Hstuck (Resched 0) I). cbn in Hstuck. unfold resched in Hstuck. by destruct (owing W).
Qed.

(** C11: the runtime gets everything done: from any state that is reached when no actor is
    started automatically, the workers and the senders that have to reschedule an actor can
    take only a bounded number of steps when nothing new is sent, and when none of them can
    go on, every message that was accepted for an actor that is still there has been
    invoked, once. *)
Theorem runtime_drains (n : nat) (l l' : list action) (W W' : world) :
  (0 < n)%nat -> (forall a, Create a true ∉ l) -> exec_all l (start n) = Some W ->
  Forall internal l' -> exec_all l' W = Some W' ->
  (length l' <= measure W)%nat /\
  ((forall act, internal act -> exec act W' = None) ->
   forall a s, actors W' !! a = Some s -> a_tag s = MB_BLOCKED /\ a_sent s ≡ₚ a_done s).
Proof.
  intros Hn Hl HW Hl' HW'. assert (world_ok W) as Hok by (intros a; by eapply reached_ok).
  destruct (run_bound _ _ _ Hok Hl' HW') as [Hok' Hb]. split; [lia|]. intros Hstuck a s Hs.
  destruct (stuck_quiet W' Hok') as (Hq & Ho & Hw); [|done|].
  { rewrite (exec_all_workers _ _ _ HW'), (exec_all_workers _ _ _ HW). cbn. by rewrite length_replicate. }
  assert (tokens a W' = 0%nat /\ exits a W' = 0%nat) as [Ht Hx].
  { unfold tokens, exits. rewrite Hq, Ho. cbn.
    induction Hw as [|p ws -> Hw IH]; cbn in *; [done|exact IH]. }
  destruct (Hok' a) as [Ha He]. unfold exits_ok in He. fold (exits a W') in He. rewrite Hs, Hx in He. rewrite Hs, Ht in Ha.
  destruct Ha as (_ & Ha & Hp). destruct s as [mb tag sn dn]. cbn in *. destruct tag; [done| |done].
  split; [done|]. destruct Ha as [_ Ha]. by rewrite Hp, Ha, app_nil_r.
Qed.

(** An actor that is started automatically can be run by two workers at once: it is
    put on the run queue with a blocked mailbox, so that the first message puts it there
    once more. *)
Theorem autostart_runs_twice (a x : Z) (m : metadata) : exists W,
  exec_all [Create a true; Take 0 0; Send a x m; Resched 0; Take 1 0] (start 2) = Some W /\
  workers W = [Loop a 1; Loop a 1].
Proof.
  cbn. unfold create, take, deliver, resched. cbn. rewrite lookup_empty. cbn. rewrite lookup_insert_eq. cbn.
  eexists. by split.
Qed.
End Steps.

(** ** Witnesses *)
Module RuntimeExamples.
Definition one (_ : Z) : Z := 1.
Definition m1 : metadata := ActorExamples.req 1.
Definition m2 : metadata := ActorExamples.req 2.

(** Two messages; a worker took the actor and has invoked the first. *)
Definition busy : list action := [Create 7 false; Send 7 100 m1; Resched 0; Take 1 0; Send 7 101 m2; Turn 1 false].
Definition finish : list action := [Turn 1 false; Try 1; Return 1; Take 0 0; Turn 0 false; Turn 0 false; Try 0; Return 0].
Definition busy_world : world := default (start 2) (exec_all one busy (start 2)).
Definition done_world : world := default (start 2) (exec_all one finish busy_world).

Lemma busy_manual a : Create a true ∉ busy.
Proof. unfold busy. rewrite !not_elem_of_cons. split_and!; try discriminate. apply not_elem_of_nil. Qed.

(** The same while another actor is started automatically *)
Definition mixed : list action := busy ++ [Create 8 true; Take 0 0].
Definition mixed_world : world := default (start 2) (exec_all one mixed (start 2)).

Lemma mixed_manual : Create 7 true ∉ mixed.
Proof.
  unfold mixed. rewrite elem_of_app, !elem_of_cons. intros [H|[H|[H|H]]]; try discriminate; [by apply busy_manual in H|].
  by apply not_elem_of_nil in H.
Qed.

Lemma actor_exclusive_witness : 7 ∉ queue mixed_world /\ 7 ∉ owing mixed_world.
Proof.
  eapply (actor_exclusive one 2 mixed mixed_world 7 1 1 _ _ mixed_manual); by vm_compute.
Defined.

Lemma no_actor_forgotten_witness : exists s, actors mixed_world !! 7 = Some s /\
  a_sent s ≡ₚ a_done s ++ (inbox (a_mb s)).*2.
Proof.
  eexists. split; [by vm_compute|].
  eapply (no_actor_forgotten one 2 mixed mixed_world 7 _ mixed_manual); by vm_compute.
Defined.

Lemma runtime_drains_witness : (length finish <= measure one busy_world)%nat.
Proof.
  eapply (runtime_drains one (fun _ => Z.le_refl 1) 2 busy finish busy_world done_world);
    [lia|apply busy_manual|by vm_compute|by repeat constructor|by vm_compute].
Defined.
End RuntimeExamples.
