(* ===== verification/SchedSleep.v ===== *)
(** * How workers sleep and are woken

    WorkStealStrategy::dequeue and wakeup of include/mola/work_steal.hpp as
    concurrent code: a step is one access to m_total_jobs or m_sleep_num, one
    operation of m_mutex or m_condvar, or one search of the queues.  What the
    queues hold is in WorkSteal.v; here a search finds one of the tasks that are
    there or, because victims are drawn at random, none.

    A worker that has no task looks for one, and when the jobs are no more than the busy
    workers it goes to sleep; the last worker sleeps ten milliseconds at a time. *)
From stdpp Require Import base list numbers relations.
From S2P Require Import Prelude WorkSteal.

#[local] Open Scope Z_scope.
#[local] Arguments wrap : simpl never.

(** ** The state *)

(** Where a worker is: it runs a task ([PRun]) or is in dequeue. *)
Inductive wpc :=
| PRun                  (* outside dequeue *)
| PLocal                (* its own queue *)
| PLoop                 (* while (1): m_total_jobs > 0? *)
| PSearch               (* global_dequeue *)
| PVictims              (* the victims *)
| PBusy                 (* busy = m_workers_num - m_sleep_num *)
| PCheck (b : Z)        (* m_total_jobs > m_factor * busy? *)
| PLock                 (* lock(m_mutex) *)
| PSleep                (* ++m_sleep_num *)
| PDecide (k : Z)       (* wait, wait_for or go on *)
| PWait                 (* in m_condvar.wait *)
| PTimed                (* in m_condvar.wait_for *)
| PReacq                (* woken, takes the mutex again *)
| PWake                 (* m_sleep_num-- *)
| PRelease              (* the end of the scope of lock *)
| PGot.                 (* __exit: m_total_jobs-- *)

(** Where a thread is that enqueues, after the task was put in a queue. *)
Inductive ppc := EInc | EBusy | ECheck (b : Z) | ELock | ENotify.

(** [avail] is the number of tasks in the queues, [ws] are the workers and [ps] the
    threads inside enqueue. *)
Record sched := MkS {
  m_total_jobs : Z;
  m_sleep_num : Z;
  m_mutex : bool;
  m_total_thr_num : Z;
  avail : nat;
  ws : list wpc;
  ps : list ppc
}.

Definition workers_num (s : sched) : Z := Z.of_nat (length (ws s)).
Definition busy_now (s : sched) : Z := u32 (workers_num s - m_sleep_num s).

Definition go (w : nat) (p : wpc) (s : sched) : sched :=
  MkS (m_total_jobs s) (m_sleep_num s) (m_mutex s) (m_total_thr_num s) (avail s) (<[w := p]> (ws s)) (ps s).
Definition set_mutex (b : bool) (s : sched) : sched :=
  MkS (m_total_jobs s) (m_sleep_num s) b (m_total_thr_num s) (avail s) (ws s) (ps s).
Definition set_sleep (k : Z) (s : sched) : sched :=
  MkS (m_total_jobs s) k (m_mutex s) (m_total_thr_num s) (avail s) (ws s) (ps s).
Definition set_jobs (j : Z) (s : sched) : sched :=
  MkS j (m_sleep_num s) (m_mutex s) (m_total_thr_num s) (avail s) (ws s) (ps s).

(** A search: [found] says that it comes across a task. *)
Definition look (w : nat) (found : bool) (other : wpc) (s : sched) : sched :=
  match found, avail s with
  | true, S n => go w PGot (MkS (m_total_jobs s) (m_sleep_num s) (m_mutex s) (m_total_thr_num s) n (ws s) (ps s))
  | _, _ => go w other s
  end.

(** ** The steps *)

(** What a worker does by itself; a timeout counts as its own step. *)
Definition wstep (w : nat) (found : bool) (s : sched) : option sched :=
  match ws s !! w with
  | None | Some PWait => None
  | Some PRun => Some (go w PLocal s)
  | Some PLocal => Some (look w found PLoop s)
  | Some PLoop => Some (go w (if 0 <? m_total_jobs s then PSearch else PBusy) s)
  | Some PSearch => Some (look w found (if m_total_thr_num s =? 1 then PLoop else PVictims) s)
  | Some PVictims => Some (look w found PBusy s)
  | Some PBusy => Some (go w (PCheck (busy_now s)) s)
  | Some (PCheck b) => Some (go w (if u32 (m_factor * b) <? m_total_jobs s then PLoop else PLock) s)
  | Some PLock => if m_mutex s then None else Some (go w PSleep (set_mutex true s))
  | Some PSleep => let k := u32 (m_sleep_num s + 1) in Some (go w (PDecide k) (set_sleep k s))
  | Some (PDecide k) =>
      Some (if k <? workers_num s then go w PWait (set_mutex false s)
            else if m_total_jobs s =? 0 then go w PTimed (set_mutex false s)
            else go w PWake s)
  | Some PTimed => Some (go w PReacq s)
  | Some PReacq => if m_mutex s then None else Some (go w PWake (set_mutex true s))
  | Some PWake => Some (go w PRelease (set_sleep (u32 (m_sleep_num s - 1)) s))
  | Some PRelease => Some (go w PLoop (set_mutex false s))
  | Some PGot => Some (go w PRun (set_jobs (u32 (m_total_jobs s - 1)) s))
  end.

(** A notification or a spurious wake-up. *)
Definition wake (w : nat) (s : sched) : option sched :=
  match ws s !! w with
  | Some PWait | Some PTimed => Some (go w PReacq s)
  | _ => None
  end.

(** enqueue puts a task in a queue, then runs wakeup. *)
Definition put (s : sched) : sched :=
  MkS (m_total_jobs s) (m_sleep_num s) (m_mutex s) (m_total_thr_num s) (S (avail s)) (ws s) (ps s ++ [EInc]).

Definition pgo (p : nat) (q : ppc) (s : sched) : sched :=
  MkS (m_total_jobs s) (m_sleep_num s) (m_mutex s) (m_total_thr_num s) (avail s) (ws s) (<[p := q]> (ps s)).
Definition pdone (p : nat) (s : sched) : sched :=
  MkS (m_total_jobs s) (m_sleep_num s) (m_mutex s) (m_total_thr_num s) (avail s) (ws s) (delete p (ps s)).

Definition waits (p : wpc) : bool := match p with PWait | PTimed => true | _ => false end.

(** notify_one wakes the waiter [w], if somebody waits. *)
Definition notify_one (w : nat) (s : sched) : option sched :=
  if existsb waits (ws s) then wake w s else Some s.

Definition pstep (p w : nat) (s : sched) : option sched :=
  match ps s !! p with
  | None => None
  | Some EInc => Some (pgo p EBusy (set_jobs (u32 (m_total_jobs s + 1)) s))
  | Some EBusy => Some (pgo p (ECheck (busy_now s)) s)
  | Some (ECheck b) =>
      Some (if (b <? workers_num s) && (u32 (m_factor * b) <? m_total_jobs s) then pgo p ELock s else pdone p s)
  | Some ELock => if m_mutex s then None else Some (pgo p ENotify (set_mutex true s))
  | Some ENotify => s' ← notify_one w s; Some (pdone p (set_mutex false s'))
  end.

Inductive action := AWork (w : nat) (found : bool) | AWake (w : nat) | APut | AEnq (p w : nat).

Definition exec (a : action) (s : sched) : option sched :=
  match a with
  | AWork w found => wstep w found s
  | AWake w => wake w s
  | APut => Some (put s)
  | AEnq p w => pstep p w s
  end.

Fixpoint exec_all (l : list action) (s : sched) : option sched :=
  match l with
  | [] => Some s
  | a :: l => s ← exec a s; exec_all l s
  end.

Definition start (n h : nat) : sched :=
  MkS 0 0 false (u32 (Z.of_nat n + Z.of_nat h)) 0 (replicate n PRun) [].

(** ** The invariant *)
Definition sleeping (p : wpc) : nat :=
  match p with PDecide _ | PWait | PTimed | PReacq | PWake => 1 | _ => 0 end.
Definition waiting (p : wpc) : nat := match p with PWait => 1 | _ => 0 end.
Definition holding (p : wpc) : nat :=
  match p with PSleep | PDecide _ | PWake | PRelease => 1 | _ => 0 end.
Definition got (p : wpc) : nat := match p with PGot => 1 | _ => 0 end.
Definition pholding (p : ppc) : nat := match p with ENotify => 1 | _ => 0 end.
Definition uncounted (p : ppc) : nat := match p with EInc => 1 | _ => 0 end.

Definition total {A} (f : A -> nat) (l : list A) : nat := sum_list (f <$> l).
#[local] Arguments total : simpl never.

(** The number of sleepers is what m_sleep_num says, the mutex has one holder, a worker
    between ++m_sleep_num and its decision has read the present number, not all workers
    wait, and m_total_jobs counts the tasks that are there, but for those just put
    and just taken. *)
Record sched_ok (s : sched) : Prop := {
  ok_num : 0 < workers_num s < 2 ^ 31;
  ok_sleep : m_sleep_num s = Z.of_nat (total sleeping (ws s));
  ok_mutex : (total holding (ws s) + total pholding (ps s) = if m_mutex s then 1 else 0)%nat;
  ok_decide : forall w k, ws s !! w = Some (PDecide k) -> k = m_sleep_num s;
  ok_wait : (total waiting (ws s) < length (ws s))%nat;
  ok_jobs : m_total_jobs s =
    u32 (Z.of_nat (avail s) + Z.of_nat (total got (ws s)) - Z.of_nat (total uncounted (ps s)))
}.

(** ** Preservation *)
Lemma total_insert {A} (f : A -> nat) (l : list A) k x y : l !! k = Some x ->
  (total f (<[k := y]> l) + f x = total f l + f y)%nat.
Proof. apply sum_fmap_insert. Qed.

Lemma total_ge {A} (f : A -> nat) (l : list A) k x : l !! k = Some x -> (f x <= total f l)%nat.
Proof. intros H. unfold total. rewrite (sum_fmap_delete f l k x H). lia. Qed.

Lemma total_two {A} (f : A -> nat) (l : list A) i j x y :
  l !! i = Some x -> l !! j = Some y -> i <> j -> (f x + f y <= total f l)%nat.
Proof.
  intros Hi Hj Hij. unfold total. rewrite (sum_fmap_delete f l i x Hi).
  assert (E2 : exists j', delete i l !! j' = Some y).
  { apply list_elem_of_lookup_1. rewrite (delete_take_drop l i). 
    destruct (decide (j < i)%nat).
    - apply elem_of_app; left. apply list_elem_of_lookup_2 with j. by rewrite lookup_take_lt.
    - apply elem_of_app; right. apply list_elem_of_lookup_2 with (j - S i)%nat.
      rewrite lookup_drop. by replace (S i + (j - S i))%nat with j by lia. }
  destruct E2 as [j' E2]. rewrite (sum_fmap_delete f _ j' y E2). lia.
Qed.

Lemma total_mono {A} (f g : A -> nat) (l : list A) :
  (forall x, f x <= g x)%nat -> (total f l <= total g l)%nat.
Proof. intros H. unfold total. induction l as [|x l IH]; cbn; [done|]. specialize (H x). lia. Qed.

Lemma total_one {A} (l : list A) : total (fun _ => 1%nat) l = length l.
Proof. unfold total. induction l as [|x l IH]; cbn in *; lia. Qed.

Definition one (b : bool) : nat := if b then 1 else 0.

(** One worker moves from [p] to [q]; the other fields change with it. *)
Lemma go_ok s w p q j k b a :
  sched_ok s -> ws s !! w = Some p ->
  k + Z.of_nat (sleeping p) = m_sleep_num s + Z.of_nat (sleeping q) ->
  (one b + holding p = one (m_mutex s) + holding q)%nat ->
  (sleeping p = sleeping q \/ holding p = 1%nat) ->
  (forall k', q = PDecide k' -> k' = k) ->
  (total waiting (ws s) + waiting q < length (ws s) + waiting p)%nat ->
  j = u32 (m_total_jobs s + (Z.of_nat a + Z.of_nat (got q)) - (Z.of_nat (avail s) + Z.of_nat (got p))) ->
  sched_ok (MkS j k b (m_total_thr_num s) a (<[w := q]> (ws s)) (ps s)).
Proof.
  intros [Hn Hs Hm Hd Hw Hj] Hp Hk Hb Hex Hq Hwt Hjb.
  pose proof (total_insert sleeping _ _ _ q Hp). pose proof (total_insert holding _ _ _ q Hp).
  pose proof (total_insert waiting _ _ _ q Hp). pose proof (total_insert got _ _ _ q Hp).
  unfold one in Hb.
  split; unfold workers_num in *; cbn; rewrite ?length_insert; try lia.
  - intros w' k'. destruct (decide (w = w')) as [<-|Hne].
    + rewrite list_lookup_insert_eq by eauto using lookup_lt_Some. intros [= E]. auto.
    + rewrite list_lookup_insert_ne by done. intros E. rewrite (Hd _ _ E).
      destruct Hex as [|Hh]; [lia|].
      pose proof (total_two holding _ _ _ _ _ Hp E Hne) as Ht. cbn in Ht. destruct (m_mutex s); cbn in *; lia.
  - rewrite Hjb, Hj, <- Z.add_sub_assoc, wrap_add_l. f_equal. lia.
Qed.

(** A thread inside enqueue moves. *)
Lemma p_ok s p q l j b :
  sched_ok s -> ps s !! p = Some q ->
  (one b + pholding q = one (m_mutex s) + pholding (default EBusy l))%nat ->
  j = u32 (m_total_jobs s + Z.of_nat (uncounted q) - Z.of_nat (uncounted (default EBusy l))) ->
  sched_ok (MkS j (m_sleep_num s) b (m_total_thr_num s) (avail s) (ws s)
    (match l with Some q' => <[p := q']> (ps s) | None => delete p (ps s) end)).
Proof.
  intros [Hn Hs Hm Hd Hw Hj] Hp Hb Hjb. unfold one in Hb.
  assert (E : forall f : ppc -> nat, f EBusy = 0%nat ->
    (total f (match l with Some q' => <[p := q']> (ps s) | None => delete p (ps s) end) + f q
     = total f (ps s) + f (default EBusy l))%nat).
  { intros f Hf. destruct l as [q'|]; cbn.
    - by apply total_insert.
    - unfold total. rewrite (sum_fmap_delete f _ _ _ Hp). lia. }
  pose proof (E pholding eq_refl). pose proof (E uncounted eq_refl).
  split; cbn; auto.
  - destruct b, (m_mutex s); cbn in *; lia.
  - rewrite Hjb, Hj, <- Z.add_sub_assoc, wrap_add_l. f_equal. lia.
Qed.

Lemma jobs_wrap s x : sched_ok s -> x = 0 -> m_total_jobs s = u32 (m_total_jobs s + x).
Proof. intros H ->. rewrite (ok_jobs s H), wrap_add_l. f_equal. lia. Qed.

Lemma sleep_bound s : sched_ok s -> (total sleeping (ws s) <= length (ws s))%nat.
Proof.
  intros _. rewrite <- total_one. apply total_mono. by intros []; cbn; lia.
Qed.

(** A worker that is about to wait is not yet counted among those that wait. *)
Lemma decide_waiting l w k : l !! w = Some (PDecide k) -> (total waiting l < total sleeping l)%nat.
Proof.
  intros E. pose proof (total_insert waiting _ _ _ PWait E). pose proof (total_insert sleeping _ _ _ PWait E).
  assert (total waiting (<[w := PWait]> l) <= total sleeping (<[w := PWait]> l))%nat
    by (apply total_mono; by intros []; cbn; lia).
  cbn in *. lia.
Qed.

(** The side conditions of [go_ok] and [p_ok] at a concrete step. *)
Ltac step_side :=
  cbn;
  first
    [ done | lia
    | repeat match goal with H : m_mutex _ = _ |- _ => rewrite H end; cbn; lia
    | rewrite <- Z.add_sub_assoc; apply jobs_wrap; [assumption|lia]
    | f_equal; lia
    | rewrite wrap_small by width_lia; lia
    | by left | by right | by intros ? [= ->] ].

Lemma wstep_ok w found s s' : sched_ok s -> wstep w found s = Some s' -> sched_ok s'.
Proof.
  intros Hok E. pose proof (sleep_bound s Hok) as Hsb. pose proof Hok as [Hn Hs Hm Hd Hw Hj].
  unfold wstep, look, go, set_mutex, set_sleep, set_jobs, workers_num in *.
  destruct (ws s !! w) as [p|] eqn:Ep; [|done].
  pose proof (total_ge sleeping _ _ _ Ep) as Gs. pose proof (total_ge holding _ _ _ Ep) as Gh.
  pose proof (total_ge got _ _ _ Ep) as Gg.
  destruct p; cbn in *; repeat case_match; simplify_eq; cbn.
  all: eapply go_ok; [eassumption..| | | | | |]; try step_side.
  pose proof (decide_waiting _ _ _ Ep). rewrite (Hd _ _ Ep) in *. cbn. lia.
Qed.

Lemma wake_ok w s s' : sched_ok s -> wake w s = Some s' -> sched_ok s'.
Proof.
  intros Hok E. pose proof (ok_wait s Hok). unfold wake, go in E.
  destruct (ws s !! w) as [[]|] eqn:Ep; simplify_eq.
  all: eapply go_ok; [eassumption..| | | | | |]; step_side.
Qed.

Lemma notify_one_ok w s s' : sched_ok s -> notify_one w s = Some s' ->
  sched_ok s' /\ ps s' = ps s /\ m_mutex s' = m_mutex s.
Proof.
  intros Hok. unfold notify_one. destruct (existsb _ _); [|by intros [= <-]].
  intros E. split; [by eapply wake_ok|]. unfold wake in E. repeat case_match; by simplify_eq.
Qed.

Ltac producer_moves :=
  match goal with
  | |- sched_ok (MkS _ _ _ _ _ _ (<[?p := ?q]> _)) => eapply (p_ok _ p _ (Some q))
  | |- sched_ok (MkS _ _ _ _ _ _ (delete ?p _)) => eapply (p_ok _ p _ None)
  end; try eassumption; step_side.

Lemma pstep_ok p w s s' : sched_ok s -> pstep p w s = Some s' -> sched_ok s'.
Proof.
  intros Hok E. unfold pstep, pgo, pdone, set_jobs, set_mutex in E.
  destruct (ps s !! p) as [q|] eqn:Ep; [|done].
  destruct q; cbn in E; repeat case_match; simplify_eq; try producer_moves.
  apply bind_Some in E as (s1 & En & [= <-]). destruct (notify_one_ok _ _ _ Hok En) as (Hok' & Eps & Em).
  assert (m_mutex s = true).
  { pose proof (ok_mutex s Hok) as Hm. pose proof (total_ge pholding _ _ _ Ep) as Gh. cbn in Gh.
    destruct (m_mutex s); [done|lia]. }
  rewrite <- Eps in Ep. rewrite H in Em. producer_moves.
Qed.

Lemma put_ok s : sched_ok s -> sched_ok (put s).
Proof.
  intros [Hn Hs Hm Hd Hw Hj]. split; auto; cbn; unfold total in *; rewrite sum_fmap_snoc; cbn.
  - by rewrite Nat.add_0_r.
  - rewrite Hj. f_equal. lia.
Qed.

Lemma sched_exec_ok a s s' : sched_ok s -> exec a s = Some s' -> sched_ok s'.
Proof.
  destruct a; cbn; eauto using wstep_ok, wake_ok, pstep_ok. intros H [= <-]. by apply put_ok.
Qed.

Lemma exec_all_ok l s s' : sched_ok s -> exec_all l s = Some s' -> sched_ok s'.
Proof.
  revert s; induction l as [|a l IH]; cbn; intros s Hok E; [by simplify_eq|].
  apply bind_Some in E as (s1 & E1 & E). eauto using sched_exec_ok.
Qed.

Lemma total_replicate {A} (f : A -> nat) n x : f x = 0%nat -> total f (replicate n x) = 0%nat.
Proof. intros E. unfold total. induction n; cbn; lia. Qed.

Lemma sched_start_ok n h : 0 < Z.of_nat n < 2 ^ 31 -> sched_ok (start n h).
Proof.
  intros Hn. split; unfold workers_num; cbn; rewrite ?length_replicate, ?total_replicate by done; try done; try lia.
  intros w k E. apply lookup_replicate in E as [? _]. done.
Qed.

(** ** Progress *)

(** A step somebody makes by himself: no new task, no notification out of the blue. *)
Definition own (s s' : sched) : Prop :=
  (exists w found, wstep w found s = Some s') \/ (exists p w, pstep p w s = Some s').

Lemma awake_worker (l : list wpc) : (total waiting l < length l)%nat ->
  exists w p, l !! w = Some p /\ p <> PWait.
Proof.
  induction l as [|p l IH]; cbn; [lia|]. intros H. unfold total in *; cbn in H.
  destruct (decide (waiting p = 0%nat)) as [E|E].
  - exists 0%nat, p. split; [done|]. by intros ->.
  - destruct IH as (w & q & Hw & Hq); [destruct p; cbn in *; lia|]. by exists (S w), q.
Qed.

Lemma total_pos {A} (f : A -> nat) (l : list A) : (0 < total f l)%nat ->
  exists i x, l !! i = Some x /\ f x <> 0%nat.
Proof.
  unfold total. induction l as [|x l IH]; cbn; [lia|]. intros H.
  destruct (decide (f x = 0%nat)) as [E|E]; [|by exists 0%nat, x].
  destruct IH as (i & y & ? & ?); [lia|]. by exists (S i), y.
Qed.

Lemma notify_one_total s : exists w s', notify_one w s = Some s'.
Proof.
  unfold notify_one, wake. destruct (existsb waits (ws s)) eqn:E; [|by exists 0%nat, s].
  apply existsb_exists in E as (p & Hp & Ew). apply list_elem_of_In, list_elem_of_lookup_1 in Hp as [w Hp].
  exists w. rewrite Hp. destruct p; try done; eauto.
Qed.

Lemma notify_frame w s s' : notify_one w s = Some s' ->
  avail s' = avail s /\ ps s' = ps s /\ length (ws s') = length (ws s).
Proof.
  unfold notify_one, wake, go. destruct (existsb _ _); [|by intros [= <-]].
  destruct (ws s !! w) as [[]|]; try done; intros [= <-]; cbn; by rewrite length_insert.
Qed.

Lemma notify_step p s : ps s !! p = Some ENotify -> exists w s', pstep p w s = Some s'.
Proof.
  intros E. destruct (notify_one_total s) as (w & s' & Ew). exists w. unfold pstep. rewrite E, Ew. cbn. eauto.
Qed.

Lemma own_progress s : sched_ok s -> exists s', own s s'.
Proof.
  intros Hok. destruct (m_mutex s) eqn:Em.
  - pose proof (ok_mutex s Hok) as Hm. rewrite Em in Hm.
    destruct (decide (total holding (ws s) = 0%nat)) as [Hz|Hz].
    + destruct (total_pos pholding (ps s)) as (p & q & Ep & Hq); [lia|].
      destruct q; try done. destruct (notify_step p s Ep) as (w & s' & Es). exists s'. right. eauto.
    + destruct (total_pos holding (ws s)) as (w & q & Ep & Hq); [lia|].
      destruct q; try done; eexists; left; exists w, true; unfold wstep; rewrite Ep; reflexivity.
  - destruct (awake_worker _ (ok_wait s Hok)) as (w & p & Ep & Hp).
    destruct p; try done; eexists; left; exists w, true; unfold wstep; rewrite Ep, ?Em; reflexivity.
Qed.

(** C15: However workers and threads that enqueue are interleaved, and whatever wake-ups are
    spurious, m_sleep_num is the number of workers that sleep, never do all workers wait
    for a notification, and there is always somebody who can make a step of his own: the
    sleeping protocol does not deadlock. *)
Theorem never_all_asleep (n h : nat) (acts : list action) (s : sched) :
  0 < Z.of_nat n < 2 ^ 31 -> exec_all acts (start n h) = Some s ->
  m_sleep_num s = Z.of_nat (total sleeping (ws s)) /\
  (exists w p, ws s !! w = Some p /\ p <> PWait) /\
  exists s', own s s'.
Proof.
  intros Hn E. assert (Hok : sched_ok s) by eauto using exec_all_ok, sched_start_ok.
  split; [apply Hok|]. split; [apply awake_worker, Hok|]. by apply own_progress.
Qed.

(** *** A task that is in the queues can be taken *)
Definition takes (s : sched) : Prop := exists s', rtc own s s' /\ (avail s' < avail s)%nat.

(** A counted task is there. *)
Record ready (s : sched) : Prop := {
  r_ok : sched_ok s;
  r_counted : total uncounted (ps s) = 0%nat;
  r_avail : (0 < avail s)%nat;
  r_bound : Z.of_nat (avail s) + workers_num s < 2 ^ 32
}.

Lemma ready_jobs s : ready s -> 0 < m_total_jobs s.
Proof.
  intros [Hok Hc Ha Hb]. rewrite (ok_jobs s Hok), Hc.
  assert (total got (ws s) <= length (ws s))%nat
    by (rewrite <- total_one; apply total_mono; by intros []; cbn; lia).
  unfold workers_num in Hb. rewrite wrap_small; unfold in_width; lia.
Qed.

Lemma wstep_frame w found s s' : wstep w found s = Some s' ->
  ps s' = ps s /\ length (ws s') = length (ws s).
Proof.
  intros E. unfold wstep, look, go, set_mutex, set_sleep, set_jobs in E.
  repeat (case_match; simplify_eq/=); by rewrite ?length_insert.
Qed.

Lemma ready_step w found s s' : ready s -> wstep w found s = Some s' -> avail s' = avail s -> ready s'.
Proof.
  intros [Hok Hc Ha Hb] E Ea. destruct (wstep_frame _ _ _ _ E) as [Ep El]. split.
  - eauto using wstep_ok.
  - by rewrite Ep.
  - lia.
  - unfold workers_num in *. rewrite El, Ea. done.
Qed.

Lemma takes_step w found s s' : ready s -> wstep w found s = Some s' -> avail s' = avail s ->
  (ready s' -> takes s') -> takes s.
Proof.
  intros Hr E Ea Ht. destruct (Ht (ready_step _ _ _ _ Hr E Ea)) as (t & Hs & Hlt). exists t.
  split; [|lia]. apply rtc_l with s'; [|done]. left. eauto.
Qed.

Lemma takes_now w s s' : wstep w true s = Some s' -> (avail s' < avail s)%nat -> takes s.
Proof. intros E Ha. exists s'. split; [|done]. apply rtc_once. left. eauto. Qed.

Lemma lookup_moved {A} (l : list A) w x y : l !! w = Some x -> <[w := y]> l !! w = Some y.
Proof. intros E. apply list_lookup_insert_eq. by eapply lookup_lt_Some. Qed.

(** A worker that searches finds the task. *)
Definition at_search (p : wpc) : bool := match p with PLocal | PSearch | PVictims => true | _ => false end.

Lemma takes_search w s p : ready s -> ws s !! w = Some p -> at_search p = true -> takes s.
Proof.
  intros Hr Ep Hp. pose proof (r_avail s Hr) as Ha.
  destruct (avail s) as [|n] eqn:En; [lia|].
  destruct p; try done; (eapply (takes_now w); [unfold wstep, look; rewrite Ep, En; reflexivity|cbn; lia]).
Qed.

(** The step of a worker whose place and whose guards are known. *)
Ltac own_eval :=
  unfold wstep, go, set_mutex, set_sleep, set_jobs; cbn;
  repeat match goal with E : _ = _ |- _ => rewrite E end; reflexivity.

Ltac own_moved w :=
  match goal with E : _ !! w = Some _ |- _ =>
    let E' := fresh "L" in
    pose proof (fun q => lookup_moved _ w _ q E) as E'; clear E
  end; intros ?Hr.

(** [run_own w]: worker [w] makes its step, which takes no task. *)
Ltac run_own w :=
  eapply (takes_step w true);
  [ eassumption | own_eval | reflexivity | own_moved w ].

Lemma takes_loop w s : ready s -> ws s !! w = Some PLoop -> takes s.
Proof.
  intros Hr Ep. pose proof (ready_jobs s Hr) as Hj. run_own w.
  eapply (takes_search w); [done|cbn; apply L|]. by destruct (Z.ltb_spec 0 (m_total_jobs s)); [|lia].
Qed.

Lemma takes_run w s p : ready s -> ws s !! w = Some p -> p = PRun \/ p = PGot -> takes s.
Proof.
  intros Hr Ep [-> | ->].
  - run_own w. eapply (takes_search w); [done|cbn; apply L|done].
  - run_own w. specialize (L PRun). run_own w. eapply (takes_search w); [done|cbn; apply L0|done].
Qed.

Lemma takes_wake w s : ready s -> ws s !! w = Some PWake -> takes s.
Proof.
  intros Hr Ep. run_own w. specialize (L PRelease). run_own w. eapply (takes_loop w); [done|cbn; apply L0].
Qed.

Lemma takes_timed w s : ready s -> m_mutex s = false -> ws s !! w = Some PTimed -> takes s.
Proof.
  intros Hr Hm Ep. run_own w. specialize (L PReacq).
  eapply (takes_step w true); [eassumption|own_eval|reflexivity|].
  intros Hr'. apply (takes_wake w); [done|]. cbn. by eapply lookup_moved.
Qed.

(** A worker on its way to sleep takes the task or waits. *)
Definition settles (s : sched) : Prop :=
  takes s \/
  exists s', rtc own s s' /\ ready s' /\ avail s' = avail s /\ m_mutex s' = false /\
    length (ws s') = length (ws s) /\ total waiting (ws s') = S (total waiting (ws s)).

Lemma settles_step w found s s' : ready s -> wstep w found s = Some s' -> avail s' = avail s ->
  total waiting (ws s') = total waiting (ws s) ->
  (ready s' -> settles s') -> settles s.
Proof.
  intros Hr E Ea Ew Ht. pose proof (ready_step _ _ _ _ Hr E Ea) as Hr'.
  destruct (Ht Hr') as [H|(t & Hs & Hrt & Hat & Hm & Hl & Hw)].
  - left. by eapply takes_step.
  - right. exists t. split; [apply rtc_l with s'; [left; eauto|done]|].
    apply wstep_frame in E as [_ El]. split; [done|]. repeat split; (done || lia).
Qed.

Lemma waiting_moved (l : list wpc) w p q : l !! w = Some p -> waiting p = waiting q ->
  total waiting (<[w := q]> l) = total waiting l.
Proof. intros E H. pose proof (total_insert waiting _ _ _ q E). lia. Qed.

Ltac settle_own w :=
  eapply (settles_step w true);
  [ eassumption | own_eval | reflexivity | cbn; eapply waiting_moved; [eassumption|done] | own_moved w ].

Lemma settles_decide w s k : ready s -> ws s !! w = Some (PDecide k) -> settles s.
Proof.
  intros Hr Ep. pose proof (ready_jobs s Hr) as Hj.
  destruct (k <? workers_num s) eqn:Ek.
  - right. assert (E : wstep w true s = Some (go w PWait (set_mutex false s))).
    { unfold wstep. by rewrite Ep, Ek. }
    exists (go w PWait (set_mutex false s)). split; [apply rtc_once; left; eauto|].
    split; [by eapply ready_step|]. cbn. rewrite length_insert. repeat split.
    pose proof (total_insert waiting _ _ _ PWait Ep) as H. cbn in H. lia.
  - left. eapply (takes_step w true _ (go w PWake s)); [done| |reflexivity|].
    + unfold wstep. rewrite Ep, Ek. destruct (Z.eqb_spec (m_total_jobs s) 0); [lia|reflexivity].
    + intros Hr'. eapply (takes_wake w); [done|]. cbn. by eapply lookup_moved.
Qed.

Lemma settles_busy w s p : ready s -> m_mutex s = false -> ws s !! w = Some p ->
  p = PBusy \/ (exists b, p = PCheck b) \/ p = PLock -> settles s.
Proof.
  assert (Hlock : forall s, ready s -> m_mutex s = false -> ws s !! w = Some PLock -> settles s).
  { clear. intros s Hr Hm Ep. settle_own w. specialize (L PSleep). settle_own w.
    eapply (settles_decide w); [done|apply L0]. }
  assert (Hcheck : forall s b, ready s -> m_mutex s = false -> ws s !! w = Some (PCheck b) -> settles s).
  { clear p s. intros s b Hr Hm Ep. destruct (u32 (m_factor * b) <? m_total_jobs s) eqn:Ec.
    - settle_own w. left. eapply (takes_loop w); [done|apply L].
    - settle_own w. apply Hlock; [done..|apply L]. }
  intros Hr Hm Ep [-> | [[b ->] | ->]]; eauto.
  settle_own w. eapply Hcheck; [done..|apply L].
Qed.

Lemma takes_trans s s' : rtc own s s' -> avail s' = avail s -> takes s' -> takes s.
Proof. intros Hs Ha (t & Ht & Hlt). exists t. split; [by transitivity s'|lia]. Qed.

(** With the mutex free: every worker but the last may go to sleep, the last one may not. *)
Lemma free_takes n s : ready s -> m_mutex s = false ->
  (length (ws s) - total waiting (ws s) <= n)%nat -> takes s.
Proof.
  revert s; induction n as [|n IH]; intros s Hr Hm Hn.
  { pose proof (ok_wait s (r_ok s Hr)). lia. }
  assert (Hset : settles s -> takes s).
  { intros [H|(t & Hs & Hrt & Hat & Hmt & Hl & Hw)]; [done|].
    eapply takes_trans; [done..|]. apply IH; [done..|lia]. }
  pose proof (ok_mutex s (r_ok s Hr)) as Hmx. rewrite Hm in Hmx.
  destruct (awake_worker _ (ok_wait s (r_ok s Hr))) as (w & p & Ep & Hp).
  pose proof (total_ge holding _ _ _ Ep) as Gh.
  destruct p; cbn in Gh; try done; try lia;
    first [ by eapply (takes_search w) | by eapply (takes_loop w) | by eapply (takes_timed w)
          | by eapply (takes_run w); eauto | by apply Hset; eapply (settles_busy w); eauto | idtac ].
  run_own w. eapply (takes_wake w); [done|apply L].
Qed.

Lemma holder_takes s : ready s -> takes s.
Proof.
  intros Hr. destruct (m_mutex s) eqn:Em; [|by eapply free_takes].
  pose proof (ok_mutex s (r_ok s Hr)) as Hm. rewrite Em in Hm.
  assert (Hset : settles s -> takes s).
  { intros [H|(t & Hs & Hrt & Hat & Hmt & Hl & Hw)]; [done|].
    eapply takes_trans; [done..|]. by eapply free_takes. }
  destruct (decide (total holding (ws s) = 0%nat)) as [Hz|Hz].
  - destruct (total_pos pholding (ps s)) as (p & q & Ep & Hq); [lia|].
    destruct q; try done. destruct (notify_step p s Ep) as (w & s' & Es).
    pose proof (pstep_ok _ _ _ _ (r_ok s Hr) Es) as Hok'.
    assert (Hs : m_mutex s' = false /\ avail s' = avail s /\ total uncounted (ps s') = 0%nat /\
      length (ws s') = length (ws s)).
    { unfold pstep in Es. rewrite Ep in Es. apply bind_Some in Es as (s1 & En & [= <-]). cbn.
      destruct (notify_frame _ _ _ En) as (-> & -> & ->). repeat split.
      pose proof (r_counted s Hr) as Hc. unfold total in *. rewrite (sum_fmap_delete _ _ _ _ Ep) in Hc. lia. }
    destruct Hs as (Hm' & Ha & Hc & Hl). eapply (takes_trans _ s'); [|done|].
    + apply rtc_once. right. eauto.
    + eapply free_takes; [|done..]. destruct Hr. split; auto; unfold workers_num in *; lia.
  - destruct (total_pos holding (ws s)) as (w & q & Ep & Hq); [lia|].
    destruct q; try done; eauto using settles_decide, takes_wake.
    + apply Hset. settle_own w. eapply (settles_decide w); [done|apply L].
    + run_own w. eapply (takes_loop w); [done|apply L].
Qed.

Lemma counted_takes n s : total uncounted (ps s) = n -> sched_ok s -> (0 < avail s)%nat ->
  Z.of_nat (avail s) + workers_num s < 2 ^ 32 -> takes s.
Proof.
  revert s; induction n as [|n IH]; intros s Hn Hok Ha Hb; [by apply holder_takes|].
  destruct (total_pos uncounted (ps s)) as (p & q & Ep & Hq); [lia|]. destruct q; try done.
  assert (Es : pstep p 0 s = Some (pgo p EBusy (set_jobs (u32 (m_total_jobs s + 1)) s)))
    by (unfold pstep; by rewrite Ep).
  eapply takes_trans; [apply rtc_once; right; eauto|done|].
  apply IH; [|by eapply pstep_ok|done..].
  pose proof (total_insert uncounted _ _ _ EBusy Ep) as Ht. cbn in *. lia.
Qed.

(** A task is never lost to sleep: from every reachable state in which a task is in the
    queues, the workers and the threads inside enqueue can by their own steps, with no
    notification from outside, come to a state in which a worker has taken one. *)
Theorem task_taken (n h : nat) (acts : list action) (s : sched) :
  0 < Z.of_nat n < 2 ^ 31 -> exec_all acts (start n h) = Some s ->
  (0 < avail s)%nat -> Z.of_nat (avail s) + workers_num s < 2 ^ 32 ->
  exists s', rtc own s s' /\ (avail s' < avail s)%nat.
Proof.
  intros Hn E Ha Hb. eapply counted_takes; eauto using exec_all_ok, sched_start_ok.
Qed.

(** *** Examples: two workers; one goes to sleep while the other runs a task *)
Definition to_sleep : list action := replicate 8 (AWork 0 false).

Definition asleep : sched := MkS 0 1 false 2 0 [PWait; PRun] [].

Example one_sleeps : exec_all to_sleep (start 2 0) = Some asleep.
Proof. reflexivity. Qed.

(** A task comes while there are no more jobs than busy workers: nobody is woken, the task waits for the
    busy worker. *)
Example enqueue_few_jobs :
  exec_all [APut; AEnq 0 0; AEnq 0 0; AEnq 0 0] asleep = Some (MkS 1 1 false 2 1 [PWait; PRun] []).
Proof. reflexivity. Qed.

Definition one_task : list action := to_sleep ++ [APut; AEnq 0 0; AEnq 0 0; AEnq 0 0].

(** With a second task the sleeper is notified. *)
Example enqueue_more_jobs :
  exec_all (one_task ++ [APut; AEnq 0 0; AEnq 0 0; AEnq 0 0; AEnq 0 0; AEnq 0 0]) (start 2 0) =
  Some (MkS 2 1 false 2 2 [PReacq; PRun] []).
Proof. reflexivity. Qed.

Lemma never_all_asleep_witness :
  m_sleep_num asleep = 1 /\ exists s', own asleep s'.
Proof.
  destruct (never_all_asleep 2 0 to_sleep asleep) as (_ & _ & H); [lia|reflexivity|].
  split; [reflexivity|exact H].
Defined.

Lemma task_taken_witness :
  exists s', rtc own (MkS 1 1 false 2 1 [PWait; PRun] []) s' /\ (avail s' < 1)%nat.
Proof.
  exact (task_taken 2 0 one_task (MkS 1 1 false 2 1 [PWait; PRun] []) ltac:(lia) eq_refl
    ltac:(cbn; lia) ltac:(unfold workers_num; cbn; lia)).
Defined.
