(* ===== verification/LockApi.v ===== *)
(** * Locks and events for actors

    Lock, UnLock and Subscribe of src/dispatcher.cpp, on a single node:
    SingletonEngine::lock and unlock of include/mola/singleton.hpp, which keep an
    AsyncLock (Locks.v) for each zone and id, and the events of
    include/mola/node_manager.hpp with the delay pool (NodeManager.v).  An actor that
    asks for a lock goes on; the grant comes as the reply to a request of its own
    (Actor.v).  The lock of a cluster is in ZkLock.v. *)
From stdpp Require Import base list gmap strings numbers.
From S2P Require Import Prelude ActorId Message Actor Locks NodeManager.

#[local] Open Scope Z_scope.
#[local] Open Scope list_scope.
#[local] Arguments wrap : simpl never.
#[local] Abbreviation length := List.length.

(** ** The state *)
Abbreviation key := (string * Z)%type (only parsing).

(** An actor as these calls see it: its id and its requests. *)
Record client := MkClient { cl_id : ActorID; cl_reqs : ractor }.

(** A callback given to lock: for which lock, and the actor and message that it
    delivers.  The n-th callback is the request n of its AsyncLock. *)
Record call := MkCall { c_key : key; c_actor : Z; c_msg : metadata }.

(** [delivered]: the callbacks that ran, in order. *)
Record api := MkApi {
  m_lock_zone : gmap key AsyncLock.state;
  clients : gmap Z client;
  calls : list call;
  delivered : list (key * Z)
}.

Definition lock_of (k : key) (s : api) : AsyncLock.state := default AsyncLock.init (m_lock_zone s !! k).

(** ** The calls *)
Definition beforeAsyncCall (msg : metadata) (ret_intf : Z) (cur : option reqctx) (cm : option metadata)
    (c : client) : outcome (metadata * client) :=
  let '(r, a) := new_reqid (ra (cl_reqs c)) in
  let m := set_reqid r (set_response msg) in
  let m := set_target (cl_id c) m in
  let m := set_target (set_intf_id ret_intf (target m)) m in
  a ← on_async_send_done cur cm (reqid m) a;
  mret (m, MkClient (cl_id c) (MkRactor a (lost (cl_reqs c)))).

(** What an operation of the lock [k] leaves behind; the requests it granted ran
    their callbacks. *)
Definition update (k : key) (L' : AsyncLock.state) (s : api) : api :=
  let ran := drop (length (AsyncLock.granted (lock_of k s))) (AsyncLock.granted L') in
  MkApi (<[k := L']> (m_lock_zone s)) (clients s) (calls s) (delivered s ++ map (pair k) ran).

(** SingletonEngine::lock, unlock *)
Definition engine_lock (k : key) (a : Z) (m : metadata) (s : api) : api :=
  let n := Z.of_nat (length (calls s)) in
  update k (AsyncLock.acquire n (lock_of k s))
    (MkApi (m_lock_zone s) (clients s) (calls s ++ [MkCall k a m]) (delivered s)).

Definition engine_unlock (k : key) (s : api) : outcome api :=
  match m_lock_zone s !! k with
  | None => Fault AssertFailed
  | Some L => mret (update k (AsyncLock.release L) s)
  end.

(** Lock, UnLock *)
Definition Lock (a : Z) (zone : string) (id : Z) (msg : metadata) (ret_intf : Z)
    (cur : option reqctx) (cm : option metadata) (s : api) : outcome api :=
  c ← deref (clients s !! a);
  '(m, c) ← beforeAsyncCall msg ret_intf cur cm c;
  mret (engine_lock (zone, id) a m (MkApi (m_lock_zone s) (<[a := c]> (clients s)) (calls s) (delivered s))).

Definition UnLock (zone : string) (id : Z) (s : api) : outcome api := engine_unlock (zone, id) s.

(** The rest of a release: the waiter that was popped acquires again. *)
Definition retry (k : key) (i : nat) (s : api) : outcome api :=
  let L := lock_of k s in
  r ← deref (AsyncLock.transit L !! i);
  mret (update k (AsyncLock.retry r (take i (AsyncLock.transit L)) (drop (S i) (AsyncLock.transit L)) L) s).

(** ** Executions *)
Inductive op :=
| OLock (a : Z) (zone : string) (id : Z) (msg : metadata) (ret_intf : Z) (cur : option reqctx) (cm : option metadata)
| OUnLock (zone : string) (id : Z)
| ORetry (k : key) (i : nat)
| OActor (a : Z) (o : rop).

Definition exec (o : op) (s : api) : outcome api :=
  match o with
  | OLock a zone id msg ret_intf cur cm => Lock a zone id msg ret_intf cur cm s
  | OUnLock zone id => UnLock zone id s
  | ORetry k i => retry k i s
  | OActor a o =>
      c ← deref (clients s !! a);
      '(_, r) ← rexec o (cl_reqs c);
      mret (MkApi (m_lock_zone s) (<[a := MkClient (cl_id c) r]> (clients s)) (calls s) (delivered s))
  end.

(** The operations need what they name: the actor, the waiter, and for UnLock, which does not
    ask who holds the lock or whether it is taken, that the lock was once requested. *)
Definition permitted (o : op) (s : api) : Prop :=
  match o with
  | OLock a _ _ _ _ _ _ | OActor a _ => is_Some (clients s !! a)
  | OUnLock zone id => is_Some (m_lock_zone s !! (zone, id))
  | ORetry k i => is_Some (AsyncLock.transit (lock_of k s) !! i)
  end.

(** [reached n s]: [n] operations lead to [s]. *)
Inductive reached : nat -> api -> Prop :=
| reached_start cs :
    (forall a c, cs !! a = Some c -> cl_reqs c = MkRactor new_reqs []) -> reached 0 (MkApi ∅ cs [] [])
| reached_step n o s s' : reached n s -> permitted o s -> exec o s = Ok s' -> reached (S n) s'.

(** ** The invariant *)

(** The requests that were made of the lock [k]. *)
Fixpoint numbers (k : key) (n : Z) (l : list call) : list Z :=
  match l with
  | [] => []
  | c :: l => (if decide (c_key c = k) then [n] else []) ++ numbers k (n + 1) l
  end.

Definition ran (k : key) (s : api) : list Z := (filter (fun d => d.1 = k) (delivered s)).*2.

Definition good_call (c : call) : Prop := is_response (c_msg c) = true /\ reqid (c_msg c) <> INVALID_REQID.

Record api_ok (n : nat) (s : api) : Prop := {
  ok_lock : forall k, AsyncLock.inv (numbers k 0 (calls s)) (lock_of k s);
  ok_ran : forall k, AsyncLock.granted (lock_of k s) = ran k s;
  ok_client : forall a c, clients s !! a = Some c ->
    ractor_ok (cl_reqs c) /\ m_reqid_generator (ra (cl_reqs c)) <= Z.of_nat n;
  ok_calls : Forall good_call (calls s);
  ok_zone : forall k, is_Some (m_lock_zone s !! k) <-> numbers k 0 (calls s) <> []
}.

Lemma numbers_snoc k n l c :
  numbers k n (l ++ [c]) = numbers k n l ++ (if decide (c_key c = k) then [n + Z.of_nat (length l)] else []).
Proof.
  revert n; induction l as [|d l IH]; intros n; cbn [numbers app].
  - cbn. by rewrite Z.add_0_r, app_nil_r.
  - rewrite IH, <- app_assoc.
    by replace (n + 1 + Z.of_nat (length l)) with (n + Z.of_nat (length (d :: l))) by (cbn [List.length]; lia).
Qed.

Lemma lock_of_update k k' L s : lock_of k' (update k L s) = if decide (k' = k) then L else lock_of k' s.
Proof.
  unfold lock_of. cbn. destruct (decide (k' = k)) as [->|]; [by rewrite lookup_insert_eq|by rewrite lookup_insert_ne].
Qed.

Lemma ran_update k k' L s : ran k' (update k L s) =
  ran k' s ++ (if decide (k' = k) then drop (length (AsyncLock.granted (lock_of k s))) (AsyncLock.granted L) else []).
Proof.
  unfold ran. cbn. rewrite list.filter_app, fmap_app. f_equal.
  induction (drop _ _) as [|r l IH]; cbn [map]; [by destruct (decide (k' = k))|].
  destruct (decide (k' = k)) as [->|Hk].
  - rewrite filter_cons_True by done. cbn [fmap list_fmap]. by rewrite IH.
  - by rewrite filter_cons_False by (cbn; congruence).
Qed.

(** An operation of one lock that only adds grants. *)
Lemma update_ok n k L s l :
  (forall k', AsyncLock.inv (numbers k' 0 l) (if decide (k' = k) then L else lock_of k' s)) ->
  (exists g, AsyncLock.granted L = AsyncLock.granted (lock_of k s) ++ g) ->
  l = calls s -> (forall k', AsyncLock.granted (lock_of k' s) = ran k' s) ->
  (forall a c, clients s !! a = Some c ->
    ractor_ok (cl_reqs c) /\ m_reqid_generator (ra (cl_reqs c)) <= Z.of_nat n) ->
  Forall good_call l -> (forall k', is_Some (m_lock_zone (update k L s) !! k') <-> numbers k' 0 l <> []) ->
  api_ok n (update k L s).
Proof.
  intros Hinv [g Hg] -> Hran Hcl Hcs Hz. split; try done.
  - intros k'. rewrite lock_of_update. apply Hinv.
  - intros k'. rewrite lock_of_update, ran_update, Hg, drop_app_length, <- Hran.
    destruct (decide (k' = k)) as [->|]; [done|by rewrite app_nil_r].
Qed.

(** A lock that was there stays. *)
Lemma zone_update k L L' s : m_lock_zone s !! k = Some L ->
  (forall k', is_Some (m_lock_zone s !! k') <-> numbers k' 0 (calls s) <> []) ->
  forall k', is_Some (m_lock_zone (update k L' s) !! k') <-> numbers k' 0 (calls s) <> [].
Proof.
  intros E Hz k'. cbn. destruct (decide (k = k')) as [<-|Hk]; [|rewrite lookup_insert_ne by done; apply Hz].
  rewrite lookup_insert_eq. rewrite <- Hz, E. split; eauto.
Qed.

Lemma granted_acquire r L : exists g, AsyncLock.granted (AsyncLock.acquire r L) = AsyncLock.granted L ++ g.
Proof.
  unfold AsyncLock.acquire. destruct (AsyncLock.m_acquired L); cbn; [exists []; by rewrite app_nil_r|by exists [r]].
Qed.

Lemma beforeAsyncCall_ok msg ret_intf cur cm c n :
  ractor_ok (cl_reqs c) -> m_reqid_generator (ra (cl_reqs c)) <= Z.of_nat n -> Z.of_nat n + 1 < 2 ^ 32 ->
  exists m c', beforeAsyncCall msg ret_intf cur cm c = Ok (m, c') /\ ractor_ok (cl_reqs c') /\
    m_reqid_generator (ra (cl_reqs c')) <= Z.of_nat (S n) /\
    is_response m = true /\ reqid m <> INVALID_REQID /\ m_req_ctx_map (ra (cl_reqs c)) !! reqid m = None /\
    target m = set_intf_id ret_intf (cl_id c).
Proof.
  intros Hok Hg Hn. pose proof (new_reqid_spec (cl_reqs c) Hok ltac:(lia)) as Hnew. unfold beforeAsyncCall.
  destruct (new_reqid (ra (cl_reqs c))) as [r a]. destruct Hnew as (H1 & H2 & H3 & H4).
  pose proof H2 as (_ & Hc & Hr).
  assert (u32 r = r) as Hu by (apply wrap_small; unfold in_width; lia).
  cbn [reqid set_target set_reqid]. rewrite Hu.
  destruct (insert_req_ctx_ok r (MkCtx (initiator_of cur cm) None) a (lost (cl_reqs c)) H1 H2) as (a' & Ha & Hok' & Hg').
  unfold on_async_send_done. rewrite Ha. cbn. eexists _, _. split; [done|]. cbn. rewrite Hu.
  split_and!; try done; unfold INVALID_REQID; try lia. by rewrite <- H3.
Qed.

Lemma exec_api_ok n o s : api_ok n s -> Z.of_nat n + 1 < 2 ^ 32 -> permitted o s ->
  exists s', exec o s = Ok s' /\ api_ok (S n) s'.
Proof.
  intros [Hl Hr Hc Hg Hz] Hn.
  assert (forall a c, clients s !! a = Some c ->
    ractor_ok (cl_reqs c) /\ m_reqid_generator (ra (cl_reqs c)) <= Z.of_nat (S n)) as HcS
    by (intros a c E; destruct (Hc a c E); split; [done|lia]).
  destruct o as [a zone id msg ret_intf cur cm|zone id|k i|a o]; cbn [exec permitted].
  - intros [c Hcl]. unfold Lock. rewrite Hcl. cbn [deref mbind outcome_bind]. destruct (Hc a c Hcl) as [Hok Hgen].
    destruct (beforeAsyncCall_ok msg ret_intf cur cm c n Hok Hgen Hn) as (m & c' & -> & Hok' & Hgen' & Hm & Hm0 & _).
    cbn [mbind outcome_bind]. eexists. split; [done|]. unfold engine_lock. cbn [calls clients delivered m_lock_zone].
    eapply update_ok; cbn [calls clients]; [|by apply granted_acquire|done|exact Hr| | |].
    + intros k'. rewrite numbers_snoc. cbn [c_key]. change (lock_of _ _) with (lock_of k' s) at 2.
      destruct (decide (k' = (zone, id))) as [->|Hk].
      * rewrite decide_True by done. apply AsyncLock.acquire_inv, Hl.
      * rewrite decide_False by congruence. rewrite app_nil_r. apply Hl.
    + intros b d. destruct (decide (b = a)) as [->|Hb].
      * rewrite lookup_insert_eq. by intros [= <-].
      * rewrite lookup_insert_ne by done. apply HcS.
    + apply Forall_app. split; [done|]. by constructor.
    + intros k'. rewrite numbers_snoc. cbn. destruct (decide ((zone, id) = k')) as [<-|Hk].
      * rewrite lookup_insert_eq. split; [by intros _ [_ ?]%app_nil|eauto].
      * rewrite lookup_insert_ne, app_nil_r by done. apply Hz.
  - intros [L E]. unfold UnLock, engine_unlock. specialize (Hl (zone, id)) as Hlk.
    unfold lock_of in Hlk. rewrite E in Hlk |- *. cbn in Hlk.
    eexists. split; [done|]. eapply update_ok; [| |done|exact Hr|exact HcS|exact Hg|by eapply zone_update].
    + intros k'. destruct (decide (k' = (zone, id))) as [->|]; [|apply Hl].
      by apply (AsyncLock.async_step_inv (_, L) (_, AsyncLock.release L) Hlk), AsyncLock.step_release.
    + unfold lock_of. rewrite E. cbn. exists []. rewrite app_nil_r. unfold AsyncLock.release. by destruct (AsyncLock.m_wait_que L).
  - intros [r Hi]. unfold retry. rewrite Hi. cbn [deref mbind outcome_bind]. eexists. split; [done|].
    eapply update_ok; [| |done|exact Hr|exact HcS|exact Hg|].
    3:{ unfold lock_of in Hi. destruct (m_lock_zone s !! k) eqn:E; [by eapply zone_update|done]. }
    + intros k'. destruct (decide (k' = k)) as [->|]; [|apply Hl].
      apply (AsyncLock.async_step_inv (_, lock_of k s) (_, _) (Hl k)), AsyncLock.step_retry. symmetry. by apply take_drop_middle.
    + destruct (granted_acquire r (AsyncLock.MkState (AsyncLock.m_acquired (lock_of k s)) (AsyncLock.m_wait_que (lock_of k s))
        (take i (AsyncLock.transit (lock_of k s)) ++ drop (S i) (AsyncLock.transit (lock_of k s)))
        (AsyncLock.granted (lock_of k s)) (AsyncLock.releases (lock_of k s)))) as [g Hgr]. by exists g.
  - intros [c Hcl]. rewrite Hcl. cbn [deref mbind outcome_bind]. destruct (Hc a c Hcl) as [Hok Hgen].
    destruct (rexec_spec o (cl_reqs c) Hok ltac:(lia)) as (res & A' & -> & Hok' & Hgen' & _).
    cbn [mbind outcome_bind]. eexists. split; [done|]. split; try done. cbn. intros b d.
    destruct (decide (b = a)) as [->|Hb].
    + rewrite lookup_insert_eq. intros [= <-]. cbn. split; [done|lia].
    + rewrite lookup_insert_ne by done. apply HcS.
Qed.

Lemma reached_api_ok n s : reached n s -> Z.of_nat n < 2 ^ 32 -> api_ok n s.
Proof.
  induction 1 as [cs Hcs|n o s s' Hr IH Hp He]; intros Hn.
  - split; cbn; try done.
    + intros a c Ha. rewrite (Hcs a c Ha). split; [apply ids_ok_new|cbn; lia].
    + intros k. rewrite lookup_empty. split; [by intros [? ?]|done].
  - destruct (exec_api_ok n o s (IH ltac:(lia)) ltac:(lia) Hp) as (s2 & He2 & Hok). congruence.
Qed.

Lemma numbers_above k n l r : r ∈ numbers k n l -> n <= r.
Proof.
  revert n; induction l as [|c l IH]; intros n; cbn; [by intros ?%not_elem_of_nil|].
  intros [Hr|Hr%IH]%elem_of_app; [|lia]. destruct (decide (c_key c = k)); [|by apply not_elem_of_nil in Hr].
  apply list_elem_of_singleton in Hr. lia.
Qed.

Lemma numbers_nodup k n l : NoDup (numbers k n l).
Proof.
  revert n; induction l as [|c l IH]; intros n; cbn; [constructor|].
  destruct (decide (c_key c = k)); cbn; [|apply IH]. constructor; [|apply IH].
  intros Hr%numbers_above. lia.
Qed.

(** C36: locks for actors: over any sequence of Lock, UnLock (by anybody, of a free lock too),
    retries of waiters and other requests of the actors, nothing fails except that UnLock of
    a lock that was never requested stops at its assertion.  Of each
    lock, told apart by zone and id, at most one grant more was given than UnLocks found it
    taken; every request was granted, by running its callback once, or waits, or is on its way
    from a release; unless somebody is on its way, nobody waits for a free lock; and every
    grant is a reply with a request id of the actor. *)
Theorem lock_api_safe (n : nat) (s : api) : reached n s -> Z.of_nat n + 1 < 2 ^ 32 ->
  (forall o, permitted o s -> exists s', exec o s = Ok s') /\
  (forall zone id, (if decide (numbers (zone, id) 0 (calls s) = []) then UnLock zone id s = Fault AssertFailed
                    else exists s', UnLock zone id s = Ok s')) /\
  Forall good_call (calls s) /\
  forall k, let L := lock_of k s in
    NoDup (ran k s) /\ (length (ran k s) <= AsyncLock.releases L + 1)%nat /\
    numbers k 0 (calls s) ≡ₚ ran k s ++ AsyncLock.m_wait_que L ++ AsyncLock.transit L /\
    (AsyncLock.m_acquired L = false -> AsyncLock.transit L = [] -> AsyncLock.m_wait_que L = []).
Proof.
  intros Hr Hn. pose proof (reached_api_ok n s Hr ltac:(lia)) as Hok.
  split; [intros o Ho; destruct (exec_api_ok n o s Hok Hn Ho) as (s' & He & _); eauto|].
  destruct Hok as [Hl Hran Hc Hg Hz]. split.
  { intros zone id. specialize (Hz (zone, id)). unfold UnLock, engine_unlock.
    destruct (decide _) as [E|E], (m_lock_zone s !! (zone, id)) as [L|]; try done; [|by eexists|].
    - exfalso. by apply Hz.
    - by destruct (proj2 Hz E). }
  split; [done|]. intros k. cbv zeta. rewrite <- Hran.
  destruct (Hl k) as [Ha Hcount Hw]. split_and!; try done.
  - pose proof (numbers_nodup k 0 (calls s)) as Hnd. rewrite Ha in Hnd. by apply list.NoDup_app in Hnd as [? _].
  - rewrite Hcount. destruct (AsyncLock.m_acquired (lock_of k s)); cbn; lia.
Qed.

(** ** Events *)

(** A handler that Subscribe gives to the pool delivers its message to its actor;
    a single node has no pool. *)
Definition run_handler (t : Z * metadata) (w : list (Z * metadata)) : Z * list (Z * metadata) := (0, w ++ [t]).

Definition epool := @DelayPool.pool (Z * metadata).

Definition subscribe_event (event : string) (t : Z * metadata) (p : option epool) : option epool :=
  match p with Some p => Some (DelayPool.add event t p) | None => None end.

Definition on_event (event : string) (p : option epool) : option epool :=
  match p with Some p => Some (DelayPool.notify event p) | None => None end.

Definition Subscribe (a : Z) (event : string) (msg : metadata) (ret_intf : Z) (cur : option reqctx)
    (cm : option metadata) (c : client) (p : option epool) : outcome (metadata * client * option epool) :=
  '(m, c) ← beforeAsyncCall msg ret_intf cur cm c;
  mret (m, c, subscribe_event event (a, m) p).

(** A subscription is for one event: in a cluster the first event after it makes
    the pool deliver its message to the actor, once, as the reply to a fresh request,
    and the handler is gone; on a single node the request is made and nothing is ever
    delivered, because there is no pool. *)
Theorem subscription_fires_once (a : Z) (event : string) (msg : metadata) (ret_intf : Z) (cur : option reqctx)
    (cm : option metadata) (c : client) (p : epool) (n fuel : nat) (w : list (Z * metadata)) :
  ractor_ok (cl_reqs c) -> m_reqid_generator (ra (cl_reqs c)) <= Z.of_nat n -> Z.of_nat n + 1 < 2 ^ 32 ->
  DelayPool.m_event_que p = [] -> DelayPool.m_tasks p !! event = None ->
  exists m c', is_response m = true /\ m_req_ctx_map (ra (cl_reqs c)) !! reqid m = None /\
    (exists q, Subscribe a event msg ret_intf cur cm c (Some p) = Ok (m, c', Some q) /\
      exists q', DelayPool.loop_turn run_handler (S fuel) (DelayPool.notify event q) w = Ok (q', w ++ [(a, m)]) /\
        DelayPool.m_tasks q' = DelayPool.m_tasks p /\ DelayPool.notify event q' = q') /\
    Subscribe a event msg ret_intf cur cm c None = Ok (m, c', None) /\ on_event event None = None.
Proof.
  intros Hok Hg Hn Hq Ht.
  destruct (beforeAsyncCall_ok msg ret_intf cur cm c n Hok Hg Hn) as (m & c' & Hb & _ & _ & Hm & _ & Hf & _).
  exists m, c'. split; [done|]. split; [done|]. unfold Subscribe. rewrite Hb. cbn [mbind outcome_bind subscribe_event].
  split; [|done]. eexists. split; [done|].
  unfold DelayPool.notify at 1, DelayPool.add. cbn [DelayPool.m_tasks DelayPool.m_event_que DelayPool.m_stop].
  rewrite lookup_insert_eq, Ht, Hq. cbn [default id from_option app].
  unfold DelayPool.loop_turn. cbn [DelayPool.m_tasks DelayPool.m_event_que DelayPool.m_stop].
  rewrite bool_decide_eq_false_2 by apply insert_non_empty.
  cbn [DelayPool.process_events]. rewrite lookup_insert_eq. cbn -[DelayPool.notify].
  eexists. split; [by destruct fuel|]. cbn [DelayPool.m_tasks]. rewrite delete_insert_id by done. split; [done|].
  unfold DelayPool.notify. cbn. by rewrite Ht.
Qed.

(** ** Witnesses *)
Module LockApiExamples.
Definition c0 : client := MkClient (new_ActorID 0 3 1 0) (MkRactor new_reqs []).
Definition start2 : api := MkApi ∅ {[ 1 := c0; 2 := c0 ]} [] [].
Definition run (o : op) (s : api) : api := match exec o s with Ok s => s | Fault _ => s end.
Definition lock1 : op := OLock 1 "z"%string 5 zero_meta 2 None None.
Definition lock2 : op := OLock 2 "z"%string 5 zero_meta 2 None None.
Definition contended : api := run lock2 (run lock1 start2).

Lemma contended_reached : reached 2 contended.
Proof.
  apply (reached_step 1 lock2 (run lock1 start2)); [|by eexists|by vm_compute].
  apply (reached_step 0 lock1 start2); [|by eexists|by vm_compute].
  apply reached_start. intros a c. rewrite lookup_insert_Some, lookup_singleton_Some.
  by intros [[_ <-]|(_ & _ & <-)].
Qed.

Lemma lock_api_safe_witness : (length (ran ("z"%string, 5%Z) contended) <= 1)%nat /\
  UnLock "y"%string 5 contended = Fault AssertFailed.
Proof.
  destruct (lock_api_safe 2 contended contended_reached ltac:(lia)) as (_ & Hu & _ & H).
  split; [apply (H ("z"%string, 5))|exact (Hu "y"%string 5)].
Defined.

Lemma subscription_fires_once_witness : exists m c',
  Subscribe 1 "ev"%string zero_meta 2 None None c0 None = Ok (m, c', None).
Proof.
  destruct (subscription_fires_once 1 "ev"%string zero_meta 2 None None c0 (DelayPool.MkPool ∅ [] false) 0 0 [])
    as (m & c' & _ & _ & _ & H & _); try done.
  - apply ids_ok_new.
  - by exists m, c'.
Defined.
End LockApiExamples.
