(* ===== verification/Loader.v ===== *)
(** * The loader and the checker of modules

    tools/moloader.cpp and tools/mochecker.cpp, with Module::dynload_module of src/module.cpp and the start
    of the threads, WorkerGroup::initialize and start_all of src/scheduler.cpp and
    include/mola/scheduler.hpp.

    The files of the modules are arguments: [stat] says which are there and [dl] what
    dlopen and dlsym find in them.  The registry of module ids is that of ZkRegistry.v. *)
From Stdlib Require Import Ascii String.
From stdpp Require Import base list gmap numbers strings.
From S2P Require Import Prelude Text Module NodeManager Options ZkEngine ZkRegistry.

#[local] Open Scope list_scope.
#[local] Open Scope Z_scope.
#[local] Abbreviation length := List.length.
#[local] Arguments wrap : simpl never.
#[local] Arguments show_dec : simpl never.

(** ** Lists in options: DynamicLoader::str2vec *)

(** str.find(delimiter, cur_pos) *)
Fixpoint find_char (d : ascii) (s : text) : option nat :=
  match s with
  | [] => None
  | c :: s => if bool_decide (c = d) then Some O else S <$> find_char d s
  end.
Definition str_find (str : text) (d : ascii) (cur_pos : nat) : option nat :=
  (fun i => (cur_pos + i)%nat) <$> find_char d (drop cur_pos str).

Definition substr (str : text) (pos n : nat) : text := take n (drop pos str).

Fixpoint str2vec_loop (fuel : nat) (str : text) (d : ascii) (cur_pos : nat) (vec : list text)
    : outcome (nat * list text) :=
  match fuel with
  | O => Fault OutOfFuel
  | S fuel =>
      match str_find str d cur_pos with
      | None => Ok (cur_pos, vec)
      | Some pos =>
          let vec := vec ++ [substr str cur_pos (pos - cur_pos)] in
          let cur_pos := (pos + 1)%nat in
          if bool_decide (cur_pos = length str) then Ok (cur_pos, vec)
          else str2vec_loop fuel str d cur_pos vec
      end
  end.

Definition str2vec (str : text) (d : ascii) : outcome (list text) :=
  '(cur_pos, vec) ← str2vec_loop (S (length str)) str d 0 [];
  Ok (if bool_decide (cur_pos = length str) then vec else vec ++ [drop cur_pos str]).

(** *** The items between the delimiters, without an empty one at the end *)
Fixpoint fields (d : ascii) (s acc : text) : list text :=
  match s with
  | [] => if bool_decide (acc = []) then [] else [acc]
  | c :: s => if bool_decide (c = d) then acc :: fields d s [] else fields d s (acc ++ [c])
  end.

Lemma find_char_none d s : find_char d s = None -> d ∉ s.
Proof.
  induction s as [|c s IH]; cbn; [intros _; apply not_elem_of_nil|].
  case_bool_decide; [done|]. destruct (find_char d s); [done|]. intros _. apply not_elem_of_cons. auto.
Qed.

Lemma find_char_some d s i : find_char d s = Some i ->
  s = take i s ++ d :: drop (S i) s /\ (d ∉ take i s) /\ (i < length s)%nat.
Proof.
  revert i; induction s as [|c s IH]; intros i; cbn; [done|]. case_bool_decide as E.
  - intros [= <-]. subst. cbn. rewrite drop_0. split; [done|]. split; [apply not_elem_of_nil|lia].
  - destruct (find_char d s) as [j|] eqn:Ej; cbn; [|done]. intros [= <-].
    destruct (IH j eq_refl) as (Hs & Hd & Hl). cbn. split; [by f_equal|]. split; [|lia].
    apply not_elem_of_cons. auto.
Qed.

Lemma fields_free d s acc : d ∉ s -> fields d s acc = if bool_decide (acc ++ s = []) then [] else [acc ++ s].
Proof.
  revert acc; induction s as [|c s IH]; intros acc Hd; cbn; [by rewrite app_nil_r|].
  apply not_elem_of_cons in Hd as [Hc Hd]. rewrite bool_decide_eq_false_2 by done.
  rewrite IH by done. by rewrite <- app_assoc.
Qed.

Lemma fields_app d s r acc : d ∉ s -> fields d (s ++ d :: r) acc = (acc ++ s) :: fields d r [].
Proof.
  revert acc; induction s as [|c s IH]; intros acc Hd; cbn.
  - by rewrite bool_decide_eq_true_2, app_nil_r.
  - apply not_elem_of_cons in Hd as [Hc Hd]. rewrite bool_decide_eq_false_2 by done.
    rewrite IH by done. by rewrite <- app_assoc.
Qed.

Lemma str2vec_loop_ok fuel str d pos vec :
  (length str - pos < fuel)%nat -> (pos <= length str)%nat ->
  exists pos' vec', str2vec_loop fuel str d pos vec = Ok (pos', vec') /\
    (if bool_decide (pos' = length str) then vec' else vec' ++ [drop pos' str]) =
    vec ++ fields d (drop pos str) [].
Proof.
  revert pos vec; induction fuel as [|fuel IH]; intros pos vec Hf Hp; [lia|]. cbn [str2vec_loop]. unfold str_find.
  destruct (find_char d (drop pos str)) as [i|] eqn:Ei; cbn [fmap option_fmap option_map].
  - destruct (find_char_some _ _ _ Ei) as (Hs & Hd & Hl). rewrite length_drop in Hl.
    unfold substr. replace (pos + i - pos)%nat with i by lia.
    assert (Hfl : fields d (drop pos str) [] = take i (drop pos str) :: fields d (drop (pos + i + 1) str) []).
    { rewrite Hs at 1. rewrite fields_app, drop_drop by done. cbn. do 3 f_equal. lia. }
    rewrite Hfl.
    case_bool_decide as E.
    + eexists _, _. split; [done|]. rewrite bool_decide_eq_true_2 by done. f_equal.
      rewrite E, drop_all. done.
    + destruct (IH (pos + i + 1)%nat (vec ++ [take i (drop pos str)])) as (p' & v' & E1 & E2); [lia..|].
      eexists _, _. split; [exact E1|]. rewrite E2. by rewrite <- app_assoc.
  - eexists _, _. split; [done|]. rewrite fields_free by by apply find_char_none. cbn.
    case_bool_decide as E.
    + rewrite E, drop_all, bool_decide_eq_true_2 by done. by rewrite app_nil_r.
    + rewrite bool_decide_eq_false_2; [done|]. intros Hn. apply (f_equal length) in Hn.
      rewrite length_drop in Hn. cbn in Hn. lia.
Qed.

Lemma str2vec_fields str d : str2vec str d = Ok (fields d str []).
Proof.
  unfold str2vec. destruct (str2vec_loop_ok (S (length str)) str d 0 []) as (p & v & -> & E); [lia..|].
  cbn [mbind outcome_bind]. f_equal. exact E.
Qed.

(** An option that lists the items *)
Fixpoint join (d : ascii) (l : list text) : text :=
  match l with
  | [] => []
  | [x] => x
  | x :: l => x ++ d :: join d l
  end.

Lemma fields_join d l : Forall (fun x => d ∉ x) l -> last l <> Some [] -> fields d (join d l) [] = l.
Proof.
  intros Hl. induction Hl as [|x l Hx Hl IH]; [done|]. intros Hlast. destruct l as [|y l].
  - cbn in *. rewrite fields_free by done. cbn. rewrite bool_decide_eq_false_2; [done|]. by intros ->.
  - cbn [join]. rewrite fields_app by done. cbn [app]. f_equal. apply IH. done.
Qed.

(** A list of items reads back as it was written, if no item has the delimiter in it and the last
    is not empty; the search for the delimiters ends. *)
Theorem str2vec_roundtrip (d : ascii) (l : list text) :
  Forall (fun x => d ∉ x) l -> last l <> Some [] -> str2vec (join d l) d = Ok l.
Proof. intros Hl Hlast. rewrite str2vec_fields. by rewrite fields_join. Qed.

(** ** Loading modules *)

(** What dlopen finds in a file: a name and a spec; [None]: __module_spec is not there. *)
Definition so_file : Type := option (text * mola_module_spec).

Section Loader.
Context {S : Type} `{ZkTreeLaws S}.
Context (ns : option text) (stat : text -> bool) (dl : text -> option so_file) (workers : Z).

(** A process while it loads.  [p_specs]: specs that loading has changed, in the memory of the file;
    [p_ready]: the instances it enqueued, a module id and a number; [p_regs]: the names it registered,
    with whether the lock was held. *)
Record proc := MkProc {
  p_cache : list (text * Z);
  p_zk : S;
  p_index : gmap Z module;
  p_node : Node.node;
  p_specs : gmap text mola_module_spec;
  p_ready : list (Z * Z);
  p_locked : bool;
  p_regs : list (text * bool)
}.

Definition set_locked (b : bool) (p : proc) : proc :=
  MkProc (p_cache p) (p_zk p) (p_index p) (p_node p) (p_specs p) (p_ready p) b (p_regs p).

Definition with_zk (s : S) (p : proc) : proc :=
  MkProc (p_cache p) s (p_index p) (p_node p) (p_specs p) (p_ready p) (p_locked p) (p_regs p).

(** Module::create_instance() of a module whose m_id_generator is [gen]: the number of the new instance,
    or None when there are as many as there may be.  Its object and map entry are those of
    create_instance(inst_id) in Module.v. *)
Definition create_next_instance (m : module) (gen : Z) : outcome (option Z * Z) :=
  if get_max_instances m <=? gen then Ok (None, gen)
  else
    let gen' := u32 (gen + 1) in
    _ ← (if m_singleton m then mola_assert (gen' =? 1) else Ok tt);
    Ok (Some gen, gen').

(** The loop that starts all instances of an auto-started module; [i] is an int, [n] what is left of the fuel. *)
Fixpoint autostart_loop (n : nat) (i : Z) (m : module) (gen : Z) : outcome (list (Z * Z)) :=
  if i <? get_max_instances m then
    match n with
    | O => Fault OutOfFuel
    | Datatypes.S n =>
        '(actor, gen) ← create_next_instance m gen;
        match actor with
        | None => Fault AssertFailed
        | Some k => l ← autostart_loop n (i + 1) m gen; Ok ((m_id m, k) :: l)
        end
    end
  else Ok [].

Definition autostart (m : module) : outcome (list (Z * Z)) :=
  if m_autostart m then autostart_loop (Z.to_nat (get_max_instances m)) 0 m 0 else Ok [].

(** Module::dynload_module: whether there is a module. *)
Definition dynload_module (filename : text) (argv : list text) (p : proc) : outcome (bool * proc) :=
  match dl filename with
  | None | Some None => Ok (false, p)
  | Some (Some (name, sp)) =>
      let sp := default sp (p_specs p !! filename) in
      '(id, c, s) ← get_module_id ns name true (p_cache p) (p_zk p);
      m ← dynload_config id (Node.n_id (p_node p)) workers sp argv;
      ready ← autostart m;
      Ok (true, MkProc c s
        (match p_index p !! id with Some _ => p_index p | None => <[id := m]> (p_index p) end)
        (Node.add_module id name (negb (m_private m)) (p_node p))
        (<[filename := m_spec m]> (p_specs p))
        (p_ready p ++ ready)
        (p_locked p) (p_regs p ++ [(name, p_locked p)]))
  end.

Fixpoint try_paths (m_path : list text) (basename : text) (argv : list text) (p : proc) : outcome (bool * proc) :=
  match m_path with
  | [] => Ok (false, p)
  | dir :: m_path =>
      let filename := dir ++ slash :: basename in
      if stat filename then
        '(ok, p) ← dynload_module filename argv p;
        if (ok : bool) then Ok (true, p) else try_paths m_path basename argv p
      else try_paths m_path basename argv p
  end.

Definition comma : ascii := ","%char.
Definition colon : ascii := ":"%char.

(** argv[0] of a vector without elements is undefined. *)
Definition load_one (m_path : list text) (mo : text) (p : proc) : outcome (bool * proc) :=
  argv ← str2vec mo comma;
  match argv with
  | [] => Fault BadDeref
  | basename :: argv => try_paths m_path basename argv p
  end.

Fixpoint load_list (m_path : list text) (vec : list text) (num_loaded : Z) (p : proc) : outcome (Z * proc) :=
  match vec with
  | [] => Ok (num_loaded, p)
  | mo :: vec =>
      '(ok, p) ← load_one m_path mo p;
      if (ok : bool) then load_list m_path vec (num_loaded + 1) p else Ok (num_loaded, p)
  end.

(** [grant]: the registry when the synchronous lock (SyncLock.v) is granted, or None if that never happens;
    then load_all waits for ever and has no result. *)
Definition load_all (grant : option S) (m_path : list text) (lst : text) (p : proc) : outcome (option (Z * proc)) :=
  vec ← str2vec lst colon;
  if bool_decide (vec = []) then Ok (Some (0, p))
  else
    match grant with
    | None => Ok None
    | Some s =>
        '(n, p) ← load_list m_path vec 0 (set_locked true (with_zk s p));
        Ok (Some (n, set_locked false p))
    end.

(** *** What loading keeps *)

(** The modules of a process: their ids are the registered ones, and each can be found by its id. *)
Record proc_ok (names : list text) (p : proc) : Prop := {
  k_registry : registry_ok ns names (p_zk p);
  k_cache : cache_ok names (p_cache p);
  k_node : forall i, i ∈ Node.n_modules (p_node p) ->
    0 <= Node.mi_id i /\ names !! Z.to_nat (Node.mi_id i) = Some (Node.mi_name i) /\ is_Some (p_index p !! Node.mi_id i);
  k_index : forall id m, p_index p !! id = Some m -> m_id m = id
}.

Lemma parse_args_id argv m m' : parse_args argv m = Ok m' -> m_id m' = m_id m.
Proof.
  revert m. induction argv as [argv IH] using (induction_ltof1 _ (@length text)). unfold ltof in IH. intros m.
  destruct argv as [|a argv]; cbn [parse_args]; [by intros [= <-]|].
  repeat case_bool_decide;
    try (intros E; rewrite (IH argv) with (m := _) (1 := Nat.lt_succ_diag_r _) (2 := E); done);
    try (destruct argv as [|n argv]; [done|]; intros E; apply bind_inv in E as (k & _ & E);
         apply bind_inv in E as (? & _ & E); apply IH in E; [|cbn; lia]; rewrite E; by repeat case_match).
  done.
Qed.

(** What a call that loaded [k] modules leaves of the lock and the log, and of the registry. *)
Definition logged (k : Z) (p p' : proc) : Prop :=
  p_locked p' = p_locked p /\
  exists l, p_regs p' = p_regs p ++ l /\ Forall (fun e => e.2 = p_locked p) l /\ Z.of_nat (length l) = k.

Definition grown (k : Z) (p p' : proc) : Prop := forall names,
  proc_ok names p -> Z.of_nat (length names) + k <= 65535 ->
  exists names', proc_ok names' p' /\ names `prefix_of` names' /\ Z.of_nat (length names') <= Z.of_nat (length names) + k.

Definition extends (k : Z) (p p' : proc) : Prop := logged k p p' /\ grown k p p'.

Lemma extends_refl p : extends 0 p p.
Proof.
  split.
  - split; [done|]. exists []. by rewrite app_nil_r.
  - intros names Hp _. exists names. split; [done|]. split; [done|lia].
Qed.

Lemma extends_trans a b p q r : 0 <= a -> 0 <= b -> extends a p q -> extends b q r -> extends (a + b) p r.
Proof.
  intros Ha Hb [[L1 (l1 & E1 & F1 & N1)] G1] [[L2 (l2 & E2 & F2 & N2)] G2]. split.
  - split; [congruence|]. exists (l1 ++ l2). split; [by rewrite E2, E1, app_assoc|].
    split; [|rewrite length_app; lia]. apply Forall_app. split; [done|]. by rewrite L1 in F2.
  - intros names Hp Hl. destruct (G1 names Hp) as (n1 & Hp1 & Pr1 & Hn1); [lia|].
    destruct (G2 n1 Hp1) as (n2 & Hp2 & Pr2 & Hn2); [lia|]. exists n2. split; [done|]. split; [by etrans|lia].
Qed.

(** The names in the files are names zookeeper takes. *)
Definition files_ok : Prop := forall f name sp, dl f = Some (Some (name, sp)) -> good_name name /\ short ns name.

Lemma prefix_lookup {A} (l l' : list A) i x : l `prefix_of` l' -> l !! i = Some x -> l' !! i = Some x.
Proof. intros [k ->] E. by apply lookup_app_l_Some. Qed.

Lemma created_lookup name names : Z.of_nat (length names) < 65535 ->
  let '(id, names') := ModuleIds.get_module_id name true names in
  0 <= id < 65535 /\ names' !! Z.to_nat id = Some name /\ names `prefix_of` names' /\ (length names' <= Datatypes.S (length names))%nat.
Proof.
  intros Hb. unfold ModuleIds.get_module_id. pose proof (index_of_elem name names) as Hi.
  destruct (ModuleIds.index_of name names) as [i|].
  - pose proof (lookup_lt_Some _ _ _ Hi). rewrite wrap_small by width_lia. rewrite Nat2Z.id. split; [lia|].
    split; [done|]. split; [done|lia].
  - rewrite wrap_small by width_lia. rewrite Nat2Z.id, lookup_app_r, Nat.sub_diag by lia. split; [lia|].
    split; [done|]. split; [by eexists|]. rewrite length_app. cbn. lia.
Qed.

Lemma dynload_extends f argv p b p' : files_ok -> dynload_module f argv p = Ok (b, p') -> extends (if b then 1 else 0) p p'.
Proof.
  intros Hfiles E. unfold dynload_module in E.
  destruct (dl f) as [[[name sp]|]|] eqn:Ef; [|by injection E as <- <-; apply extends_refl..].
  apply bind_inv in E as ([[id c] s] & Eid & E). apply bind_inv in E as (m & Em & E).
  apply bind_inv in E as (ready & _ & E). injection E as <- <-.
  destruct (Hfiles _ _ _ Ef) as [Hg Hs]. split.
  - split; [done|]. eexists. split; [done|]. split; [|done]. by repeat constructor.
  - intros names [Kr Kc Kn Ki] Hb.
    destruct (get_module_id_refines ns names (p_zk p) name true (p_cache p) Kr Kc Hg Hs) as (c' & s' & E' & Kr' & Kc'); [lia|].
    rewrite Eid in E'. injection E' as -> -> ->.
    pose proof (created_lookup name names ltac:(lia)) as Hcr.
    destruct (ModuleIds.get_module_id name true names) as [id names'] eqn:En. cbn [fst snd] in *.
    destruct Hcr as (Hid & Hl & Hpre & Hlen). exists names'. split; [|split; [done|lia]].
    assert (Hmid : m_id m = id).
    { unfold dynload_config in Em. apply parse_args_id in Em. rewrite Em. unfold set_defaults.
      by repeat case_match. }
    split; cbn; [done..| |].
    + intros i [Hi| ->%list_elem_of_singleton]%elem_of_app.
      * destruct (Kn i Hi) as (? & ? & Hx). split; [done|]. split; [by eapply prefix_lookup|].
        destruct (p_index p !! id) eqn:Ex; [done|].
        destruct (decide (id = Node.mi_id i)) as [->|Hne]; [by rewrite lookup_insert_eq|by rewrite lookup_insert_ne].
      * cbn. rewrite wrap_small by width_lia. split; [lia|]. split; [done|].
        destruct (p_index p !! id) eqn:Ex; [by rewrite Ex|by rewrite lookup_insert_eq].
    + intros id' m'. destruct (p_index p !! id) eqn:Ex; [by apply Ki|].
      destruct (decide (id = id')) as [<-|Hne]; [rewrite lookup_insert_eq; by intros [= <-]|].
      rewrite lookup_insert_ne by done. by apply Ki.
Qed.

Lemma try_paths_extends path f argv p b p' : files_ok -> try_paths path f argv p = Ok (b, p') ->
  extends (if b then 1 else 0) p p'.
Proof.
  intros Hf. revert p; induction path as [|dir path IH]; intros p; cbn [try_paths].
  { intros [= <- <-]. apply extends_refl. }
  destruct (stat _); [|apply IH]. intros E. apply bind_inv in E as ([ok p1] & E1 & E).
  apply dynload_extends in E1; [|done]. destruct ok; [by injection E as <- <-|].
  apply IH in E. replace (if b then 1 else 0) with (0 + (if b then 1 else 0)) by lia.
  eapply extends_trans; [| |done..]; [done|by destruct b].
Qed.

Lemma load_one_extends path mo p b p' : files_ok -> load_one path mo p = Ok (b, p') -> extends (if b then 1 else 0) p p'.
Proof.
  intros Hf E. unfold load_one in E. apply bind_inv in E as ([|f argv] & _ & E); [done|]. by eapply try_paths_extends.
Qed.

Lemma load_list_extends path vec k p n p' : files_ok -> load_list path vec k p = Ok (n, p') ->
  k <= n <= k + Z.of_nat (length vec) /\ extends (n - k) p p'.
Proof.
  intros Hf. revert k p; induction vec as [|mo vec IH]; intros k p; cbn [load_list].
  { intros [= <- <-]. cbn. split; [lia|]. rewrite Z.sub_diag. apply extends_refl. }
  intros E. apply bind_inv in E as ([ok p1] & E1 & E). apply load_one_extends in E1; [|done]. destruct ok.
  - apply IH in E as [Hn E]. cbn [length]. split; [lia|]. replace (n - k) with (1 + (n - (k + 1))) by lia.
    eapply extends_trans; [lia|lia|done..].
  - injection E as <- <-. cbn [length]. split; [lia|]. by rewrite Z.sub_diag.
Qed.

Lemma set_locked_ok b names p : proc_ok names p -> proc_ok names (set_locked b p).
Proof. by intros [? ? ? ?]; split. Qed.

Lemma fields_nonempty d s acc : s <> [] -> fields d s acc <> [].
Proof.
  revert acc; induction s as [|c s IH]; intros acc Hs; [done|]. cbn. case_bool_decide; [done|].
  destruct s as [|c' s]; [|by apply IH]. cbn. rewrite bool_decide_eq_false_2; [done|]. by intros [_ ?]%app_nil.
Qed.

(** load_all holds the distributed lock exactly while it loads: every registration it makes is made
    under the lock, the lock is free when it returns, also when a module could not be loaded, and the
    result is the number of modules loaded.  Under the lock the ids are those of the registry, every
    module of the local node is found by its id, and no id given before changes its name. *)
Theorem load_all_ok (s : S) (m_path : list text) (lst : text) (p p' : proc) (n : Z) :
  files_ok -> lst <> [] -> load_all (Some s) m_path lst p = Ok (Some (n, p')) ->
  p_locked p' = false /\
  (exists l, p_regs p' = p_regs p ++ l /\ Forall (fun e => e.2 = true) l /\ Z.of_nat (length l) = n) /\
  (forall names, proc_ok names (with_zk s p) -> Z.of_nat (length names) + n <= 65535 ->
    exists names', proc_ok names' p' /\ names `prefix_of` names').
Proof.
  intros Hf Hl E. unfold load_all in E. rewrite str2vec_fields in E. cbn [mbind outcome_bind] in E.
  rewrite bool_decide_eq_false_2 in E by by apply fields_nonempty.
  apply bind_inv in E as ([n' p1] & E1 & E). injection E as <- <-.
  apply load_list_extends in E1 as [_ [[_ (l & El & Fl & Nl)] G]]; [|done]. rewrite Z.sub_0_r in *.
  split; [done|]. split; [by exists l|]. intros names Hp Hb.
  destruct (G names) as (names' & Hp' & Hpre & _); [by apply set_locked_ok|done|].
  exists names'. split; [by apply set_locked_ok|done].
Qed.

(** *** Modules without arguments load without a fault *)
Lemma fields_plain d s : s <> [] -> d ∉ s -> fields d s [] = [s].
Proof. intros Hs Hd. rewrite fields_free by done. cbn. by rewrite bool_decide_eq_false_2. Qed.

(** The limit that a module has after its defaults, and what the auto-start of a module needs. *)
Definition limit_of (sp : mola_module_spec) : Z := if spec_max sp =? 0 then u32 (2 * workers) else spec_max sp.

Definition startable (sp : mola_module_spec) : Prop :=
  type_bit MOLA_MODULE_TYPE_AUTOSTART sp = true ->
  limit_of sp < 2 ^ 31 /\ (type_bit MOLA_MODULE_TYPE_SINGLETON sp = true -> limit_of sp = 1).

Definition specs_ok (p : proc) : Prop :=
  forall f name sp, dl f = Some (Some (name, sp)) -> startable (default sp (p_specs p !! f)).

Lemma autostart_loop_ok n i m :
  0 <= i -> get_max_instances m < 2 ^ 31 -> (m_singleton m = true -> get_max_instances m = 1) ->
  n = Z.to_nat (get_max_instances m - i) ->
  exists l, autostart_loop n i m i = Ok l /\ l = map (fun k => (m_id m, i + Z.of_nat k)) (seq 0 n).
Proof.
  intros Hi Hmax Hs. revert i Hi; induction n as [|n IH]; intros i Hi Hn; cbn [autostart_loop].
  { destruct (Z.ltb_spec i (get_max_instances m)); [lia|]. by exists []. }
  destruct (Z.ltb_spec i (get_max_instances m)) as [Hlt|]; [|lia]. unfold create_next_instance.
  destruct (Z.leb_spec (get_max_instances m) i); [lia|]. rewrite wrap_small by width_lia.
  destruct (IH (i + 1) ltac:(lia) ltac:(lia)) as (l & Hl & ->).
  assert ((if m_singleton m then mola_assert (i + 1 =? 1) else Ok tt) = Ok tt) as ->.
  { destruct (m_singleton m) eqn:E; [|done]. specialize (Hs eq_refl). by replace (i + 1) with 1 by lia. }
  cbn [mbind outcome_bind]. rewrite Hl. cbn [mbind outcome_bind]. eexists. split; [done|].
  cbn [seq map]. rewrite Z.add_0_r. f_equal. rewrite <- seq_shift, map_map. apply map_ext. intros k. f_equal. lia.
Qed.

(** Instances of an auto-started module, in the order they are enqueued *)
Definition started (m : module) : list (Z * Z) :=
  if m_autostart m then map (fun k => (m_id m, Z.of_nat k)) (seq 0 (Z.to_nat (get_max_instances m))) else [].

Lemma config_plain id node sp : exists m, dynload_config id node workers sp [] = Ok m /\ m_id m = id /\
  get_max_instances m = limit_of sp /\ m_autostart m = type_bit MOLA_MODULE_TYPE_AUTOSTART sp /\
  m_singleton m = type_bit MOLA_MODULE_TYPE_SINGLETON sp /\
  (startable sp -> startable (m_spec m)).
Proof.
  unfold dynload_config, set_defaults, limit_of, startable, get_max_instances. cbn [parse_args new_Module m_spec].
  destruct (spec_max sp =? 0) eqn:E; eexists; (split; [reflexivity|]); cbn; split_and!; try done.
  unfold limit_of. cbn. rewrite E. by destruct (u32 (2 * workers) =? 0).
Qed.

Lemma autostart_plain id node sp : startable sp -> exists m, dynload_config id node workers sp [] = Ok m /\
  m_id m = id /\ autostart m = Ok (started m) /\ startable (m_spec m).
Proof.
  intros Hst. destruct (config_plain id node sp) as (m & Hm & Hid & Hmax & Ha & Hs & Hk).
  exists m. split; [done|]. split; [done|]. split; [|auto]. unfold autostart, started.
  destruct (m_autostart m) eqn:Ea; [|done]. symmetry in Ha. destruct (Hst Ha) as [Hb H1]. rewrite <- Hmax in Hb, H1.
  destruct (autostart_loop_ok (Z.to_nat (get_max_instances m)) 0 m) as (l & -> & ->); [done|done| |by rewrite Z.sub_0_r|done].
  by rewrite Hs.
Qed.

Lemma dynload_total f names p : files_ok -> specs_ok p -> proc_ok names p -> Z.of_nat (length names) < 65535 ->
  exists b p', dynload_module f [] p = Ok (b, p') /\ specs_ok p' /\ (b = false -> p' = p).
Proof.
  intros Hf Hsp Hp Hb. unfold dynload_module. destruct (dl f) as [[[name sp]|]|] eqn:Ef; [|by eauto 6..].
  destruct (Hf _ _ _ Ef) as [Hg Hs].
  destruct (get_module_id_refines ns names (p_zk p) name true (p_cache p)) as (c' & s' & -> & _); try done; try apply Hp.
  cbn [mbind outcome_bind].
  destruct (autostart_plain (ModuleIds.get_module_id name true names).1 (Node.n_id (p_node p)) (default sp (p_specs p !! f)))
    as (m & -> & _ & Ha & Hm); [by eapply Hsp|].
  cbn [mbind outcome_bind]. rewrite Ha. cbn [mbind outcome_bind]. eexists _, _. split; [done|]. split; [|done].
  intros f' name' sp' Ef'. cbn [p_specs]. destruct (decide (f = f')) as [<-|Hne].
  - by rewrite lookup_insert_eq.
  - rewrite lookup_insert_ne by done. by eapply Hsp.
Qed.

Lemma load_one_total path mo names p : files_ok -> specs_ok p -> proc_ok names p -> Z.of_nat (length names) < 65535 ->
  mo <> [] -> comma ∉ mo -> exists b p', load_one path mo p = Ok (b, p') /\ specs_ok p'.
Proof.
  intros Hf Hsp Hp Hb Hmo Hc. unfold load_one. rewrite str2vec_fields, fields_plain by done. cbn [mbind outcome_bind].
  induction path as [|dir path IH]; cbn [try_paths]; [by eauto|].
  destruct (stat _); [|by apply IH].
  destruct (dynload_total (dir ++ slash :: mo) names p) as (b & p1 & E & Hsp1 & Hb1); [done..|].
  match goal with |- context [dynload_module ?f ?a ?q] =>
    change (dynload_module f a q) with (dynload_module (dir ++ slash :: mo) [] p) end.
  rewrite E. cbn [mbind outcome_bind]. destruct b; [by eauto|]. by rewrite Hb1.
Qed.

(** A list of plain file names is always gone through: load_all returns when it is granted the lock. *)
Theorem load_all_total (s : S) (m_path : list text) (lst : list text) (names : list text) (p : proc) :
  files_ok -> specs_ok p -> proc_ok names (with_zk s p) -> Z.of_nat (length names) + Z.of_nat (length lst) <= 65535 ->
  Forall (fun mo => mo <> [] /\ (comma ∉ mo) /\ colon ∉ mo) lst ->
  exists n p', load_all (Some s) m_path (join colon lst) p = Ok (Some (n, p')) /\ 0 <= n <= Z.of_nat (length lst).
Proof.
  intros Hf Hsp Hp Hb Hl.
  assert (Hlist : forall k names p, specs_ok p -> proc_ok names p -> Z.of_nat (length names) + Z.of_nat (length lst) <= 65535 ->
    exists n p', load_list m_path lst k p = Ok (n, p')).
  { clear p names Hsp Hp Hb. induction lst as [|mo lst IH]; intros k names p Hsp Hp Hb; cbn [load_list]; [by eauto|].
    apply Forall_cons_iff in Hl as [(H1 & H2 & _) Hl]. cbn [length] in Hb.
    destruct (load_one_total m_path mo names p) as (b & p1 & E & Hsp1); [done..|lia|done|done|].
    rewrite E. cbn [mbind outcome_bind]. destruct b; [|by eauto].
    apply load_one_extends in E as [_ G]; [|done]. destruct (G names Hp) as (n' & Hp' & _ & Hn'); [lia|].
    eapply (IH Hl); [done|done|lia]. }
  unfold load_all. rewrite str2vec_roundtrip.
  - cbn [mbind outcome_bind]. case_bool_decide; [eexists _, _; split; [done|lia]|].
    destruct (Hlist 0 names (set_locked true (with_zk s p))) as (n & p1 & E); [done|by apply set_locked_ok|done|].
    rewrite E. cbn. eexists _, _. split; [done|]. apply load_list_extends in E as [? _]; [lia|done].
  - eapply list.Forall_impl; [done|]. by intros mo (_ & _ & ?).
  - intros Hlast. apply last_Some in Hlast as (l' & ->). apply Forall_app in Hl as [_ Hl].
    apply Forall_cons_iff in Hl as [[? _] _]. done.
Qed.

(** C37: load_all goes through any list of plain file names, if no auto-started module in the files is a
    singleton with a limit other than 1 (see [autostart_singleton_stops]) or has a limit beyond an int: when the
    distributed lock is granted, with the registry [s] that there is then, it returns the number of modules it
    loaded, which stops at the first that could not be loaded, and when the lock is never granted it waits for
    ever.  Every registration it makes is made
    under the lock, the lock is free when it returns, also after a failure; and
    the ids of the modules of the local node are those of the registry, in which no id given before
    changes its name. *)
Theorem load_all_spec (grant : option S) (m_path : list text) (lst : list text) (names : list text) (p : proc) :
  files_ok -> specs_ok p -> lst <> [] -> (forall s, grant = Some s -> proc_ok names (with_zk s p)) ->
  Z.of_nat (length names) + Z.of_nat (length lst) <= 65535 ->
  Forall (fun mo => mo <> [] /\ (comma ∉ mo) /\ colon ∉ mo) lst ->
  match grant with
  | None => load_all grant m_path (join colon lst) p = Ok None
  | Some _ =>
      exists n p', load_all grant m_path (join colon lst) p = Ok (Some (n, p')) /\ 0 <= n <= Z.of_nat (length lst) /\
        p_locked p' = false /\
        (exists l, p_regs p' = p_regs p ++ l /\ Forall (fun e => e.2 = true) l /\ Z.of_nat (length l) = n) /\
        exists names', proc_ok names' p' /\ names `prefix_of` names'
  end.
Proof.
  intros Hf Hsp Hne Hp Hb Hl.
  assert (join colon lst <> []) as Hj.
  { destruct lst as [|x [|y l]]; [done| |]; apply Forall_cons_iff in Hl as [(Hx & _ & _) _]; [done|].
    cbn. by intros [? _]%app_nil. }
  destruct grant as [s|].
  - destruct (load_all_total s m_path lst names p Hf Hsp (Hp s eq_refl) Hb Hl) as (n & p' & E & Hn).
    destruct (load_all_ok s m_path _ p p' n Hf Hj E) as (H1 & H2 & H3).
    exists n, p'. split_and!; try done; try lia. apply H3; [by apply Hp|lia].
  - unfold load_all. rewrite str2vec_fields. cbn [mbind outcome_bind].
    by rewrite bool_decide_eq_false_2 by by apply fields_nonempty.
Qed.

(** An auto-started singleton with a larger limit, as a spec without a limit has, stops the loader: the second
    instance fails the assertion of create_instance. *)
Theorem autostart_singleton_stops (m : module) :
  m_autostart m = true -> m_singleton m = true -> 1 < get_max_instances m -> autostart m = Fault AssertFailed.
Proof.
  intros Ha Hs Hm. unfold autostart. rewrite Ha. destruct (Z.to_nat (get_max_instances m)) as [|[|n]] eqn:E; [lia|lia|].
  cbn [autostart_loop]. unfold create_next_instance. rewrite Hs. change (u32 (0 + 1)) with 1.
  destruct (Z.ltb_spec 0 (get_max_instances m)); [|lia]. destruct (Z.leb_spec (get_max_instances m) 0); [lia|].
  cbn [Z.eqb Pos.eqb mola_assert mbind outcome_bind]. change (0 + 1) with 1.
  destruct (Z.ltb_spec 1 (get_max_instances m)); [|lia]. by destruct (Z.leb_spec (get_max_instances m) 1); [lia|].
Qed.

(** An empty item between two colons is not skipped: when the modules before it load, its name is read from a
    vector without elements. *)
Lemma empty_item_faults s m_path a b p p1 : a <> [] -> colon ∉ a -> b <> [] ->
  load_one m_path a (set_locked true (with_zk s p)) = Ok (true, p1) ->
  load_all (Some s) m_path (a ++ colon :: colon :: b) p = Fault BadDeref.
Proof.
  intros Ha Hc Hb E. unfold load_all. rewrite str2vec_fields, fields_app by done. cbn [app].
  assert (fields colon (colon :: b) [] = [] :: fields colon b []) as -> by done.
  cbn [mbind outcome_bind]. rewrite bool_decide_eq_false_2 by done. cbn [load_list]. rewrite E. done.
Qed.
End Loader.

(** ** The main program of the loader *)
Definition nametable : list (text * Z) :=
  [(txt "hostname", STR); (txt "port", NUM); (txt "modules-load-path", STR); (txt "modules", STR);
   (txt "namespace", STR); (txt "zk-address", STR); (txt "zk-reset", FLAG); (txt "worker-thread-num", NUM);
   (txt "async-io-thread-num", NUM); (txt "working-path", STR); (txt "daemon", FLAG); (txt "log", STR);
   (txt "pid-file", STR)].

Definition default_tbl : list text :=
  [txt "hostname=localhost"; txt "port=65344"; txt "modules-load-path=."; txt "modules="; txt "namespace=MOLA";
   txt "zk-address=localhost:2346="; txt "nozk-reset"; txt "worker-thread-num=0"; txt "async-io-thread-num=1";
   txt "working-path=."; txt "nodaemon"; txt "log="; txt "pid-file=moloader.PID."].

(** The members of the union that main reads; another member than the one written would be read as garbage. *)
Definition opt_str (name : string) (o : options) : outcome text :=
  v ← option_value (txt name) o; match v with VStr s => Ok s | _ => Fault BadDeref end.
Definition opt_num (name : string) (o : options) : outcome Z :=
  v ← option_value (txt name) o; match v with VNum n => Ok n | _ => Fault BadDeref end.
Definition opt_flag (name : string) (o : options) : outcome bool :=
  v ← option_value (txt name) o; match v with VFlag b => Ok b | _ => Fault BadDeref end.

(** What the program does to the rest of the runtime. *)
Inductive event :=
| ERedirect (log : text)
| EChdir (dir : text)
| EDaemon (pid_file : text)
| EMultiplexer (aio : Z)
| EWorkers (num aio : Z)
| EDispatcher
| EManager (ns : text)
| ELocalNode (host : text) (port : Z)
| EConnect (addr : text) (reset : bool)
| ELoad (path modules : text)
| EJoin
| EStart.

#[global] Instance event_eq : EqDecision event.
Proof. solve_decision. Defined.

(** What the calls answer. *)
Record env := MkEnv { e_daemon : Z; e_connect : Z; e_loaded : Z; e_join : Z }.

(** A program that logs its events, also when it stops. *)
Definition prog (A : Type) : Type := list event -> list event * outcome A.
Definition emit (e : event) : prog unit := fun t => (t ++ [e], Ok tt).
Definition lift {A} (m : outcome A) : prog A := fun t => (t, m).
#[global] Instance prog_ret : MRet prog := fun A a t => (t, Ok a).
#[global] Instance prog_bind : MBind prog := fun A B k m t =>
  match m t with (t, Ok a) => k a t | (t, Fault f) => (t, Fault f) end.

(** create_local_node takes a uint16_t. *)
Definition main_options (e : env) (o : options) : prog unit :=
  log ← lift (opt_str "log" o);
  _ ← (if bool_decide (log = []) then mret tt else emit (ERedirect log));
  dir ← lift (opt_str "working-path" o);
  _ ← (if bool_decide (dir = txt ".") then mret tt else emit (EChdir dir));
  daemon ← lift (opt_flag "daemon" o);
  if (daemon : bool) then
    _ ← lift (mola_assert (e_daemon e =? 0));
    pid ← lift (opt_str "pid-file" o);
    emit (EDaemon pid)
  else mret tt.

Definition main_threads (o : options) : prog unit :=
  aio ← lift (opt_num "async-io-thread-num" o);
  _ ← lift (mola_assert (0 <? aio));
  _ ← emit (EMultiplexer aio);
  thr ← lift (opt_num "worker-thread-num" o);
  _ ← emit (EWorkers thr aio);
  emit EDispatcher.

Definition main_node (e : env) (o : options) : prog unit :=
  ns ← lift (opt_str "namespace" o);
  _ ← emit (EManager ns);
  host ← lift (opt_str "hostname" o);
  port ← lift (opt_num "port" o);
  _ ← lift (mola_assert (0 <? port));
  _ ← emit (ELocalNode host (u16 port));
  addr ← lift (opt_str "zk-address" o);
  reset ← lift (opt_flag "zk-reset" o);
  _ ← emit (EConnect addr reset);
  lift (mola_assert (e_connect e =? 0)).

Definition main_modules (e : env) (o : options) : prog unit :=
  mods ← lift (opt_str "modules" o);
  _ ← lift (mola_assert (negb (bool_decide (mods = []))));
  path ← lift (opt_str "modules-load-path" o);
  _ ← emit (ELoad path mods);
  _ ← lift (mola_assert (0 <? e_loaded e));
  _ ← emit EJoin;
  _ ← lift (mola_assert (e_join e =? 0));
  emit EStart.

Definition main (e : env) (o : options) : list event * outcome unit :=
  (_ ← main_options e o; _ ← main_threads o; _ ← main_node e o; main_modules e o) [].

(** *** The options of the loader are complete *)
Definition option_names : list text := fst <$> nametable.

Definition ok_or {A} (d : A) (m : outcome A) : A := match m with Ok a => a | Fault _ => d end.
Definition is_ok {A} (m : outcome A) : bool := match m with Ok _ => true | Fault _ => false end.

Lemma ok_or_default {A} (d : A) m : is_ok m = true -> m = Ok (ok_or d m).
Proof. by destruct m. Qed.

Definition defaults : options := ok_or (MkOptions ∅ []) (process_defaults nametable default_tbl (MkOptions ∅ [])).

Lemma defaults_ok : process_defaults nametable default_tbl (MkOptions ∅ []) = Ok defaults.
Proof. apply ok_or_default. vm_compute. reflexivity. Qed.

Lemma process_defaults_complete tbl o : process_defaults nametable tbl (MkOptions ∅ []) = Ok o ->
  complete nametable option_names o.
Proof.
  intros H.
  assert (complete nametable [] (MkOptions ∅ [])) as H0.
  { split; [intros k v Hk; cbn in Hk; by rewrite lookup_empty in Hk|intros k Hk; by apply not_elem_of_nil in Hk]. }
  unfold process_defaults in H.
  apply bind_inv in H as (o1 & H1 & H). apply bind_inv in H as (? & H2 & H). injection H as <-.
  split.
  - eapply (process_all_inv nametable (complete nametable [])); [apply process_one_complete|exact H0|exact H1].
  - clear -H2. unfold option_names. revert H2. generalize nametable. intros l. induction l as [|[n ty] l IH]; intros H2 k Hk.
    + by apply not_elem_of_nil in Hk.
    + cbn [check_defaults] in H2. apply bind_inv in H2 as (v & Hv & H2). apply elem_of_cons in Hk as [->|Hk]; [|eauto].
      unfold option_value in Hv. cbn. by destruct (m_table o1 !! n).
Qed.

Lemma opt_str_ok name o : complete nametable option_names o -> txt name ∈ option_names ->
  get_option_type nametable (txt name) = STR -> exists s, opt_str name o = Ok s.
Proof.
  intros [Ht Hn] Hk Hty. destruct (Hn _ Hk) as [v Hv]. unfold opt_str, option_value. rewrite Hv. cbn.
  apply Ht in Hv. rewrite Hty in Hv. destruct v; [eauto|done..].
Qed.

Lemma opt_num_ok name o : complete nametable option_names o -> txt name ∈ option_names ->
  get_option_type nametable (txt name) = NUM -> exists n, opt_num name o = Ok n.
Proof.
  intros [Ht Hn] Hk Hty. destruct (Hn _ Hk) as [v Hv]. unfold opt_num, option_value. rewrite Hv. cbn.
  apply Ht in Hv. rewrite Hty in Hv. destruct v; [done..|eauto].
Qed.

Lemma opt_flag_ok name o : complete nametable option_names o -> txt name ∈ option_names ->
  get_option_type nametable (txt name) = FLAG -> exists b, opt_flag name o = Ok b.
Proof.
  intros [Ht Hn] Hk Hty. destruct (Hn _ Hk) as [v Hv]. unfold opt_flag, option_value. rewrite Hv. cbn.
  apply Ht in Hv. rewrite Hty in Hv. destruct v; [done|eauto|done].
Qed.


Ltac known_option lem name :=
  let v := fresh "v" in let E := fresh "E" in
  destruct (lem name _ ltac:(eassumption)) as [v E];
  [by apply (bool_decide_unpack _)|reflexivity|].

(** The events of a run that ends with the start of the workers. *)
Definition start_up (pre : list event) (aio thr port : Z) (ns host addr path mods : text) (reset : bool) : list event :=
  pre ++ [EMultiplexer aio; EWorkers thr aio; EDispatcher; EManager ns; ELocalNode host (u16 port);
          EConnect addr reset; ELoad path mods; EJoin; EStart].

Definition is_setup (e : event) : bool :=
  match e with ERedirect _ | EChdir _ | EDaemon _ => true | _ => false end.

Lemma main_options_runs e o : complete nametable option_names o ->
  exists pre r, main_options e o [] = (pre, r) /\ Forall (fun x => is_setup x = true) pre /\
    (r = Ok tt \/ r = Fault AssertFailed).
Proof.
  intros Hc. known_option opt_str_ok "log"%string. known_option opt_str_ok "working-path"%string.
  known_option opt_flag_ok "daemon"%string. known_option opt_str_ok "pid-file"%string.
  unfold main_options, lift, mbind, prog_bind. rewrite E, E0, E1, E2.
  repeat case_bool_decide; destruct v1; unfold mola_assert; destruct (e_daemon e =? 0); cbn;
    (eexists _, _; split; [reflexivity|]; split; [by repeat constructor|by auto]).
Qed.

(** For every command line and configuration the options main reads are there and have the type it reads
    them with; it never reads a wrong one, and stops only by its assertions.  The workers are
    started if and only if it does not stop, and then in this order: the poller and the workers are made,
    the node manager and the local node, zookeeper is connected, at least one module is loaded, the node
    joins, and only then the workers start. *)
Theorem main_order (sys_conf : option text) (files : text -> option (list text)) (argv : list text)
    (o : options) (e : env) :
  process_options nametable default_tbl sys_conf files argv (MkOptions ∅ []) = Ok (inr o) ->
  exists t r, main e o = (t, r) /\ (r = Ok tt \/ r = Fault AssertFailed) /\
    (r = Fault AssertFailed -> EStart ∉ t) /\
    (r = Ok tt -> e_connect e = 0 /\ 0 < e_loaded e /\ e_join e = 0 /\
      exists pre aio thr port ns host addr path mods reset,
        t = start_up pre aio thr port ns host addr path mods reset /\
        Forall (fun x => is_setup x = true) pre /\ 0 < aio /\ 0 < port /\ mods <> []).
Proof.
  intros H. assert (Hc : complete nametable option_names o).
  { eapply (process_options_inv nametable (complete nametable option_names));
      [apply process_one_complete|done|apply defaults_ok| |exact H].
    by apply (process_defaults_complete default_tbl), defaults_ok. }
  clear H.
  destruct (main_options_runs e o Hc) as (pre & r0 & Em & Hpre & Hr0). 
  assert (Hns : EStart ∉ pre).
  { intros Hin. by pose proof (proj1 (list.Forall_forall _ _) Hpre _ Hin). }
  assert (Hadd : forall l, bool_decide (EStart ∈ l) = false -> EStart ∉ pre ++ l).
  { intros l Hl%bool_decide_eq_false_1 [?|?]%elem_of_app; done. }
  unfold main. unfold mbind, prog_bind at 1. rewrite Em. destruct Hr0 as [-> | ->].
  2:{ eexists _, _. split; [reflexivity|]. split; [by auto|]. split; [done|done]. }
  known_option opt_num_ok "async-io-thread-num"%string. known_option opt_num_ok "worker-thread-num"%string.
  known_option opt_str_ok "namespace"%string. known_option opt_str_ok "hostname"%string.
  known_option opt_num_ok "port"%string. known_option opt_str_ok "zk-address"%string.
  known_option opt_flag_ok "zk-reset"%string. known_option opt_str_ok "modules"%string.
  known_option opt_str_ok "modules-load-path"%string.
  unfold main_threads, main_node, main_modules, lift, emit, mbind, prog_bind. 
  rewrite E, E0, E1, E2, E3, E4, E5, E6, E7. unfold mola_assert.
  repeat match goal with
  | |- context [if ?b then Ok tt else Fault AssertFailed] =>
      let B := fresh "B" in destruct b eqn:B;
      [|eexists _, _; split; [reflexivity|]; split; [by auto|]; split; [|done]; intros _;
        rewrite <- ?app_assoc; by (done || apply Hadd)]
  end.
  apply Z.ltb_lt in B, B0, B3. apply Z.eqb_eq in B1, B4. apply negb_true_iff, bool_decide_eq_false_1 in B2.
  eexists _, _. split; [reflexivity|]. split; [by left|]. split; [done|]. intros _. split_and!; try assumption.
  exists pre, v, v0, v3, v1, v2, v4, v7, v6, v5. split; [|by split_and!].
  unfold start_up. by rewrite <- !app_assoc.
Qed.

(** ** The threads: AbsolateWorker, WorkerGroup::initialize and start_all *)
Inductive wkind := KWorker | KIo | KDelay | KTimer.

(** The static members worker_num and workers: the number of a thread is its place in the list. [rings]: the
    queues of LockFreeStrategy; [running]: the workers whose thread was started. *)
Record threads := MkThreads {
  t_workers : list wkind;
  rings : Z;
  workers_num : Z;
  m_started : bool;
  running : bool
}.

Definition new_thread (k : wkind) (t : threads) : nat * threads :=
  (length (t_workers t),
   MkThreads (t_workers t ++ [k]) (rings t) (workers_num t) (m_started t) (running t)).

Definition helpers (timer : bool) : Z := if timer then 2 else 1.

(** WorkerGroup::initialize on a machine with [hw] threads: init_workers, then start_io_workers *)
Definition initialize (num io hw : Z) (timer : bool) (t : threads) : threads :=
  let num := if 0 <? num then num else hw in
  MkThreads (t_workers t ++ replicate (Z.to_nat num) KWorker ++ replicate (Z.to_nat io) KIo)
    (u32 (num + u32 (io + helpers timer))) num false false.

(** start_all; starting a thread that runs already terminates the process. *)
Definition start_all (timer : bool) (t : threads) : outcome threads :=
  if m_started t then Ok t
  else if running t then Fault Uncaught
  else
    let t := MkThreads (t_workers t) (rings t) (workers_num t) (m_started t) true in
    Ok (if timer then (new_thread KTimer t).2 else t).

(** The threads of the loader: the scheduler, the node manager with its pool of delayed messages, the start *)
Definition loader_threads (num io hw : Z) (timer : bool) : outcome threads :=
  let t := initialize num io hw timer (MkThreads [] 0 0 false false) in
  start_all timer (new_thread KDelay t).2.

(** C38: Every thread that can enqueue a task has a queue: the loader makes as many queues as it makes
    threads, workers, pollers, the thread of the delayed messages and the timer, so that the number
    of each thread is an index of m_queues; and there is a worker. *)
Theorem thread_has_ring (num io hw : Z) (timer : bool) :
  0 <= num -> 0 < io -> 0 < hw -> (if 0 <? num then num else hw) + io + 2 < 2 ^ 32 ->
  exists t, loader_threads num io hw timer = Ok t /\ rings t = Z.of_nat (length (t_workers t)) /\
    (forall id k, t_workers t !! id = Some k -> 0 <= Z.of_nat id < rings t) /\ KWorker ∈ t_workers t.
Proof.
  intros Hn Hio Hhw Hb. unfold loader_threads, initialize, start_all, new_thread, helpers. cbn.
  set (n := if 0 <? num then num else hw) in *. assert (0 < n) by (unfold n; destruct (Z.ltb_spec 0 num); lia).
  assert (Hw : KWorker ∈ replicate (Z.to_nat n) KWorker).
  { apply elem_of_replicate. split; [done|lia]. }
  eexists. split; [reflexivity|].
  assert (Hr : forall (l : list wkind) r, r = Z.of_nat (length l) ->
    r = Z.of_nat (length l) /\ (forall id k, l !! id = Some k -> 0 <= Z.of_nat id < r)).
  { intros l r ->. split; [done|]. intros id k Hid%lookup_lt_Some. lia. }
  assert (Hwr : forall x, 0 <= x <= 2 -> u32 (n + u32 (io + x)) = n + io + x).
  { intros x Hx. rewrite wrap_add_r, wrap_small; [lia|]. width_lia. }
  match goal with |- rings ?t = _ /\ _ => destruct (Hr (t_workers t) (rings t)) as [H1 H2] end.
  - destruct timer; cbn; rewrite Hwr, !length_app, !length_replicate by lia; cbn; lia.
  - split; [exact H1|]. split; [exact H2|]. destruct timer; cbn; rewrite !elem_of_app; tauto.
Qed.

(** start_all does not note that it ran: a second call starts the threads again. *)
Lemma start_all_twice timer t t' : m_started t = false -> start_all timer t = Ok t' ->
  start_all timer t' = Fault Uncaught.
Proof.
  intros Hs. unfold start_all. rewrite Hs. destruct (running t); [done|]. intros [= <-].
  destruct timer; cbn; by rewrite ?Hs.
Qed.

(** ** The checker *)

(** s.rfind('.') *)
Fixpoint rfind_char (d : ascii) (s : text) : option nat :=
  match s with
  | [] => None
  | c :: s =>
      match rfind_char d s with
      | Some i => Some (S i)
      | None => if bool_decide (c = d) then Some O else None
      end
  end.

Definition dot : ascii := "."%char.
Definition npos : Z := 2 ^ 64 - 1.

(** The test of the file name, in std::size_t *)
Definition so_name (input : text) : bool :=
  let pos := match rfind_char dot input with Some i => Z.of_nat i | None => npos end in
  pos =? u64 (Z.of_nat (length input) - 3).

Lemma rfind_char_spec d s : match rfind_char d s with
  | Some i => exists a b, s = a ++ d :: b /\ length a = i /\ d ∉ b
  | None => d ∉ s
  end.
Proof.
  induction s as [|c s IH]; cbn; [apply not_elem_of_nil|]. destruct (rfind_char d s) as [i|].
  - destruct IH as (a & b & -> & <- & Hb). exists (c :: a), b. done.
  - case_bool_decide as E; [by exists [], s; subst|]. apply not_elem_of_cons. auto.
Qed.

Lemma rfind_char_app d a b : d ∉ b -> rfind_char d (a ++ d :: b) = Some (length a).
Proof.
  intros Hb. induction a as [|c a IH]; cbn.
  - pose proof (rfind_char_spec d b) as Hs. destruct (rfind_char d b) as [i|]; [|by rewrite bool_decide_eq_true_2].
    destruct Hs as (x & y & -> & _). exfalso. apply Hb. apply elem_of_app. right. constructor.
  - by rewrite IH.
Qed.

(** The names mochecker accepts: those with exactly two characters behind the last dot, whatever they
    are, and, because the length less three wraps around, the names of two characters without a dot. *)
Theorem so_name_accepts (input : text) : Z.of_nat (length input) < 2 ^ 63 ->
  so_name input = true <->
  (exists a x y, input = a ++ [dot; x; y] /\ x <> dot /\ y <> dot) \/
  (exists x y, input = [x; y] /\ x <> dot /\ y <> dot).
Proof.
  intros Hlen. unfold so_name. pose proof (rfind_char_spec dot input) as Hs.
  destruct (rfind_char dot input) as [i|]; rewrite Z.eqb_eq.
  - destruct Hs as (a & b & -> & <- & Hb). rewrite length_app in *. cbn [length] in *. split.
    + intros E. destruct b as [|x [|y [|z b]]]; cbn in *; try (exfalso; unfold wrap in E; width_norm;
        Z.to_euclidean_division_equations; lia).
      left. apply not_elem_of_cons in Hb as [Hx Hb]. apply not_elem_of_cons in Hb as [Hy _]. by exists a, x, y.
    + intros [(a' & x & y & E & Hx & Hy)|(x & y & E & Hx & Hy)].
      * assert (length b = 2%nat) as Hl.
        { assert (Hxy : dot ∉ [x; y]) by (rewrite !not_elem_of_cons; split_and!; auto; apply not_elem_of_nil).
          pose proof (rfind_char_app dot a b Hb) as R1. pose proof (rfind_char_app dot a' [x; y] Hxy) as R2.
          rewrite E, R2 in R1. injection R1 as R1. apply (f_equal length) in E. rewrite !length_app in E. cbn in E. lia. }
        rewrite Hl. rewrite wrap_small; unfold in_width; lia.
      * exfalso. destruct a as [|c [|c' a]]; cbn in E; [congruence|congruence|].
        injection E as _ _ E. by destruct a.
  - split.
    + intros E. right. destruct input as [|x [|y [|z b]]]; cbn in *; unfold npos in E;
        try (exfalso; unfold wrap in E; width_norm; Z.to_euclidean_division_equations; lia).
      apply not_elem_of_cons in Hs as [Hx Hs]. apply not_elem_of_cons in Hs as [Hy _]. by exists x, y.
    + intros [(a & x & y & -> & _)|(x & y & -> & _)]; [|done].
      exfalso. apply Hs. apply elem_of_app. right. constructor.
Qed.

(** *** The report *)

(** s.find(pat), s.rfind(pat) *)
Fixpoint find_sub (pat s : text) : option nat :=
  if bool_decide (pat `prefix_of` s) then Some O
  else match s with [] => None | _ :: s => S <$> find_sub pat s end.
Fixpoint rfind_sub (pat s : text) : option nat :=
  match (match s with [] => None | _ :: s => S <$> rfind_sub pat s end) with
  | Some i => Some i
  | None => if bool_decide (pat `prefix_of` s) then Some O else None
  end.

Definition undef : text := txt "undefined symbol: ".
Definition NO_INIT_ERR : text := txt "You may not implement the init callback defined in the module IDL!".
Definition newline : ascii := ascii_of_nat 10.

(** What is printed when dlopen fails with [error]. *)
Definition load_error (error : text) : text :=
  let '(symbol, error) :=
    match find_sub undef error with
    | None => ([], error)
    | Some pos =>
        let symbol := drop (pos + length undef) error in
        match rfind_sub (txt "_wrapper") symbol with
        | Some p => (take p symbol, undef ++ take p symbol)
        | None => (symbol, error)
        end
    end in
  let error := txt "Cannot load the module file, '" ++ error ++ txt "'" in
  match rfind_sub (txt "__vtable") symbol with
  | Some _ => error ++ newline :: NO_INIT_ERR
  | None => error
  end.

(** The result of the checker: [dlopen] gives an error or whether __module_spec is there. *)
Inductive verdict := BadUsage | BadName | NoFile | LoadError (msg : text) | NoSpec | Valid.

Definition mochecker (stat : text -> bool) (dlopen : text -> text + bool) (argv : list text) : verdict :=
  match argv with
  | [input] =>
      if negb (so_name input) then BadName
      else if negb (stat input) then NoFile
      else match dlopen input with
           | inl error => LoadError (load_error error)
           | inr spec => if spec then Valid else NoSpec
           end
  | _ => BadUsage
  end.

Lemma rfind_sub_short pat s : (length s < length pat)%nat -> rfind_sub pat s = None.
Proof.
  induction s as [|c s IH]; intros Hl; cbn.
  - rewrite bool_decide_eq_false_2; [done|]. intros Hp%prefix_length. lia.
  - cbn in Hl. rewrite IH by lia. cbn. rewrite bool_decide_eq_false_2; [done|]. intros Hp%prefix_length. cbn in Hp. lia.
Qed.

Lemma rfind_sub_end pat s : pat <> [] -> rfind_sub pat (s ++ pat) = Some (length s).
Proof.
  intros Hp. induction s as [|c s IH].
  - destruct pat as [|c pat]; [done|]. cbn. rewrite rfind_sub_short by (cbn; lia). cbn.
    by rewrite bool_decide_eq_true_2.
  - cbn. by rewrite IH.
Qed.

(** An undefined callback is reported under the name it has in the source: the suffix of the generated
    wrapper is cut off, and a missing table of callbacks is explained. *)
Theorem load_error_names (pre symbol : text) :
  find_sub undef (pre ++ undef ++ symbol ++ txt "_wrapper") = Some (length pre) ->
  load_error (pre ++ undef ++ symbol ++ txt "_wrapper") =
  txt "Cannot load the module file, 'undefined symbol: " ++ symbol ++ txt "'" ++
  (match rfind_sub (txt "__vtable") symbol with Some _ => newline :: NO_INIT_ERR | None => [] end).
Proof.
  intros Hf. unfold load_error. rewrite Hf. rewrite <- length_app, (app_assoc pre), drop_app_length.
  rewrite rfind_sub_end by done. rewrite take_app_length.
  change (txt "Cannot load the module file, 'undefined symbol: ") with (txt "Cannot load the module file, '" ++ undef).
  destruct (rfind_sub (txt "__vtable") symbol); by rewrite <- ?app_assoc, ?app_nil_r.
Qed.

(** ** Witnesses *)
Module LoaderExamples.
Definition node0 : Node.node := Node.MkNode 65535 0 0 80 (txt "h") [].

(** The tree after the first connect, and two module files. *)
Definition tree1 : tree := {[ txt "/MOLA/MODULES" := txt "0" ]}.
Definition dl (f : text) : option so_file :=
  if bool_decide (f = txt "./kv.so") then Some (Some (txt "kv", MkSpec 0 16 0 []))
  else if bool_decide (f = txt "./log.so") then Some (Some (txt "log", MkSpec 2 16 3 []))
  else None.
Definition stat (f : text) : bool := bool_decide (is_Some (dl f)).
Definition proc0 : proc := MkProc [] tree1 ∅ node0 ∅ [] false [].

Definition list2 : text := txt "log.so:kv.so,max,4".
Definition loaded : Z * proc :=
  default (-1, proc0) (ok_or None (load_all None stat dl 4 (Some tree1) [txt "."] list2 proc0)).

Example load_two :
  loaded.1 = 2 /\ p_ready loaded.2 = [(0, 0); (0, 1); (0, 2)] /\ (get_max_instances <$> p_index loaded.2 !! 1) = Some 4.
Proof. split_and!; vm_compute; reflexivity. Qed.

(** A singleton that is started automatically and has no limit of its own stops the loader. *)
Example bad_singleton :
  load_all None (fun _ => true) (fun _ => Some (Some (txt "one", MkSpec 3 16 0 []))) 4 (Some tree1) [txt "."] (txt "one.so") proc0
  = Fault AssertFailed.
Proof. vm_compute. reflexivity. Qed.

Lemma files : files_ok None dl.
Proof.
  intros f name sp. unfold dl. repeat case_bool_decide; intros [= <- <-];
    (split; [by apply (bool_decide_unpack _)|unfold short, MAX_NODE_STR_LEN; cbn -[Nat.lt]; lia]).
Qed.

Lemma proc0_ok : proc_ok None [] proc0.
Proof.
  split.
  - split; [reflexivity| |constructor..|cbn; lia].
    intros c d Hc. split; [|by intros (i & Hi & _)]. intros Hd.
    change (tree1 !! child (MODULE_ZNODE None) c = Some d) in Hd. unfold tree1 in Hd.
    rewrite lookup_singleton_ne in Hd; [done|]. intros E. symmetry in E. by apply (child_not_dir (MODULE_ZNODE None) c).
  - intros n id Hin. by apply not_elem_of_nil in Hin.
  - intros i Hin. by apply not_elem_of_nil in Hin.
  - intros id m Hm. cbn in Hm. by rewrite lookup_empty in Hm.
Qed.

Lemma specs0 : specs_ok dl 4 proc0.
Proof.
  intros f name sp. unfold dl. cbn [p_specs proc0]. rewrite lookup_empty.
  repeat case_bool_decide; intros [= <- <-]; cbn; intros Ha; by vm_compute.
Qed.

Lemma some_ok {A} (d : A) (m : outcome (option A)) :
  match m with Ok (Some _) => true | _ => false end = true -> m = Ok (Some (default d (ok_or None m))).
Proof. by destruct m as [[a|]|]. Qed.

Lemma load_all_ok_witness : p_locked loaded.2 = false /\ exists names', proc_ok None names' loaded.2.
Proof.
  assert (E : load_all None stat dl 4 (Some tree1) [txt "."] list2 proc0 = Ok (Some (loaded.1, loaded.2))).
  { rewrite <- surjective_pairing. apply some_ok. vm_compute. reflexivity. }
  destruct (load_all_ok None stat dl 4 tree1 [txt "."] list2 proc0 loaded.2 loaded.1 files ltac:(discriminate) E) as (Hl & _ & G).
  split; [exact Hl|]. destruct (G [] proc0_ok) as (names' & Hp & _); [vm_compute; discriminate|].
  exists names'. exact Hp.
Defined.

Lemma load_all_total_witness :
  exists n p', load_all None stat dl 4 (Some tree1) [txt "."] (txt "kv.so:none.so") proc0 = Ok (Some (n, p')).
Proof.
  destruct (load_all_total None stat dl 4 tree1 [txt "."] [txt "kv.so"; txt "none.so"] [] proc0 files specs0 proc0_ok)
    as (n & p' & E & _).
  - cbn. lia.
  - repeat (constructor; [by apply (bool_decide_unpack _)|]). constructor.
  - exists n, p'. exact E.
Defined.

Lemma load_all_spec_witness :
  (exists n p', load_all None stat dl 4 (Some tree1) [txt "."] (txt "log.so:none.so") proc0 = Ok (Some (n, p')) /\
    p_locked p' = false /\ exists names', proc_ok None names' p') /\
  load_all None stat dl 4 None [txt "."] (txt "log.so:none.so") proc0 = Ok None.
Proof.
  assert (Forall (fun mo => mo <> [] /\ (comma ∉ mo) /\ colon ∉ mo) [txt "log.so"; txt "none.so"]) as Hl.
  { repeat (constructor; [by apply (bool_decide_unpack _)|]). constructor. }
  split.
  - destruct (load_all_spec None stat dl 4 (Some tree1) [txt "."] [txt "log.so"; txt "none.so"] [] proc0 files specs0)
      as (n & p' & E & _ & Hk & _ & names' & Hp & _); [discriminate|intros s [= <-]; apply proc0_ok|cbn; lia|done|].
    exists n, p'. split; [exact E|]. split; [exact Hk|]. exists names'. exact Hp.
  - apply (load_all_spec None stat dl 4 None [txt "."] [txt "log.so"; txt "none.so"] [] proc0 files specs0);
      [discriminate|discriminate|cbn; lia|done].
Defined.

Lemma autostart_singleton_stops_witness :
  autostart (set_defaults 4 (new_Module 3 7 (MkSpec 3 16 0 []))) = Fault AssertFailed.
Proof. apply autostart_singleton_stops; by vm_compute. Defined.

Lemma str2vec_roundtrip_witness : str2vec (txt "a:b,max,2") colon = Ok [txt "a"; txt "b,max,2"].
Proof.
  apply (str2vec_roundtrip colon [txt "a"; txt "b,max,2"]); [|done].
  repeat (constructor; [by apply (bool_decide_unpack _)|]). constructor.
Defined.

Definition argv : list text := [txt "-F"; txt "c"; txt "-o"; txt "port=65536"; txt "-o"; txt "modules=kv.so"].
Definition conf (f : text) : option (list text) := if bool_decide (f = txt "c") then Some [txt "hostname=*"] else None.
Definition parsed : Z + options :=
  ok_or (inl 0) (process_options nametable default_tbl None conf argv (MkOptions ∅ [])).
Definition opts : options := match parsed with inr o => o | inl _ => MkOptions ∅ [] end.

Lemma opts_ok : process_options nametable default_tbl None conf argv (MkOptions ∅ []) = Ok (inr opts).
Proof.
  rewrite (ok_or_default (inl 0) (process_options nametable default_tbl None conf argv (MkOptions ∅ [])))
    by (vm_compute; reflexivity).
  change (Ok parsed = Ok (inr opts)). unfold opts. destruct parsed eqn:E; [|done].
  exfalso. assert (match parsed with inr _ => true | inl _ => false end = true) as H by (vm_compute; reflexivity).
  by rewrite E in H.
Qed.

(** Port 65536 passes the assertion and becomes port 0. *)
Example port_wraps :
  main (MkEnv 0 0 1 0) opts =
  (start_up [] 1 0 65536 (txt "MOLA") (txt "*") (txt "localhost:2346=") (txt ".") (txt "kv.so") false, Ok tt) /\
  ELocalNode (txt "*") 0 ∈ (main (MkEnv 0 0 1 0) opts).1.
Proof. split; [by vm_compute|]. apply (bool_decide_unpack _). by vm_compute. Qed.

Lemma main_order_witness : exists t, main (MkEnv 0 0 1 0) opts = (t, Ok tt).
Proof.
  destruct (main_order None conf argv opts (MkEnv 0 0 1 0) opts_ok) as (t & r & E & _).
  exists t. rewrite E. f_equal. apply (f_equal snd) in E. cbn [snd] in E. rewrite <- E. vm_compute. reflexivity.
Defined.

Lemma thread_has_ring_witness : exists t, loader_threads 4 1 8 false = Ok t /\ rings t = 6.
Proof.
  destruct (thread_has_ring 4 1 8 false) as (t & E & Hr & _); [lia|lia|lia|cbn; lia|]. exists t. split; [exact E|].
  rewrite Hr. injection E as <-. reflexivity.
Defined.

Lemma so_name_accepts_witness : so_name (txt "ab") = true.
Proof.
  apply (so_name_accepts (txt "ab")); [cbn; lia|]. right. by exists "a"%char, "b"%char.
Defined.

Lemma load_error_names_witness :
  load_error (txt "kv.so: undefined symbol: Hash__vtable_wrapper") =
  txt "Cannot load the module file, 'undefined symbol: Hash__vtable'" ++ newline :: NO_INIT_ERR.
Proof. apply (load_error_names (txt "kv.so: ") (txt "Hash__vtable")). reflexivity. Defined.
End LoaderExamples.
