(* ===== verification/Future.v ===== *)
(** * Futures: answers that are sent later

    include/mola/c/mola_future.h, with the reference counts of include/mola/c/mola_refcnt.h.  A callback that
    cannot answer yet makes a future; doing the future sends the answer, and
    releasing the last reference does it if nobody has.

    Arguments of the model are what ReplyMsg of the dispatcher answers and the function of the module
    that a future of type RETURN_CALLBACK calls; the latter does not use the future itself. *)
From stdpp Require Import base list numbers.
From S2P Require Import Prelude.

#[local] Open Scope Z_scope.
#[local] Arguments wrap : simpl never.

(** ** Types and status *)
Inductive future_type := NORMAL | RETURN_VALUE | RETURN_CALLBACK.
Inductive future_status := FUTURE_OK | FUTURE_DONE | FUTURE_ERROR.

#[global] Instance future_status_eq : EqDecision future_status.
Proof. solve_decision. Defined.
#[global] Instance future_type_eq : EqDecision future_type.
Proof. solve_decision. Defined.

(** mola_return_future: the counter, the base and what is to be returned, a message or a function *)
Record future := MkFuture {
  f_count : Z;
  f_type : future_type;
  f_status : future_status;
  f_state : Z;
  f_rv : Z
}.

(** One future, [None] when it was freed, and the replies that were attempted. *)
Record world := MkWorld { fut : option future; replies : list (Z * Z) }.

Section Future.
(** [reply state msg]: the result of ReplyMsg; [call f arg]: the function [f] *)
Context (reply : Z -> Z -> Z) (call : Z -> option Z -> Z).

Definition set_status (st : future_status) (f : future) : future :=
  MkFuture (f_count f) (f_type f) st (f_state f) (f_rv f).
Definition set_count (n : Z) (f : future) : future :=
  MkFuture n (f_type f) (f_status f) (f_state f) (f_rv f).

(** ** Operations *)
Definition mola_future_init (ty : future_type) (f : future) : future :=
  MkFuture 1 ty FUTURE_OK (f_state f) (f_rv f).

(** mola_return_future_callback; the result and the reply that was attempted *)
Definition mola_return_future_callback (f : future) (arg : option Z) : Z * list (Z * Z) :=
  if bool_decide (f_status f <> FUTURE_OK) then (-10, [])
  else
    match f_type f with
    | NORMAL => (-11, [])
    | RETURN_VALUE => (reply (f_state f) (f_rv f), [(f_state f, f_rv f)])
    | RETURN_CALLBACK => let rt := call (f_rv f) arg in (reply (f_state f) rt, [(f_state f, rt)])
    end.

Definition mola_future_do (f : future) (arg : option Z) : Z * future * list (Z * Z) :=
  if bool_decide (f_status f <> FUTURE_OK) then (-11, f, [])
  else
    let '(rc, sent) := mola_return_future_callback f arg in
    if rc =? 0 then (0, set_status FUTURE_DONE f, sent) else (rc, set_status FUTURE_ERROR f, sent).

Definition mola_future_release (f : future) : future * list (Z * Z) :=
  if bool_decide (f_status f = FUTURE_OK) then let '(_, f, sent) := mola_future_do f None in (f, sent) else (f, []).

Definition mola_return_future_create (ty : future_type) (state rv : Z) : outcome world :=
  _ ← mola_assert ((bool_decide (ty = RETURN_VALUE) || bool_decide (ty = RETURN_CALLBACK)) && negb (rv =? 0));
  Ok (MkWorld (Some (mola_future_init ty (MkFuture 0 ty FUTURE_OK state rv))) []).

(** What holders of a reference do. *)
Inductive op := Do (arg : option Z) | Get | Put.

Definition exec (o : op) (w : world) : outcome world :=
  f ← deref (fut w);
  match o with
  | Do arg => let '(_, f, sent) := mola_future_do f arg in Ok (MkWorld (Some f) (replies w ++ sent))
  | Get => _ ← mola_assert (0 <? f_count f); Ok (MkWorld (Some (set_count (u32 (f_count f + 1)) f)) (replies w))
  | Put =>
      _ ← mola_assert (0 <? f_count f);
      let f := set_count (u32 (f_count f - 1)) f in
      if f_count f =? 0 then
        let '(_, sent) := mola_future_release f in Ok (MkWorld None (replies w ++ sent))
      else Ok (MkWorld (Some f) (replies w))
  end.

Fixpoint run (ops : list op) (w : world) : outcome world :=
  match ops with [] => Ok w | o :: ops => w ← exec o w; run ops w end.

(** ** Who may do what: the references that are left of [k], None if an operation is made without one *)
Fixpoint balanced (k : nat) (ops : list op) : option nat :=
  match k, ops with
  | _, [] => Some k
  | O, _ :: _ => None
  | S _, Do _ :: ops => balanced k ops
  | S _, Get :: ops => balanced (S k) ops
  | S k', Put :: ops => balanced k' ops
  end.

(** The one reply a future makes. *)
Definition answer (ty : future_type) (state rv : Z) (sent : list (Z * Z)) : Prop :=
  match ty with
  | RETURN_VALUE => sent = [(state, rv)]
  | RETURN_CALLBACK => exists arg, sent = [(state, call rv arg)]
  | NORMAL => sent = []
  end.

(** While it lives the counter counts the references, and the reply was attempted if and only if the status says so. *)
Definition future_ok (ty : future_type) (state rv : Z) (k : nat) (w : world) : Prop :=
  match fut w with
  | None => k = O /\ answer ty state rv (replies w)
  | Some f => (0 < k)%nat /\ f_count f = Z.of_nat k /\ f_type f = ty /\ f_state f = state /\ f_rv f = rv /\
      if bool_decide (f_status f = FUTURE_OK) then replies w = [] else answer ty state rv (replies w)
  end.

Lemma do_ok f arg : f_status f = FUTURE_OK ->
  exists rc st sent, mola_future_do f arg = (rc, set_status st f, sent) /\ st <> FUTURE_OK /\
    answer (f_type f) (f_state f) (f_rv f) sent /\ (rc = 0 <-> st = FUTURE_DONE).
Proof.
  intros Hs. unfold mola_future_do, mola_return_future_callback. rewrite Hs.
  rewrite !bool_decide_eq_false_2 by tauto.
  destruct (f_type f); cbn; [|destruct (Z.eqb_spec (reply (f_state f) (f_rv f)) 0)
    |destruct (Z.eqb_spec (reply (f_state f) (call (f_rv f) arg)) 0)];
    (eexists _, _, _; split; [reflexivity|]; split; [done|]; split; [by eauto|]); split; intros; try done.
Qed.

Lemma do_again f arg : f_status f <> FUTURE_OK -> mola_future_do f arg = (-11, f, []).
Proof. intros Hs. unfold mola_future_do. by rewrite bool_decide_eq_true_2. Qed.

Lemma future_exec_ok ty state rv k k' o w : future_ok ty state rv (S k) w -> Z.of_nat (S k) < 2 ^ 32 - 1 ->
  k' = match o with Do _ => S k | Get => S (S k) | Put => k end ->
  exists w', exec o w = Ok w' /\ future_ok ty state rv k' w'.
Proof.
  intros Hok Hb ->. unfold future_ok in Hok. destruct w as [[f|] sent0]; cbn in Hok; [|by destruct Hok].
  destruct Hok as (_ & Hc & Ht & Hst & Hrv & Hs). unfold exec. cbn. destruct o as [arg| |].
  - case_bool_decide as E.
    + destruct (do_ok f arg E) as (rc & st & sent & -> & Hne & Ha & _). eexists. split; [reflexivity|].
      unfold future_ok. cbn. rewrite bool_decide_eq_false_2 by done. rewrite Hs, <- Ht, <- Hst, <- Hrv. cbn. split_and!; (done || lia).
    + rewrite do_again by done. eexists. split; [reflexivity|]. unfold future_ok. cbn.
      rewrite bool_decide_eq_false_2 by done. rewrite app_nil_r. split_and!; (done || lia).
  - rewrite Hc, (proj2 (Z.ltb_lt 0 _)) by lia. cbn. eexists. split; [reflexivity|]. unfold future_ok. cbn.
    rewrite wrap_small by width_lia. split_and!; try done; lia.
  - rewrite Hc, (proj2 (Z.ltb_lt 0 _)) by lia. cbn. rewrite wrap_small by width_lia.
    destruct (Z.eqb_spec (Z.of_nat (S k) - 1) 0) as [E|E].
    + assert (k = 0%nat) as -> by lia. unfold mola_future_release. cbn. case_bool_decide as Es.
      * destruct (do_ok (set_count (Z.of_nat 1 - 1) f) None Es) as (rc & st & sent & -> & _ & Ha & _). cbn in Ha.
        eexists. split; [reflexivity|]. unfold future_ok. cbn. rewrite Hs. cbn. by rewrite <- Ht, <- Hst, <- Hrv.
      * eexists. split; [reflexivity|]. unfold future_ok. cbn. by rewrite app_nil_r.
    + eexists. split; [reflexivity|]. unfold future_ok. cbn. split_and!; try done; lia.
Qed.

(** The answer of a future is sent exactly once.  Whatever its holders do in any order, doing it, taking and
    dropping references, as long as each acts with a reference: no step faults, while a
    reference is left the counter is their number and at most one reply was attempted, and once the
    last is dropped the future is freed and exactly one reply was attempted, with the state and the
    value of its creation, whether somebody did the future or not. *)
Theorem future_replies_once (ty : future_type) (state rv : Z) (ops : list op) (w0 : world) (k : nat) :
  mola_return_future_create ty state rv = Ok w0 -> balanced 1 ops = Some k -> Z.of_nat (length ops) < 2 ^ 32 - 2 ->
  exists w, run ops w0 = Ok w /\ future_ok ty state rv k w.
Proof.
  intros Hc Hb Hl. assert (H0 : future_ok ty state rv 1 w0).
  { unfold mola_return_future_create in Hc. inv_ok. unfold future_ok. cbn. split_and!; (done || lia). }
  clear Hc. assert (Hn : Z.of_nat 1 + Z.of_nat (length ops) < 2 ^ 32 - 1) by lia. clear Hl.
  generalize dependent w0. generalize dependent 1%nat. induction ops as [|o ops IH]; intros n Hb Hn w0 H0.
  { cbn in *. exists w0. split; [done|]. destruct n; by simplify_eq. }
  destruct n as [|n]; [done|]. cbn [length] in Hn.
  destruct (future_exec_ok ty state rv n (match o with Do _ => S n | Get => S (S n) | Put => n end) o w0 H0) as (w1 & E & H1); [lia|reflexivity|].
  cbn [run]. rewrite E. cbn [mbind outcome_bind]. apply (IH (match o with Do _ => S n | Get => S (S n) | Put => n end)).
  - by destruct o.
  - destruct o; lia.
  - done.
Qed.
End Future.

(** ** Witness: done by one holder, asked for again by another, dropped by both *)
Module FutureExamples.
Definition reply (_ _ : Z) : Z := 0.
Definition call (f : Z) (_ : option Z) : Z := f + 1.
Definition w0 : world := MkWorld (Some (MkFuture 1 RETURN_CALLBACK FUTURE_OK 7 40)) [].
Definition ops : list op := [Get; Do (Some 3); Put; Do None; Put].

Lemma future_replies_once_witness :
  exists w, run reply call ops w0 = Ok w /\ fut w = None /\ replies w = [(7, 41)].
Proof.
  destruct (future_replies_once reply call RETURN_CALLBACK 7 40 ops w0 0) as (w & E & H); [reflexivity|reflexivity|cbn; lia|].
  exists w. split; [exact E|]. injection E as <-. split; reflexivity.
Defined.
End FutureExamples.
