(* ===== verification/Samples.v ===== *)
(** * The sample modules

    modules/*.c.  GatherTest scatters numbers to ScatterTest, which doubles them, and sums what comes back; Module_A, Module_B and
    Module_C pass a number round in a circle.  A message is the number it carries; how messages travel is in
    Dispatcher.v and Actor.v. *)
From stdpp Require Import base list numbers.
From S2P Require Import Prelude.

#[local] Open Scope Z_scope.

(** ** Scatter and gather *)
Definition SCATTER_SIZE : nat := 16.

(** The loop of scatter_tasks_intf fills an array on the stack. *)
Fixpoint fill (n i : nat) (res : list Z) : outcome (list Z) :=
  match n with
  | O => Ok res
  | S n => if decide (i < length res)%nat then fill n (S i) (<[i := Z.of_nat i]> res) else Fault BadDeref
  end.

(** The messages that are scattered; the size is passed as a size_t. *)
Definition scatter_tasks_intf (a : Z) (garbage : list Z) : outcome (list Z) :=
  res ← fill (Z.to_nat a) 0 garbage;
  if u64 a <=? Z.of_nat (length res) then Ok (take (Z.to_nat a) res) else Fault BadDeref.

Definition scatter_intf (a : Z) : Z := a * 2.

Definition gather_all (mg : list Z) : Z := foldl Z.add 0 mg.

Lemma fill_ok n i res : (i + n <= length res)%nat ->
  exists res', fill n i res = Ok res' /\ length res' = length res /\
    (forall j, (j < i)%nat -> res' !! j = res !! j) /\
    (forall j, (i <= j < i + n)%nat -> res' !! j = Some (Z.of_nat j)).
Proof.
  revert i res; induction n as [|n IH]; intros i res Hl; cbn [fill].
  { exists res. split_and!; [done..|]. intros; lia. }
  rewrite decide_True by lia.
  destruct (IH (S i) (<[i := Z.of_nat i]> res)) as (res' & E & Hlen & Hlo & Hhi); [rewrite length_insert; lia|].
  rewrite length_insert in Hlen. exists res'. split_and!; [done..| |].
  - intros j Hj. rewrite Hlo by lia. by rewrite list_lookup_insert_ne by lia.
  - intros j Hj. destruct (decide (j = i)) as [->|Hne]; [|apply Hhi; lia].
    rewrite Hlo by lia. by rewrite list_lookup_insert_eq by lia.
Qed.

Lemma fill_over n i res : (i <= length res < i + n)%nat -> fill n i res = Fault BadDeref.
Proof.
  revert i res; induction n as [|n IH]; intros i res Hl; cbn [fill]; [lia|].
  destruct (decide (i < length res)%nat); [|done]. apply IH. rewrite length_insert. lia.
Qed.

Lemma foldl_add_perm l l' a : l ≡ₚ l' -> foldl Z.add a l = foldl Z.add a l'.
Proof.
  intros HP. revert a; induction HP; intros a; cbn; auto.
  - f_equal. lia.
  - congruence.
Qed.

(** The whole exchange: the sum of the doubled numbers. *)
Lemma sum_doubled n : foldl Z.add 0 (scatter_intf <$> (Z.of_nat <$> seq 0 n)) = Z.of_nat n * (Z.of_nat n - 1).
Proof.
  induction n as [|n IH]; [done|]. rewrite seq_S, !fmap_app, foldl_app, IH. cbn. unfold scatter_intf. lia.
Qed.

(** GatherTest answers [n * (n - 1)] to a request of [n] up to sixteen, in whatever order the
    replies come back; a larger or a negative request writes or reads behind its array. *)
Theorem gather_answer (n : Z) (garbage : list Z) (replies : list Z) :
  length garbage = SCATTER_SIZE -> - 2 ^ 31 <= n < 2 ^ 31 ->
  match scatter_tasks_intf n garbage with
  | Ok tasks => 0 <= n <= 16 /\ (replies ≡ₚ scatter_intf <$> tasks -> gather_all replies = n * (n - 1))
  | Fault f => f = BadDeref /\ (n < 0 \/ 16 < n)
  end.
Proof.
  intros Hg Hint. unfold SCATTER_SIZE in Hg. unfold scatter_tasks_intf.
  destruct (decide (0 <= n <= 16)) as [Hn|Hn].
  - destruct (fill_ok (Z.to_nat n) 0 garbage) as (res & -> & Hl & _ & Hv); [lia|]. cbn [mbind outcome_bind].
    rewrite Hl, Hg, wrap_small by width_lia. rewrite (proj2 (Z.leb_le _ _)) by lia. split; [done|]. intros HP.
    assert (take (Z.to_nat n) res = Z.of_nat <$> seq 0 (Z.to_nat n)) as E.
    { apply list_eq. intros i. destruct (decide (i < Z.to_nat n)%nat).
      - rewrite lookup_take_lt, Hv by lia. rewrite list_lookup_fmap, lookup_seq_lt by lia. done.
      - rewrite lookup_take_ge by lia. symmetry. apply lookup_ge_None_2. rewrite length_fmap, length_seq. lia. }
    unfold gather_all. rewrite (foldl_add_perm _ _ 0 HP), E, sum_doubled. rewrite Z2Nat.id by lia. done.
  - destruct (Z_lt_le_dec n 0) as [Hneg|Hpos].
    + replace (Z.to_nat n) with O by lia. cbn [fill mbind outcome_bind]. rewrite Hg.
      assert (u64 n = n + 2 ^ 64) as -> by wrap_lia.
      rewrite (proj2 (Z.leb_gt _ _)) by lia. auto.
    + rewrite fill_over by (rewrite Hg; lia). cbn. auto with lia.
Qed.

(** ** The circle of Module_A, Module_B and Module_C *)

(** What Module_A sends; above a limit it frees the message and then reads the status to exit with from it. *)
Definition module_A_A2B (n : Z) : outcome Z := if 100000 <? n then Fault BadDeref else Ok n.
Definition module_A_init : outcome Z := module_A_A2B 0.
Definition module_A_B2A (a : Z) : outcome Z := module_A_A2B (a + 1).

(** The private data of Module_C *)
Definition module_C_init : Z := 43981.
Definition module_C_intf (data a : Z) : Z := data + a.

(** Module_B asks Module_C and sends the answer on. *)
Definition module_B_intf (data a : Z) : Z := module_C_intf data (a + 1).

(** [k] rounds *)
Fixpoint rounds (k : nat) (n : Z) : outcome Z :=
  match k with
  | O => Ok n
  | S k => n ← module_A_B2A (module_B_intf module_C_init n); rounds k n
  end.

(** The number grows by 43983 in a round: the third round ends in the read of the freed message. *)
Theorem circle_ends :
  module_A_init = Ok 0 /\ rounds 2 0 = Ok 87966 /\ rounds 3 0 = Fault BadDeref.
Proof. done. Qed.

Lemma gather_answer_witness : gather_all [4; 0; 2] = 3 * (3 - 1).
Proof.
  apply (gather_answer 3 (replicate 16 0) [4; 0; 2] eq_refl); [lia|]. cbn.
  by apply (Permutation_cons_append [0; 2] 4).
Defined.
