(* ===== verification/NetApi.v ===== *)
(** * Sockets for actors

    src/network.cpp and include/mola/network.hpp: the clients and servers that actors make, and the packages their
    sockets deliver.  How bytes become packages is in Stream.v and Gateway.v; here is who owns the memory
    of a package: the reader while it reads the body, the task that delivers it, the message in the
    mailbox of the instance, which frees it when it is released. *)
From stdpp Require Import base list numbers.
From S2P Require Import Prelude ActorId WorkSteal.

#[local] Open Scope Z_scope.
#[local] Arguments wrap : simpl never.

(** ** State *)

(** An int from a size_t *)
Definition s32 (z : Z) : Z := let u := u32 z in if u <? 2 ^ 31 then u else u - 2 ^ 32.

(** raw_package_t; [pk_inst] is the instance whose mailbox it is in. *)
Record package := MkPackage { pk_size : Z; pk_buffer : option Z; pk_target : ActorID; pk_inst : Z }.

(** BuiltinClient, without its stream *)
Record client := MkClient { m_target : ActorID; m_disable : bool; m_instances : list Z }.

(** [live]: the bodies that malloc gave; [reading]: the body the reader fills, with its size. *)
Record net := MkNet {
  conn : client;
  live : list Z;
  next_buf : Z;
  reading : option (Z * Z);
  tasks : list (Z * Z);
  inbox : list package;
  seed : Z
}.

(** ** Operations *)
Definition free (b : Z) (l : list Z) : outcome (list Z) :=
  if bool_decide (b ∈ l) then Ok (filter (fun x => x <> b) l) else Fault BadDeref.

(** BuiltinReceiver::get_buffer for a body of [len] bytes *)
Definition start_body (len : Z) (n : net) : outcome net :=
  _ ← mola_assert (0 <? len);
  _ ← mola_assert (bool_decide (reading n = None));
  Ok (MkNet (conn n) (next_buf n :: live n) (next_buf n + 1) (Some (len, next_buf n)) (tasks n) (inbox n) (seed n)).

(** BuiltinReceiver::consume of a body *)
Definition consume_body (n : net) : outcome net :=
  '(len, b) ← deref (reading n);
  if m_disable (conn n) then
    l ← free b (live n);
    Ok (MkNet (conn n) l (next_buf n) None (tasks n) (inbox n) (seed n))
  else Ok (MkNet (conn n) (live n) (next_buf n) None (tasks n ++ [(len, b)]) (inbox n) (seed n)).

(** BuiltinClient::get_instance *)
Definition get_instance (c : client) (seed : Z) : outcome (Z * Z) :=
  let r := random seed in
  a ← deref (m_instances c !! Z.to_nat (r mod Z.of_nat (length (m_instances c))));
  Ok (a, r).

(** BuiltinReceiver::deliver_message, from the [i]-th task *)
Definition deliver_task (i : nat) (n : net) : outcome net :=
  '(len, b) ← deref (tasks n !! i);
  '(a, r) ← get_instance (conn n) (seed n);
  Ok (MkNet (conn n) (live n) (next_buf n) (reading n) (delete i (tasks n))
        (inbox n ++ [MkPackage (s32 len) (Some b) (m_target (conn n)) a]) r).

(** BuiltinClient::start of an accepted connection: an empty package tells an instance. *)
Definition start_passive (n : net) : outcome net :=
  _ ← mola_assert (negb (bool_decide (m_instances (conn n) = [])));
  '(a, r) ← get_instance (conn n) (seed n);
  Ok (MkNet (conn n) (live n) (next_buf n) (reading n) (tasks n)
        (inbox n ++ [MkPackage 0 None (m_target (conn n)) a]) r).

(** raw_package_release, when the message of the [i]-th package is freed *)
Definition raw_package_release (i : nat) (n : net) : outcome net :=
  p ← deref (inbox n !! i);
  l ← (match pk_buffer p with
       | Some b => if 0 <? pk_size p then free b (live n) else Ok (live n)
       | None => Ok (live n)
       end);
  Ok (MkNet (conn n) l (next_buf n) (reading n) (tasks n) (delete i (inbox n)) (seed n)).

Definition set_disable (b : bool) (n : net) : net :=
  MkNet (MkClient (m_target (conn n)) b (m_instances (conn n))) (live n) (next_buf n) (reading n) (tasks n)
    (inbox n) (seed n).

(** BindSocketToInst: packages go to the interface [intf] of the actor [me] from now on. *)
Definition BindSocketToInst (me : ActorID) (intf : Z) (n : net) : net :=
  MkNet (MkClient (set_intf_id intf me) (m_disable (conn n)) (m_instances (conn n))) (live n) (next_buf n)
    (reading n) (tasks n) (inbox n) (seed n).

(** The targets of ConnectToServer and StartServer: the calling instance, or any of its module *)
Definition connect_target (me : ActorID) (intf : Z) : ActorID := set_intf_id intf me.
Definition server_target (me : ActorID) (intf : Z) : ActorID := set_inst_id ANY (set_intf_id intf me).

Inductive op :=
| OStart (len : Z) | OConsume | ODeliver (i : nat) | OPassive | ORelease (i : nat)
| OEnable | ODisable | OBind (me : ActorID) (intf : Z).

Definition exec (o : op) (n : net) : outcome net :=
  match o with
  | OStart len => start_body len n
  | OConsume => consume_body n
  | ODeliver i => deliver_task i n
  | OPassive => start_passive n
  | ORelease i => raw_package_release i n
  | OEnable => Ok (set_disable false n)
  | ODisable => Ok (set_disable true n)
  | OBind me intf => Ok (BindSocketToInst me intf n)
  end.

Fixpoint run (os : list op) (n : net) : outcome net :=
  match os with [] => Ok n | o :: os => n ← exec o n; run os n end.

(** ** Who owns a body *)
Definition pk_bufs (p : package) : list Z := match pk_buffer p with Some b => [b] | None => [] end.
Definition owned (n : net) : list Z :=
  (match reading n with Some (_, b) => [b] | None => [] end) ++ (snd <$> tasks n) ++ concat (pk_bufs <$> inbox n).

(** An operation the code makes: what it needs is there, and a body is smaller than 2 GB. *)
Definition enabled (o : op) (n : net) : Prop :=
  match o with
  | OStart len => 0 < len < 2 ^ 31 /\ reading n = None
  | OConsume => reading n <> None
  | ODeliver i => (i < length (tasks n))%nat
  | ORelease i => (i < length (inbox n))%nat
  | _ => True
  end.

Record net_ok (n : net) : Prop := {
  o_owned : live n ≡ₚ owned n;
  o_nodup : NoDup (live n);
  o_fresh : Forall (fun b => b < next_buf n) (live n);
  o_sizes : Forall (fun t => 0 < t.1 < 2 ^ 31) (tasks n);
  o_reading : forall len b, reading n = Some (len, b) -> 0 < len < 2 ^ 31;
  o_inbox : Forall (fun p => forall b, pk_buffer p = Some b -> 0 < pk_size p) (inbox n);
  o_insts : m_instances (conn n) <> [];
  o_members : Forall (fun p => pk_inst p ∈ m_instances (conn n)) (inbox n)
}.

Lemma s32_small z : 0 <= z < 2 ^ 31 -> s32 z = z.
Proof. intros Hz. unfold s32. rewrite wrap_small by width_lia. by rewrite (proj2 (Z.ltb_lt _ _)) by lia. Qed.

Lemma get_instance_ok c sd : m_instances c <> [] ->
  exists a r, get_instance c sd = Ok (a, r) /\ a ∈ m_instances c.
Proof.
  intros Hne. unfold get_instance.
  assert (0 < Z.of_nat (length (m_instances c))) by (destruct (m_instances c); [done|cbn; lia]).
  pose proof (Z.mod_pos_bound (random sd) (Z.of_nat (length (m_instances c))) ltac:(lia)) as Hm.
  destruct (lookup_lt_is_Some_2 (m_instances c) (Z.to_nat (random sd mod Z.of_nat (length (m_instances c))))) as [a Ha]; [lia|].
  rewrite Ha. cbn. exists a, (random sd). split; [done|]. by eapply list_elem_of_lookup_2.
Qed.

Lemma free_ok b l r : NoDup l -> l ≡ₚ b :: r ->
  exists l', free b l = Ok l' /\ l' ≡ₚ r /\ NoDup l' /\ forall P, Forall P l -> Forall P l'.
Proof.
  intros Hn HP. unfold free. rewrite bool_decide_eq_true_2 by (rewrite HP; constructor).
  eexists. split; [done|]. assert (NoDup (b :: r)) as Hbr by by rewrite <- HP.
  apply list.NoDup_cons in Hbr as [Hb Hr].
  assert (filter (fun x => x <> b) r = r) as Er.
  { clear HP Hr. induction r as [|x r IH]; [done|]. apply not_elem_of_cons in Hb as [Hx Hb].
    rewrite filter_cons_True by auto. by rewrite IH. }
  split_and!.
  - rewrite HP. rewrite filter_cons_False by tauto. by rewrite Er.
  - by apply list.NoDup_filter.
  - intros P HF. apply list.Forall_forall. intros x [_ Hx]%list_elem_of_filter.
    by apply (proj1 (list.Forall_forall _ _) HF).
Qed.

Lemma concat_delete_perm {A} (ls : list (list A)) i l : ls !! i = Some l -> concat ls ≡ₚ l ++ concat (delete i ls).
Proof.
  revert i; induction ls as [|x ls IH]; intros [|i] E; simplify_eq/=; [done|].
  rewrite (IH i E). solve_Permutation.
Qed.

Lemma fmap_delete {A B} (f : A -> B) (l : list A) i : f <$> delete i l = delete i (f <$> l).
Proof. revert i; induction l as [|x l IH]; intros [|i]; cbn; [done..|]. f_equal. apply IH. Qed.

Lemma owned_deliver l i t : l !! i = Some t -> snd <$> l ≡ₚ (t : Z * Z).2 :: (snd <$> delete i l).
Proof. intros E. by rewrite (delete_Permutation _ _ _ E) at 1. Qed.

(** Every operation keeps each buffer with one owner. *)
Lemma start_body_ok len n : net_ok n -> enabled (OStart len) n -> exists n', start_body len n = Ok n' /\ net_ok n'.
Proof.
  intros [Ho Hn Hf Hs Hr Hi Hm Hmem] He. cbn [enabled] in He.
  destruct He as [Hl Hnone]. unfold start_body. rewrite (proj2 (Z.ltb_lt _ _)), bool_decide_eq_true_2 by (done || lia).
  eexists. split; [reflexivity|]. unfold owned in Ho. rewrite Hnone in Ho.
  split; cbn; try assumption.
  + unfold owned. cbn. by rewrite Ho.
  + apply list.NoDup_cons. split; [|done]. intros Hin. pose proof (proj1 (list.Forall_forall _ _) Hf _ Hin). cbn in *. lia.
  + constructor; [lia|]. eapply list.Forall_impl; [done|]. cbn. lia.
  + by intros ? ? [= <- <-].
Qed.

Lemma consume_body_ok n : net_ok n -> enabled OConsume n -> exists n', consume_body n = Ok n' /\ net_ok n'.
Proof.
  intros [Ho Hn Hf Hs Hr Hi Hm Hmem] He. cbn [enabled] in He.
  destruct (reading n) as [[len b]|] eqn:Er; [|done]. unfold consume_body, owned in *. rewrite Er in *. cbn [deref mbind outcome_bind app] in *.
  specialize (Hr _ _ eq_refl). destruct (m_disable (conn n)).
  + destruct (free_ok b (live n) _ Hn Ho) as (l' & -> & HP & Hn' & HF). cbn. eexists. split; [reflexivity|].
    split; cbn; try assumption; try done. by apply HF.
  + eexists. split; [reflexivity|]. split; cbn; try assumption.
    * rewrite Ho. unfold owned. cbn. rewrite fmap_app. cbn. solve_Permutation.
    * apply Forall_app. split; [done|]. constructor; [done|constructor].
    * done.
Qed.

Lemma deliver_task_ok i n : net_ok n -> enabled (ODeliver i) n -> exists n', deliver_task i n = Ok n' /\ net_ok n'.
Proof.
  intros [Ho Hn Hf Hs Hr Hi Hm Hmem] He. cbn [enabled] in He.
  destruct (lookup_lt_is_Some_2 (tasks n) i He) as [[len b] Ht]. unfold deliver_task. rewrite Ht. cbn [deref mbind outcome_bind].
  destruct (get_instance_ok (conn n) (seed n) Hm) as (a & r & -> & Ha). cbn. eexists. split; [reflexivity|].
  pose proof (proj1 (list.Forall_forall _ _) Hs _ (list_elem_of_lookup_2 _ _ _ Ht)) as Hlen. cbn in Hlen.
  split; cbn; try assumption.
  + rewrite Ho. unfold owned. cbn. rewrite (owned_deliver _ _ _ Ht), fmap_app, concat_app. cbn. solve_Permutation.
  + rewrite (delete_Permutation _ _ _ Ht) in Hs. by apply Forall_cons_iff in Hs as [_ ?].
  + apply Forall_app. split; [done|]. constructor; [|constructor]. cbn. intros ? [= <-]. rewrite s32_small; lia.
  + apply Forall_app. split; [done|]. constructor; [done|constructor].
Qed.

Lemma start_passive_ok n : net_ok n -> exists n', start_passive n = Ok n' /\ net_ok n'.
Proof.
  intros [Ho Hn Hf Hs Hr Hi Hm Hmem].
  unfold start_passive. rewrite bool_decide_eq_false_2 by done. cbn [negb mola_assert mbind outcome_bind].
  destruct (get_instance_ok (conn n) (seed n) Hm) as (a & r & -> & Ha). cbn. eexists. split; [reflexivity|].
  split; cbn; try assumption.
  + rewrite Ho. unfold owned. cbn. by rewrite fmap_app, concat_app, !app_nil_r.
  + apply Forall_app. split; [done|]. constructor; [done|constructor].
  + apply Forall_app. split; [done|]. constructor; [done|constructor].
Qed.

Lemma raw_package_release_ok i n : net_ok n -> enabled (ORelease i) n -> exists n', raw_package_release i n = Ok n' /\ net_ok n'.
Proof.
  intros [Ho Hn Hf Hs Hr Hi Hm Hmem] He. cbn [enabled] in He.
  destruct (lookup_lt_is_Some_2 (inbox n) i He) as [p Hp]. unfold raw_package_release. rewrite Hp. cbn [deref mbind outcome_bind].
  assert (Hcat : concat (pk_bufs <$> inbox n) ≡ₚ pk_bufs p ++ concat (pk_bufs <$> delete i (inbox n))).
  { rewrite fmap_delete. apply concat_delete_perm. by rewrite list_lookup_fmap, Hp. }
  pose proof (proj1 (list.Forall_forall _ _) Hi _ (list_elem_of_lookup_2 _ _ _ Hp)) as Hsz.
  assert (Hi' : Forall (fun p => forall b, pk_buffer p = Some b -> 0 < pk_size p) (delete i (inbox n)) /\
    Forall (fun p => pk_inst p ∈ m_instances (conn n)) (delete i (inbox n))).
  { rewrite (delete_Permutation _ _ _ Hp) in Hi, Hmem.
    apply Forall_cons_iff in Hi as [_ ?], Hmem as [_ ?]. done. }
  destruct Hi' as [Hi1 Hi2]. unfold owned in Ho. rewrite Hcat in Ho. unfold pk_bufs in Ho at 1.
  destruct (pk_buffer p) as [b|] eqn:Eb; cbn [mbind outcome_bind].
  + rewrite (proj2 (Z.ltb_lt _ _)) by by eapply Hsz.
    destruct (free_ok b (live n) (owned (MkNet (conn n) [] (next_buf n) (reading n) (tasks n) (delete i (inbox n)) (seed n))) Hn)
      as (l' & -> & HP & Hn' & HF).
    { rewrite Ho. unfold owned. cbn. solve_Permutation. }
    cbn. eexists. split; [reflexivity|]. split; cbn; try assumption; auto.
  + eexists. split; [reflexivity|]. split; cbn; try assumption.
Qed.

Lemma net_exec_ok o n : net_ok n -> enabled o n -> exists n', exec o n = Ok n' /\ net_ok n'.
Proof.
  intros Hok He. destruct o; cbn [exec];
    eauto using start_body_ok, consume_body_ok, deliver_task_ok, start_passive_ok, raw_package_release_ok;
    destruct Hok; eexists; (split; [reflexivity|]); by split.
Qed.

(** Each operation of the list can be made when its turn comes. *)
Fixpoint enabled_all (os : list op) (n : net) : Prop :=
  match os with
  | [] => True
  | o :: os => enabled o n /\ forall n', exec o n = Ok n' -> enabled_all os n'
  end.

#[global] Instance enabled_dec o n : Decision (enabled o n).
Proof. destruct o; cbn; apply _. Defined.

#[global] Instance enabled_all_dec os n : Decision (enabled_all os n).
Proof.
  revert n; induction os as [|o os IH]; intros n; cbn; [apply _|].
  destruct (decide (enabled o n)) as [He|He]; [|by right; intros [? _]].
  destruct (exec o n) as [n1|f] eqn:E; [|by left].
  destruct (IH n1) as [H|H]; [left|right].
  - split; [done|]. by intros n' [= <-].
  - intros [_ Hn]. by apply H, Hn.
Defined.

Definition idle (c : client) (sd : Z) : net := MkNet c [] 1 None [] [] sd.

(** C39: The body of a package is freed exactly once, whoever gets it: for packages below 2 GB no sequence of reads, deliveries, releases, enabling,
    disabling and binding frees a body twice or delivers to something that is not an instance of the
    client, the bodies that are allocated are exactly those in the reader, in the waiting tasks and in the mailboxes, and when these
    are empty no memory is left. *)
Theorem packages_freed_once (c : client) (sd : Z) (os : list op) :
  m_instances c <> [] -> enabled_all os (idle c sd) ->
  exists n, run os (idle c sd) = Ok n /\ live n ≡ₚ owned n /\ NoDup (live n) /\
    Forall (fun p => pk_inst p ∈ m_instances (conn n)) (inbox n) /\
    (reading n = None -> tasks n = [] -> inbox n = [] -> live n = []).
Proof.
  intros Hc He. assert (H0 : net_ok (idle c sd)) by (by split; cbn; try constructor).
  generalize dependent (idle c sd). induction os as [|o os IH]; intros n He H0; cbn [run].
  - exists n. split; [done|]. destruct H0 as [H1 H2 H3 H4 H5 H6 H7 H8]. split_and!; try done.
    intros E1 E2 E3. unfold owned in H1. rewrite E1, E2, E3 in H1. by apply Permutation_nil_r in H1.
  - destruct He as [He Hn]. destruct (net_exec_ok o n H0 He) as (n' & E & H'). rewrite E. cbn. by apply IH; [apply Hn|].
Qed.

(** A body of 2 GB or more is not freed: its size is negative as an int. *)
Example large_package_leaks :
  let c := MkClient (MkActorID 1 2 3 4) false [9] in
  match run [OStart (2 ^ 31); OConsume; ODeliver 0; ORelease 0] (idle c 1) with
  | Ok n => live n = [1] /\ inbox n = []
  | Fault _ => False
  end.
Proof. by vm_compute. Qed.

Lemma packages_freed_once_witness :
  exists n, run [OPassive; OStart 5; OConsume; ODeliver 0; ORelease 1; ODisable; OStart 3; OConsume; ORelease 0]
    (idle (MkClient (MkActorID 1 2 3 4) false [8; 9]) 7) = Ok n /\ live n = [].
Proof.
  destruct (packages_freed_once (MkClient (MkActorID 1 2 3 4) false [8; 9]) 7
    [OPassive; OStart 5; OConsume; ODeliver 0; ORelease 1; ODisable; OStart 3; OConsume; ORelease 0])
    as (n & E & _ & _ & _ & Hl).
  - discriminate.
  - apply (bool_decide_unpack _). vm_compute. exact I.
  - exists n. split; [exact E|]. apply Hl; vm_compute in E; injection E as <-; reflexivity.
Defined.
